(* ===== verification/_CoqProject ===== *)
-Q . S2P
Prelude.v
Rand.v
Machine.v
Seg.v
Proc.v
Io.v
Sched.v
CString.v
Kalloc.v
Mp.v
Boot.v
Vm.v
Sleeplock.v
Bio.v
Log.v
Grep.v
User.v
Coreutils.v
Tests.v
Shell.v
Umalloc.v
Threads.v
ThreadLib.v
Ring.v
Kbd.v
Console.v
Apic.v
Ide.v
Fs.v
FsSpec.v
FsData.v
Mkfs.v
File.v
Process.v
Lifecycle.v
Exec.v
Syscall.v
