(* ===== verification/Prelude.v ===== *)
(** * A verification of the xv6 kernel with lottery/stride scheduling and threads

    The program is a teaching operating system for 32-bit x86, with its boot loader,
    its file-system builder and its user programs.  Beyond the usual xv6 it has a
    system call that reports on processes (sys_info), tickets with a lottery and a
    stride scheduler beside the round robin one, and threads made by clone().

    ** The parts and the files that model them

    The machine and the processes:
    - Prelude.v: machine integers, the monad of kernel functions, loops.
    - Rand.v: the generator of rand.c, and genrand64_int64() of proc.c.
    - Machine.v: CPUs, interrupt masking and spin locks (spinlock.c, parts of
      proc.c).  A component whose state contains a CPU says so with a [Lens], and
      gets acquire() and release() on its own state.
    - Seg.v: segment descriptors, seginit() and the task state (mmu.h, vm.c, x86.h).
    - Proc.v: struct proc, sleep, wakeup, kill, yield, sched and the three schedulers
      (proc.c); Sched.v: theorems about the schedulers.
    - Process.v: allocproc, userinit, growproc, fork, clone, exit, wait (proc.c);
      Lifecycle.v: theorems about exit() and wait().
    - Exec.v: exec.c and loaduvm(); Syscall.v: syscall.c, sysproc.c, sysfile.c, trap.c.

    Memory: CString.v (string.c, on byte-addressed memory), Kalloc.v (kalloc.c),
    Vm.v (the page tables of vm.c).

    Devices: Io.v (ports and registers, with the devices' answers given by a [Bus]),
    Boot.v (bootmain.c), Mp.v (mp.c), Apic.v (lapic.c, ioapic.c, picirq.c), Ide.v
    (ide.c), Ring.v, Kbd.v (kbd.c), Console.v (console.c, uart.c).

    Files: Sleeplock.v (sleeplock.c), Bio.v (bio.c and the disk of memide.c), Log.v
    (log.c), Fs.v (fs.c), with its theorems in FsSpec.v and FsData.v, Mkfs.v (mkfs.c),
    File.v (file.c, pipe.c).

    User programs: User.v (ulib.c, printf.c and system calls as interactions with an
    environment), Grep.v (the matcher of grep.c), Coreutils.v (cat, wc, grep, ls,
    init and the small programs), Shell.v (sh.c), Umalloc.v (umalloc.c), Tests.v
    (usertests.c, forktest.c, stressfs.c and the ticket programs), Threads.v
    (thread_lib.h and prog3.c), ThreadLib.v (the locks of thread_lib.c).

    The states nest as the components call each other: a CPU is part of the process
    table's core, which is part of the machine with memory, of the buffer cache, of
    the log, and of the file system, up to the state that system calls run on.
    Functions have the names of the source; a C structure is a record, a pointer to an
    element of a static array is its index, and a pointer to memory is an address.

    ** How a function is modelled

    A kernel function is a function from a state to an [outcome]: it returns, panics,
    spins for ever, or calls swtch() and continues later from the state it then
    finds.  So a theorem about a process that sleeps speaks of two runs, before and
    after other processes have run.  Integers wrap at their width.  User programs use
    the same monad, where leaving the CPU is a system call; threads and CPUs that
    share memory are step relations, where a step touches shared memory once.

    A loop that the data does not bound is [loop body d], with room for [2 ^ d]
    turns, and spins when they are used up.  [d] is 32 where the loop counts over
    32-bit addresses or lengths, 62 or 40 where it reads a program's input or
    waits for a device, and less where a table's size bounds it.  Theorems that a function
    returns show that the turns are enough, by [loop_iter]; a theorem that a loop never
    ends shows that its state does not change.

    ** What the theorems show

    - Processes: the life of a thread from exit() to the return of its parent's wait();
      no lost wakeup; what a lottery round picks; that stride scheduling is
      proportional to tickets; mutual exclusion of spin locks in all interleavings.
    - Memory: kalloc() never hands out a page twice, mappages() changes what it is
      asked to and nothing else, copyout() delivers, malloc() and free() keep the
      blocks in use apart.
    - Disk and files: the disk driver refines the memory disk, bread() returns the
      current block, a commit is atomic under a crash at any write, balloc() and
      bfree() are exact, readi() and writei() agree, inodes survive the way to the disk
      and back, path names split at slashes, an image of mkfs is well formed and
      suits the kernel that boots from it, pipes are bounded queues.
    - Devices: the boot loader loads every segment, mpinit() finds the processors, the
      I/O APIC routes as asked, the clock is read consistently, the console is a
      terminal with a line editor; seginit() makes flat segments.
    - System calls: argptr() accepts the buffers inside the process and no other.
    - User programs: the shell's parser inverts its printer and always ends, the
      matcher of grep accepts its language, forktest's last line tells the kernels
      apart, the frisbee goes round in order.
    - Faults of the code, as theorems about what it does: wait() after a reaped
      thread, the draw of genrand64_int64(), grep's lost line, mpinit()'s endless loop,
      the locks of thread_lib.c that are never given back.

    ** Not modelled

    - main.c: it calls the initialisations of the components in turn and starts the
      other CPUs at addresses of assembly code; a composition would need one state
      with all the components, whose devices differ (a [Bus] here, a disk in memory
      there).  defs.h has declarations only.
    - Assembly: bootasm.S, entry.S, entryother.S, initcode.S, swtch.S, trapasm.S, and
      vectors.pl, which generates more.  A context switch is the outcome [Swtch].
    - In trap(), the calls of the disk's handler and of lapiceoi(), which Ide.v and
      Apic.v model over their own states; in uartputc(), the wait for the transmitter.
    - In usertests.c, the tests on addresses and ports (mem, sbrktest, validatetest,
      uio, argptest) and main(); in prog3.c, the parent's messages; everywhere, loops
      that only pass time.
    - The debugging fields of locks, and the host's file operations of mkfs.c. *)

From stdpp Require Export prelude gmap strings list.
From Stdlib Require Export ZArith Lia.
From Stdlib Require Import FunctionalExtensionality.

Declare Scope kernel_scope.
Delimit Scope kernel_scope with kernel.
#[global] Open Scope Z_scope.

Create HintDb kernel discriminated.
Create Rewrite HintDb kernel.

(** ** Machine integers

    The kernel is compiled with -m32: [uint], pointers and [unsigned long] are
    32 bits and wrap; signed arithmetic is taken to wrap too (the code relies
    on it, e.g. for [x = -xx] in printint). *)

Definition u8 (z : Z) : Z := z mod 2 ^ 8.
Definition u16 (z : Z) : Z := z mod 2 ^ 16.
Definition u32 (z : Z) : Z := z mod 2 ^ 32.
Definition s8 (z : Z) : Z := (z + 2 ^ 7) mod 2 ^ 8 - 2 ^ 7.
Definition s16 (z : Z) : Z := (z + 2 ^ 15) mod 2 ^ 16 - 2 ^ 15.
Definition s32 (z : Z) : Z := (z + 2 ^ 31) mod 2 ^ 32 - 2 ^ 31.

Definition is_u8 (z : Z) : Prop := 0 ≤ z < 2 ^ 8.
Definition is_u32 (z : Z) : Prop := 0 ≤ z < 2 ^ 32.
Definition is_s32 (z : Z) : Prop := - 2 ^ 31 ≤ z < 2 ^ 31.

Notation "a +u b" := (u32 (a + b)) (at level 50, left associativity) : kernel_scope.
Notation "a -u b" := (u32 (a - b)) (at level 50, left associativity) : kernel_scope.
Notation "a *u b" := (u32 (a * b)) (at level 40, left associativity) : kernel_scope.
Notation "a +i b" := (s32 (a + b)) (at level 50, left associativity) : kernel_scope.
Notation "a -i b" := (s32 (a - b)) (at level 50, left associativity) : kernel_scope.

(** Euclidean division made available to [lia]. *)
Ltac dmlia := Z.div_mod_to_equations; lia.

Lemma u32_range z : is_u32 (u32 z).
Proof. unfold is_u32, u32. apply Z.mod_pos_bound. lia. Qed.

Lemma u32_id z : is_u32 z → u32 z = z.
Proof. unfold is_u32, u32. intros ?. by apply Z.mod_small. Qed.

Lemma s32_range z : is_s32 (s32 z).
Proof.
  unfold is_s32, s32. pose proof (Z.mod_pos_bound (z + 2 ^ 31) (2 ^ 32)). lia.
Qed.

Lemma s32_id z : is_s32 z → s32 z = z.
Proof. unfold is_s32, s32. intros ?. rewrite Z.mod_small; lia. Qed.

Lemma u8_range z : is_u8 (u8 z).
Proof. unfold is_u8, u8. apply Z.mod_pos_bound. lia. Qed.

Lemma u8_id z : is_u8 z → u8 z = z.
Proof. unfold is_u8, u8. intros ?. by apply Z.mod_small. Qed.

#[export] Hint Resolve u32_range s32_range u8_range : kernel.
#[export] Hint Rewrite u32_id s32_id u8_id using (done || lia) : kernel.

(** ** The kernel monad

    A kernel function threads a state [S].  It returns ([Ok]), calls
    [panic()], or loops for ever ([Spin]: a spin on a lock nobody will release,
    or a loop whose condition no longer changes).  It may also call [swtch()]
    and leave the CPU to the scheduler: [Swtch s r] gives the state [s] at that
    moment and the resumption [r], the rest of the function, which runs from
    whatever state the process finds when it is scheduled again. *)

Inductive outcome (S A : Type) : Type :=
| Ok (a : A) (s : S)
| Panic (msg : string)
| Swtch (s : S) (r : S → outcome S A)
| Spin.
Arguments Ok {_ _} _ _.
Arguments Panic {_ _} _.
Arguments Swtch {_ _} _ _.
Arguments Spin {_ _}.

Definition M (S A : Type) : Type := S → outcome S A.

Fixpoint obind {S A B} (o : outcome S A) (k : A → M S B) : outcome S B :=
  match o with
  | Ok a s => k a s
  | Panic e => Panic e
  | Swtch s r => Swtch s (λ s', obind (r s') k)
  | Spin => Spin
  end.

#[global] Instance M_ret S : MRet (M S) := λ A a s, Ok a s.
#[global] Instance M_bind S : MBind (M S) := λ A B k m s, obind (m s) k.

Definition get {S} : M S S := λ s, Ok s s.
Definition gets {S A} (f : S → A) : M S A := λ s, Ok (f s) s.
Definition put {S} (s : S) : M S unit := λ _, Ok tt s.
Definition modify {S} (f : S → S) : M S unit := λ s, Ok tt (f s).
Definition panic {S A} (msg : string) : M S A := λ _, Panic msg.
Definition spin {S A} : M S A := λ _, Spin.
Definition swtch {S} : M S unit := λ s, Swtch s (λ s', Ok tt s').
Definition mwhen {S} (b : bool) (m : M S unit) : M S unit := if b then m else mret tt.

(** Running an operation of a sub-component inside a larger state. *)
Fixpoint embed {S T A} (view : S → T) (upd : T → S → S) (o : outcome T A) (s : S) : outcome S A :=
  match o with
  | Ok a t => Ok a (upd t s)
  | Panic e => Panic e
  | Swtch t r => Swtch (upd t s) (λ s', embed view upd (r (view s')) s')
  | Spin => Spin
  end.
Definition zoom {S T A} (view : S → T) (upd : T → S → S) (m : M T A) : M S A := λ s,
  embed view upd (m (view s)) s.

Section monad.
Context {S : Type}.

Lemma bind_ok {A B} (m : M S A) (k : A → M S B) s a s' :
  m s = Ok a s' → (m ≫= k) s = k a s'.
Proof. intros H. unfold mbind, M_bind. by rewrite H. Qed.

Lemma bind_inv {A B} (m : M S A) (k : A → M S B) s b s'' :
  (m ≫= k) s = Ok b s'' → ∃ a s', m s = Ok a s' ∧ k a s' = Ok b s''.
Proof. unfold mbind, M_bind. destruct (m s); simpl; naive_solver. Qed.

Lemma bind_panic {A B} (m : M S A) (k : A → M S B) s e :
  m s = Panic e → (m ≫= k) s = Panic e.
Proof. intros H. unfold mbind, M_bind. by rewrite H. Qed.

Lemma bind_swtch {A B} (m : M S A) (k : A → M S B) s s' r :
  m s = Swtch s' r → (m ≫= k) s = Swtch s' (λ s1, obind (r s1) k).
Proof. intros H. unfold mbind, M_bind. by rewrite H. Qed.

Lemma obind_assoc {A B C} (o : outcome S A) (f : A → M S B) (g : B → M S C) :
  obind (obind o f) g = obind o (λ x, f x ≫= g).
Proof.
  induction o as [a s|e|s r IH|]; simpl; [done..| |done]. f_equal. extensionality s'. apply IH.
Qed.

Lemma bind_assoc {A B C} (m : M S A) (f : A → M S B) (g : B → M S C) s :
  ((m ≫= f) ≫= g) s = (m ≫= (λ x, f x ≫= g)) s.
Proof. apply obind_assoc. Qed.

Lemma bind_ext {A B} (m : M S A) (f g : A → M S B) s :
  (∀ a s', f a s' = g a s') → (m ≫= f) s = (m ≫= g) s.
Proof. intros H. assert (f = g) as ->; [|done]. extensionality a. extensionality s'. apply H. Qed.
End monad.

(** Symbolic execution of a monadic body: the equations of the monad's
    primitives, as rewrite rules that consume a program from its head and
    leave the component operations folded. *)
Section run.
Context {S A B : Type}.
Implicit Types (k : A → M S B) (s : S).

Lemma run_ret (a : A) s : (mret a : M S A) s = Ok a s.
Proof. done. Qed.
Lemma run_get s : (get : M S S) s = Ok s s.
Proof. done. Qed.
Lemma run_gets (f : S → A) s : gets f s = Ok (f s) s.
Proof. done. Qed.
Lemma run_put s s' : put s' s = Ok tt s'.
Proof. done. Qed.
Lemma run_modify (f : S → S) s : modify f s = Ok tt (f s).
Proof. done. Qed.
Lemma run_panic e s : (panic e : M S A) s = Panic e.
Proof. done. Qed.
Lemma run_spin s : (spin : M S A) s = Spin.
Proof. done. Qed.
Lemma run_swtch s : swtch s = Swtch s (λ s', Ok tt s').
Proof. done. Qed.
Lemma run_bind_ret (a : A) k s : ((mret a : M S A) ≫= k) s = k a s.
Proof. done. Qed.
Lemma run_bind_get (k : S → M S B) s : (get ≫= k) s = k s s.
Proof. done. Qed.
Lemma run_bind_gets (f : S → A) k s : (gets f ≫= k) s = k (f s) s.
Proof. done. Qed.
Lemma run_bind_put s' (k : unit → M S B) s : (put s' ≫= k) s = k tt s'.
Proof. done. Qed.
Lemma run_bind_modify (f : S → S) (k : unit → M S B) s : (modify f ≫= k) s = k tt (f s).
Proof. done. Qed.
Lemma run_bind_panic e k s : ((panic e : M S A) ≫= k) s = Panic e.
Proof. done. Qed.
Lemma run_bind_spin k s : ((spin : M S A) ≫= k) s = Spin.
Proof. done. Qed.
Lemma run_bind_swtch (k : unit → M S B) s : (swtch ≫= k) s = Swtch s (λ s', k tt s').
Proof. done. Qed.
Lemma run_when_true (m : M S unit) : mwhen true m = m.
Proof. done. Qed.
Lemma run_when_false (m : M S unit) : mwhen false m = mret tt.
Proof. done. Qed.
End run.

Create Rewrite HintDb run.
#[export] Hint Rewrite @run_ret @run_get @run_gets @run_put @run_modify @run_panic @run_spin
  @run_swtch @run_bind_ret @run_bind_get @run_bind_gets @run_bind_put @run_bind_modify
  @run_bind_panic @run_bind_spin @run_bind_swtch @run_when_true @run_when_false @bind_assoc : run.

Ltac mred := repeat (progress (autorewrite with run; cbv beta)).
Ltac mred_in H := repeat (progress (autorewrite with run in H; cbv beta in H)).

(** One step of execution with a known result of the first operation. *)
Ltac mstep H := rewrite (bind_ok _ _ _ _ _ H).

(** Inversion of a successful run of a sequence. *)
Ltac minv H :=
  let a := fresh "a" in let s := fresh "s" in let E := fresh "E" in
  apply bind_inv in H as (a & s & E & H).

(** ** Lists *)

Section lists.
Context {A : Type}.
Implicit Types (l : list A) (f : A → bool).

(** The index of the first element that satisfies [f]: the idiom
    [for(p = table; p < &table[N]; p++) if(test) goto found;]. *)
Fixpoint first_index f l : option nat :=
  match l with
  | [] => None
  | x :: l' => if f x then Some O else S <$> first_index f l'
  end.

Lemma first_index_Some f l i :
  first_index f l = Some i ↔
  (∃ x, l !! i = Some x ∧ f x = true) ∧ ∀ j x, (j < i)%nat → l !! j = Some x → f x = false.
Proof.
  revert i. induction l as [|y l IH]; intros i; simpl.
  { split; [done|]. intros [[x [? _]] _]. by destruct i. }
  destruct (f y) eqn:Hy.
  - split.
    + intros [= <-]. split; [naive_solver|]. intros; lia.
    + intros [_ Hlt]. destruct i as [|i]; [done|].
      specialize (Hlt O y ltac:(lia) eq_refl). congruence.
  - destruct i as [|i]; simpl.
    + split; [by destruct (first_index f l)|].
      intros [[x [[= <-] ?]] _]. congruence.
    + rewrite fmap_Some. split.
      * intros (k & Hk & [= <-]). apply IH in Hk as [Hx Hlt]. split; [done|].
        intros [|j] x Hj; simpl; [naive_solver|]. apply Hlt. lia.
      * intros [Hx Hlt]. exists i. split; [|done]. apply IH. split; [done|].
        intros j x Hj. apply (Hlt (S j)). lia.
Qed.

Lemma first_index_None f l :
  first_index f l = None ↔ ∀ i x, l !! i = Some x → f x = false.
Proof.
  induction l as [|y l IH]; simpl; [naive_solver|].
  destruct (f y) eqn:Hy.
  - split; [done|]. intros H. specialize (H O y eq_refl). congruence.
  - rewrite fmap_None, IH. split.
    + intros H [|i] x; simpl; naive_solver.
    + intros H i x. apply (H (S i)).
Qed.

Lemma first_index_lt f l i : first_index f l = Some i → (i < length l)%nat.
Proof.
  intros [[x [Hx _]] _]%first_index_Some. by eapply lookup_lt_Some.
Qed.
End lists.

(** Iterating a transition relation: the executions of a state machine. *)
Section sequences.
Context {A : Type} (R : A → A → Prop).

Lemma rtc_invariant (P : A → Prop) a b :
  (∀ x y, P x → R x y → P y) → P a → rtc R a b → P b.
Proof. intros HR Ha Hab. induction Hab; eauto. Qed.
End sequences.

(** Counting the integers of an interval. *)
Lemma filter_all {A} (P : A → Prop) `{∀ x, Decision (P x)} l : Forall P l → filter P l = l.
Proof. induction 1; [done|]. rewrite filter_cons_True by done. by f_equal. Qed.

Lemma filter_none {A} (P : A → Prop) `{∀ x, Decision (P x)} l :
  Forall (λ x, ¬ P x) l → filter P l = [].
Proof. induction 1; [done|]. by rewrite filter_cons_False by done. Qed.

Lemma count_seqZ_interval (P : Z → Prop) `{∀ z, Decision (P z)} (lo hi n : Z) :
  0 ≤ lo ≤ hi ∧ hi ≤ n → (∀ w, 0 ≤ w < n → P w ↔ lo ≤ w < hi) →
  Z.of_nat (length (filter P (seqZ 0 n))) = hi - lo.
Proof.
  intros Hb HP. replace n with (lo + ((hi - lo) + (n - hi))) by lia.
  rewrite !seqZ_app, !filter_app by lia.
  rewrite (filter_none P (seqZ 0 lo)), (filter_all P (seqZ (0 + lo) _)), (filter_none P (seqZ (_ + _) _)).
  - rewrite app_nil_r. simpl. rewrite length_seqZ. lia.
  - apply Forall_seqZ. intros w ?. rewrite HP; lia.
  - apply Forall_seqZ. intros w ?. apply HP; lia.
  - apply Forall_seqZ. intros w ?. rewrite HP; lia.
Qed.

Lemma alter_lookup_insert {A} (f : A → A) (l : list A) i x :
  l !! i = Some x → alter f i l = <[i := f x]> l.
Proof.
  intros Hx. rewrite list_insert_alter. apply list_alter_ext; [|done].
  intros y Hy. congruence.
Qed.

(** ** Loops

    [body] does one iteration: it returns [inr b] to leave the loop and [inl a]
    to go on from [a].  [iter n] does at most [n] iterations; [until d] does at
    most [2 ^ d], with a recursion that is only [d] deep, so that the bound can
    exceed any loop over 32-bit addresses and still be evaluated.  [loop d] is
    the loop itself: if the bound were exceeded it spins. *)
Section loops.
Context {S A B : Type} (body : A → M S (A + B)).

Fixpoint iter (n : nat) (a : A) : M S (A + B) :=
  match n with
  | O => mret (inl a)
  | Datatypes.S n => r ← body a; match r with inl a' => iter n a' | inr b => mret (inr b) end
  end.

Fixpoint until (d : nat) (a : A) : M S (A + B) :=
  match d with
  | O => body a
  | Datatypes.S d => r ← until d a; match r with inl a' => until d a' | inr b => mret (inr b) end
  end.

Definition loop (d : nat) (a : A) : M S B :=
  r ← until d a; match r with inl _ => spin | inr b => mret b end.

Lemma iter_add n n' a s :
  iter (n + n') a s = (r ← iter n a; match r with inl a' => iter n' a' | inr b => mret (inr b) end) s.
Proof.
  revert a s. induction n as [|n IH]; intros a s; [done|]. simpl. rewrite bind_assoc.
  apply bind_ext. intros [a'|b] s'; [apply IH|done].
Qed.

Lemma until_iter d a s : until d a s = iter (2 ^ d) a s.
Proof.
  revert a s. induction d as [|d IH]; intros a s.
  - simpl. unfold mbind, M_bind. induction (body a s) as [[a'|b] s'|e|s' r IHr|]; simpl; try done.
    f_equal. extensionality s1. apply IHr.
  - rewrite Nat.pow_succ_r'. replace (2 * 2 ^ d)%nat with (2 ^ d + 2 ^ d)%nat by lia.
    rewrite iter_add. change (until (Datatypes.S d) a s) with (obind (until d a s)
      (λ r, match r with inl a' => until d a' | inr b => mret (inr b) end)). rewrite IH.
    apply (bind_ext (iter (2 ^ d) a)). intros [a'|b] s'; [apply IH|done].
Qed.

Lemma iter_next n a s a' s' : body a s = Ok (inl a') s' → iter (Datatypes.S n) a s = iter n a' s'.
Proof. intros E. simpl. by mstep E. Qed.

Lemma iter_exit n a s b s' : body a s = Ok (inr b) s' → iter (Datatypes.S n) a s = Ok (inr b) s'.
Proof. intros E. simpl. by mstep E. Qed.

(** More iterations do not change the result of a loop that has ended. *)
Lemma iter_more n k a s b s' : iter n a s = Ok (inr b) s' → iter (n + k) a s = Ok (inr b) s'.
Proof. intros E. rewrite iter_add. by mstep E. Qed.

Lemma loop_iter d n a s b s' :
  iter n a s = Ok (inr b) s' → Z.of_nat n ≤ 2 ^ Z.of_nat d → loop d a s = Ok b s'.
Proof.
  intros E Hn. unfold loop.
  assert (until d a s = Ok (inr b) s') as Eu.
  { rewrite until_iter. assert (n ≤ 2 ^ d)%nat by (apply Nat2Z.inj_le; by rewrite Nat2Z.inj_pow).
    replace (2 ^ d)%nat with (n + (2 ^ d - n))%nat by lia. by apply iter_more. }
  by mstep Eu.
Qed.

(** The loop, unfolded once. *)
Lemma loop_unfold d a s :
  loop (Datatypes.S d) a s =
  (r ← body a; match r with
               | inl a' => r ← iter (2 ^ Datatypes.S d - 1) a';
                           match r with inl _ => spin | inr b => mret b end
               | inr b => mret b
               end) s.
Proof.
  change (loop (Datatypes.S d) a s) with (obind (until (Datatypes.S d) a s)
    (λ r, match r with inl _ => spin | inr b => mret b end)). rewrite until_iter.
  assert (2 ^ Datatypes.S d = Datatypes.S (2 ^ Datatypes.S d - 1))%nat as E
    by (pose proof (Nat.pow_nonzero 2 (Datatypes.S d)); lia).
  rewrite E at 1. cbn [iter]. unfold mbind at 1, M_bind. rewrite obind_assoc.
  apply bind_ext. by intros [a'|b] s'.
Qed.

Lemma loop_exit d a s b s' : body a s = Ok (inr b) s' → loop d a s = Ok b s'.
Proof. intros E. eapply (loop_iter d 1); [by apply iter_exit|]. pose proof (Z.pow_pos_nonneg 2 (Z.of_nat d)). lia. Qed.

(** A loop whose first iteration gives up the CPU, and whose next one ends it. *)
Lemma loop_wait d a s s1 r :
  body a s = Swtch s1 r →
  ∃ R, loop (Datatypes.S (Datatypes.S d)) a s = Swtch s1 R ∧
    ∀ s2 a' s3 b s4, r s2 = Ok (inl a') s3 → body a' s3 = Ok (inr b) s4 → R s2 = Ok b s4.
Proof.
  intros E. rewrite loop_unfold. eexists. split; [by apply bind_swtch|].
  intros s2 a' s3 b s4 E2 E3. cbn beta. rewrite E2. cbn [obind].
  assert (∃ n, 2 ^ Datatypes.S (Datatypes.S d) - 1 = Datatypes.S n)%nat as [n Hn].
  { exists (2 ^ Datatypes.S (Datatypes.S d) - 2)%nat. rewrite !Nat.pow_succ_r'. pose proof (Nat.pow_nonzero 2 d). lia. }
  rewrite Hn. by mstep (iter_exit n _ _ _ _ E3).
Qed.
End loops.

(** The characters of a string literal. *)
Fixpoint chars (s : string) : list Z :=
  match s with
  | EmptyString => []
  | String a s => Z.of_N (Ascii.N_of_ascii a) :: chars s
  end.

(** The string in a character array: the characters before the first NUL. *)
Fixpoint cstring (l : list Z) : list Z :=
  match l with [] => [] | c :: l => if c =? 0 then [] else c :: cstring l end.

(** ** Bit operations on 32-bit words *)

Lemma is_u32_bits z :
  is_u32 z ↔ 0 ≤ z ∧ ∀ i, 32 ≤ i → Z.testbit z i = false.
Proof.
  unfold is_u32. split.
  - intros [? Hz]. split; [done|]. intros i Hi.
    rewrite <- (Z.mod_small z (2 ^ 32)) by done. by apply Z.mod_pow2_bits_high.
  - intros [? Hb]. split; [done|].
    assert (z = z mod 2 ^ 32) as ->; [|apply Z.mod_pos_bound; lia].
    apply Z.bits_inj'. intros i Hi. destruct (decide (i < 32)).
    + by rewrite Z.mod_pow2_bits_low.
    + rewrite Z.mod_pow2_bits_high by lia. apply Hb. lia.
Qed.

Lemma lxor_u32 a b : is_u32 a → is_u32 b → is_u32 (Z.lxor a b).
Proof.
  rewrite !is_u32_bits. intros [? Ha] [? Hb]. split; [by apply Z.lxor_nonneg|].
  intros i Hi. rewrite Z.lxor_spec, Ha, Hb; done.
Qed.

Lemma land_u32 a b : is_u32 a → 0 ≤ b → is_u32 (Z.land a b).
Proof.
  rewrite !is_u32_bits. intros [? Ha] ?. split; [apply Z.land_nonneg; by left|].
  intros i Hi. by rewrite Z.land_spec, Ha.
Qed.

Lemma lor_u32 a b : is_u32 a → is_u32 b → is_u32 (Z.lor a b).
Proof.
  rewrite !is_u32_bits. intros [? Ha] [? Hb]. split; [by apply Z.lor_nonneg|].
  intros i Hi. rewrite Z.lor_spec, Ha, Hb; done.
Qed.

Lemma shiftr_u32 a n : is_u32 a → 0 ≤ n → is_u32 (Z.shiftr a n).
Proof.
  rewrite !is_u32_bits. intros [? Ha] ?. split; [by apply Z.shiftr_nonneg|].
  intros i Hi. rewrite Z.shiftr_spec, Ha; done || lia.
Qed.
