(* ===== verification/Rand.v ===== *)
(** * rand.c: the MT19937 generator, and proc.c's genrand64_int64

    The generator the lottery scheduler draws its winners from.  The state is
    the file's two statics, [mt] and [mti]; [unsigned long] is 32 bits wide
    (the kernel is built with -m32).  [reload] is the body of
    [if (mti >= N) ...] in genrand(), with its three loops in the source's
    order; [recurrence] below is the textbook MT19937 recurrence, and
    [reload_recurrence] shows that the in-place loops compute it. *)

From S2P Require Import Prelude.
Open Scope kernel_scope.

Definition N : nat := 624.
Definition M_ : nat := 397.
Definition MATRIX_A : Z := 0x9908b0df.
Definition UPPER_MASK : Z := 0x80000000.
Definition LOWER_MASK : Z := 0x7fffffff.
Definition TEMPERING_MASK_B : Z := 0x9d2c5680.
Definition TEMPERING_MASK_C : Z := 0xefc60000.
Definition TEMPERING_SHIFT_U (y : Z) : Z := Z.shiftr y 11.
Definition TEMPERING_SHIFT_S (y : Z) : Z := u32 (Z.shiftl y 7).
Definition TEMPERING_SHIFT_T (y : Z) : Z := u32 (Z.shiftl y 15).
Definition TEMPERING_SHIFT_L (y : Z) : Z := Z.shiftr y 18.
Definition RAND_MAX : Z := 0x7fffffff.

Record rand := Rand { mt : list Z; mti : Z }.

(** The statics at load time: [mt] is zero, [mti == N+1]. *)
Definition rand_init : rand := Rand (replicate N 0) (Z.of_nat N + 1).

(** [for (mti=1; mti<N; mti++) mt[mti] = (69069 * mt[mti-1]) & 0xffffffff;]
    with [k] iterations left. *)
Fixpoint seed_loop (k i : nat) (l : list Z) : list Z :=
  match k with
  | O => l
  | S k' => seed_loop k' (S i) (<[i := Z.land (69069 *u (l !!! (i - 1)%nat)) 0xffffffff]> l)
  end.

Definition sgenrand (seed : Z) (r : rand) : rand :=
  Rand (seed_loop (N - 1) 1 (<[O := Z.land seed 0xffffffff]> (mt r))) (Z.of_nat N).

(** [mag01[y & 0x1]], the table {0x0, MATRIX_A}. *)
Definition mag01 (b : Z) : Z := if b =? 0 then 0 else MATRIX_A.

Definition mix (a b : Z) : Z := Z.lor (Z.land a UPPER_MASK) (Z.land b LOWER_MASK).

(** [mt[k] = src ^ (y >> 1) ^ mag01[y & 0x1]] with [y] mixed from [a], [b]. *)
Definition twist (src a b : Z) : Z :=
  let y := mix a b in Z.lxor (Z.lxor src (Z.shiftr y 1)) (mag01 (Z.land y 1)).

(** [for (;kk<bound;kk++)] over [n] iterations, reading [mt[kk+d]]
    ([d = M] in the first loop, [d = M-N] in the second). *)
Fixpoint twist_loop (d : Z) (n kk : nat) (l : list Z) : list Z :=
  match n with
  | O => l
  | S n' =>
      let src := l !!! Z.to_nat (Z.of_nat kk + d) in
      twist_loop d n' (S kk) (<[kk := twist src (l !!! kk) (l !!! S kk)]> l)
  end.

Definition reload (l : list Z) : list Z :=
  let l1 := twist_loop (Z.of_nat M_) (N - M_) 0 l in
  let l2 := twist_loop (Z.of_nat M_ - Z.of_nat N) (M_ - 1) (N - M_) l1 in
  <[(N - 1)%nat := twist (l2 !!! (M_ - 1)%nat) (l2 !!! (N - 1)%nat) (l2 !!! O)]> l2.

Definition temper (y : Z) : Z :=
  let y := Z.lxor y (TEMPERING_SHIFT_U y) in
  let y := Z.lxor y (Z.land (TEMPERING_SHIFT_S y) TEMPERING_MASK_B) in
  let y := Z.lxor y (Z.land (TEMPERING_SHIFT_T y) TEMPERING_MASK_C) in
  Z.lxor y (TEMPERING_SHIFT_L y).

Definition genrand (r : rand) : Z * rand :=
  let r1 :=
    if Z.of_nat N <=? mti r then
      let r0 := if mti r =? Z.of_nat N + 1 then sgenrand 4357 r else r in
      Rand (reload (mt r0)) 0
    else r in
  let y := mt r1 !!! Z.to_nat (mti r1) in
  (Z.land (temper y) RAND_MAX, Rand (mt r1) (mti r1 + 1)).

(** proc.c: genrand64_int64.  A division by zero traps in kernel mode, which
    trap() answers with [panic("trap")].  The [while(...);] has an empty body,
    so it either falls through or never ends. *)
Definition genrand64_int64 (max : Z) : M rand Z := λ r,
  let bins := max +u 1 in
  let num_rand := RAND_MAX +u 1 in
  if bins =? 0 then Panic "trap" else
  let bin_size := num_rand / bins in
  let defect := num_rand mod bins in
  let '(x, r) := genrand r in
  if num_rand -u defect <=? u32 x then Spin
  else
    let '(x, r) := genrand r in
    if bin_size =? 0 then Panic "trap" else Ok (s32 (u32 x / bin_size)) r.

(** ** Words stay 32 bits wide *)

Lemma twist_u32 src a b : is_u32 src → is_u32 a → is_u32 b → is_u32 (twist src a b).
Proof.
  intros. unfold twist, mix.
  apply lxor_u32; [apply lxor_u32; [done|]|].
  - apply shiftr_u32; [|done]. apply lor_u32; by apply land_u32.
  - unfold mag01. case_match; done.
Qed.

Lemma temper_u32 y : is_u32 y → is_u32 (temper y).
Proof.
  intros. unfold temper, TEMPERING_SHIFT_U, TEMPERING_SHIFT_S, TEMPERING_SHIFT_T, TEMPERING_SHIFT_L.
  repeat first [apply lxor_u32 | apply shiftr_u32 | apply land_u32 | apply u32_range | done].
Qed.

(** ** Tempering is a bijection of the 32-bit words

    Every stage is linear over GF(2), so a left inverse need only be checked
    on the 32 powers of two. *)

Ltac bits_case :=
  repeat match goal with |- context [Z.testbit ?a ?b] => destruct (Z.testbit a b) end; done.

Definition linear (f : Z → Z) : Prop := ∀ x y, f (Z.lxor x y) = Z.lxor (f x) (f y).

Lemma linear_id : linear id.
Proof. done. Qed.

Lemma linear_comp f g : linear f → linear g → linear (λ x, f (g x)).
Proof. intros Hf Hg x y. by rewrite Hg, Hf. Qed.

Lemma linear_lxor f g : linear f → linear g → linear (λ x, Z.lxor (f x) (g x)).
Proof.
  intros Hf Hg x y. rewrite Hf, Hg. apply Z.bits_inj'. intros i Hi.
  rewrite !Z.lxor_spec. bits_case.
Qed.

Lemma linear_land f m : linear f → linear (λ x, Z.land (f x) m).
Proof.
  intros Hf x y. rewrite Hf. apply Z.bits_inj'. intros i Hi.
  rewrite Z.lxor_spec, !Z.land_spec, Z.lxor_spec. bits_case.
Qed.

Lemma linear_shiftr f n : linear f → linear (λ x, Z.shiftr (f x) n).
Proof. intros Hf x y. by rewrite Hf, Z.shiftr_lxor. Qed.

Lemma linear_shiftl f n : linear f → 0 ≤ n → linear (λ x, u32 (Z.shiftl (f x) n)).
Proof.
  intros Hf Hn x y. rewrite Hf, Z.shiftl_lxor. unfold u32.
  rewrite <- !Z.land_ones by done. exact (linear_land id _ linear_id _ _).
Qed.

#[export] Hint Resolve linear_id linear_lxor linear_land linear_shiftr linear_shiftl : kernel.

Lemma linear_ext f g :
  linear f → linear g →
  (∀ i, (i < 32)%nat → f (2 ^ Z.of_nat i) = g (2 ^ Z.of_nat i)) →
  ∀ x, is_u32 x → f x = g x.
Proof.
  intros Hf Hg Hb.
  assert (∀ h, linear h → h 0 = 0) as Hz.
  { intros h Hh. pose proof (Hh 0 0) as E. change (Z.lxor 0 0) with 0 in E.
    by rewrite Z.lxor_nilpotent in E. }
  assert (f 0 = g 0) as H0 by (rewrite !Hz; done).
  enough (∀ n x, (n ≤ 32)%nat → 0 ≤ x < 2 ^ Z.of_nat n → f x = g x) as Hn.
  { intros x Hx. apply (Hn 32%nat); [done|exact Hx]. }
  induction n as [|n IH]; intros x Hle Hx.
  { by replace x with 0 by (simpl in Hx; lia). }
  set (k := Z.of_nat n) in *.
  assert (x = Z.lxor (x mod 2 ^ k) (if Z.testbit x k then 2 ^ k else 0)) as ->.
  { apply Z.bits_inj'. intros i Hi. rewrite Z.lxor_spec.
    assert (∀ i, Z.testbit (if Z.testbit x k then 2 ^ k else 0) i = Z.testbit x k && (k =? i)) as ->.
    { intros j. destruct (Z.testbit x k); [by rewrite Z.pow2_bits_eqb by lia|].
      by rewrite Z.bits_0. }
    destruct (Z.lt_trichotomy i k) as [?|[->|?]].
    - rewrite Z.mod_pow2_bits_low by lia. replace (k =? i) with false by lia.
      by rewrite andb_false_r, xorb_false_r.
    - rewrite Z.mod_pow2_bits_high by lia. by rewrite Z.eqb_refl, andb_true_r, xorb_false_l.
    - rewrite Z.mod_pow2_bits_high by lia. replace (k =? i) with false by lia.
      rewrite andb_false_r. simpl.
      rewrite <- (Z.mod_small x (2 ^ (k + 1))).
      + apply Z.mod_pow2_bits_high. lia.
      + replace (k + 1) with (Z.of_nat (S n)) by lia. done. }
  rewrite Hf, Hg. f_equal.
  - apply IH; [lia|]. apply Z.mod_pos_bound. lia.
  - destruct (Z.testbit x k); [apply Hb; lia|done].
Qed.

Definition untemper (y : Z) : Z :=
  let y := Z.lxor y (TEMPERING_SHIFT_L y) in
  let y := Z.lxor y (Z.land (TEMPERING_SHIFT_T y) TEMPERING_MASK_C) in
  let step z := Z.lxor y (Z.land (TEMPERING_SHIFT_S z) TEMPERING_MASK_B) in
  let y := step (step (step (step y))) in
  Z.lxor (Z.lxor y (Z.shiftr y 11)) (Z.shiftr y 22).

Lemma temper_linear : linear temper.
Proof.
  unfold temper, TEMPERING_SHIFT_U, TEMPERING_SHIFT_S, TEMPERING_SHIFT_T, TEMPERING_SHIFT_L.
  repeat first [apply linear_lxor | apply linear_land | apply linear_shiftr
    | apply linear_shiftl | apply linear_id | done].
Qed.

Lemma untemper_linear : linear untemper.
Proof.
  unfold untemper, TEMPERING_SHIFT_S, TEMPERING_SHIFT_T, TEMPERING_SHIFT_L.
  repeat first [apply linear_lxor | apply linear_land | apply linear_shiftr
    | apply linear_shiftl | apply linear_id | done].
Qed.

Lemma forall_below_32 (P : nat → bool) :
  forallb P (seq 0 32) = true → ∀ i, (i < 32)%nat → P i = true.
Proof.
  intros H i Hi. rewrite forallb_forall in H. apply H. apply in_seq. lia.
Qed.

(** The tempering of MT19937 loses no information: [untemper]
    recovers every 32-bit word from its tempered value, and tempering maps
    words to words. *)
Theorem temper_roundtrip y : is_u32 y → is_u32 (temper y) ∧ untemper (temper y) = y.
Proof.
  intros Hy. split; [by apply temper_u32|].
  apply (linear_ext (λ x, untemper (temper x)) id); [|done| |done].
  - apply (linear_comp untemper temper); [apply untemper_linear|apply temper_linear].
  - intros i Hi. apply Z.eqb_eq. revert i Hi.
    apply (forall_below_32 (λ i, untemper (temper (2 ^ Z.of_nat i)) =? 2 ^ Z.of_nat i)).
    vm_compute. reflexivity.
Qed.

Lemma temper_roundtrip_witness :
  is_u32 0x12345678 ∧ is_u32 (temper 0x12345678) ∧ untemper (temper 0x12345678) = 0x12345678.
Proof.
  split; [done|]. apply (temper_roundtrip 0x12345678). done.
Defined.

(** ** The in-place reload computes the MT19937 recurrence *)

Section twist_loop.
Implicit Types l : list Z.

Lemma twist_loop_length d n kk l : length (twist_loop d n kk l) = length l.
Proof.
  revert kk l. induction n as [|n IH]; intros kk l; simpl; [done|].
  by rewrite IH, length_insert.
Qed.

Lemma twist_loop_other d n kk l j :
  (j < kk ∨ kk + n ≤ j)%nat → twist_loop d n kk l !!! j = l !!! j.
Proof.
  revert kk l. induction n as [|n IH]; intros kk l Hj; simpl; [done|].
  rewrite IH by lia. apply list_lookup_total_insert_ne. lia.
Qed.

(** First loop: the words read are not yet overwritten. *)
Lemma twist_loop_ahead d n kk l j :
  0 < d → (kk + n ≤ length l)%nat → (kk ≤ j < kk + n)%nat →
  twist_loop d n kk l !!! j
  = twist (l !!! Z.to_nat (Z.of_nat j + d)) (l !!! j) (l !!! S j).
Proof.
  intros Hd. revert kk l. induction n as [|n IH]; intros kk l Hlen Hj; [lia|]. simpl.
  destruct (decide (j = kk)) as [->|Hne].
  - rewrite twist_loop_other by lia. by rewrite list_lookup_total_insert_eq by lia.
  - rewrite IH; [|rewrite length_insert; lia|lia].
    by rewrite !list_lookup_total_insert_ne by lia.
Qed.

(** Second loop: the words read through [d] are already the new ones. *)
Lemma twist_loop_behind d n kk l j :
  d < 0 → (kk + n ≤ length l)%nat → (kk ≤ j < kk + n)%nat → - d ≤ Z.of_nat kk →
  twist_loop d n kk l !!! j
  = twist (twist_loop d n kk l !!! Z.to_nat (Z.of_nat j + d)) (l !!! j) (l !!! S j).
Proof.
  intros Hd. revert kk l. induction n as [|n IH]; intros kk l Hlen Hj Hk; [lia|].
  destruct (decide (j = kk)) as [->|Hne].
  - rewrite (twist_loop_other _ _ _ _ (Z.to_nat _)) by lia. simpl.
    rewrite twist_loop_other by lia. by rewrite list_lookup_total_insert_eq by lia.
  - simpl. rewrite IH; [|rewrite length_insert; lia|lia|lia].
    by rewrite !(list_lookup_total_insert_ne _ kk) by lia.
Qed.
End twist_loop.

(** The words [x_0, x_1, ...] of the recurrence: a state followed by its
    successor. *)
Definition xseq (l l' : list Z) (i : nat) : Z :=
  if (i <? N)%nat then l !!! i else l' !!! (i - N)%nat.

Lemma reload_length l : length l = N → length (reload l) = N.
Proof. intros. unfold reload. by rewrite length_insert, !twist_loop_length. Qed.

(** The three in-place loops of genrand() compute the
    MT19937 recurrence x_{k+N} = x_{k+M} ^ (upper(x_k) | lower(x_{k+1})) A for
    every k < N, although the array is overwritten while it is read. *)
Theorem reload_recurrence l k :
  length l = N → (k < N)%nat →
  reload l !!! k
  = twist (xseq l (reload l) (k + M_)) (xseq l (reload l) k) (xseq l (reload l) (k + 1)).
Proof.
  intros Hl Hk. unfold N in Hk.
  set (l1 := twist_loop (Z.of_nat M_) (N - M_) 0 l).
  set (l2 := twist_loop (Z.of_nat M_ - Z.of_nat N) (M_ - 1) (N - M_) l1).
  assert (length l1 = N) as Hl1 by (subst l1; by rewrite twist_loop_length).
  assert (length l2 = N) as Hl2 by (subst l2; by rewrite twist_loop_length).
  assert (∀ j, (j < 623)%nat → reload l !!! j = l2 !!! j) as Hlow.
  { intros j Hj. unfold reload. fold l1 l2. apply list_lookup_total_insert_ne. unfold N. lia. }
  assert (∀ j, (j < 227)%nat → reload l !!! j = l1 !!! j) as Hfst.
  { intros j Hj. rewrite Hlow by lia. apply twist_loop_other. unfold N, M_. lia. }
  assert (∀ j, (227 ≤ j)%nat → l1 !!! j = l !!! j) as Hsnd.
  { intros j Hj. apply twist_loop_other. unfold N, M_. lia. }
  unfold xseq.
  destruct (decide (k < 227)%nat).
  { rewrite Hfst by done. unfold l1. rewrite twist_loop_ahead; unfold N, M_ in *; [|lia..].
    repeat case_match; rewrite ?Nat.ltb_lt, ?Nat.ltb_ge in *; try lia.
    f_equal; f_equal; lia. }
  destruct (decide (k < 623)%nat).
  { rewrite Hlow by done. unfold l2. rewrite twist_loop_behind; unfold N, M_ in *; [|lia..].
    repeat case_match; rewrite ?Nat.ltb_lt, ?Nat.ltb_ge in *; try lia.
    rewrite !Hsnd by lia. rewrite Hlow by lia.
    unfold l2. f_equal; f_equal; lia. }
  assert (k = N - 1)%nat as -> by (unfold N; lia).
  rewrite (proj2 (Nat.ltb_ge (N - 1 + M_) N)) by (unfold N, M_; lia).
  rewrite (proj2 (Nat.ltb_lt (N - 1) N)) by (unfold N; lia).
  rewrite (proj2 (Nat.ltb_ge (N - 1 + 1) N)) by (unfold N; lia).
  replace (N - 1 + M_ - N)%nat with (M_ - 1)%nat by (unfold N, M_; lia).
  replace (N - 1 + 1 - N)%nat with 0%nat by (unfold N; lia).
  rewrite (Hlow (M_ - 1)%nat), (Hlow 0%nat) by (unfold M_; lia). unfold reload. fold l1 l2.
  rewrite list_lookup_total_insert_eq by (rewrite Hl2; unfold N; lia).
  assert (l2 !!! (N - 1)%nat = l !!! (N - 1)%nat) as ->; [|done].
  unfold l2. rewrite twist_loop_other by (unfold N, M_; lia). apply Hsnd. unfold N. lia.
Qed.

Lemma reload_recurrence_witness :
  reload (replicate N 7) !!! 3%nat
  = twist (xseq (replicate N 7) (reload (replicate N 7)) (3 + M_))
      (xseq (replicate N 7) (reload (replicate N 7)) 3)
      (xseq (replicate N 7) (reload (replicate N 7)) (3 + 1)).
Proof.
  apply (reload_recurrence (replicate N 7) 3); [apply length_replicate|unfold N; lia].
Defined.

(** ** The generator's invariant and range *)

Definition rand_wf (r : rand) : Prop :=
  length (mt r) = N ∧ Forall is_u32 (mt r) ∧ 0 ≤ mti r ≤ Z.of_nat N + 1.

Lemma lookup_total_u32 l i : Forall is_u32 l → is_u32 (l !!! i).
Proof.
  intros Hl. destruct (l !! i) as [x|] eqn:E.
  - rewrite (list_lookup_total_correct _ _ _ E). by eapply Forall_lookup_1 in E.
  - rewrite list_lookup_total_alt, E. done.
Qed.

Lemma insert_u32 l i x : Forall is_u32 l → is_u32 x → Forall is_u32 (<[i:=x]> l).
Proof. intros. by apply Forall_insert. Qed.

#[export] Hint Resolve lookup_total_u32 insert_u32 twist_u32 : kernel.

Lemma twist_loop_u32 d n kk l : Forall is_u32 l → Forall is_u32 (twist_loop d n kk l).
Proof.
  revert kk l. induction n as [|n IH]; intros kk l Hl; simpl; [done|].
  apply IH. auto with kernel.
Qed.

Lemma reload_u32 l : Forall is_u32 l → Forall is_u32 (reload l).
Proof.
  intros Hl. unfold reload.
  apply insert_u32; [|apply twist_u32]; auto using twist_loop_u32 with kernel.
Qed.

Lemma seed_loop_wf k i l :
  Forall is_u32 l → Forall is_u32 (seed_loop k i l) ∧ length (seed_loop k i l) = length l.
Proof.
  revert i l. induction k as [|k IH]; intros i l Hl; simpl; [done|].
  destruct (IH (S i) (<[i:=Z.land (69069 *u (l !!! (i - 1)%nat)) 0xffffffff]> l)) as [? Hlen].
  - apply insert_u32; [done|]. apply land_u32; [apply u32_range|done].
  - by rewrite Hlen, length_insert.
Qed.

Lemma land_word x : Z.land x 0xffffffff = u32 x.
Proof. change 0xffffffff with (Z.ones 32). by rewrite Z.land_ones. Qed.

Lemma sgenrand_wf seed r : rand_wf r → rand_wf (sgenrand seed r).
Proof.
  intros (Hlen & Hu & _). unfold sgenrand, rand_wf; cbn [mt mti].
  destruct (seed_loop_wf (N - 1) 1 (<[0%nat:=Z.land seed 0xffffffff]> (mt r))) as [? Hl].
  - apply insert_u32; [done|]. rewrite land_word. apply u32_range.
  - rewrite Hl, length_insert. repeat split; [done|done|lia|lia].
Qed.

Lemma land_rand_max y : Z.land y RAND_MAX = y mod 2 ^ 31.
Proof. change RAND_MAX with (Z.ones 31). by rewrite Z.land_ones. Qed.

Lemma genrand_ok r :
  rand_wf r → 0 ≤ (genrand r).1 ≤ RAND_MAX ∧ rand_wf (genrand r).2 ∧ 1 ≤ mti (genrand r).2 ≤ Z.of_nat N.
Proof.
  intros Hr. unfold genrand.
  set (r1 := if Z.of_nat N <=? mti r then _ else r). cbn [fst snd].
  assert (rand_wf r1 ∧ mti r1 < Z.of_nat N) as [(Hlen & Hu & Hi) Hlt].
  { subst r1. destruct (Z.leb_spec (Z.of_nat N) (mti r)) as [Hge|Hlt]; [|by destruct Hr as (?&?&?)].
    set (r0 := if mti r =? Z.of_nat N + 1 then sgenrand 4357 r else r).
    assert (rand_wf r0) as (Hlen & Hu & _).
    { subst r0. case_match; [by apply sgenrand_wf|done]. }
    split; [|unfold N; cbn [mti]; lia].
    repeat split; cbn [mt mti]; [by apply reload_length|by apply reload_u32|lia|lia]. }
  rewrite land_rand_max.
  pose proof (Z.mod_pos_bound (temper (mt r1 !!! Z.to_nat (mti r1))) (2 ^ 31)).
  unfold RAND_MAX, rand_wf; cbn [mt mti]. repeat split; try done; lia.
Qed.

Lemma rand_init_wf : rand_wf rand_init.
Proof.
  unfold rand_wf, rand_init; cbn [mt mti]. rewrite length_replicate.
  split; [done|]. split; [by apply Forall_replicate|lia].
Qed.

(** From any well-formed generator state, the state the kernel
    boots with included, genrand() returns a value between 0 and RAND_MAX, so
    that the signed [%] of the lottery never sees a negative draw; all words
    stay 32 bits wide and the index stays inside the array. *)
Theorem genrand_range r :
  rand_wf r →
  0 ≤ (genrand r).1 ≤ RAND_MAX ∧ rand_wf (genrand r).2 ∧ rand_wf rand_init.
Proof.
  intros Hr. destruct (genrand_ok r Hr) as (? & ? & ?). auto using rand_init_wf.
Qed.

Lemma genrand_range_witness :
  rand_wf rand_init ∧ 0 ≤ (genrand rand_init).1 ≤ RAND_MAX ∧ rand_wf (genrand rand_init).2
  ∧ rand_wf rand_init.
Proof.
  split; [exact rand_init_wf|]. exact (genrand_range rand_init rand_init_wf).
Defined.

(** ** genrand64_int64

    Its comment asks for a value "between 0 to max".  The first draw is
    thrown away (it only decides whether the empty loop is entered) and the
    second one is not tested against the incomplete last bin. *)

Lemma genrand64_bins max : 0 ≤ max < RAND_MAX → max +u 1 = max + 1.
Proof. unfold RAND_MAX. intros. apply u32_id. unfold is_u32. lia. Qed.



(** Four draws after boot the call genrand64_int64(2^30) returns
    2115140544, above its bound 2^30 and so outside the region "between 0 to
    max" the comment promises. *)
Theorem genrand64_above_max :
  ∃ r', genrand64_int64 (2 ^ 30) (Nat.iter 4 (λ r, (genrand r).2) rand_init) = Ok 2115140544 r'
        ∧ 2 ^ 30 < 2115140544.
Proof. eexists. split; [vm_compute; reflexivity|lia]. Qed.
