(* ===== verification/Machine.v ===== *)
(** * CPUs, interrupts and spin locks: spinlock.c, and mycpu/cpuid/myproc of proc.c

    A [hart] is what one running CPU sees of the machine: its interrupt flag,
    its APIC id, the per-CPU structures [cpus[0..ncpu-1]] and the spin locks.
    The locks live in a finite map indexed by their identity ([lockid]), so a
    lock embedded in a structure is named by the structure.  The debugging
    fields [name] and [pcs] of struct spinlock are left out.

    A component whose state contains a hart says so with a [Lens]; acquire and
    release are then available on that state. *)

From S2P Require Import Prelude.
Open Scope kernel_scope.

(** ** Sub-states *)

Class Lens (S T : Type) := {
  view : S → T;
  upd : T → S → S;
  view_upd t s : view (upd t s) = t;
  upd_view s : upd (view s) s = s;
  upd_upd t t' s : upd t (upd t' s) = upd t s;
}.

#[global] Program Instance lens_id S : Lens S S := {| view s := s; upd t _ := t |}.
Solve Obligations with done.

Definition lift {S T A} `{Lens S T} (m : M T A) : M S A := zoom view upd m.

Section lift.
Context {S T : Type} `{Lens S T}.

Lemma lift_ok {A} (m : M T A) s a t :
  m (view s) = Ok a t → lift m s = Ok a (upd t s).
Proof. unfold lift, zoom. by intros ->. Qed.

Lemma lift_ok_same {A} (m : M T A) s a :
  m (view s) = Ok a (view s) → lift m s = Ok a s.
Proof. intros E. rewrite (lift_ok _ _ _ _ E). by rewrite upd_view. Qed.
End lift.

(** ** Data: spinlock.h, proc.h *)

(** The spin locks of the kernel.  The last two are the locks inside the
    sleep locks of a buffer and of an inode. *)
Inductive lockid :=
| LPtable | LTicks | LKmem | LBcache | LIcache | LFtable | LLog | LIde | LCons
| LPipe (p : Z) | LBuf (i : nat) | LInode (i : nat).

#[global] Instance lockid_eq_dec : EqDecision lockid.
Proof. solve_decision. Defined.

Definition lockid_code (l : lockid) : nat * Z :=
  match l with
  | LPtable => (0%nat, 0) | LTicks => (1%nat, 0) | LKmem => (2%nat, 0)
  | LBcache => (3%nat, 0) | LIcache => (4%nat, 0) | LFtable => (5%nat, 0)
  | LLog => (6%nat, 0) | LIde => (7%nat, 0) | LCons => (8%nat, 0)
  | LPipe p => (9%nat, p) | LBuf i => (10%nat, Z.of_nat i) | LInode i => (11%nat, Z.of_nat i)
  end.

Definition lockid_decode (c : nat * Z) : lockid :=
  match c.1 with
  | 0 => LPtable | 1 => LTicks | 2 => LKmem | 3 => LBcache | 4 => LIcache
  | 5 => LFtable | 6 => LLog | 7 => LIde | 8 => LCons | 9 => LPipe c.2
  | 10 => LBuf (Z.to_nat c.2) | _ => LInode (Z.to_nat c.2)
  end%nat.

#[global] Program Instance lockid_countable : Countable lockid :=
  inj_countable' lockid_code lockid_decode _.
Next Obligation. intros []; cbn; rewrite ?Nat2Z.id; done. Qed.

(** struct spinlock: [locked], and the CPU that holds it. *)
Record spinlock := Spinlock { locked : Z; lcpu : option nat }.
#[global] Instance spinlock_eq_dec : EqDecision spinlock.
Proof. solve_decision. Defined.

(** struct cpu, without the segment descriptors and the scheduler context; of
    the task state only [esp0], the kernel stack pointer that switchuvm() sets.
    [intena] is FL_IF of the saved eflags. *)
Record cpu := Cpu { apicid : Z; ncli : Z; intena : bool; cproc : option nat; ts_esp0 : Z }.

(** [cr3] is the page directory register of the running CPU. *)
Record hart := Hart {
  IF : bool;
  lapicid : Z;
  cr3 : Z;
  cpus : list cpu;
  locks : gmap lockid spinlock;
}.

#[global] Instance spinlock_inhabited : Inhabited spinlock := populate (Spinlock 0 None).
#[global] Instance cpu_inhabited : Inhabited cpu := populate (Cpu 0 0 false None 0).

Definition set_IF (b : bool) (h : hart) : hart := Hart b (lapicid h) (cr3 h) (cpus h) (locks h).
Definition set_cr3 (v : Z) (h : hart) : hart := Hart (IF h) (lapicid h) v (cpus h) (locks h).
Definition set_cpus (c : list cpu) (h : hart) : hart := Hart (IF h) (lapicid h) (cr3 h) c (locks h).
Definition set_locks (m : gmap lockid spinlock) (h : hart) : hart :=
  Hart (IF h) (lapicid h) (cr3 h) (cpus h) m.

(** A static lock that was never initialised is all zeros. *)
Definition get_lock (h : hart) (l : lockid) : spinlock := default inhabitant (locks h !! l).
Definition set_lock (l : lockid) (k : spinlock) (h : hart) : hart := set_locks (<[l := k]> (locks h)) h.

Definition set_ncli (n : Z) (c : cpu) : cpu := Cpu (apicid c) n (intena c) (cproc c) (ts_esp0 c).
Definition set_intena (b : bool) (c : cpu) : cpu := Cpu (apicid c) (ncli c) b (cproc c) (ts_esp0 c).
Definition set_cproc (p : option nat) (c : cpu) : cpu := Cpu (apicid c) (ncli c) (intena c) p (ts_esp0 c).
Definition set_esp0 (v : Z) (c : cpu) : cpu := Cpu (apicid c) (ncli c) (intena c) (cproc c) v.
Definition alter_cpu (i : nat) (f : cpu → cpu) (h : hart) : hart := set_cpus (alter f i (cpus h)) h.

(** ** Operations *)

Module Ops.
Definition cli : M hart unit := modify (set_IF false).
Definition sti : M hart unit := modify (set_IF true).
Definition readeflags : M hart bool := gets IF.

(** The index of the CPU structure; a [struct cpu *] is its index. *)
Definition mycpu : M hart nat :=
  eflags ← readeflags;
  if eflags : bool then panic "mycpu called with interrupts enabled
" else
  h ← get;
  match first_index (λ c, apicid c =? lapicid h) (cpus h) with
  | Some i => mret i
  | None => panic "unknown apicid
"
  end.

Definition cpuid : M hart Z := c ← mycpu; mret (Z.of_nat c).

Definition pushcli : M hart unit :=
  eflags ← readeflags;
  cli;;
  c ← mycpu;
  h ← get;
  mwhen (ncli (cpus h !!! c) =? 0) (modify (alter_cpu c (set_intena eflags)));;
  modify (alter_cpu c (λ k, set_ncli (ncli k + 1) k)).

Definition popcli : M hart unit :=
  eflags ← readeflags;
  if eflags : bool then panic "popcli - interruptible" else
  c ← mycpu;
  modify (alter_cpu c (λ k, set_ncli (ncli k - 1) k));;
  h ← get;
  if ncli (cpus h !!! c) <? 0 then panic "popcli" else
  mwhen ((ncli (cpus h !!! c) =? 0) && intena (cpus h !!! c)) sti.

Definition myproc : M hart (option nat) :=
  pushcli;;
  c ← mycpu;
  p ← gets (λ h, cproc (cpus h !!! c));
  popcli;;
  mret p.

Definition initlock (l : lockid) : M hart unit := modify (set_lock l (Spinlock 0 None)).

Definition holding (l : lockid) : M hart bool :=
  pushcli;;
  k ← gets (λ h, get_lock h l);
  c ← mycpu;
  popcli;;
  mret (negb (locked k =? 0) && bool_decide (lcpu k = Some c)).

(** x86.h: xchg, on the lock word. *)
Definition xchg (newval : Z) (k : spinlock) : Z * spinlock := (locked k, Spinlock newval (lcpu k)).

(** The [while(xchg(...) != 0);] spins for ever when the lock is taken:
    nobody else runs in a sequential execution. *)
Definition acquire (l : lockid) : M hart unit :=
  pushcli;;
  b ← holding l;
  if b : bool then panic "acquire" else
  h ← get;
  let '(old, k) := xchg 1 (get_lock h l) in
  modify (set_lock l k);;
  if negb (old =? 0) then spin else
  c ← mycpu;
  h ← get;
  modify (set_lock l (Spinlock (locked (get_lock h l)) (Some c))).

Definition release (l : lockid) : M hart unit :=
  b ← holding l;
  if negb b then panic "release" else
  h ← get;
  modify (set_lock l (Spinlock (locked (get_lock h l)) None));;
  modify (set_lock l (Spinlock 0 None));;
  popcli.
End Ops.

Section lifted.
Context {S : Type} `{Lens S hart}.
Definition mycpu : M S nat := lift Ops.mycpu.
Definition cpuid : M S Z := lift Ops.cpuid.
Definition pushcli : M S unit := lift Ops.pushcli.
Definition popcli : M S unit := lift Ops.popcli.
Definition myproc : M S (option nat) := lift Ops.myproc.
Definition initlock (l : lockid) : M S unit := lift (Ops.initlock l).
Definition holding (l : lockid) : M S bool := lift (Ops.holding l).
Definition acquire (l : lockid) : M S unit := lift (Ops.acquire l).
Definition release (l : lockid) : M S unit := lift (Ops.release l).
End lifted.

(** ** Interrupt state

    [balanced c h]: the running CPU is number [c]; the interrupt flag agrees
    with the pushcli nesting depth of that CPU.  The kernel runs in such
    states outside pushcli and popcli themselves. *)

Definition balanced (c : nat) (h : hart) : Prop :=
  first_index (λ k, apicid k =? lapicid h) (cpus h) = Some c ∧
  ∃ k, cpus h !! c = Some k ∧ 0 ≤ ncli k ∧
       (ncli k = 0 → intena k = IF h) ∧ (0 < ncli k → IF h = false).

Definition is_free (l : lockid) (h : hart) : Prop := locks h !! l = Some (Spinlock 0 None).

(** The process the running CPU executes. *)
Definition curproc (c : nat) (h : hart) : option nat := cproc (cpus h !!! c).

(** The state after pushcli(), and after acquire(). *)
Definition mask (c : nat) (h : hart) : hart :=
  set_IF false (alter_cpu c (λ k, set_ncli (ncli k + 1) k) h).
Definition acq (c : nat) (l : lockid) (h : hart) : hart :=
  set_lock l (Spinlock 1 (Some c)) (mask c h).

Lemma first_index_alter {A} (f : A → bool) (g : A → A) i l :
  (∀ x, f (g x) = f x) → first_index f (alter g i l) = first_index f l.
Proof.
  intros Hfg. revert i. induction l as [|x l IH]; intros [|i]; [done..| |].
  - change (alter g 0%nat (x :: l)) with (g x :: l). simpl. by rewrite Hfg.
  - change (alter g (S i) (x :: l)) with (x :: alter g i l). simpl. by rewrite IH.
Qed.

Lemma list_alter_ext_id {A} (f : A → A) i (l : list A) x :
  l !! i = Some x → f x = x → alter f i l = l.
Proof.
  intros Hi Hf. rewrite (list_alter_ext f id l l i); [|by intros ? ?; simplify_eq|done].
  by apply list_alter_id.
Qed.

Section hart.
Implicit Types (h : hart) (c : nat) (l : lockid).

Lemma get_lock_set l k h : get_lock (set_lock l k h) l = k.
Proof. unfold get_lock; cbn. by rewrite lookup_insert_eq. Qed.

Lemma get_lock_acq c l h : get_lock (acq c l h) l = Spinlock 1 (Some c).
Proof. apply get_lock_set. Qed.

Lemma mycpu_spec c h : balanced c h → IF h = false → Ops.mycpu h = Ok c h.
Proof.
  intros [Hc _] HIF. unfold Ops.mycpu, Ops.readeflags. mred. rewrite HIF. mred. by rewrite Hc.
Qed.

Lemma mask_balanced c h : balanced c h → balanced c (mask c h).
Proof.
  intros [Hc (k & Hk & Hn & Hi & Hz)]. split.
  - cbn. by rewrite first_index_alter.
  - exists (set_ncli (ncli k + 1) k). cbn. rewrite list_lookup_alter_eq, Hk.
    split_and!; [done|lia|lia|done].
Qed.

Lemma set_lock_balanced c l k h : balanced c (set_lock l k h) ↔ balanced c h.
Proof. done. Qed.

Lemma acq_balanced c l h : balanced c h → balanced c (acq c l h).
Proof. intros H. apply set_lock_balanced. by apply mask_balanced. Qed.

Lemma pushcli_spec c h : balanced c h → Ops.pushcli h = Ok tt (mask c h).
Proof.
  intros Hb. pose proof Hb as [Hc (k & Hk & Hn & Hi & Hz)].
  unfold Ops.pushcli, Ops.readeflags, Ops.cli. mred.
  assert (Ops.mycpu (set_IF false h) = Ok c (set_IF false h)) as Hm.
  { unfold Ops.mycpu, Ops.readeflags. mred. cbn [IF set_IF]. mred.
    cbn [lapicid cpus set_IF]. by rewrite Hc. }
  mstep Hm. mred. cbn [cpus set_IF]. rewrite (list_lookup_total_correct _ _ _ Hk).
  unfold mask. destruct (Z.eqb_spec (ncli k) 0) as [E|E]; mred; [|done].
  do 2 f_equal. unfold alter_cpu, set_IF, set_cpus; cbn. f_equal.
  rewrite (list_alter_ext_id (set_intena (IF h)) c _ k); [done|done|].
  rewrite <- Hi by done. by destruct k.
Qed.

Lemma popcli_spec c h : balanced c h → Ops.popcli (mask c h) = Ok tt h.
Proof.
  intros Hb. pose proof Hb as [Hc (k & Hk & Hn & Hi & Hz)].
  unfold Ops.popcli, Ops.readeflags. mred. cbn [IF mask set_IF].
  mstep (mycpu_spec c _ (mask_balanced c h Hb) eq_refl).
  assert (alter_cpu c (λ k, set_ncli (ncli k - 1) k) (mask c h) = set_IF false h) as Hun.
  { unfold mask, alter_cpu, set_cpus, set_IF; cbn. f_equal.
    rewrite list_alter_alter_eq. apply (list_alter_ext_id _ _ _ k); [done|].
    destruct k; unfold compose, set_ncli; cbn. f_equal. lia. }
  mred. rewrite Hun. cbn [cpus set_IF].
  rewrite (list_lookup_total_correct _ _ _ Hk).
  replace (ncli k <? 0) with false by lia.
  destruct (Z.eqb_spec (ncli k) 0) as [E|E]; cbn [andb]; mred.
  - rewrite Hi by done. destruct h as [[] ? ? ? ?]; done.
  - destruct h as [[] ? ? ? ?]; [|done]. specialize (Hz ltac:(lia)). done.
Qed.

Lemma mycpu_mask c h : balanced c h → Ops.mycpu (mask c h) = Ok c (mask c h).
Proof. intros. apply mycpu_spec; [by apply mask_balanced|done]. Qed.

Lemma myproc_spec c h : balanced c h → Ops.myproc h = Ok (curproc c h) h.
Proof.
  intros Hb. unfold Ops.myproc.
  mstep (pushcli_spec c h Hb).
  mstep (mycpu_mask c h Hb). mred.
  mstep (popcli_spec c h Hb). mred. f_equal.
  pose proof Hb as [_ (k & Hk & _)]. unfold curproc. cbn.
  rewrite list_lookup_total_alter_eq, (list_lookup_total_correct _ _ _ Hk); [done|].
  by eapply lookup_lt_Some.
Qed.

Lemma holding_spec c l h :
  balanced c h →
  Ops.holding l h =
    Ok (negb (locked (get_lock h l) =? 0) && bool_decide (lcpu (get_lock h l) = Some c)) h.
Proof.
  intros Hb. unfold Ops.holding.
  mstep (pushcli_spec c h Hb). mred.
  mstep (mycpu_mask c h Hb). mstep (popcli_spec c h Hb). done.
Qed.

Lemma acquire_spec c l h :
  balanced c h → is_free l h → Ops.acquire l h = Ok tt (acq c l h).
Proof.
  intros Hb Hf. unfold Ops.acquire.
  assert (get_lock (mask c h) l = Spinlock 0 None) as Hl.
  { unfold get_lock. cbn. by rewrite Hf. }
  mstep (pushcli_spec c h Hb).
  mstep (holding_spec c l _ (mask_balanced c h Hb)). rewrite Hl.
  cbn [locked lcpu negb Z.eqb andb]. mred. rewrite Hl. cbn [Ops.xchg locked lcpu]. mred.
  change (negb (0 =? 0)) with false. cbv iota.
  assert (balanced c (set_lock l (Spinlock 1 None) (mask c h))) as Hb' by (by apply mask_balanced).
  mstep (mycpu_spec c _ Hb' eq_refl). mred. unfold get_lock at 1. cbn.
  rewrite lookup_insert_eq. cbn. unfold acq, set_lock; cbn.
  unfold set_locks; cbn. by rewrite insert_insert_eq.
Qed.

(** acquire() on a lock the CPU already holds. *)
Lemma acquire_reentrant c l h :
  balanced c h → locks h !! l = Some (Spinlock 1 (Some c)) → Ops.acquire l h = Panic "acquire".
Proof.
  intros Hb Hl. unfold Ops.acquire.
  mstep (pushcli_spec c h Hb).
  mstep (holding_spec c l _ (mask_balanced c h Hb)).
  unfold get_lock. cbn. rewrite Hl. cbn. by rewrite bool_decide_eq_true_2.
Qed.

(** release() of a held lock: what remains is whatever the other pushcli's
    left. *)
Lemma release_spec c l h :
  balanced c h →
  Ops.release l (set_lock l (Spinlock 1 (Some c)) (mask c h))
  = Ok tt (set_lock l (Spinlock 0 None) h).
Proof.
  intros Hb. unfold Ops.release.
  mstep (holding_spec c l _ (acq_balanced c l h Hb)).
  rewrite get_lock_acq. cbn [locked lcpu].
  rewrite bool_decide_eq_true_2 by done.
  change (negb (negb (1 =? 0) && true)) with false. cbv iota. mred.
  match goal with |- Ops.popcli ?x = _ =>
    replace x with (mask c (set_lock l (Spinlock 0 None) h)) end.
  - by apply popcli_spec.
  - unfold mask, set_lock, set_IF, alter_cpu, set_cpus, set_locks; cbn.
    by rewrite !insert_insert_eq.
Qed.

Lemma release_acq c l h :
  balanced c h → is_free l h → Ops.release l (acq c l h) = Ok tt h.
Proof.
  intros Hb Hf. unfold acq. rewrite (release_spec c l h Hb). f_equal.
  destruct h as [i a r cs ls]. unfold set_lock, set_locks; cbn. f_equal. by apply insert_id.
Qed.

(** Releasing the outer of two locks first, as sleep() does. *)
Lemma release_outer c l1 l2 h :
  balanced c h → is_free l1 h → l1 ≠ l2 →
  Ops.release l1 (acq c l2 (acq c l1 h)) = Ok tt (acq c l2 h).
Proof.
  intros Hb Hf Hne.
  replace (acq c l2 (acq c l1 h)) with (set_lock l1 (Spinlock 1 (Some c)) (mask c (acq c l2 h))).
  - rewrite (release_spec c l1 _ (acq_balanced c l2 h Hb)). f_equal.
    unfold acq, set_lock, mask, set_IF, alter_cpu, set_cpus, set_locks; cbn. f_equal.
    rewrite insert_id; [done|]. by rewrite lookup_insert_ne.
  - unfold acq, set_lock, mask, set_IF, alter_cpu, set_cpus, set_locks; cbn. f_equal.
    by rewrite insert_insert_ne.
Qed.

(** release() of a lock the CPU does not hold. *)
Lemma release_not_held c l h :
  balanced c h → lcpu (get_lock h l) ≠ Some c → Ops.release l h = Panic "release".
Proof.
  intros Hb Hne. unfold Ops.release.
  mstep (holding_spec c l h Hb).
  rewrite bool_decide_eq_false_2 by done. by rewrite andb_false_r.
Qed.

Lemma curproc_acq c l h : balanced c h → curproc c (acq c l h) = curproc c h.
Proof.
  intros [_ (k & Hk & _)]. unfold curproc. cbn.
  rewrite list_lookup_total_alter_eq; [done|]. by eapply lookup_lt_Some.
Qed.

Lemma is_free_acq c l l' h : l ≠ l' → is_free l' h → is_free l' (acq c l h).
Proof. intros Hne Hf. unfold is_free. cbn. by rewrite lookup_insert_ne. Qed.
(** The scheduler loop starts with sti(): whatever [intena] was left by the
    process that ran last, the next acquire() records that interrupts are on. *)
Definition idle (c : nat) (h : hart) : Prop :=
  first_index (λ k, apicid k =? lapicid h) (cpus h) = Some c ∧
  ∃ k, cpus h !! c = Some k ∧ ncli k = 0.
Definition online (c : nat) (h : hart) : hart := set_IF true (alter_cpu c (set_intena true) h).

Lemma balanced_idle c h : balanced c h → ncli (cpus h !!! c) = 0 → idle c h.
Proof.
  intros [Hc (k & Hk & _)] Hn. split; [done|]. exists k.
  rewrite (list_lookup_total_correct _ _ _ Hk) in Hn. done.
Qed.

Lemma online_balanced c h : idle c h → balanced c (online c h).
Proof.
  intros [Hc (k & Hk & Hn)]. split; [cbn; by rewrite first_index_alter|].
  exists (set_intena true k). cbn. rewrite list_lookup_alter_eq, Hk. split_and!; [done|lia|done|lia].
Qed.

Lemma pushcli_online c h : idle c h → Ops.pushcli (set_IF true h) = Ok tt (mask c (online c h)).
Proof.
  intros Hi. pose proof Hi as [Hc (k & Hk & Hn)].
  unfold Ops.pushcli, Ops.readeflags, Ops.cli. mred.
  assert (Ops.mycpu (set_IF false (set_IF true h)) = Ok c (set_IF false (set_IF true h))) as Hm.
  { unfold Ops.mycpu, Ops.readeflags. mred. cbn [IF set_IF]. mred.
    cbn [lapicid cpus set_IF]. by rewrite Hc. }
  mstep Hm. mred. cbn [cpus set_IF]. rewrite (list_lookup_total_correct _ _ _ Hk), Hn.
  done.
Qed.

Lemma acquire_online c l h :
  idle c h → is_free l h → Ops.acquire l (set_IF true h) = Ok tt (acq c l (online c h)).
Proof.
  intros Hi Hf. rewrite <- (acquire_spec c l (online c h) (online_balanced c h Hi) Hf).
  unfold Ops.acquire. mstep (pushcli_online c h Hi).
  by mstep (pushcli_spec c _ (online_balanced c h Hi)).
Qed.
End hart.
#[export] Hint Resolve acq_balanced mask_balanced is_free_acq : kernel.

(** The same facts on any state that contains a hart. *)
Section lifted_specs.
Context {S : Type} `{Lens S hart}.
Implicit Types (s : S) (c : nat) (l : lockid).

Lemma acquire_ok c l s :
  balanced c (view s) → is_free l (view s) → acquire l s = Ok tt (upd (acq c l (view s)) s).
Proof. intros. by apply lift_ok, acquire_spec. Qed.

Lemma release_ok c l h s :
  view s = acq c l h → balanced c h → is_free l h → release l s = Ok tt (upd h s).
Proof. intros Hv ??. apply lift_ok. rewrite Hv. by apply release_acq. Qed.

Lemma release_outer_ok c l1 l2 h s :
  view s = acq c l2 (acq c l1 h) → balanced c h → is_free l1 h → l1 ≠ l2 →
  release l1 s = Ok tt (upd (acq c l2 h) s).
Proof. intros Hv ???. apply lift_ok. rewrite Hv. by apply release_outer. Qed.

Lemma myproc_ok c s : balanced c (view s) → myproc s = Ok (curproc c (view s)) s.
Proof. intros. by apply lift_ok_same, myproc_spec. Qed.

Lemma holding_ok c l s :
  balanced c (view s) →
  holding l s =
    Ok (negb (locked (get_lock (view s) l) =? 0)
        && bool_decide (lcpu (get_lock (view s) l) = Some c)) s.
Proof. intros. by apply lift_ok_same, holding_spec. Qed.

Lemma mycpu_ok c s : balanced c (view s) → IF (view s) = false → mycpu s = Ok c s.
Proof. intros. by apply lift_ok_same, mycpu_spec. Qed.

(** A critical section that does not touch the hardware state runs as if it were
    atomic, and leaves that state as it was. *)
Lemma locked_section c l (f : S → S) s :
  balanced c (view s) → is_free l (view s) → (∀ h s, f (upd h s) = upd h (f s)) →
  acquire l s = Ok tt (upd (acq c l (view s)) s) ∧
  release l (f (upd (acq c l (view s)) s)) = Ok tt (f s).
Proof.
  intros Hb Hf Hc. split; [by apply acquire_ok|]. rewrite Hc, (release_ok c l (view s)) by (done || apply view_upd).
  by rewrite upd_upd, <- Hc, upd_view.
Qed.
End lifted_specs.

(** Pushcli/popcli and acquire/release are matched: in every
    state whose interrupt flag agrees with the nesting depth, taking and
    releasing a free lock disables interrupts in between and restores the
    whole machine state, so interrupts stay off inside nested sections and
    come back with the outermost release; re-acquiring a held lock and
    releasing one that is not held panic. *)
Theorem spinlock_matched c l h :
  balanced c h → is_free l h →
  ∃ h', Ops.acquire l h = Ok tt h' ∧ IF h' = false ∧ Ops.holding l h' = Ok true h' ∧
        Ops.release l h' = Ok tt h ∧ Ops.acquire l h' = Panic "acquire" ∧
        Ops.release l h = Panic "release".
Proof.
  intros Hb Hf. exists (acq c l h).
  split; [by apply acquire_spec|]. split; [done|].
  split.
  { rewrite (holding_spec c) by auto with kernel. rewrite get_lock_acq. cbn [locked lcpu].
    by rewrite bool_decide_eq_true_2. }
  split; [by apply release_acq|]. split.
  - apply (acquire_reentrant c); [auto with kernel|]. cbn. by rewrite lookup_insert_eq.
  - apply (release_not_held c); [done|]. unfold get_lock. by rewrite Hf.
Qed.

(** A CPU with interrupts on and the static locks initialised. *)
Definition hart0 : hart := Hart true 5 0 [Cpu 2 0 true None 0; Cpu 5 0 true (Some 0%nat) 0]
  (list_to_map ((λ l, (l, Spinlock 0 None)) <$>
     [LPtable; LTicks; LKmem; LBcache; LIcache; LFtable; LLog; LIde; LCons])).

Lemma hart0_balanced : balanced 1 hart0.
Proof. split; [done|]. eexists. split; [done|]. cbn. done. Qed.

Lemma spinlock_matched_witness :
  ∃ h', Ops.acquire LPtable hart0 = Ok tt h' ∧ IF h' = false ∧ Ops.holding LPtable h' = Ok true h' ∧
        Ops.release LPtable h' = Ok tt hart0 ∧ Ops.acquire LPtable h' = Panic "acquire" ∧
        Ops.release LPtable hart0 = Panic "release".
Proof. apply (spinlock_matched 1 LPtable hart0); [exact hart0_balanced|reflexivity]. Defined.

(** ** Mutual exclusion among CPUs

    acquire and release at the granularity at which other CPUs can observe
    them: the atomic xchg, the separate store of [lk->cpu], and in release the
    store of [cpu] before the store of [locked]. *)

Module Race.
Inductive pc := Out | Spinning | Got | Inside | Leaving | Panicked.

Record state := State { lk : spinlock; pcs : list pc }.

(** The value [holding()] computes on CPU [c]. *)
Definition holds (k : spinlock) (c : nat) : bool :=
  negb (locked k =? 0) && bool_decide (lcpu k = Some c).

Inductive step : state → state → Prop :=
| step_enter s c :
    pcs s !! c = Some Out →
    step s (State (lk s) (<[c := if holds (lk s) c then Panicked else Spinning]> (pcs s)))
| step_xchg s c old k :
    pcs s !! c = Some Spinning → Ops.xchg 1 (lk s) = (old, k) →
    step s (State k (<[c := if old =? 0 then Got else Spinning]> (pcs s)))
| step_record s c :
    pcs s !! c = Some Got →
    step s (State (Spinlock (locked (lk s)) (Some c)) (<[c := Inside]> (pcs s)))
| step_leave s c :
    pcs s !! c = Some Inside →
    step s (State (Spinlock (locked (lk s)) None)
              (<[c := if holds (lk s) c then Leaving else Panicked]> (pcs s)))
| step_unlock s c :
    pcs s !! c = Some Leaving →
    step s (State (Spinlock 0 (lcpu (lk s))) (<[c := Out]> (pcs s))).

Definition init (n : nat) : state := State (Spinlock 0 None) (replicate n Out).

Definition owner (p : pc) : bool := match p with Got | Inside | Leaving => true | _ => false end.

Definition waiting (p : pc) : Prop := p = Out ∨ p = Spinning.

Definition inv (s : state) : Prop :=
  (lk s = Spinlock 0 None ∧ ∀ c p, pcs s !! c = Some p → waiting p) ∨
  (∃ o po, pcs s !! o = Some po ∧ owner po = true ∧
     lk s = Spinlock 1 (match po with Inside => Some o | _ => None end) ∧
     ∀ c p, c ≠ o → pcs s !! c = Some p → waiting p).

Lemma holds_spec k c : holds k c = true ↔ locked k ≠ 0 ∧ lcpu k = Some c.
Proof. unfold holds. rewrite andb_true_iff, negb_true_iff, Z.eqb_neq, bool_decide_eq_true. done. Qed.

(** Who is where after CPU [c] moved to [q]. *)
Lemma lookup_move (l : list pc) c q p : l !! c = Some p → <[c:=q]> l !! c = Some q.
Proof. intros. apply list_lookup_insert_eq. by eapply lookup_lt_Some. Qed.

Lemma others_waiting (l : list pc) c q (P : nat → Prop) :
  (∀ c' p, P c' → l !! c' = Some p → waiting p) → (P c → waiting q) →
  ∀ c' p, P c' → <[c:=q]> l !! c' = Some p → waiting p.
Proof.
  intros Hl Hq c' p HP. destruct (decide (c = c')) as [->|?].
  - intros [[_ [-> _]]|[? _]]%list_lookup_insert_Some; [by apply Hq|done].
  - rewrite list_lookup_insert_ne by done. by apply Hl.
Qed.

Lemma inv_unlocked l : inv (State (Spinlock 0 None) l) ↔ ∀ c p, True → l !! c = Some p → waiting p.
Proof.
  unfold inv; cbn. split; [|by intros; left; eauto].
  intros [[_ ?]|(?&?&?&?&?&?)]; [by eauto|done].
Qed.

(** A CPU that is not waiting is the owner. *)
Lemma owner_is s c p : inv s → pcs s !! c = Some p → ¬ waiting p →
  owner p = true ∧ lk s = Spinlock 1 (match p with Inside => Some c | _ => None end) ∧
  ∀ c' p', c' ≠ c → pcs s !! c' = Some p' → waiting p'.
Proof.
  intros [[Hk Hw]|(o & po & Ho & Hown & Hk & Hw)] Hc Hp; [by destruct Hp; eauto|].
  destruct (decide (c = o)) as [->|Hne]; [|by destruct Hp; eauto].
  by simplify_eq.
Qed.

(** The owner moves to another owner state. *)
Lemma inv_owner l c q p :
  l !! c = Some p → owner q = true → (∀ c' p', c' ≠ c → l !! c' = Some p' → waiting p') →
  inv (State (Spinlock 1 (match q with Inside => Some c | _ => None end)) (<[c:=q]> l)).
Proof.
  intros Hc Hq Hw. right. exists c, q. cbn.
  split; [by eapply lookup_move|]. split; [done|]. split; [done|].
  intros c' p' Hne. rewrite list_lookup_insert_ne by done. by apply Hw.
Qed.

(** A waiting CPU moves to a waiting state: the lock does not change. *)
Lemma inv_waiting s c q p :
  inv s → pcs s !! c = Some p → waiting p → waiting q → inv (State (lk s) (<[c:=q]> (pcs s))).
Proof.
  intros [[Hk Hw]|(o & po & Ho & Hown & Hk & Hw)] Hc Hp Hq.
  - left. cbn. split; [done|]. intros c' p'.
    eapply (others_waiting _ _ _ (λ _, True)); eauto.
  - right. exists o, po. cbn.
    assert (c ≠ o) by (intros ->; simplify_eq; destruct Hp as [-> | ->]; done).
    rewrite list_lookup_insert_ne by done. split_and!; [done..|].
    by eapply (others_waiting _ _ _ (λ c', c' ≠ o)).
Qed.

(** Only a CPU inside its critical section sees [holding()]. *)
Lemma holds_inside s c p : inv s → pcs s !! c = Some p → holds (lk s) c = true ↔ p = Inside.
Proof.
  rewrite holds_spec. intros [[Hk Hw]|(o & po & Ho & Hown & Hk & Hw)] Hc; rewrite Hk; cbn.
  - destruct (Hw _ _ Hc); naive_solver.
  - destruct (decide (c = o)) as [->|Hne].
    + assert (p = po) as -> by congruence. destruct po; naive_solver.
    + destruct (Hw _ _ Hne Hc) as [-> | ->]; destruct po; naive_solver.
Qed.

Lemma inv_step s s' : inv s → step s s' → inv s'.
Proof.
  intros Hinv Hstep. destruct Hstep as [s c Hc|s c old k Hc Hx|s c Hc|s c Hc|s c Hc].
  - destruct (holds (lk s) c) eqn:E; [apply (holds_inside _ _ _ Hinv Hc) in E; done|].
    eapply inv_waiting; eauto; [by left|by right].
  - unfold Ops.xchg in Hx. simplify_eq.
    pose proof Hinv as [[Hk Hw]|(o & po & Ho & Hown & Hk & Hw)].
    + rewrite Hk; cbn. apply (inv_owner (pcs s) c Got Spinning); eauto.
    + rewrite Hk; cbn.
      pose proof (inv_waiting s c Spinning Spinning Hinv Hc ltac:(by right) ltac:(by right)) as Hi.
      by rewrite Hk in Hi.
  - destruct (owner_is s c Got Hinv Hc) as (_ & -> & Hw); [by intros [|]|]. cbn.
    by apply (inv_owner _ c Inside Got).
  - destruct (owner_is s c Inside Hinv Hc) as (_ & Hk & Hw); [by intros [|]|].
    assert (holds (lk s) c = true) as -> by (by apply (holds_inside _ _ _ Hinv Hc)).
    rewrite Hk; cbn. by apply (inv_owner _ c Leaving Inside).
  - destruct (owner_is s c Leaving Hinv Hc) as (_ & -> & Hw); [by intros [|]|]. cbn.
    apply inv_unlocked. intros c' p _ Hp. destruct (decide (c' = c)) as [->|?].
    + rewrite (lookup_move _ _ _ _ Hc) in Hp. simplify_eq. by left.
    + rewrite list_lookup_insert_ne in Hp by done. eauto.
Qed.

Lemma inv_init n : inv (init n).
Proof. apply inv_unlocked. intros c p _ [-> _]%lookup_replicate. by left. Qed.
End Race.

(** C34 [invariant]: mutual exclusion of acquire/release among any number of
    CPUs, in every interleaving of their atomic steps: at most one CPU is
    between its successful xchg and its final store, [holding()] is true on a
    CPU exactly while it is inside its critical section, and neither the
    re-entry panic of acquire nor the panic of release is ever reached. *)
Theorem spinlock_mutual_exclusion n s :
  rtc Race.step (Race.init n) s →
  (∀ c1 c2 p1 p2, Race.pcs s !! c1 = Some p1 → Race.pcs s !! c2 = Some p2 →
     Race.owner p1 = true → Race.owner p2 = true → c1 = c2) ∧
  (∀ c p, Race.pcs s !! c = Some p → Race.holds (Race.lk s) c = true ↔ p = Race.Inside) ∧
  (∀ c, Race.pcs s !! c ≠ Some Race.Panicked).
Proof.
  intros Hs.
  assert (Race.inv s) as Hinv.
  { eapply (rtc_invariant Race.step); [|apply (Race.inv_init n)|done]. apply Race.inv_step. }
  split_and!.
  - intros c1 c2 p1 p2 H1 H2 Ho1 Ho2.
    destruct (Race.owner_is s c1 p1 Hinv H1) as (_ & _ & Hw); [by intros [-> | ->]|].
    destruct (decide (c2 = c1)) as [|Hne]; [done|]. destruct (Hw _ _ Hne H2) as [-> | ->]; done.
  - intros c p Hc. by apply Race.holds_inside.
  - intros c Hc. destruct (Race.owner_is s c _ Hinv Hc) as [? _]; [by intros [|]|done].
Qed.

(** Two CPUs: the first is inside, the second spins. *)
Lemma spinlock_mutual_exclusion_witness :
  let s := Race.State (Spinlock 1 (Some 0%nat)) [Race.Inside; Race.Spinning] in
  rtc Race.step (Race.init 2) s ∧ ∀ c, Race.pcs s !! c ≠ Some Race.Panicked.
Proof.
  cbv zeta.
  assert (rtc Race.step (Race.init 2) (Race.State (Spinlock 1 (Some 0%nat)) [Race.Inside; Race.Spinning])) as H.
  { eapply rtc_l; [apply (Race.step_enter _ 0%nat); reflexivity|].
    eapply rtc_l; [apply (Race.step_enter _ 1%nat); reflexivity|].
    eapply rtc_l; [eapply (Race.step_xchg _ 0%nat); reflexivity|].
    eapply rtc_l; [eapply (Race.step_xchg _ 1%nat); reflexivity|].
    eapply rtc_l; [apply (Race.step_record _ 0%nat); reflexivity|]. apply rtc_refl. }
  split; [exact H|]. exact (proj2 (proj2 (spinlock_mutual_exclusion 2 _ H))).
Defined.
