(* ===== verification/Seg.v ===== *)
(** * Segments: the descriptors of mmu.h, seginit() and switchuvm() of vm.c, idtinit() of trap.c

    A descriptor is the structure with its bit-fields, and [encode] is the eight
    bytes the processor sees, as a number.  Each CPU's [gdt] and the part of its
    task state that the kernel sets are in [gdts] and [tss]; [gdtr], [idtr] and
    [tr] are registers of the running CPU.  The addresses of the arrays are the
    linker's. *)

From S2P Require Import Prelude Machine.
Open Scope kernel_scope.

Definition SEG_KCODE : Z := 1.
Definition SEG_KDATA : Z := 2.
Definition SEG_UCODE : Z := 3.
Definition SEG_UDATA : Z := 4.
Definition SEG_TSS : Z := 5.
Definition NSEGS : nat := 6.
Definition DPL_USER : Z := 0x3.
Definition STA_X : Z := 0x8.
Definition STA_W : Z := 0x2.
Definition STA_R : Z := 0x2.
Definition STS_T32A : Z := 0x9.

Record segdesc := Segdesc {
  lim_15_0 : Z; base_15_0 : Z; base_23_16 : Z; sd_type : Z; sd_s : Z; sd_dpl : Z; sd_p : Z;
  lim_19_16 : Z; sd_avl : Z; sd_rsv1 : Z; sd_db : Z; sd_g : Z; base_31_24 : Z
}.
#[global] Instance segdesc_inhabited : Inhabited segdesc := populate (Segdesc 0 0 0 0 0 0 0 0 0 0 0 0 0).

(** A value stored in a bit-field of width [w]. *)
Definition field (w v : Z) : Z := v mod 2 ^ w.

Definition SEG (type base lim dpl : Z) : segdesc :=
  Segdesc (field 16 (Z.land (Z.shiftr lim 12) 0xffff)) (field 16 (Z.land (u32 base) 0xffff))
    (field 8 (Z.land (Z.shiftr (u32 base) 16) 0xff)) (field 4 type) 1 (field 2 dpl) 1
    (field 4 (Z.shiftr (u32 lim) 28)) 0 0 1 1 (field 8 (Z.shiftr (u32 base) 24)).
Definition SEG16 (type base lim dpl : Z) : segdesc :=
  Segdesc (field 16 (Z.land lim 0xffff)) (field 16 (Z.land (u32 base) 0xffff))
    (field 8 (Z.land (Z.shiftr (u32 base) 16) 0xff)) (field 4 type) 1 (field 2 dpl) 1
    (field 4 (Z.shiftr (u32 lim) 16)) 0 0 1 0 (field 8 (Z.shiftr (u32 base) 24)).
Definition set_s (v : Z) (d : segdesc) : segdesc :=
  Segdesc (lim_15_0 d) (base_15_0 d) (base_23_16 d) (sd_type d) v (sd_dpl d) (sd_p d)
    (lim_19_16 d) (sd_avl d) (sd_rsv1 d) (sd_db d) (sd_g d) (base_31_24 d).

(** The fields of struct taskstate that the kernel sets, besides [esp0]. *)
Record taskstate := Taskstate { ss0 : Z; iomb : Z }.
#[global] Instance taskstate_inhabited : Inhabited taskstate := populate (Taskstate 0 0).

Section segments.
Context (gdt_addr ts_addr : nat → Z) (idt_addr : Z).

Record gst := Gst { gh : hart; gdts : list (list segdesc); tss : list taskstate; gdtr : Z * Z; idtr : Z * Z; tr : Z }.
Definition set_gh (v : hart) (s : gst) : gst := Gst v (gdts s) (tss s) (gdtr s) (idtr s) (tr s).
Definition set_gdts (v : list (list segdesc)) (s : gst) : gst := Gst (gh s) v (tss s) (gdtr s) (idtr s) (tr s).
Definition set_tss (v : list taskstate) (s : gst) : gst := Gst (gh s) (gdts s) v (gdtr s) (idtr s) (tr s).
Definition set_gdtr (v : Z * Z) (s : gst) : gst := Gst (gh s) (gdts s) (tss s) v (idtr s) (tr s).
Definition set_idtr (v : Z * Z) (s : gst) : gst := Gst (gh s) (gdts s) (tss s) (gdtr s) v (tr s).
Definition set_tr (v : Z) (s : gst) : gst := Gst (gh s) (gdts s) (tss s) (gdtr s) (idtr s) v.
#[global] Instance lens_gh : Lens gst hart.
Proof. refine {| view := gh; upd := set_gh |}; [done|by intros []|done]. Defined.

(** The three words of [pd] as the processor takes them: address and limit. *)
Definition pd (p size : Z) : Z * Z := (u16 p + u16 (Z.shiftr p 16) * 2 ^ 16, u16 (size - 1)).
Definition lgdt (p size : Z) : M gst unit := modify (set_gdtr (pd p size)).
Definition lidt (p size : Z) : M gst unit := modify (set_idtr (pd p size)).
Definition ltr (sel : Z) : M gst unit := modify (set_tr (u16 sel)).

Definition set_gdt (c : nat) (i : Z) (f : segdesc → segdesc) : M gst unit :=
  modify (λ s, set_gdts (alter (alter f (Z.to_nat i)) c (gdts s)) s).

Definition seginit : M gst unit :=
  n ← cpuid;
  let c := Z.to_nat n in
  set_gdt c SEG_KCODE (λ _, SEG (Z.lor STA_X STA_R) 0 0xffffffff 0);;
  set_gdt c SEG_KDATA (λ _, SEG STA_W 0 0xffffffff 0);;
  set_gdt c SEG_UCODE (λ _, SEG (Z.lor STA_X STA_R) 0 0xffffffff DPL_USER);;
  set_gdt c SEG_UDATA (λ _, SEG STA_W 0 0xffffffff DPL_USER);;
  lgdt (gdt_addr c) (8 * Z.of_nat NSEGS).

(** The part of switchuvm() on the task state; sizeof(struct taskstate) is 104. *)
Definition load_tss : M gst unit :=
  c ← mycpu;
  set_gdt c SEG_TSS (λ _, SEG16 STS_T32A (ts_addr c) (104 - 1) 0);;
  set_gdt c SEG_TSS (set_s 0);;
  modify (λ s, set_tss (alter (λ t, Taskstate (u16 (Z.shiftl SEG_KDATA 3)) (iomb t)) c (tss s)) s);;
  modify (λ s, set_tss (alter (λ t, Taskstate (ss0 t) 0xFFFF) c (tss s)) s);;
  ltr (Z.shiftl SEG_TSS 3).

Definition idtinit : M gst unit := lidt idt_addr (8 * 256).
End segments.

(** ** What the processor makes of a descriptor *)
Definition encode (d : segdesc) : Z :=
  lim_15_0 d + base_15_0 d * 2 ^ 16 + base_23_16 d * 2 ^ 32 + sd_type d * 2 ^ 40 + sd_s d * 2 ^ 44 + sd_dpl d * 2 ^ 45 +
  sd_p d * 2 ^ 47 + lim_19_16 d * 2 ^ 48 + sd_avl d * 2 ^ 52 + sd_rsv1 d * 2 ^ 53 + sd_db d * 2 ^ 54 + sd_g d * 2 ^ 55 +
  base_31_24 d * 2 ^ 56.
Definition bits (v i w : Z) : Z := v / 2 ^ i mod 2 ^ w.
Definition seg_base (v : Z) : Z := bits v 16 24 + bits v 56 8 * 2 ^ 24.
Definition seg_limit (v : Z) : Z :=
  let l := bits v 0 16 + bits v 48 4 * 2 ^ 16 in if bits v 55 1 =? 1 then l * 2 ^ 12 + 0xfff else l.
Definition seg_dpl (v : Z) : Z := bits v 45 2.
Definition seg_type (v : Z) : Z := bits v 40 5.

Lemma land_mask x w : 0 ≤ w → Z.land x (2 ^ w - 1) = x mod 2 ^ w.
Proof. intros Hw. rewrite <- Z.land_ones by lia. f_equal. rewrite Z.ones_equiv. lia. Qed.

(** The fields of a descriptor, from [encode], when they fit. *)
Lemma encode_fields d :
  0 ≤ lim_15_0 d < 2 ^ 16 → 0 ≤ base_15_0 d < 2 ^ 16 → 0 ≤ base_23_16 d < 2 ^ 8 → 0 ≤ sd_type d < 2 ^ 4 → 0 ≤ sd_s d < 2 →
  0 ≤ sd_dpl d < 4 → 0 ≤ sd_p d < 2 → 0 ≤ lim_19_16 d < 2 ^ 4 → 0 ≤ sd_avl d < 2 → 0 ≤ sd_rsv1 d < 2 → 0 ≤ sd_db d < 2 →
  0 ≤ sd_g d < 2 → 0 ≤ base_31_24 d < 2 ^ 8 →
  seg_base (encode d) = base_15_0 d + base_23_16 d * 2 ^ 16 + base_31_24 d * 2 ^ 24 ∧
  seg_limit (encode d) = (let l := lim_15_0 d + lim_19_16 d * 2 ^ 16 in if sd_g d =? 1 then l * 2 ^ 12 + 0xfff else l) ∧
  seg_dpl (encode d) = sd_dpl d ∧ seg_type (encode d) = sd_type d + sd_s d * 16.
Proof.
  intros. unfold seg_base, seg_limit, seg_dpl, seg_type, bits.
  split; [unfold encode; dmlia|]. split; [|split; unfold encode; dmlia].
  assert (encode d / 2 ^ 55 mod 2 ^ 1 = sd_g d) as -> by (unfold encode; dmlia).
  assert (encode d / 2 ^ 0 mod 2 ^ 16 = lim_15_0 d) as -> by (unfold encode; dmlia).
  assert (encode d / 2 ^ 48 mod 2 ^ 4 = lim_19_16 d) as -> by (unfold encode; dmlia). done.
Qed.

Ltac fields := unfold SEG, SEG16, set_s, field; cbn [lim_15_0 base_15_0 base_23_16 sd_type sd_s sd_dpl sd_p lim_19_16 sd_avl sd_rsv1 sd_db sd_g base_31_24];
  try (apply Z.mod_pos_bound; lia); try lia.

(** The processor reads back what SEG and SEG16 were given: base, limit (in pages
    for SEG), type and privilege. *)
Lemma SEG_decodes type base lim dpl :
  is_u32 base → is_u32 lim → 0 ≤ type < 16 → 0 ≤ dpl < 4 →
  let v := encode (SEG type base lim dpl) in
  seg_base v = base ∧ seg_limit v = lim / 2 ^ 12 * 2 ^ 12 + 0xfff ∧ seg_dpl v = dpl ∧ seg_type v = type + 16.
Proof.
  intros Hb Hl Ht Hd. cbv zeta. destruct (encode_fields (SEG type base lim dpl)) as (-> & -> & -> & ->);
    [fields..|]. unfold SEG. cbn [lim_15_0 base_15_0 base_23_16 sd_type sd_s sd_dpl lim_19_16 sd_g base_31_24].
  rewrite !u32_id by done. change 0xffff with (2 ^ 16 - 1). change 0xff with (2 ^ 8 - 1). rewrite !land_mask by lia.
  unfold field, is_u32 in *. rewrite !Z.shiftr_div_pow2 by lia. cbn [Z.eqb Pos.eqb].
  split; [dmlia|]. split; [dmlia|]. split; dmlia.
Qed.
Lemma SEG16_decodes type base lim dpl :
  is_u32 base → 0 ≤ lim < 2 ^ 20 → 0 ≤ type < 16 → 0 ≤ dpl < 4 →
  let v := encode (set_s 0 (SEG16 type base lim dpl)) in
  seg_base v = base ∧ seg_limit v = lim ∧ seg_dpl v = dpl ∧ seg_type v = type.
Proof.
  intros Hb Hl Ht Hd. cbv zeta. destruct (encode_fields (set_s 0 (SEG16 type base lim dpl))) as (-> & -> & -> & ->);
    [fields..|]. unfold SEG16, set_s. cbn [lim_15_0 base_15_0 base_23_16 sd_type sd_s sd_dpl lim_19_16 sd_g base_31_24].
  rewrite !u32_id by (done || (unfold is_u32; lia)). change 0xffff with (2 ^ 16 - 1). change 0xff with (2 ^ 8 - 1). rewrite !land_mask by lia.
  unfold field, is_u32 in *. rewrite !Z.shiftr_div_pow2 by lia. cbn [Z.eqb Pos.eqb].
  split; [dmlia|]. split; [dmlia|]. split; dmlia.
Qed.

Lemma alter_as_insert {A} (f : A → A) (i : nat) (x : A) (l : list A) : l !! i = Some x → alter f i l = <[i := f x]> l.
Proof.
  intros Hx. apply list_eq. intros j. destruct (decide (i = j)) as [->|Hne].
  - rewrite list_lookup_alter_eq, Hx, list_lookup_insert_eq; [done|]. by apply lookup_lt_Some in Hx.
  - by rewrite list_lookup_alter_ne, list_lookup_insert_ne.
Qed.

(** A segment that maps every address to itself, for privilege [dpl]. *)
Definition flat (type dpl : Z) (d : segdesc) : Prop :=
  seg_base (encode d) = 0 ∧ seg_limit (encode d) = 0xffffffff ∧ seg_dpl (encode d) = dpl ∧ seg_type (encode d) = type + 16.

(** seginit() gives the running CPU flat segments: code and data for the kernel and
    for user programs, which may not enter the kernel's, and loads the register
    with the table's address and limit; the other CPUs' tables stay as they are. *)
Theorem seginit_flat gdt_addr c g s :
  balanced c (gh s) → IF (gh s) = false → gdts s !! c = Some g → length g = NSEGS → is_u32 (gdt_addr c) →
  ∃ s' g', seginit gdt_addr s = Ok tt s' ∧ gdts s' = <[c := g']> (gdts s) ∧ gh s' = gh s ∧
    gdtr s' = (gdt_addr c, 8 * Z.of_nat NSEGS - 1) ∧
    flat (STA_X + STA_R) 0 (g' !!! 1%nat) ∧ flat STA_W 0 (g' !!! 2%nat) ∧
    flat (STA_X + STA_R) 3 (g' !!! 3%nat) ∧ flat STA_W 3 (g' !!! 4%nat) ∧
    g' !!! 0%nat = g !!! 0%nat ∧ g' !!! 5%nat = g !!! 5%nat.
Proof.
  intros Hb HIF Hg Hl Ha. unfold seginit.
  assert (cpuid s = Ok (Z.of_nat c) s) as Ec.
  { unfold cpuid. apply lift_ok_same. unfold Ops.cpuid. by mstep (mycpu_spec c (gh s) Hb HIF). }
  mstep Ec. unfold set_gdt, lgdt. mred. rewrite Nat2Z.id.
  destruct g as [|g0 [|g1 [|g2 [|g3 [|g4 [|g5 [|]]]]]]]; try done.
  eexists _, [g0; _; _; _; _; g5]. split; [reflexivity|]. cbn [gdts set_gdts set_gdtr gh gdtr].
  rewrite !list_alter_alter_eq. split; [|split; [done|split]].
  - rewrite (alter_as_insert _ _ _ _ Hg). reflexivity.
  - unfold pd, u16, is_u32 in *. f_equal. rewrite Z.shiftr_div_pow2 by lia. dmlia.
  - split_and!; try done; unfold flat; by apply SEG_decodes.
Qed.

(** switchuvm() leaves a task state segment at the CPU's task state, whose I/O map
    lies beyond its limit, so that user programs have no port. *)
Theorem load_tss_forbids_io ts_addr c g t s :
  balanced c (gh s) → IF (gh s) = false → gdts s !! c = Some g → length g = NSEGS → tss s !! c = Some t → is_u32 (ts_addr c) →
  ∃ s' g', load_tss ts_addr s = Ok tt s' ∧ gdts s' = <[c := g']> (gdts s) ∧ take 5 g' = take 5 g ∧ tr s' = 40 ∧
    tss s' !! c = Some (Taskstate 16 0xFFFF) ∧
    let v := encode (g' !!! 5%nat) in seg_base v = ts_addr c ∧ seg_limit v = 103 ∧ seg_type v = STS_T32A ∧ seg_limit v < 0xFFFF.
Proof.
  intros Hb HIF Hg Hl Ht Ha. unfold load_tss. mstep (mycpu_ok c s Hb HIF). unfold set_gdt, ltr. mred.
  destruct g as [|g0 [|g1 [|g2 [|g3 [|g4 [|g5 [|]]]]]]]; try done.
  destruct (SEG16_decodes STS_T32A (ts_addr c) 103 0) as (E1 & E2 & _ & E4); [done|unfold STS_T32A; lia..|].
  eexists _, [g0; g1; g2; g3; g4; set_s 0 (SEG16 STS_T32A (ts_addr c) 103 0)]. split; [reflexivity|].
  cbn [gdts set_gdts set_tss set_tr tr tss]. split; [rewrite list_alter_alter_eq, (alter_as_insert _ _ _ _ Hg); reflexivity|].
  split; [done|]. split; [done|]. split; [rewrite list_alter_alter_eq, list_lookup_alter_eq, Ht; reflexivity|].
  cbv zeta. cbn [lookup_total list_lookup_total]. rewrite E2. split; [exact E1|]. split; [done|]. split; [exact E4|]. lia.
Qed.
