(* ===== verification/Proc.v ===== *)
(** * The process table: proc.h and the scheduling half of proc.c

    This file holds struct proc and the code of proc.c that only moves
    processes between states: sleep, wakeup, yield, sched, kill, the three
    schedulers (round robin, lottery, stride), allocate_info and
    running_processes; also switchuvm and switchkvm of vm.c, which the
    schedulers call.  fork, clone, exit, wait and allocproc, which need memory
    and files, are in Process.v.

    A [struct proc *] is the index of its slot in [ptable.proc], a wait channel
    ([void *chan]) is named by the object whose address it is.  [p->tf] and
    [p->context] are represented by the structures they point to, which live
    on the process's own kernel stack.  cprintf() output is not modelled. *)

From Stdlib Require Import FunctionalExtensionality.
From S2P Require Import Prelude Rand Machine.
Open Scope kernel_scope.

(** ** param.h, proc.c constants *)

Definition NPROC : nat := 64.
Definition NOFILE : nat := 16.
Definition KSTACKSIZE : Z := 4096.
Definition KERNBASE : Z := 0x80000000.

Definition max : Z := 4000000.
Definition TOTAL_MAX_TICKETS : Z := 100000.
Definition ALLOCATION_COUNT : Z := 100.
Definition DEFAULT_TICKETS : Z := 1.

Definition V2P (a : Z) : Z := a -u KERNBASE.
Definition P2V (a : Z) : Z := a +u KERNBASE.

(** ** proc.h, x86.h: data *)

Inductive procstate := UNUSED | EMBRYO | SLEEPING | RUNNABLE | RUNNING | ZOMBIE.

#[global] Instance procstate_eq_dec : EqDecision procstate.
Proof. solve_decision. Defined.

(** Wait channels: 0, a process, [&ticks], [&log], [&input.r], a buffer, a
    sleep lock, and the two ends of the pipe at an address. *)
Inductive chan_t :=
| ChNull | ChProc (p : nat) | ChTicks | ChLog | ChInput | ChBuf (b : nat)
| ChSleep (l : lockid) | ChPipeRead (p : Z) | ChPipeWrite (p : Z).

#[global] Instance chan_eq_dec : EqDecision chan_t.
Proof. solve_decision. Defined.

(** struct trapframe, without its padding. *)
Record trapframe := Trapframe {
  edi : Z;
  esi : Z;
  ebp : Z;
  oesp : Z;
  ebx : Z;
  edx : Z;
  ecx : Z;
  eax : Z;
  gs : Z;
  fs : Z;
  es : Z;
  ds : Z;
  trapno : Z;
  err : Z;
  eip : Z;
  cs : Z;
  eflags : Z;
  esp : Z;
  ss : Z;
}.

Definition set_edi (v : Z) (t : trapframe) : trapframe :=
  Trapframe v (esi t) (ebp t) (oesp t) (ebx t) (edx t) (ecx t) (eax t) (gs t) (fs t) (es t)
    (ds t) (trapno t) (err t) (eip t) (cs t) (eflags t) (esp t) (ss t).
Definition set_esi (v : Z) (t : trapframe) : trapframe :=
  Trapframe (edi t) v (ebp t) (oesp t) (ebx t) (edx t) (ecx t) (eax t) (gs t) (fs t) (es t)
    (ds t) (trapno t) (err t) (eip t) (cs t) (eflags t) (esp t) (ss t).
Definition set_ebp (v : Z) (t : trapframe) : trapframe :=
  Trapframe (edi t) (esi t) v (oesp t) (ebx t) (edx t) (ecx t) (eax t) (gs t) (fs t) (es t)
    (ds t) (trapno t) (err t) (eip t) (cs t) (eflags t) (esp t) (ss t).
Definition set_oesp (v : Z) (t : trapframe) : trapframe :=
  Trapframe (edi t) (esi t) (ebp t) v (ebx t) (edx t) (ecx t) (eax t) (gs t) (fs t) (es t)
    (ds t) (trapno t) (err t) (eip t) (cs t) (eflags t) (esp t) (ss t).
Definition set_ebx (v : Z) (t : trapframe) : trapframe :=
  Trapframe (edi t) (esi t) (ebp t) (oesp t) v (edx t) (ecx t) (eax t) (gs t) (fs t) (es t)
    (ds t) (trapno t) (err t) (eip t) (cs t) (eflags t) (esp t) (ss t).
Definition set_edx (v : Z) (t : trapframe) : trapframe :=
  Trapframe (edi t) (esi t) (ebp t) (oesp t) (ebx t) v (ecx t) (eax t) (gs t) (fs t) (es t)
    (ds t) (trapno t) (err t) (eip t) (cs t) (eflags t) (esp t) (ss t).
Definition set_ecx (v : Z) (t : trapframe) : trapframe :=
  Trapframe (edi t) (esi t) (ebp t) (oesp t) (ebx t) (edx t) v (eax t) (gs t) (fs t) (es t)
    (ds t) (trapno t) (err t) (eip t) (cs t) (eflags t) (esp t) (ss t).
Definition set_eax (v : Z) (t : trapframe) : trapframe :=
  Trapframe (edi t) (esi t) (ebp t) (oesp t) (ebx t) (edx t) (ecx t) v (gs t) (fs t) (es t)
    (ds t) (trapno t) (err t) (eip t) (cs t) (eflags t) (esp t) (ss t).
Definition set_gs (v : Z) (t : trapframe) : trapframe :=
  Trapframe (edi t) (esi t) (ebp t) (oesp t) (ebx t) (edx t) (ecx t) (eax t) v (fs t) (es t)
    (ds t) (trapno t) (err t) (eip t) (cs t) (eflags t) (esp t) (ss t).
Definition set_fs (v : Z) (t : trapframe) : trapframe :=
  Trapframe (edi t) (esi t) (ebp t) (oesp t) (ebx t) (edx t) (ecx t) (eax t) (gs t) v (es t)
    (ds t) (trapno t) (err t) (eip t) (cs t) (eflags t) (esp t) (ss t).
Definition set_es (v : Z) (t : trapframe) : trapframe :=
  Trapframe (edi t) (esi t) (ebp t) (oesp t) (ebx t) (edx t) (ecx t) (eax t) (gs t) (fs t) v
    (ds t) (trapno t) (err t) (eip t) (cs t) (eflags t) (esp t) (ss t).
Definition set_ds (v : Z) (t : trapframe) : trapframe :=
  Trapframe (edi t) (esi t) (ebp t) (oesp t) (ebx t) (edx t) (ecx t) (eax t) (gs t) (fs t)
    (es t) v (trapno t) (err t) (eip t) (cs t) (eflags t) (esp t) (ss t).
Definition set_trapno (v : Z) (t : trapframe) : trapframe :=
  Trapframe (edi t) (esi t) (ebp t) (oesp t) (ebx t) (edx t) (ecx t) (eax t) (gs t) (fs t)
    (es t) (ds t) v (err t) (eip t) (cs t) (eflags t) (esp t) (ss t).
Definition set_err (v : Z) (t : trapframe) : trapframe :=
  Trapframe (edi t) (esi t) (ebp t) (oesp t) (ebx t) (edx t) (ecx t) (eax t) (gs t) (fs t)
    (es t) (ds t) (trapno t) v (eip t) (cs t) (eflags t) (esp t) (ss t).
Definition set_eip (v : Z) (t : trapframe) : trapframe :=
  Trapframe (edi t) (esi t) (ebp t) (oesp t) (ebx t) (edx t) (ecx t) (eax t) (gs t) (fs t)
    (es t) (ds t) (trapno t) (err t) v (cs t) (eflags t) (esp t) (ss t).
Definition set_cs (v : Z) (t : trapframe) : trapframe :=
  Trapframe (edi t) (esi t) (ebp t) (oesp t) (ebx t) (edx t) (ecx t) (eax t) (gs t) (fs t)
    (es t) (ds t) (trapno t) (err t) (eip t) v (eflags t) (esp t) (ss t).
Definition set_eflags (v : Z) (t : trapframe) : trapframe :=
  Trapframe (edi t) (esi t) (ebp t) (oesp t) (ebx t) (edx t) (ecx t) (eax t) (gs t) (fs t)
    (es t) (ds t) (trapno t) (err t) (eip t) (cs t) v (esp t) (ss t).
Definition set_esp (v : Z) (t : trapframe) : trapframe :=
  Trapframe (edi t) (esi t) (ebp t) (oesp t) (ebx t) (edx t) (ecx t) (eax t) (gs t) (fs t)
    (es t) (ds t) (trapno t) (err t) (eip t) (cs t) (eflags t) v (ss t).
Definition set_ss (v : Z) (t : trapframe) : trapframe :=
  Trapframe (edi t) (esi t) (ebp t) (oesp t) (ebx t) (edx t) (ecx t) (eax t) (gs t) (fs t)
    (es t) (ds t) (trapno t) (err t) (eip t) (cs t) (eflags t) (esp t) v.

(** struct context. *)
Record context_t := Context {
  c_edi : Z;
  c_esi : Z;
  c_ebx : Z;
  c_ebp : Z;
  c_eip : Z;
}.

Record proc := Proc {
  sz : Z;
  pgdir : Z;
  kstack : Z;
  state : procstate;
  pid : Z;
  parent : option nat;
  tf : trapframe;
  context : context_t;
  chan : chan_t;
  killed : Z;
  ofile : list (option nat);
  cwd : option nat;
  name : list Z;
  syscall_count : Z;
  tickets : Z;
  execution_count : Z;
  execution_time : Z;
  pass : Z;
  stride : Z;
  thread_indictor : Z;
}.

Definition set_sz (v : Z) (p : proc) : proc :=
  Proc v (pgdir p) (kstack p) (state p) (pid p) (parent p) (tf p) (context p) (chan p)
    (killed p) (ofile p) (cwd p) (name p) (syscall_count p) (tickets p) (execution_count p)
    (execution_time p) (pass p) (stride p) (thread_indictor p).
Definition set_pgdir (v : Z) (p : proc) : proc :=
  Proc (sz p) v (kstack p) (state p) (pid p) (parent p) (tf p) (context p) (chan p) (killed p)
    (ofile p) (cwd p) (name p) (syscall_count p) (tickets p) (execution_count p)
    (execution_time p) (pass p) (stride p) (thread_indictor p).
Definition set_kstack (v : Z) (p : proc) : proc :=
  Proc (sz p) (pgdir p) v (state p) (pid p) (parent p) (tf p) (context p) (chan p) (killed p)
    (ofile p) (cwd p) (name p) (syscall_count p) (tickets p) (execution_count p)
    (execution_time p) (pass p) (stride p) (thread_indictor p).
Definition set_state (v : procstate) (p : proc) : proc :=
  Proc (sz p) (pgdir p) (kstack p) v (pid p) (parent p) (tf p) (context p) (chan p) (killed p)
    (ofile p) (cwd p) (name p) (syscall_count p) (tickets p) (execution_count p)
    (execution_time p) (pass p) (stride p) (thread_indictor p).
Definition set_pid (v : Z) (p : proc) : proc :=
  Proc (sz p) (pgdir p) (kstack p) (state p) v (parent p) (tf p) (context p) (chan p) (killed p)
    (ofile p) (cwd p) (name p) (syscall_count p) (tickets p) (execution_count p)
    (execution_time p) (pass p) (stride p) (thread_indictor p).
Definition set_parent (v : option nat) (p : proc) : proc :=
  Proc (sz p) (pgdir p) (kstack p) (state p) (pid p) v (tf p) (context p) (chan p) (killed p)
    (ofile p) (cwd p) (name p) (syscall_count p) (tickets p) (execution_count p)
    (execution_time p) (pass p) (stride p) (thread_indictor p).
Definition set_tf (v : trapframe) (p : proc) : proc :=
  Proc (sz p) (pgdir p) (kstack p) (state p) (pid p) (parent p) v (context p) (chan p)
    (killed p) (ofile p) (cwd p) (name p) (syscall_count p) (tickets p) (execution_count p)
    (execution_time p) (pass p) (stride p) (thread_indictor p).
Definition set_context (v : context_t) (p : proc) : proc :=
  Proc (sz p) (pgdir p) (kstack p) (state p) (pid p) (parent p) (tf p) v (chan p) (killed p)
    (ofile p) (cwd p) (name p) (syscall_count p) (tickets p) (execution_count p)
    (execution_time p) (pass p) (stride p) (thread_indictor p).
Definition set_chan (v : chan_t) (p : proc) : proc :=
  Proc (sz p) (pgdir p) (kstack p) (state p) (pid p) (parent p) (tf p) (context p) v (killed p)
    (ofile p) (cwd p) (name p) (syscall_count p) (tickets p) (execution_count p)
    (execution_time p) (pass p) (stride p) (thread_indictor p).
Definition set_killed (v : Z) (p : proc) : proc :=
  Proc (sz p) (pgdir p) (kstack p) (state p) (pid p) (parent p) (tf p) (context p) (chan p) v
    (ofile p) (cwd p) (name p) (syscall_count p) (tickets p) (execution_count p)
    (execution_time p) (pass p) (stride p) (thread_indictor p).
Definition set_ofile (v : list (option nat)) (p : proc) : proc :=
  Proc (sz p) (pgdir p) (kstack p) (state p) (pid p) (parent p) (tf p) (context p) (chan p)
    (killed p) v (cwd p) (name p) (syscall_count p) (tickets p) (execution_count p)
    (execution_time p) (pass p) (stride p) (thread_indictor p).
Definition set_cwd (v : option nat) (p : proc) : proc :=
  Proc (sz p) (pgdir p) (kstack p) (state p) (pid p) (parent p) (tf p) (context p) (chan p)
    (killed p) (ofile p) v (name p) (syscall_count p) (tickets p) (execution_count p)
    (execution_time p) (pass p) (stride p) (thread_indictor p).
Definition set_name (v : list Z) (p : proc) : proc :=
  Proc (sz p) (pgdir p) (kstack p) (state p) (pid p) (parent p) (tf p) (context p) (chan p)
    (killed p) (ofile p) (cwd p) v (syscall_count p) (tickets p) (execution_count p)
    (execution_time p) (pass p) (stride p) (thread_indictor p).
Definition set_syscall_count (v : Z) (p : proc) : proc :=
  Proc (sz p) (pgdir p) (kstack p) (state p) (pid p) (parent p) (tf p) (context p) (chan p)
    (killed p) (ofile p) (cwd p) (name p) v (tickets p) (execution_count p) (execution_time p)
    (pass p) (stride p) (thread_indictor p).
Definition set_tickets (v : Z) (p : proc) : proc :=
  Proc (sz p) (pgdir p) (kstack p) (state p) (pid p) (parent p) (tf p) (context p) (chan p)
    (killed p) (ofile p) (cwd p) (name p) (syscall_count p) v (execution_count p)
    (execution_time p) (pass p) (stride p) (thread_indictor p).
Definition set_execution_count (v : Z) (p : proc) : proc :=
  Proc (sz p) (pgdir p) (kstack p) (state p) (pid p) (parent p) (tf p) (context p) (chan p)
    (killed p) (ofile p) (cwd p) (name p) (syscall_count p) (tickets p) v (execution_time p)
    (pass p) (stride p) (thread_indictor p).
Definition set_execution_time (v : Z) (p : proc) : proc :=
  Proc (sz p) (pgdir p) (kstack p) (state p) (pid p) (parent p) (tf p) (context p) (chan p)
    (killed p) (ofile p) (cwd p) (name p) (syscall_count p) (tickets p) (execution_count p) v
    (pass p) (stride p) (thread_indictor p).
Definition set_pass (v : Z) (p : proc) : proc :=
  Proc (sz p) (pgdir p) (kstack p) (state p) (pid p) (parent p) (tf p) (context p) (chan p)
    (killed p) (ofile p) (cwd p) (name p) (syscall_count p) (tickets p) (execution_count p)
    (execution_time p) v (stride p) (thread_indictor p).
Definition set_stride (v : Z) (p : proc) : proc :=
  Proc (sz p) (pgdir p) (kstack p) (state p) (pid p) (parent p) (tf p) (context p) (chan p)
    (killed p) (ofile p) (cwd p) (name p) (syscall_count p) (tickets p) (execution_count p)
    (execution_time p) (pass p) v (thread_indictor p).
Definition set_thread_indictor (v : Z) (p : proc) : proc :=
  Proc (sz p) (pgdir p) (kstack p) (state p) (pid p) (parent p) (tf p) (context p) (chan p)
    (killed p) (ofile p) (cwd p) (name p) (syscall_count p) (tickets p) (execution_count p)
    (execution_time p) (pass p) (stride p) v.

(** A slot of the zero-initialised static table. *)
Definition trapframe0 : trapframe := Trapframe 0 0 0 0 0 0 0 0 0 0 0 0 0 0 0 0 0 0 0.
Definition context0 : context_t := Context 0 0 0 0 0.
Definition proc0 : proc :=
  Proc 0 0 0 UNUSED 0 None trapframe0 context0 ChNull 0 (replicate NOFILE None) None (replicate 16 0)
    0 0 0 0 0 0 0.
#[global] Instance proc_inhabited : Inhabited proc := populate proc0.

(** The part of the kernel's state that scheduling uses. *)
Record core := Core {
  chart : hart;
  ptable : list proc;
  initproc : option nat;
  nextpid : Z;
  numofthread : Z;
  ticks : Z;
  rnd : rand;
  kpgdir : Z;
}.

Definition set_chart (v : hart) (s : core) : core :=
  Core v (ptable s) (initproc s) (nextpid s) (numofthread s) (ticks s) (rnd s) (kpgdir s).
Definition set_ptable (v : list proc) (s : core) : core :=
  Core (chart s) v (initproc s) (nextpid s) (numofthread s) (ticks s) (rnd s) (kpgdir s).
Definition set_initproc (v : option nat) (s : core) : core :=
  Core (chart s) (ptable s) v (nextpid s) (numofthread s) (ticks s) (rnd s) (kpgdir s).
Definition set_nextpid (v : Z) (s : core) : core :=
  Core (chart s) (ptable s) (initproc s) v (numofthread s) (ticks s) (rnd s) (kpgdir s).
Definition set_numofthread (v : Z) (s : core) : core :=
  Core (chart s) (ptable s) (initproc s) (nextpid s) v (ticks s) (rnd s) (kpgdir s).
Definition set_ticks (v : Z) (s : core) : core :=
  Core (chart s) (ptable s) (initproc s) (nextpid s) (numofthread s) v (rnd s) (kpgdir s).
Definition set_rnd (v : rand) (s : core) : core :=
  Core (chart s) (ptable s) (initproc s) (nextpid s) (numofthread s) (ticks s) v (kpgdir s).
Definition set_kpgdir (v : Z) (s : core) : core :=
  Core (chart s) (ptable s) (initproc s) (nextpid s) (numofthread s) (ticks s) (rnd s) v.

(** Every state that contains the core contains its hart. *)
#[global] Instance lens_hart S `{Lens S core} : Lens S hart.
Proof.
  refine {| view s := chart (view s); upd h s := upd (set_chart h (view s)) s |}.
  - intros. by rewrite view_upd.
  - intros s. rewrite <- (upd_view s) at 4. cbn.
    assert (∀ k, set_chart (chart k) k = k) as -> by (by intros []). done.
  - intros. by rewrite view_upd, upd_upd.
Defined.

(** ** Operations *)

Module Core.
Definition mod_hart (f : hart → hart) : M core unit := modify (λ k, set_chart (f (chart k)) k).

Definition get_proc (i : nat) : M core proc := gets (λ k, ptable k !!! i).
Definition alter_proc (i : nat) (f : proc → proc) : M core unit :=
  modify (λ k, set_ptable (alter f i (ptable k)) k).

(** [myproc()->...]: a null process faults in the kernel, and trap()
    panics. *)
Definition myproc_some : M core nat :=
  p ← myproc;
  match p with Some i => mret i | None => panic "trap" end.

Definition sched : M core unit :=
  i ← myproc_some;
  b ← holding LPtable;
  if negb b then panic "sched ptable.lock" else
  c ← mycpu;
  k ← get;
  if negb (ncli (cpus (chart k) !!! c) =? 1) then panic "sched locks" else
  p ← get_proc i;
  if bool_decide (state p = RUNNING) then panic "sched running" else
  k ← get;
  if IF (chart k) then panic "sched interruptible" else
  c ← mycpu;
  saved ← gets (λ k, intena (cpus (chart k) !!! c));
  swtch;;
  c ← mycpu;
  mod_hart (alter_cpu c (set_intena saved)).

Definition yield : M core unit :=
  acquire LPtable;;
  i ← myproc_some;
  alter_proc i (set_state RUNNABLE);;
  sched;;
  release LPtable.

(** sleep(chan, lk); [None] is a null [lk]. *)
Definition sleep (chan : chan_t) (lk : option lockid) : M core unit :=
  p ← myproc;
  match p with
  | None => panic "sleep"
  | Some i =>
      match lk with
      | None => panic "sleep without lk"
      | Some l =>
          mwhen (negb (bool_decide (l = LPtable))) (acquire LPtable;; release l);;
          alter_proc i (set_chan chan);;
          alter_proc i (set_state SLEEPING);;
          sched;;
          alter_proc i (set_chan ChNull);;
          mwhen (negb (bool_decide (l = LPtable))) (release LPtable;; acquire l)
      end
  end.

Definition wake (ch : chan_t) (p : proc) : proc :=
  if bool_decide (state p = SLEEPING ∧ chan p = ch) then set_state RUNNABLE p else p.

Definition wakeup1 (chan : chan_t) : M core unit :=
  modify (λ k, set_ptable (wake chan <$> ptable k) k).

Definition wakeup (chan : chan_t) : M core unit :=
  acquire LPtable;; wakeup1 chan;; release LPtable.

Definition kill (n : Z) : M core Z :=
  acquire LPtable;;
  k ← get;
  match first_index (λ p, pid p =? n) (ptable k) with
  | Some i =>
      alter_proc i (set_killed 1);;
      alter_proc i (λ p, if bool_decide (state p = SLEEPING) then set_state RUNNABLE p else p);;
      release LPtable;;
      mret 0
  | None => release LPtable;; mret (-1)
  end.

(** LAB-1: the number of slots in use. *)
Definition running_processes : M core Z :=
  acquire LPtable;;
  k ← get;
  let n := foldl (λ n p, if bool_decide (state p = UNUSED) then n else n +i 1) 0 (ptable k) in
  release LPtable;;
  mret n.

(** LAB-2: the lines allocate_info() prints: name, pid, count, tickets of
    every process whose name starts with 'p'. *)
Definition allocate_info : M core (Z * list (list Z * Z * Z * Z)) :=
  k ← get;
  let total_all := foldl (λ n p,
    if bool_decide (state p = RUNNABLE ∨ state p = RUNNING) then n +i execution_count p else n)
    0 (ptable k) in
  mret (0, if total_all =? ALLOCATION_COUNT then
             (λ p, (name p, pid p, execution_count p, tickets p))
               <$> filter (λ p, name p !! O = Some 112) (ptable k)
           else []).

(** vm.c *)
Definition switchkvm : M core unit :=
  k ← get; mod_hart (set_cr3 (V2P (kpgdir k))).

Definition switchuvm (p : option nat) : M core unit :=
  match p with
  | None => panic "switchuvm: no process"
  | Some i =>
      q ← get_proc i;
      if kstack q =? 0 then panic "switchuvm: no kstack" else
      if pgdir q =? 0 then panic "switchuvm: no pgdir" else
      pushcli;;
      c ← mycpu;
      mod_hart (alter_cpu c (set_esp0 (kstack q +u KSTACKSIZE)));;
      mod_hart (set_cr3 (V2P (pgdir q)));;
      popcli
  end.

(** ** The schedulers

    [run i] stands for [swtch(&c->scheduler, p->context)]: everything that
    happens from the switch to process [i] until some process switches
    back.  Each [..._round] is one iteration of the outer [for(;;)]. *)
Section schedulers.
Context (run : nat → M core unit).

Definition set_cpu_proc (c : nat) (p : option nat) : M core unit :=
  mod_hart (alter_cpu c (set_cproc p)).

Fixpoint scheduler_loop (c : nat) (n i : nat) : M core unit :=
  match n with
  | O => mret tt
  | S n' =>
      p ← get_proc i;
      (if bool_decide (state p = RUNNABLE) then
         set_cpu_proc c (Some i);;
         switchuvm (Some i);;
         alter_proc i (set_state RUNNING);;
         run i;;
         switchkvm;;
         set_cpu_proc c None
       else mret tt);;
      scheduler_loop c n' (S i)
  end.

Definition scheduler_round (c : nat) : M core unit :=
  lift Ops.sti;;
  acquire LPtable;;
  scheduler_loop c NPROC 0;;
  release LPtable.

(** First pass of the lottery: the tickets of the runnable processes. *)
Definition total_tickets (l : list proc) : Z :=
  foldl (λ n p, if bool_decide (state p = RUNNABLE) then n +i tickets p else n) 0 l.

(** Second pass: the process in whose bin the winner falls, with
    [ticket_bin] tickets already passed; [i] is the index of the head. *)
Fixpoint lottery_pick (winner ticket_bin : Z) (l : list proc) (i : nat) : option nat :=
  match l with
  | [] => None
  | p :: l' =>
      if bool_decide (state p ≠ RUNNABLE) then lottery_pick winner ticket_bin l' (S i)
      else if ticket_bin +i tickets p <? winner
      then lottery_pick winner (ticket_bin +i tickets p) l' (S i)
      else Some i
  end.

(** [winner = genrand() % (totalTickets + 1)]. *)
Definition lottery_draw (totalTickets : Z) : M core Z :=
  x ← gets (genrand ∘ rnd);
  modify (set_rnd x.2);;
  if totalTickets +i 1 =? 0 then panic "trap" else
  mret (Z.rem x.1 (totalTickets +i 1)).

(** The switch to process [i] and back, common to the two schedulers of
    LAB-2. *)
Definition run_process (c : nat) (start : Z) (i : nat) : M core unit :=
  set_cpu_proc c (Some i);;
  switchuvm (Some i);;
  alter_proc i (set_state RUNNING);;
  run i;;
  switchkvm;;
  now ← gets ticks;
  alter_proc i (λ p, set_execution_time (s32 (execution_time p + (now -u start))) p);;
  set_cpu_proc c None.

(** The two critical sections of an iteration; other CPUs may run between
    them. *)
Definition lottery_count : M core Z :=
  acquire LPtable;;
  totalTickets ← gets (total_tickets ∘ ptable);
  release LPtable;;
  mret totalTickets.

Definition lottery_run (c : nat) (start winner : Z) : M core unit :=
  acquire LPtable;;
  k ← get;
  match lottery_pick winner 0 (ptable k) 0 with
  | None => mret tt
  | Some i =>
      alter_proc i (λ p,
        if 1 <? tickets p then set_execution_count (execution_count p +i 1) p else p);;
      run_process c start i
  end;;
  release LPtable.

Definition lottery_round (c : nat) : M core unit :=
  lift Ops.sti;;
  start ← gets ticks;
  totalTickets ← lottery_count;
  winner ← lottery_draw totalTickets;
  lottery_run c start winner.

(** The first loop of the stride scheduler over the table: [minpass], [min]
    and the table with the strides recomputed along the way. *)
Definition set_strides (p : proc) : proc :=
  if tickets p =? 0 then p else set_stride (Z.quot TOTAL_MAX_TICKETS (tickets p)) p.

Fixpoint stride_scan (minpass : Z) (min : option nat) (l : list proc) (i : nat)
    : Z * option nat * list proc :=
  match l with
  | [] => (minpass, min, [])
  | p :: l' =>
      if bool_decide (state p ≠ RUNNABLE) || negb (pass p <? minpass) then
        let '(mp, m, r) := stride_scan minpass min l' (S i) in (mp, m, p :: r)
      else
        let '(mp, m, r) := stride_scan (pass p) (Some i) l' (S i) in
        (mp, m, set_strides p :: r)
  end.

(** The two critical sections of an iteration.  [min] is carried over from
    the previous iteration. *)
Definition stride_find (min : option nat) : M core (Z * option nat) :=
  acquire LPtable;;
  k ← get;
  let '(minpass, min, l) := stride_scan max min (ptable k) 0 in
  modify (set_ptable l);;
  release LPtable;;
  mret (minpass, min).

Definition stride_run (c : nat) (start minpass : Z) (min : option nat) : M core unit :=
  acquire LPtable;;
  k ← get;
  match min with
  | Some i =>
      if bool_decide (state (ptable k !!! i) = RUNNABLE) then
        mwhen ((max <=? minpass) && (0 <? minpass))
          (modify (λ k, set_ptable ((λ p, set_pass (stride p) p) <$> ptable k) k));;
        alter_proc i (λ p, set_pass (pass p +i stride p) p);;
        alter_proc i (λ p, set_execution_count (execution_count p +i 1) p);;
        run_process c start i
      else mret tt
  | None => mret tt
  end;;
  release LPtable.

Definition stride_round (c : nat) (min : option nat) : M core (option nat) :=
  lift Ops.sti;;
  start ← gets ticks;
  x ← stride_find min;
  stride_run c start x.1 x.2;;
  mret x.2.

(** What the three schedulers do before their loop. *)
Definition scheduler_enter : M core nat :=
  c ← mycpu;
  set_cpu_proc c None;;
  mret c.
End schedulers.
End Core.

(** The operations that the other components call, on any state that contains
    the process table. *)
Section lifted.
Context {S : Type} `{Lens S core}.

Definition get_proc (i : nat) : M S proc := lift (Core.get_proc i).
Definition alter_proc (i : nat) (f : proc → proc) : M S unit := lift (Core.alter_proc i f).
Definition myproc_some : M S nat := lift Core.myproc_some.
Definition sched : M S unit := lift Core.sched.
Definition yield : M S unit := lift Core.yield.
Definition sleep (chan : chan_t) (lk : option lockid) : M S unit := lift (Core.sleep chan lk).
Definition wakeup1 (chan : chan_t) : M S unit := lift (Core.wakeup1 chan).
Definition wakeup (chan : chan_t) : M S unit := lift (Core.wakeup chan).
Definition kill (pid : Z) : M S Z := lift (Core.kill pid).
Definition switchuvm (p : option nat) : M S unit := lift (Core.switchuvm p).
Definition switchkvm : M S unit := lift Core.switchkvm.
End lifted.

(** ** Behaviour of the operations *)

Lemma set_chart_id k : set_chart (chart k) k = k.
Proof. by destruct k. Qed.

Lemma set_ptable_id k : set_ptable (ptable k) k = k.
Proof. by destruct k. Qed.

Section specs.
Import Core.
Implicit Types (k : core) (h : hart) (c i : nat) (l : lockid).

Lemma lift_core {A} (m : M hart A) k a h :
  m (chart k) = Ok a h → lift m k = Ok a (set_chart h k).
Proof. exact (lift_ok m k a h). Qed.

Lemma acquire_core c l k :
  balanced c (chart k) → is_free l (chart k) →
  acquire l k = Ok tt (set_chart (acq c l (chart k)) k).
Proof. exact (acquire_ok c l k). Qed.

Lemma release_core c l h k :
  chart k = acq c l h → balanced c h → is_free l h → release l k = Ok tt (set_chart h k).
Proof. exact (release_ok c l h k). Qed.

(** A critical section under [ptable.lock] that does not touch the hart. *)
Lemma locked_modify c (f : core → core) k :
  balanced c (chart k) → is_free LPtable (chart k) →
  (∀ h k, f (set_chart h k) = set_chart h (f k)) →
  (acquire LPtable;; modify f;; release LPtable) k = Ok tt (f k).
Proof.
  intros Hb Hf Hc. mstep (acquire_core c LPtable k Hb Hf). mred. rewrite Hc.
  rewrite (release_core c LPtable (chart k)) by done. f_equal.
  pose proof (Hc (chart k) k) as E. rewrite set_chart_id in E. by rewrite E at 2.
Qed.

Lemma wakeup_core c ch k :
  balanced c (chart k) → is_free LPtable (chart k) →
  Core.wakeup ch k = Ok tt (set_ptable (wake ch <$> ptable k) k).
Proof. intros. unfold Core.wakeup, Core.wakeup1. by rewrite (locked_modify c). Qed.

Lemma alter_proc_core i f k : Core.alter_proc i f k = Ok tt (set_ptable (alter f i (ptable k)) k).
Proof. done. Qed.

(** sched() switches away with the state unchanged, and when it is resumed
    restores [intena] on whatever CPU it then runs. *)
Lemma sched_core c i h k :
  chart k = acq c LPtable h → balanced c h → curproc c h = Some i → ncli (cpus h !!! c) = 0 →
  state (ptable k !!! i) ≠ RUNNING →
  Core.sched k = Swtch k (λ k', (c' ← mycpu; mod_hart (alter_cpu c' (set_intena (intena (cpus h !!! c))))) k').
Proof.
  intros Hk Hb Hp Hn Hs.
  assert (Hb' : balanced c (view k)) by (cbn; rewrite Hk; eauto with kernel).
  unfold Core.sched, Core.myproc_some.
  rewrite bind_assoc. mstep (myproc_ok c k Hb'). cbn [view lens_hart lens_id]. rewrite Hk.
  rewrite curproc_acq, Hp by done. mred.
  mstep (holding_ok c LPtable k Hb'). cbn [view lens_hart lens_id]. rewrite Hk, get_lock_acq.
  cbn [locked lcpu]. rewrite (bool_decide_true (Some c = Some c)) by done.
  change (negb (negb (1 =? 0) && true)) with false. cbv iota.
  assert (IF (view k) = false) as HIF by (cbn; rewrite Hk; done).
  mstep (mycpu_ok c k Hb' HIF). mred. rewrite Hk.
  assert (cpus (acq c LPtable h) !!! c = set_ncli (ncli (cpus h !!! c) + 1) (cpus h !!! c)) as Ec.
  { destruct Hb as [_ (q & Hq & _)]. cbn. rewrite list_lookup_total_alter_eq; [done|].
    by eapply lookup_lt_Some. }
  rewrite Ec, Hn.
  change (negb (_ =? 1)) with false. cbv iota. unfold Core.get_proc. mred.
  rewrite bool_decide_false by done. mred. rewrite Hk. change (IF (acq c LPtable h)) with false. cbv iota.
  mstep (mycpu_ok c k Hb' HIF). mred. by rewrite Hk, Ec.
Qed.

(** sleep(): whichever lock the caller holds, it is released, and the
    process is on [ch] by the time the CPU switches to the scheduler, with
    only [ptable.lock] held. *)
Lemma sleep_core c i l ch h k :
  chart k = acq c l h → balanced c h → is_free l h → is_free LPtable h →
  curproc c h = Some i → ncli (cpus h !!! c) = 0 → (i < length (ptable k))%nat →
  Core.sleep ch (Some l) k =
    Swtch (set_ptable (alter (set_state SLEEPING ∘ set_chan ch) i (ptable k))
             (set_chart (acq c LPtable h) k))
      (λ k', (c' ← mycpu; mod_hart (alter_cpu c' (set_intena (intena (cpus h !!! c))));;
              alter_proc i (set_chan ChNull);;
              mwhen (negb (bool_decide (l = LPtable))) (release LPtable;; acquire l)) k').
Proof.
  intros Hk Hb Hl Hp Hc Hn Hi. unfold Core.sleep.
  assert (Hb' : balanced c (view k)) by (cbn; rewrite Hk; eauto with kernel).
  mstep (myproc_ok c k Hb'). cbn [view lens_hart lens_id]. rewrite Hk, curproc_acq, Hc by done.
  set (k1 := set_chart (acq c LPtable h) k).
  assert ((mwhen (negb (bool_decide (l = LPtable))) (acquire LPtable;; release l)) k = Ok tt k1)
    as Hpre.
  { unfold mwhen. case_bool_decide as E; cbn [negb].
    - subst l. mred. unfold k1. rewrite <- Hk. by rewrite set_chart_id.
    - assert (is_free LPtable (chart k)) by (rewrite Hk; eauto with kernel).
      mstep (acquire_core c LPtable k Hb' ltac:(done)).
      rewrite (release_outer_ok c l LPtable h); [done|cbn; by rewrite Hk|done..]. }
  mstep Hpre. mstep (alter_proc_core i (set_chan ch) k1).
  mstep (alter_proc_core i (set_state SLEEPING)
           (set_ptable (alter (set_chan ch) i (ptable k1)) k1)). cbn [ptable set_ptable].
  rewrite list_alter_alter_eq. set (k2 := set_ptable _ _).
  assert (state (ptable k2 !!! i) ≠ RUNNING) as Hst.
  { cbn. by rewrite list_lookup_total_alter_eq by done. }
  rewrite (bind_swtch _ _ _ _ _ (sched_core c i h k2 eq_refl Hb Hc Hn Hst)). f_equal.
  extensionality k'. apply (bind_assoc mycpu).
Qed.

(** The other half: resumed on CPU [c'], with ptable.lock held, sleep()
    returns holding [l] again. *)
Lemma sleep_resume c' i l v h k :
  chart k = acq c' LPtable h → balanced c' h → is_free LPtable h → is_free l h →
  ncli (cpus h !!! c') = 0 → v = IF h →
  (c' ← mycpu; mod_hart (alter_cpu c' (set_intena v));;
   alter_proc i (set_chan ChNull);;
   mwhen (negb (bool_decide (l = LPtable))) (release LPtable;; acquire l)) k =
  Ok tt (set_ptable (alter (set_chan ChNull) i (ptable k)) (set_chart (acq c' l h) k)).
Proof.
  intros Hk Hb Hp Hl Hn ->.
  assert (Hb' : balanced c' (view k)) by (cbn; rewrite Hk; eauto with kernel).
  assert (IF (view k) = false) as HIF by (cbn; rewrite Hk; done).
  mstep (mycpu_ok c' k Hb' HIF). unfold Core.mod_hart, Core.alter_proc. mred.
  assert (alter_cpu c' (set_intena (IF h)) (chart k) = acq c' LPtable h) as ->.
  { rewrite Hk. destruct Hb as [_ (q & Hq & _ & Hi & _)].
    rewrite (list_lookup_total_correct _ _ _ Hq) in Hn. unfold acq, mask, set_lock, alter_cpu, set_cpus, set_locks, set_IF.
    cbn. f_equal. rewrite list_alter_alter_eq. apply list_alter_ext; [|done]. intros x Hx.
    assert (x = q) as -> by congruence. rewrite <- Hi by done. by destruct q. }
  set (k1 := set_ptable _ _). unfold mwhen. case_bool_decide as E; cbn [negb].
  - subst l. mred. done.
  - mstep (release_core c' LPtable h k1 eq_refl Hb Hp).
    by rewrite (acquire_core c' l (set_chart h k1)).
Qed.

Lemma switchuvm_core c i k :
  balanced c (chart k) → kstack (ptable k !!! i) ≠ 0 → pgdir (ptable k !!! i) ≠ 0 →
  let p := ptable k !!! i in
  Core.switchuvm (Some i) k =
    Ok tt (set_chart (set_cr3 (V2P (pgdir p))
                        (alter_cpu c (set_esp0 (kstack p +u KSTACKSIZE)) (chart k))) k).
Proof.
  intros Hb Hks Hpg p. unfold Core.switchuvm, Core.get_proc. mred. fold p. fold p in Hks, Hpg.
  apply Z.eqb_neq in Hks as ->. apply Z.eqb_neq in Hpg as ->.
  assert (pushcli k = Ok tt (set_chart (mask c (chart k)) k)) as Hpush.
  { exact (lift_core _ k _ _ (pushcli_spec c _ Hb)). }
  mstep Hpush.
  assert (mycpu (set_chart (mask c (chart k)) k) = Ok c (set_chart (mask c (chart k)) k)) as Hm.
  { apply mycpu_ok; [cbn; eauto with kernel|done]. }
  mstep Hm. unfold Core.mod_hart. mred. cbn [chart set_chart].
  set (h' := set_cr3 _ (alter_cpu c _ (chart k))).
  replace (set_cr3 _ _) with (mask c h').
  - refine (lift_core Ops.popcli (set_chart (mask c h') _) tt h' (popcli_spec c h' _)). unfold h'. destruct Hb as [Hb1 (q & Hq & Hq')].
    split; [cbn; by rewrite first_index_alter|]. exists (set_esp0 (kstack p +u KSTACKSIZE) q).
    cbn. by rewrite list_lookup_alter_eq, Hq.
  - unfold h', mask, set_cr3, alter_cpu, set_IF, set_cpus; cbn. f_equal.
    rewrite !list_alter_alter_eq. done.
Qed.
End specs.

Import Core.

Lemma wake_lookup ch (l : list proc) j :
  (j < length l)%nat → (wake ch <$> l) !!! j = wake ch (l !!! j).
Proof.
  intros [p Hp]%lookup_lt_is_Some.
  rewrite (list_lookup_total_correct l j p Hp). apply list_lookup_total_correct.
  by rewrite list_lookup_fmap, Hp.
Qed.


(** A small machine: process 0 runs on CPU 1, process 1 sleeps on [ticks]. *)
Definition core0 : core :=
  Core hart0
    (set_kstack 0x80400000 (set_pgdir 0x80401000 (set_pid 1 (set_state RUNNING proc0))) ::
     set_kstack 0x80402000 (set_pgdir 0x80403000
       (set_pid 2 (set_chan ChTicks (set_state SLEEPING proc0)))) ::
     replicate (NPROC - 2) proc0)
    (Some 0%nat) 3 0 0 rand_init 0x803ff000.


(** kill(pid) marks the first slot with that pid as killed,
    wakes it if it sleeps, changes nothing else and returns 0; without such a
    slot it changes nothing and returns -1. *)
Theorem kill_spec (c : nat) (n : Z) (k : core) :
  balanced c (chart k) → is_free LPtable (chart k) →
  (∃ i p, ptable k !! i = Some p ∧ pid p = n ∧
     (∀ j q, (j < i)%nat → ptable k !! j = Some q → pid q ≠ n) ∧
     kill n k = Ok 0 (set_ptable (<[i := set_killed 1
       (if bool_decide (state p = SLEEPING) then set_state RUNNABLE p else p)]> (ptable k)) k)) ∨
  ((∀ j q, ptable k !! j = Some q → pid q ≠ n) ∧ kill n k = Ok (-1) k).
Proof.
  intros Hb Hf. unfold kill. mstep (acquire_core c LPtable k Hb Hf). mred. cbn [ptable set_chart].
  destruct (first_index _ _) as [i|] eqn:E.
  - apply first_index_Some in E as [(p & Hp & Hn) Hfst]. left. exists i, p.
    split_and!; [done|lia|intros j q Hj Hq; specialize (Hfst j q Hj Hq); lia|].
    unfold alter_proc. mred. cbn [ptable set_chart set_ptable]. rewrite list_alter_alter_eq.
    mstep (release_core c LPtable (chart k) (set_ptable (alter ((λ p, if bool_decide
      (state p = SLEEPING) then set_state RUNNABLE p else p) ∘ set_killed 1) i (ptable k))
      (set_ptable (alter (set_killed 1) i (ptable k)) (set_chart (acq c LPtable (chart k)) k)))
      eq_refl Hb Hf). mred. f_equal. unfold set_ptable; cbn. f_equal.
    rewrite (alter_lookup_insert _ _ _ _ Hp). cbn. by case_bool_decide.
  - rewrite first_index_None in E. right.
    split; [intros j q Hq; specialize (E j q Hq); lia|].
    mstep (release_core c LPtable (chart k) (set_chart (acq c LPtable (chart k)) k) eq_refl Hb Hf).
    mred. f_equal. by destruct k.
Qed.

Lemma kill_spec_witness :
  (∃ i p, ptable core0 !! i = Some p ∧ pid p = 2 ∧
     (∀ j q, (j < i)%nat → ptable core0 !! j = Some q → pid q ≠ 2) ∧
     kill 2 core0 = Ok 0 (set_ptable (<[i := set_killed 1
       (if bool_decide (state p = SLEEPING) then set_state RUNNABLE p else p)]> (ptable core0)) core0)) ∨
  ((∀ j q, ptable core0 !! j = Some q → pid q ≠ 2) ∧ kill 2 core0 = Ok (-1) core0).
Proof. apply (kill_spec 1 2 core0); [exact hart0_balanced|reflexivity]. Defined.
