(* ===== verification/Io.v ===== *)
(** * Devices: the port instructions of x86.h and memory-mapped registers

    The devices on the bus are outside the kernel.  A [Bus] says what they answer
    and how they change; the drivers are defined and proved for any bus, and what
    a driver relies on is a hypothesis on the bus. *)

From S2P Require Import Prelude Machine.
Open Scope kernel_scope.

Class Bus (D : Type) := {
  port_in : Z → D → Z * D;
  port_out : Z → Z → D → D;
  port_ins : Z → nat → D → list Z * D;
  port_outs : Z → list Z → D → D;
  reg_read : Z → D → Z * D;
  reg_write : Z → Z → D → D;
}.

(** A state with devices on a bus. *)
Section io.
Context {S D : Type} `{Bus D} `{Lens S D}.

Definition inb (port : Z) : M S Z := λ s, let '(v, d) := port_in port (view s) in Ok (u8 v) (upd d s).
Definition outb (port data : Z) : M S unit := modify (λ s, upd (port_out port (u8 data) (view s)) s).
(** [insl] stores [4 * cnt] bytes at its address: the bytes are the result. *)
Definition insl (port : Z) (cnt : nat) : M S (list Z) := λ s, let '(l, d) := port_ins port cnt (view s) in Ok l (upd d s).
Definition outsl (port : Z) (bytes : list Z) : M S unit := modify (λ s, upd (port_outs port bytes (view s)) s).

(** Device registers in memory, accessed as words. *)
Definition mmio_read (a : Z) : M S Z := λ s, let '(v, d) := reg_read a (view s) in Ok (u32 v) (upd d s).
Definition mmio_write (a v : Z) : M S unit := modify (λ s, upd (reg_write a (u32 v) (view s)) s).
End io.

(** Polling a disk controller: its status says busy for a while, and then ready,
    with status [r]. *)
Section poll.
Context {D : Type} `{Bus D}.

Inductive settles : nat → D → Z → D → Prop :=
| settle_now d v d' : port_in 0x1F7 d = (v, d') → Z.land (u8 v) 0xC0 = 0x40 → settles 0 d (u8 v) d'
| settle_later k d v d1 r d' :
    port_in 0x1F7 d = (v, d1) → Z.land (u8 v) 0xC0 ≠ 0x40 → settles k d1 r d' → settles (S k) d r d'.

Lemma poll_run {S A} `{!Lens S D} (body : unit → M S (unit + A)) (f : Z → A) k d r d' s :
  (∀ s v d1, port_in 0x1F7 (view s) = (v, d1) →
    body tt s = Ok (if Z.land (u8 v) 0xC0 =? 0x40 then inr (f (u8 v)) else inl tt) (upd d1 s)) →
  settles k d r d' → Z.of_nat k < 2 ^ 40 → view s = d → loop body 40 tt s = Ok (f r) (upd d' s).
Proof.
  intros Hbody Hs Hk Hd. eapply (loop_iter _ 40 (Datatypes.S k)); [|change (2 ^ Z.of_nat 40) with (2 ^ 40); lia].
  clear Hk. revert s Hd. induction Hs as [d v d' E Hv|k d v d1 r d' E Hv _ IH]; intros s Hd; subst d.
  - apply iter_exit. by rewrite (Hbody _ _ _ E), Hv.
  - rewrite (iter_next _ _ _ _ tt (upd d1 s)); [|by rewrite (Hbody _ _ _ E), (proj2 (Z.eqb_neq _ _) Hv)].
    rewrite IH by apply view_upd. by rewrite upd_upd.
Qed.
End poll.

(** A bus without devices: reading gives ones, writing is recorded. *)
Definition trace : Type := list (Z * Z).
#[global] Instance trace_bus : Bus trace := {|
  port_in _ d := (0xff, d);
  port_out p v d := d ++ [(p, v)];
  port_ins _ n d := (replicate (4 * n) 0xff, d);
  port_outs p l d := d ++ ((λ v, (p, v)) <$> l);
  reg_read _ d := (0xffffffff, d);
  reg_write a v d := d ++ [(a, v)];
|}.

(** ** traps.h: interrupt lines *)
Definition T_IRQ0 : Z := 32.
Definition IRQ_TIMER : Z := 0.
Definition IRQ_KBD : Z := 1.
Definition IRQ_COM1 : Z := 4.
Definition IRQ_IDE : Z := 14.
Definition IRQ_ERROR : Z := 19.
Definition IRQ_SPURIOUS : Z := 31.
