(* ===== verification/Sched.v ===== *)
(** * The schedulers of proc.c

    Theorems about scheduler(), lottery_scheduler() and stride_scheduler(), as
    modelled in Proc.v: whom an iteration picks, what it does to the process
    table, and the shares the two LAB-2 schedulers give. *)

From S2P Require Import Prelude Rand Machine Proc.
Import Proc.Core.
Open Scope kernel_scope.

(** ** The lottery *)

Section lottery.
(** The tickets a process takes part with. *)
Definition weight (p : proc) : Z := if bool_decide (state p = RUNNABLE) then tickets p else 0.
Definition tsum (l : list proc) : Z := foldr (λ p n, weight p + n) 0 l.
Definition runnable (p : proc) : Prop := state p = RUNNABLE.

#[global] Instance runnable_dec p : Decision (runnable p).
Proof. unfold runnable. apply _. Defined.

(** Tickets are not negative and [totalTickets + 1] fits an [int]. *)
Definition tickets_ok (l : list proc) : Prop :=
  Forall (λ p, 0 ≤ tickets p) l ∧ tsum l < 2 ^ 31 - 1.

Lemma weight_nonneg p : 0 ≤ tickets p → 0 ≤ weight p.
Proof. unfold weight. case_bool_decide; lia. Qed.

Lemma tsum_nonneg l : Forall (λ p, 0 ≤ tickets p) l → 0 ≤ tsum l.
Proof. induction 1 as [|p l Hp _ IH]; simpl; [lia|]. pose proof (weight_nonneg p Hp). lia. Qed.

Lemma tsum_app l1 l2 : tsum (l1 ++ l2) = tsum l1 + tsum l2.
Proof. induction l1; simpl; lia. Qed.

Lemma s32_small z : 0 ≤ z < 2 ^ 31 → s32 z = z.
Proof. intros. apply s32_id. unfold is_s32. lia. Qed.

Lemma total_tickets_from l n :
  Forall (λ p, 0 ≤ tickets p) l → 0 ≤ n → n + tsum l < 2 ^ 31 →
  foldl (λ n p, if bool_decide (state p = RUNNABLE) then n +i tickets p else n) n l = n + tsum l.
Proof.
  intros Hl. revert n. induction Hl as [|p l Hp Hl IH]; intros n Hn Hs; simpl in *; [lia|].
  pose proof (tsum_nonneg l Hl). pose proof (weight_nonneg p Hp). unfold weight in *.
  destruct (bool_decide (state p = RUNNABLE)); [rewrite s32_small by lia|]; rewrite IH by lia; lia.
Qed.

Lemma total_tickets_tsum l : tickets_ok l → total_tickets l = tsum l.
Proof. intros [??]. unfold total_tickets. rewrite total_tickets_from; auto; lia. Qed.

(** The process at [i] wins exactly for the draws of its bin; the bin of
    the first runnable process also holds the draw 0. *)
Definition in_bin (l : list proc) (b : Z) (i : nat) (w : Z) : Prop :=
  ∃ p, l !! i = Some p ∧ runnable p ∧ w ≤ b + tsum (take (S i) l) ∧
       (Forall (λ q, ¬ runnable q) (take i l) ∨ b + tsum (take i l) < w).

Lemma tsum_none l : Forall (λ q, ¬ runnable q) l → tsum l = 0.
Proof.
  induction 1 as [|p l Hp _ IH]; simpl; [done|]. unfold weight.
  rewrite bool_decide_false; [lia|done].
Qed.

Lemma lottery_pick_range l w b k j : lottery_pick w b l k = Some j → (k ≤ j)%nat.
Proof.
  revert b k. induction l as [|p l IH]; intros b k; simpl; [done|].
  repeat case_match; intros E; try (apply IH in E; lia). injection E as <-. lia.
Qed.

Lemma lottery_pick_bin l w b k i :
  Forall (λ p, 0 ≤ tickets p) l → 0 ≤ b → b + tsum l < 2 ^ 31 →
  lottery_pick w b l k = Some (k + i)%nat ↔ in_bin l b i w.
Proof.
  intros Hl. revert b k i. induction Hl as [|p l Hp Hl IH]; intros b k i Hb Hs; simpl in *.
  { split; [done|]. intros (?&?&_). done. }
  pose proof (tsum_nonneg l Hl) as Hnn. pose proof (weight_nonneg p Hp) as Hw.
  assert (Hshift : ∀ b', i ≠ O → lottery_pick w b' l (S k) = Some (k + i)%nat ↔
            lottery_pick w b' l (S k) = Some (S k + (i - 1))%nat).
  { intros b' Hi. replace (S k + (i - 1))%nat with (k + i)%nat by lia. done. }
  unfold weight in *. destruct (decide (state p ≠ RUNNABLE)) as [Hr|Hr].
  - rewrite (bool_decide_true (_ ≠ _)) by done. rewrite bool_decide_false in Hs, Hw by done.
    destruct i as [|i].
    + split; [intros E; apply lottery_pick_range in E; lia|].
      intros (q & [= <-] & Hq & _). done.
    + rewrite Hshift by lia. rewrite Nat.sub_succ, Nat.sub_0_r, IH by lia.
      unfold in_bin. simpl. unfold weight. rewrite bool_decide_false by done.
      setoid_rewrite Forall_cons. naive_solver lia.
  - apply dec_stable in Hr. rewrite (bool_decide_false (_ ≠ _)) by naive_solver.
    rewrite bool_decide_true in Hs, Hw by done. rewrite s32_small by lia.
    destruct (Z.ltb_spec (b + tickets p) w) as [Hlt|Hge].
    + destruct i as [|i].
      * split; [intros E; apply lottery_pick_range in E; lia|].
        intros (q & [= <-] & Hq & Hle & _). simpl in Hle. unfold weight in Hle.
        rewrite bool_decide_true in Hle by done. lia.
      * rewrite Hshift by lia. rewrite Nat.sub_succ, Nat.sub_0_r, IH by lia.
        unfold in_bin. simpl. unfold weight. rewrite bool_decide_true by done.
        setoid_rewrite Forall_cons. split.
        -- intros (q & ? & ? & ? & Ho); exists q; split_and!; try done; try lia; right.
           destruct Ho as [Hn|?]; [rewrite (tsum_none _ Hn)|]; lia.
        -- intros (q & ? & ? & ? & [[Hn _]|?]); exists q; [by destruct Hn|].
           split_and!; try done; try lia.
    + destruct i as [|i].
      * split; [intros _|intros _; f_equal; lia].
        exists p. simpl. unfold weight. rewrite bool_decide_true by done.
        split_and!; try done; [lia|by left].
      * split; [intros E; injection E; lia|].
        intros (q & _ & _ & _ & [Hn|Hn]); simpl in Hn.
        -- apply Forall_cons in Hn as [Hn _]. by destruct Hn.
        -- unfold weight in Hn. rewrite bool_decide_true in Hn by done.
           assert (Forall (λ p, 0 ≤ tickets p) (take i l)) as Ht by (by apply Forall_take).
           apply tsum_nonneg in Ht. lia.
Qed.

(** The bin of process [i], as an interval. *)
Definition is_first (l : list proc) (i : nat) : Prop := Forall (λ q, ¬ runnable q) (take i l).

#[global] Instance is_first_dec l i : Decision (is_first l i).
Proof. unfold is_first. apply _. Defined.

Lemma in_bin_interval l i p w :
  l !! i = Some p → runnable p → 0 ≤ w → tickets_ok l →
  in_bin l 0 i w ↔
    (if decide (is_first l i) then 0 else tsum (take i l) + 1) ≤ w < tsum (take i l) + tickets p + 1.
Proof.
  intros Hi Hp Hw [Hnn _]. unfold in_bin.
  assert (tsum (take (S i) l) = tsum (take i l) + tickets p) as ->.
  { rewrite (take_S_r _ _ _ Hi), tsum_app. simpl. unfold weight.
    rewrite bool_decide_true by done. lia. }
  pose proof (tsum_nonneg (take i l) (Forall_take _ _ _ Hnn)).
  case_decide as Hf; unfold is_first in Hf; split.
  - intros (q & ? & ? & ? & ?). lia.
  - intros ?. exists p. split_and!; try done; [lia|by left].
  - intros (q & ? & ? & ? & [?|?]); [done|lia].
  - intros ?. exists p. split_and!; try done; [lia|right; lia].
Qed.

Lemma tsum_take_le l i p :
  Forall (λ p, 0 ≤ tickets p) l → l !! i = Some p → runnable p →
  0 ≤ tsum (take i l) ∧ 0 ≤ tickets p ∧ tsum (take i l) + tickets p ≤ tsum l.
Proof.
  intros Hnn Hi Hp. rewrite <- (take_drop_middle l i p Hi) at 3.
  rewrite tsum_app. simpl. unfold weight. rewrite bool_decide_true by done.
  pose proof (tsum_nonneg _ (Forall_take _ i _ Hnn)).
  pose proof (tsum_nonneg _ (Forall_drop _ (S i) _ Hnn)).
  rewrite Forall_lookup in Hnn. specialize (Hnn i p Hi). lia.
Qed.

Lemma lottery_pick_lookup l w b k j :
  lottery_pick w b l k = Some j → ∃ p, l !! (j - k)%nat = Some p ∧ runnable p.
Proof.
  revert b k. induction l as [|p l IH]; intros b k; simpl; [done|].
  assert (∀ b', lottery_pick w b' l (S k) = Some j →
    ∃ q, (p :: l) !! (j - k)%nat = Some q ∧ runnable q) as Hrec.
  { intros b' E. pose proof (lottery_pick_range _ _ _ _ _ E).
    destruct (IH _ _ E) as (q & Hq & ?). exists q. split; [|done].
    by replace (j - k)%nat with (S (j - S k)) by lia. }
  case_bool_decide as Hr; [apply Hrec|]. case_match; [apply Hrec|].
  intros [= <-]. exists p. rewrite Nat.sub_diag. done.
Qed.

Lemma lottery_pick_someone l w b k :
  Forall (λ p, 0 ≤ tickets p) l → 0 ≤ b → b + tsum l < 2 ^ 31 → w ≤ b + tsum l →
  Exists runnable l → ∃ j, lottery_pick w b l k = Some j.
Proof.
  intros Hl. revert b k. induction Hl as [|p l Hp Hl IH]; intros b k Hb Hs Hw He; simpl in *.
  { by apply Exists_nil in He. }
  pose proof (tsum_nonneg l Hl). unfold weight in *.
  destruct (decide (state p ≠ RUNNABLE)) as [Hr|Hr].
  - rewrite (bool_decide_true (_ ≠ _)) by done. rewrite bool_decide_false in Hs, Hw by done.
    apply Exists_cons in He as [?|?]; [done|]. apply IH; auto; lia.
  - apply dec_stable in Hr. rewrite (bool_decide_false (_ ≠ _)) by naive_solver.
    rewrite bool_decide_true in Hs, Hw by done. rewrite s32_small by lia.
    destruct (Z.ltb_spec (b + tickets p) w); [|by eexists].
    destruct (decide (Exists runnable l)) as [?|Hn]; [apply IH; auto; lia|].
    apply not_Exists_Forall in Hn; [|apply _]. rewrite (tsum_none _ Hn) in Hw. lia.
Qed.
End lottery.

(** The lottery is fair up to one ticket.  Of the
    [totalTickets + 1] possible values of [winner], process [i] wins for
    exactly as many as it has tickets, plus one if it is the first runnable
    process of the table (the draw 0). *)
Theorem lottery_share (l : list proc) (i : nat) (p : proc) :
  tickets_ok l → l !! i = Some p → runnable p →
  Z.of_nat (length (filter (λ w, lottery_pick w 0 l 0 = Some i) (seqZ 0 (total_tickets l + 1)))) =
    tickets p + (if decide (is_first l i) then 1 else 0).
Proof.
  intros Hok Hi Hp. rewrite (total_tickets_tsum l Hok).
  pose proof (tsum_take_le l i p (proj1 Hok) Hi Hp).
  rewrite (count_seqZ_interval _ (if decide (is_first l i) then 0 else tsum (take i l) + 1)
             (tsum (take i l) + tickets p + 1)).
  - case_decide as Hf; [unfold is_first in Hf; rewrite (tsum_none _ Hf)|]; lia.
  - case_decide; lia.
  - intros w Hw. rewrite <- (in_bin_interval l i p w) by (done || lia).
    destruct Hok. by rewrite <- (lottery_pick_bin l w 0 0 i) by (done || lia).
Qed.

Lemma lottery_share_witness :
  let a := set_state RUNNABLE (set_tickets 3 proc0) in
  let b := set_state RUNNABLE (set_tickets 5 proc0) in
  Z.of_nat (length (filter (λ w, lottery_pick w 0 [proc0; a; b] 0 = Some 2%nat)
                      (seqZ 0 (total_tickets [proc0; a; b] + 1)))) = 5 + 0.
Proof.
  apply (lottery_share [proc0; set_state RUNNABLE (set_tickets 3 proc0);
                        set_state RUNNABLE (set_tickets 5 proc0)] 2
           (set_state RUNNABLE (set_tickets 5 proc0))).
  - split; [repeat constructor; done|vm_compute; reflexivity].
  - reflexivity.
  - reflexivity.
Defined.

(** ** Running the chosen process

    From here on the process that is switched to is any code [body] that
    changes only its own slot of the table before it switches back, as a
    process that computes in user space and is preempted does. *)

(** The hart after a process has run: [c->proc] is null again, the kernel's
    page directory is loaded, and the task state points to the process's
    kernel stack. *)
Definition settle (c : nat) (e r : Z) (h : hart) : hart :=
  set_cr3 r (alter_cpu c (set_cproc None ∘ set_esp0 e) h).

Lemma settle_acq c e r l h : settle c e r (acq c l h) = acq c l (settle c e r h).
Proof.
  unfold settle, acq, mask, set_lock, set_cr3, alter_cpu, set_IF, set_cpus, set_locks; cbn.
  f_equal. by rewrite !list_alter_alter_eq.
Qed.

Lemma settle_balanced c e r h : balanced c h → balanced c (settle c e r h).
Proof.
  intros [Hc (k & Hk & Hq)]. split; [cbn; by rewrite first_index_alter|].
  exists (set_cproc None (set_esp0 e k)). cbn. by rewrite list_lookup_alter_eq, Hk.
Qed.

Lemma set_cproc_balanced c p h : balanced c h → balanced c (alter_cpu c (set_cproc p) h).
Proof.
  intros [Hc (k & Hk & Hq)]. split; [cbn; by rewrite first_index_alter|].
  exists (set_cproc p k). cbn. by rewrite list_lookup_alter_eq, Hk.
Qed.
#[export] Hint Resolve settle_balanced set_cproc_balanced : kernel.

Section running.
Context (run : nat → M core unit) (body : proc → proc).
Hypothesis run_body : ∀ i k, run i k = Ok tt (set_ptable (alter body i (ptable k)) k).

(** A slot that can be switched to. *)
Definition startable (p : proc) : Prop := kstack p ≠ 0 ∧ pgdir p ≠ 0.

Definition clocked (start now : Z) (p : proc) : proc :=
  set_execution_time (s32 (execution_time p + (now -u start))) p.

Lemma dispatch_core c i k :
  balanced c (chart k) → startable (ptable k !!! i) →
  (set_cpu_proc c (Some i);; switchuvm (Some i);; alter_proc i (set_state RUNNING);; run i;; switchkvm) k =
    let p := ptable k !!! i in
    Ok tt (set_ptable (alter (body ∘ set_state RUNNING) i (ptable k))
             (set_chart (set_cr3 (V2P (kpgdir k))
                (alter_cpu c (set_esp0 (kstack p +u KSTACKSIZE) ∘ set_cproc (Some i)) (chart k))) k)).
Proof.
  intros Hb [Hks Hpg]. cbv zeta. set (k1 := set_chart (alter_cpu c (set_cproc (Some i)) (chart k)) k).
  assert (set_cpu_proc c (Some i) k = Ok tt k1) as H1 by done. mstep H1.
  mstep (switchuvm_core c i k1 ltac:(unfold k1; cbn; eauto with kernel) Hks Hpg).
  unfold alter_proc. mred.
  mstep (run_body i (set_ptable (alter (set_state RUNNING) i (ptable k1)) (set_chart
    (set_cr3 (V2P (pgdir (ptable k1 !!! i))) (alter_cpu c (set_esp0 (kstack (ptable k1 !!! i)
     +u KSTACKSIZE)) (chart k1))) k1))).
  unfold switchkvm, mod_hart. mred. f_equal.
  unfold k1, set_ptable, set_chart; cbn. f_equal; [|by rewrite list_alter_alter_eq].
  unfold set_cr3, alter_cpu, set_cpus; cbn. by rewrite list_alter_alter_eq.
Qed.

Lemma run_process_core c start i k :
  balanced c (chart k) → startable (ptable k !!! i) →
  run_process run c start i k =
    Ok tt (set_ptable (alter (clocked start (ticks k) ∘ body ∘ set_state RUNNING) i (ptable k))
             (set_chart (settle c (kstack (ptable k !!! i) +u KSTACKSIZE) (V2P (kpgdir k)) (chart k)) k)).
Proof.
  intros Hb Hs. unfold run_process.
  pose proof (dispatch_core c i k Hb Hs) as E. cbv zeta in E.
  assert (∀ (m : M core unit),
    (set_cpu_proc c (Some i);; switchuvm (Some i);; alter_proc i (set_state RUNNING);;
     run i;; switchkvm;; m) k =
    ((set_cpu_proc c (Some i);; switchuvm (Some i);; alter_proc i (set_state RUNNING);;
     run i;; switchkvm);; m) k) as Hassoc.
  { intros m. symmetry. by repeat (rewrite bind_assoc; apply bind_ext; intros ??). }
  rewrite Hassoc. mstep E. unfold alter_proc, set_cpu_proc, mod_hart. mred. f_equal.
  unfold set_ptable, set_chart; cbn. f_equal; [|by rewrite list_alter_alter_eq].
  unfold settle, set_cr3, alter_cpu, set_cpus; cbn. by rewrite list_alter_alter_eq.
Qed.

(** *** The lottery *)

Definition lottery_turn (start now : Z) (p : proc) : proc :=
  clocked start now (body (set_state RUNNING
    (if 1 <? tickets p then set_execution_count (execution_count p +i 1) p else p))).

Definition lottery_result (c : nat) (start w : Z) (k : core) : core :=
  match lottery_pick w 0 (ptable k) 0 with
  | None => k
  | Some i =>
      set_ptable (alter (lottery_turn start (ticks k)) i (ptable k))
        (set_chart (settle c (kstack (ptable k !!! i) +u KSTACKSIZE) (V2P (kpgdir k)) (chart k)) k)
  end.

Lemma lottery_run_core c start w k :
  balanced c (chart k) → is_free LPtable (chart k) →
  Forall (λ p, runnable p → startable p) (ptable k) →
  lottery_run run c start w k = Ok tt (lottery_result c start w k).
Proof.
  intros Hb Hf Hst. unfold lottery_run, lottery_result.
  mstep (acquire_core c LPtable k Hb Hf). mred. cbn [ptable set_chart].
  destruct (lottery_pick w 0 (ptable k) 0) as [i|] eqn:E.
  - apply lottery_pick_lookup in E as (p & Hp & Hr). rewrite Nat.sub_0_r in Hp.
    rewrite Forall_lookup in Hst. destruct (Hst i p Hp Hr) as [Hks Hpg].
    rewrite bind_assoc. unfold alter_proc at 1. mred. cbn [ptable set_chart].
    set (f := λ p, if 1 <? tickets p then _ else p). set (k1 := set_ptable _ _).
    assert (Hp1 : ptable k1 !!! i = f p).
    { cbn. apply list_lookup_total_correct. by rewrite list_lookup_alter_eq, Hp. }
    assert (kstack (f p) = kstack p ∧ pgdir (f p) = pgdir p) as [Ek Ep].
    { unfold f. by destruct (1 <? tickets p). }
    mstep (run_process_core c start i k1 ltac:(cbn; eauto with kernel)
      ltac:(rewrite Hp1; split; [by rewrite Ek|by rewrite Ep])).
    rewrite (release_core c LPtable (settle c (kstack (f p) +u KSTACKSIZE) (V2P (kpgdir k)) (chart k))).
    + f_equal. rewrite (list_lookup_total_correct _ _ _ Hp), Ek.
      unfold set_ptable, set_chart; cbn. f_equal. by rewrite list_alter_alter_eq.
    + cbn. rewrite <- settle_acq. do 3 f_equal. by rewrite <- Hp1.
    + eauto with kernel.
    + done.
  - mred. rewrite (release_core c LPtable (chart k)); [|done..]. by destruct k.
Qed.
End running.


(** Two runnable processes, on CPU 1, which is in the scheduler. *)
Definition core1 : core :=
  let p := set_kstack 0x80400000 (set_pgdir 0x80401000 (set_state RUNNABLE proc0)) in
  set_ptable (set_pid 1 (set_tickets 3 p) :: proc0 :: set_pid 2 (set_tickets 5 p) ::
              replicate (NPROC - 3) proc0) core0.


(** ** Stride scheduling *)

(** [best l mp j p]: process [j] is the first of the RUNNABLE ones with the
    least pass, and that pass is below [mp]. *)
Definition best (l : list proc) (mp : Z) (j : nat) (p : proc) : Prop :=
  l !! j = Some p ∧ runnable p ∧ pass p < mp ∧
  ∀ j' q, l !! j' = Some q → runnable q → pass p ≤ pass q ∧ ((j' < j)%nat → pass p < pass q).

Definition none_below (l : list proc) (mp : Z) : Prop :=
  Forall (λ q, runnable q → mp ≤ pass q) l.

Lemma best_below l mp j p q : best l mp j p → mp ≤ pass q → best (q :: l) mp (S j) p.
Proof.
  intros (Hj & Hr & Hlt & Hall) Hq. split_and!; [done..|].
  intros [|j'] q' Hq' Hr'; simpl in Hq'; [simplify_eq; lia|].
  destruct (Hall j' q' Hq' Hr'). split; [done|]. intros. auto with lia.
Qed.

Lemma best_skip l mp j p q : best l mp j p → ¬ runnable q → best (q :: l) mp (S j) p.
Proof.
  intros (Hj & Hr & Hlt & Hall) Hq. split_and!; [done..|].
  intros [|j'] q' Hq' Hr'; simpl in Hq'; [simplify_eq; done|].
  destruct (Hall j' q' Hq' Hr'). split; [done|]. intros. auto with lia.
Qed.

Lemma stride_scan_cases mp m l i :
  ∃ l', Forall2 (λ p q, q = p ∨ runnable p ∧ q = set_strides p) l l' ∧
   ((none_below l mp ∧ stride_scan mp m l i = (mp, m, l')) ∨
    (∃ j p, best l mp j p ∧ stride_scan mp m l i = (pass p, Some (i + j)%nat, l'))).
Proof.
  revert mp m i. induction l as [|p l IH]; intros mp m i; cbn [stride_scan].
  { exists []. split; [constructor|left]. split; [constructor|done]. }
  destruct (decide (runnable p ∧ pass p < mp)) as [[Hr Hlt]|Hn].
  - rewrite (bool_decide_false (state p ≠ RUNNABLE)) by (unfold runnable in Hr; naive_solver).
    rewrite (proj2 (Z.ltb_lt _ _) Hlt). cbn [orb negb].
    destruct (IH (pass p) (Some i) (S i)) as (l' & Hl' & [[Hnb ->]|(j & q & Hb & ->)]);
      exists (set_strides p :: l'); (split; [constructor; auto|right]).
    + exists O, p. rewrite Nat.add_0_r. split; [|done]. split_and!; [done..|].
      intros [|j'] q Hq Hrq; simpl in Hq; [simplify_eq; lia|].
      unfold none_below in Hnb. rewrite Forall_lookup in Hnb. specialize (Hnb j' q Hq Hrq).
      split; [done|lia].
    + exists (S j), q. replace (i + S j)%nat with (S i + j)%nat by lia. split; [|done].
      destruct Hb as (? & ? & Hlt' & Hall). split_and!; [done..|lia|].
      intros [|j'] q' Hq' Hr'; simpl in Hq'; [simplify_eq; lia|].
      destruct (Hall j' q' Hq' Hr'). split; [done|]. intros. auto with lia.
  - assert (∀ D, @bool_decide (state p ≠ RUNNABLE) D || negb (pass p <? mp) = true) as ->.
    { intros D. unfold runnable in Hn. destruct (decide (state p = RUNNABLE)) as [Hr|Hr].
      - apply orb_true_intro. right. destruct (Z.ltb_spec (pass p) mp); [naive_solver|done].
      - by rewrite bool_decide_true. }
    destruct (IH mp m (S i)) as (l' & Hl' & [[Hnb ->]|(j & q & Hb & ->)]);
      exists (p :: l'); (split; [constructor; auto|]); [left|right].
    + split; [|done]. constructor; [|done]. intros Hr.
      destruct (decide (pass p < mp)); [naive_solver|lia].
    + exists (S j), q. replace (i + S j)%nat with (S i + j)%nat by lia. split; [|done].
      destruct (decide (runnable p)); [apply best_below; [done|]|by apply best_skip].
      destruct (decide (pass p < mp)); [naive_solver|lia].
Qed.

(** Scanning a table whose strides are already up to date changes nothing. *)
Definition strides_ok (l : list proc) : Prop := Forall (λ p, runnable p → set_strides p = p) l.

Lemma stride_scan_stable mp m l i mp' m' l' :
  strides_ok l → stride_scan mp m l i = (mp', m', l') → l' = l.
Proof.
  intros Hok E. destruct (stride_scan_cases mp m l i) as (l'' & Hl & Hc).
  assert (l'' = l') as -> by (destruct Hc as [[_ E']|(?&?&_&E')]; congruence).
  clear E Hc. unfold strides_ok in Hok.
  induction Hl as [|p q l l' Hpq _ IH]; [done|]. apply Forall_cons in Hok as [Hp Hok].
  f_equal; [destruct Hpq as [?|[??]]; [done|]; rewrite <- Hp; auto|auto].
Qed.

(** The first loop of stride_scheduler() finds the RUNNABLE
    process with the least pass, the first one in table order if there are
    several, as long as that pass is below [max]; otherwise [min] keeps the
    value it had in the previous iteration. *)
Theorem stride_scan_min (m : option nat) (l : list proc) :
  (none_below l max ∧ (stride_scan max m l 0).1 = (max, m)) ∨
  (∃ j p, best l max j p ∧ (stride_scan max m l 0).1 = (pass p, Some j)).
Proof.
  destruct (stride_scan_cases max m l 0) as (l' & _ & [[Hn ->]|(j & p & Hb & ->)]); [by left|right].
  by exists j, p.
Qed.

Section stride.
Context (run : nat → M core unit) (body : proc → proc).
Hypothesis run_body : ∀ i k, run i k = Ok tt (set_ptable (alter body i (ptable k)) k).

Definition stride_turn (start now : Z) (p : proc) : proc :=
  clocked start now (body (set_state RUNNING
    (set_execution_count (execution_count p +i 1) (set_pass (pass p +i stride p) p)))).

Lemma stride_find_core c min k :
  idle c (chart k) → is_free LPtable (chart k) →
  stride_find min (set_chart (set_IF true (chart k)) k) =
    Ok ((stride_scan max min (ptable k) 0).1)
      (set_ptable (stride_scan max min (ptable k) 0).2 (set_chart (online c (chart k)) k)).
Proof.
  intros Hi Hf. unfold stride_find.
  mstep (lift_core (Ops.acquire LPtable) (set_chart (set_IF true (chart k)) k) _ _
    (acquire_online c LPtable _ Hi Hf)). mred. cbn [ptable set_chart].
  destruct (stride_scan max min (ptable k) 0) as [[mp m] l]. mred.
  pose proof (online_balanced c _ Hi) as Hb.
  by mstep (release_core c LPtable (online c (chart k))
    (set_ptable l (set_chart (acq c LPtable (online c (chart k))) k)) eq_refl Hb Hf).
Qed.

Lemma stride_run_core c start j p k :
  balanced c (chart k) → is_free LPtable (chart k) → best (ptable k) max j p → startable p →
  stride_run run c start (pass p) (Some j) k =
    Ok tt (set_ptable (alter (stride_turn start (ticks k)) j (ptable k))
             (set_chart (settle c (kstack p +u KSTACKSIZE) (V2P (kpgdir k)) (chart k)) k)).
Proof.
  intros Hb Hf (Hj & Hr & Hlt & _) [Hks Hpg]. unfold stride_run.
  mstep (acquire_core c LPtable k Hb Hf). mred. cbn [ptable set_chart].
  rewrite (list_lookup_total_correct _ _ _ Hj). rewrite bool_decide_true by done.
  rewrite (proj2 (Z.leb_gt _ _) Hlt). cbn [andb]. unfold alter_proc at 1 2. mred.
  cbn [ptable set_chart set_ptable]. rewrite list_alter_alter_eq.
  set (f := _ ∘ _). set (k1 := set_ptable (alter f j (ptable k)) _).
  assert (Hp1 : ptable k1 !!! j = f p).
  { cbn. apply list_lookup_total_correct. by rewrite list_lookup_alter_eq, Hj. }
  mstep (run_process_core run body run_body c start j k1 ltac:(cbn; eauto with kernel)
    ltac:(rewrite Hp1; split; done)).
  rewrite (release_core c LPtable (settle c (kstack p +u KSTACKSIZE) (V2P (kpgdir k)) (chart k))).
  + f_equal. unfold set_ptable, set_chart; cbn. f_equal. by rewrite list_alter_alter_eq.
  + rewrite <- settle_acq. rewrite <- (eq_refl : kstack (f p) = kstack p), <- Hp1. done.
  + eauto with kernel.
  + done.
Qed.

Lemma stride_round_core c min j p k :
  idle c (chart k) → is_free LPtable (chart k) → strides_ok (ptable k) →
  best (ptable k) max j p → startable p →
  stride_round run c min k =
    Ok (Some j) (set_ptable (alter (stride_turn (ticks k) (ticks k)) j (ptable k))
      (set_chart (settle c (kstack p +u KSTACKSIZE) (V2P (kpgdir k)) (online c (chart k))) k)).
Proof.
  intros Hi Hf Hok Hbest Hst. unfold stride_round.
  assert (lift Ops.sti k = Ok tt (set_chart (set_IF true (chart k)) k)) as Hsti by done.
  mstep Hsti. mred. mstep (stride_find_core c min k Hi Hf).
  destruct (stride_scan max min (ptable k) 0) as [[mp m] l] eqn:E.
  assert (l = ptable k) as -> by (by eapply stride_scan_stable). cbn [fst snd].
  assert (mp = pass p ∧ m = Some j) as [-> ->].
  { destruct (stride_scan_cases max min (ptable k) 0) as (l' & _ & [[Hn _]|(j' & q & Hb' & E')]).
    - destruct Hbest as (Hj & Hr & Hlt & _). unfold none_below in Hn. rewrite Forall_lookup in Hn.
      specialize (Hn j p Hj Hr). lia.
    - rewrite E in E'. injection E' as -> -> _.
      destruct Hbest as (Hj & Hr & _ & Ha), Hb' as (Hj' & Hr' & _ & Ha').
      destruct (Ha j' q Hj' Hr'), (Ha' j p Hj Hr).
      assert (j' = j) as -> by lia. simplify_eq. done. }
  set (k1 := set_ptable (ptable k) (set_chart (online c (chart k)) k)).
  mstep (stride_run_core c (ticks (set_chart (set_IF true (chart k)) k)) j p k1
    (online_balanced c _ Hi) Hf Hbest Hst).
  done.
Qed.

(** *** Proportional share *)

Hypothesis body_keeps : ∀ p,
  state (body p) = RUNNABLE ∧ kstack (body p) = kstack p ∧ pgdir (body p) = pgdir p ∧
  tickets (body p) = tickets p ∧ stride (body p) = stride p ∧ pass (body p) = pass p ∧
  execution_count (body p) = execution_count p.

(** A process that has been given [execution_count p] turns since fork()
    last set its pass to its stride. *)
Definition on_schedule (p : proc) : Prop :=
  startable p ∧ 1 ≤ tickets p ≤ TOTAL_MAX_TICKETS ∧
  stride p = Z.quot TOTAL_MAX_TICKETS (tickets p) ∧ 0 ≤ execution_count p ∧
  pass p = stride p * (execution_count p + 1).

Definition lag_ok (l : list proc) : Prop :=
  ∀ i j p q, l !! i = Some p → l !! j = Some q → runnable p → runnable q →
    pass p ≤ pass q + stride p.

Definition stride_inv (c : nat) (k : core) : Prop :=
  idle c (chart k) ∧ is_free LPtable (chart k) ∧
  Forall (λ p, runnable p → on_schedule p) (ptable k) ∧ lag_ok (ptable k).

(** An iteration before the passes are reset. *)
Definition stride_step (c : nat) (x y : option nat * core) : Prop :=
  Exists (λ p, runnable p ∧ pass p < max) (ptable x.2) ∧ stride_round run c x.1 x.2 = Ok y.1 y.2.

Lemma on_schedule_stride p : on_schedule p → 1 ≤ stride p ≤ 100000 ∧ set_strides p = p.
Proof using.
  intros (_ & Ht & Hs & _). unfold TOTAL_MAX_TICKETS in *.
  rewrite Z.quot_div_nonneg in Hs by lia. split.
  - rewrite Hs. split; [apply Z.div_le_lower_bound; lia|apply Z.div_le_upper_bound; nia].
  - unfold set_strides. rewrite (proj2 (Z.eqb_neq (tickets p) 0)) by lia.
    unfold TOTAL_MAX_TICKETS. rewrite Z.quot_div_nonneg, <- Hs by lia. by destruct p.
Qed.

Lemma on_schedule_strides l : Forall (λ p, runnable p → on_schedule p) l → strides_ok l.
Proof using.
  intros Hl. eapply Forall_impl; [exact Hl|]. intros p Hp Hr. by apply on_schedule_stride, Hp.
Qed.

Lemma best_exists l mp : Exists (λ p, runnable p ∧ pass p < mp) l → ∃ j p, best l mp j p.
Proof using.
  intros He. destruct (stride_scan_cases mp None l 0) as (_ & _ & [[Hn _]|(j & p & Hb & _)]).
  - apply Exists_exists in He as (p & Hp & Hr & Hlt). unfold none_below in Hn.
    rewrite Forall_forall in Hn. specialize (Hn p Hp Hr). lia.
  - eauto.
Qed.

Lemma turn_on_schedule start now p :
  on_schedule p → pass p < max →
  let q := stride_turn start now p in
  runnable q ∧ on_schedule q ∧ pass q = pass p + stride p ∧ stride q = stride p ∧
  execution_count q = execution_count p + 1.
Proof.
  intros Hp Hlt q. pose proof (on_schedule_stride p Hp) as [Hs _].
  destruct Hp as ([Hk Hg] & Ht & Hst & Hn & Hpass). unfold max in Hlt.
  assert (0 ≤ execution_count p < 4000000) by nia.
  pose proof (body_keeps (set_state RUNNING (set_execution_count (execution_count p +i 1)
    (set_pass (pass p +i stride p) p)))) as (B1 & B2 & B3 & B4 & B5 & B6 & B7).
  cbn in B2, B3, B4, B5, B6, B7.
  unfold runnable, on_schedule, startable, q, stride_turn, clocked. cbn.
  rewrite B1, B2, B3, B4, B5, B6, B7, !s32_small by nia. split_and!; try done; try nia; by apply Hst.
Qed.

Lemma settle_idle c e r h : idle c h → idle c (settle c e r (online c h)).
Proof using.
  intros Hi. apply balanced_idle; [eauto using settle_balanced, online_balanced|].
  destruct Hi as [_ (q & Hq & Hn)]. cbn.
  erewrite list_lookup_total_correct; [|by rewrite !list_lookup_alter_eq, Hq]. done.
Qed.

Lemma stride_inv_step c x y : stride_inv c x.2 → stride_step c x y → stride_inv c y.2.
Proof.
  destruct x as [m k], y as [m' k']. cbn. intros (Hi & Hf & Hall & Hlag) [He Hround]. cbn in *.
  destruct (best_exists _ _ He) as (j & p & Hbest).
  pose proof Hbest as (Hj & Hr & Hlt & Hmin).
  pose proof Hall as Hall'. rewrite Forall_lookup in Hall'.
  pose proof (Hall' j p Hj Hr) as Hsch.
  rewrite (stride_round_core c m j p k Hi Hf (on_schedule_strides _ Hall) Hbest (proj1 Hsch)) in Hround.
  injection Hround as _ <-. cbn.
  destruct (turn_on_schedule (ticks k) (ticks k) p Hsch Hlt) as (Tr & Ts & Tp & Tst & _).
  set (q := stride_turn _ _ p) in *.
  rewrite (alter_lookup_insert _ _ _ _ Hj). fold q.
  split_and!; [by apply settle_idle|done| |].
  - apply Forall_insert; auto.
  - intros a b pa pb Ha Hb Ra Rb.
    apply list_lookup_insert_Some in Ha as [(Ea & <- & _)|[Hna Ha]];
    apply list_lookup_insert_Some in Hb as [(Eb & <- & _)|[Hnb Hb]];
    try subst a; try subst b.
    + apply on_schedule_stride in Ts. lia.
    + destruct (Hmin b pb Hb Rb). lia.
    + pose proof (Hlag a j pa p Ha Hj Ra Hr). apply on_schedule_stride in Hsch. lia.
    + eauto.
Qed.

Lemma fresh_inv c k :
  idle c (chart k) → is_free LPtable (chart k) →
  Forall (λ p, runnable p → on_schedule p ∧ execution_count p = 0) (ptable k) → stride_inv c k.
Proof using.
  intros Hi Hf Hall. split_and!; [done..| |].
  - eapply Forall_impl; [exact Hall|]. intros p Hp Hr. by apply Hp.
  - intros a b p q Ha Hb Hp Hq. rewrite Forall_lookup in Hall.
    destruct (Hall a p Ha Hp) as [(_ & _ & _ & _ & Ep) Zp].
    destruct (Hall b q Hb Hq) as [Sq Zq]. pose proof (on_schedule_stride q Sq) as [? _].
    destruct Sq as (_ & _ & _ & _ & Eq). rewrite Ep, Eq, Zp, Zq. lia.
Qed.
End stride.


(** Two processes with 4 and 2 tickets after fork(): strides 25000 and 50000. *)
Definition core2 : core :=
  let p := set_kstack 0x80400000 (set_pgdir 0x80401000 (set_state RUNNABLE proc0)) in
  set_ptable (set_pass 25000 (set_stride 25000 (set_tickets 4 p)) ::
              set_pass 50000 (set_stride 50000 (set_tickets 2 p)) :: replicate (NPROC - 2) proc0) core0.

(** The state after one iteration from [core2]. *)
Definition core3 : core :=
  match stride_round (λ i, alter_proc i (set_state RUNNABLE)) 1 None core2 with
  | Ok _ k => k
  | _ => core2
  end.

