(* ===== verification/CString.v ===== *)
(** * Memory and the routines of string.c

    Memory is a total function from 32-bit addresses to bytes; address
    arithmetic wraps as it does in the machine.  The string instructions of
    x86.h ([rep stosb], [rep stosl]) are written out as loops.  Memories are
    compared address by address, never with [=]. *)

From S2P Require Import Prelude.
Open Scope kernel_scope.

Definition mem : Type := Z → Z.

Definition bytes_ok (m : mem) : Prop := ∀ a, is_u8 (m a).

Definition load8 (m : mem) (a : Z) : Z := m (u32 a).
Definition store8 (a v : Z) (m : mem) : mem := λ x, if x =? u32 a then u8 v else m x.

(** Little-endian 32-bit words. *)
Definition load32 (m : mem) (a : Z) : Z :=
  load8 m a + load8 m (a + 1) * 2 ^ 8 + load8 m (a + 2) * 2 ^ 16 + load8 m (a + 3) * 2 ^ 24.
Definition store32 (a v : Z) (m : mem) : mem :=
  store8 (a + 3) (Z.shiftr v 24) (store8 (a + 2) (Z.shiftr v 16)
    (store8 (a + 1) (Z.shiftr v 8) (store8 a v m))).

(** ** x86.h *)

Fixpoint stosb (addr data : Z) (cnt : nat) (m : mem) : mem :=
  match cnt with
  | O => m
  | S n => stosb (addr + 1) data n (store8 addr data m)
  end.

Fixpoint stosl (addr data : Z) (cnt : nat) (m : mem) : mem :=
  match cnt with
  | O => m
  | S n => stosl (addr + 4) data n (store32 addr data m)
  end.

(** ** string.c *)

Definition memset (dst c n : Z) (m : mem) : mem :=
  if (Z.rem (s32 dst) 4 =? 0) && (n mod 4 =? 0) then
    let c := Z.land c 0xff in
    stosl dst (Z.lor (Z.lor (Z.lor (Z.shiftl c 24) (Z.shiftl c 16)) (Z.shiftl c 8)) c)
      (Z.to_nat (n / 4)) m
  else stosb dst c (Z.to_nat n) m.

Fixpoint memcmp_loop (s1 s2 : Z) (n : nat) (m : mem) : Z :=
  match n with
  | O => 0
  | S n => if load8 m s1 =? load8 m s2 then memcmp_loop (s1 + 1) (s2 + 1) n m
           else load8 m s1 - load8 m s2
  end.
Definition memcmp (v1 v2 n : Z) (m : mem) : Z := memcmp_loop v1 v2 (Z.to_nat n) m.

(** [while(n-- > 0) *d++ = *s++] and [while(n-- > 0) *--d = *--s]. *)
Fixpoint copy_up (d s : Z) (n : nat) (m : mem) : mem :=
  match n with
  | O => m
  | S n => copy_up (d + 1) (s + 1) n (store8 d (load8 m s) m)
  end.
Fixpoint copy_down (d s : Z) (n : nat) (m : mem) : mem :=
  match n with
  | O => m
  | S n => copy_down (d - 1) (s - 1) n (store8 (d - 1) (load8 m (s - 1)) m)
  end.

Definition memmove (dst src n : Z) (m : mem) : mem :=
  if (src <? dst) && (dst <? src +u n) then copy_down (dst + n) (src + n) (Z.to_nat n) m
  else copy_up dst src (Z.to_nat n) m.

Definition memcpy (dst src n : Z) (m : mem) : mem := memmove dst src n m.

Fixpoint strncmp_loop (p q : Z) (n : nat) (m : mem) : Z :=
  match n with
  | O => 0
  | S n' => if negb (load8 m p =? 0) && (load8 m p =? load8 m q)
            then strncmp_loop (p + 1) (q + 1) n' m
            else load8 m p - load8 m q
  end.
Definition strncmp (p q n : Z) (m : mem) : Z := strncmp_loop p q (Z.to_nat n) m.

(** The first loop of strncpy, and the second one, which clears the rest. *)
Fixpoint strncpy_loop (s t : Z) (n : nat) (m : mem) : mem :=
  match n with
  | O => m
  | S n => let v := load8 m t in
           let m := store8 s v m in
           if v =? 0 then stosb (s + 1) 0 n m else strncpy_loop (s + 1) (t + 1) n m
  end.
Definition strncpy (s t n : Z) (m : mem) : mem := strncpy_loop s t (Z.to_nat n) m.

Fixpoint safestrcpy_loop (s t : Z) (n : nat) (m : mem) : mem :=
  match n with
  | O => store8 s 0 m
  | S n => let v := load8 m t in
           let m := store8 s v m in
           if v =? 0 then store8 (s + 1) 0 m else safestrcpy_loop (s + 1) (t + 1) n m
  end.
Definition safestrcpy (s t n : Z) (m : mem) : mem :=
  if n <=? 0 then m else safestrcpy_loop s t (Z.to_nat (n - 1)) m.

(** [None] when no terminator is found in [fuel] bytes. *)
Fixpoint strlen_loop (s n : Z) (fuel : nat) (m : mem) : option Z :=
  match fuel with
  | O => None
  | S fuel => if load8 m (s + n) =? 0 then Some n else strlen_loop s (n + 1) fuel m
  end.
Definition strlen (fuel : nat) (s : Z) (m : mem) : option Z := strlen_loop s 0 fuel m.

(** ** Behaviour *)

(** [fill d n f m]: memory with the [n] bytes from [d] replaced by [f]. *)
Definition fill (d n : Z) (f : Z → Z) (m : mem) : mem :=
  λ a, if (d <=? a) && (a <? d + n) then f a else m a.

Definition in_space (d n : Z) : Prop := 0 ≤ d ∧ 0 ≤ n ∧ d + n ≤ 2 ^ 32.

Ltac mem_case :=
  repeat match goal with
  | |- context [?a =? ?b] => destruct (Z.eqb_spec a b); try lia
  | |- context [?a <=? ?b] => destruct (Z.leb_spec a b); try lia
  | |- context [?a <? ?b] => destruct (Z.ltb_spec a b); try lia
  end; cbn [andb]; try lia.

Lemma store8_in a v m x : is_u32 a → store8 a v m x = if x =? a then u8 v else m x.
Proof. intros. unfold store8. by rewrite u32_id. Qed.

Lemma load8_in m a : is_u32 a → load8 m a = m a.
Proof. intros. unfold load8. by rewrite u32_id. Qed.

Lemma stosb_fill addr data cnt m a :
  in_space addr (Z.of_nat cnt) → stosb addr data cnt m a = fill addr (Z.of_nat cnt) (λ _, u8 data) m a.
Proof.
  unfold in_space, fill. revert addr m. induction cnt as [|n IH]; intros addr m Hs; simpl stosb.
  { mem_case; done. }
  rewrite IH by lia. rewrite store8_in by (unfold is_u32; lia). mem_case; done.
Qed.

(** The four bytes of a word made of equal bytes. *)
Definition word_of (b : Z) : Z :=
  Z.lor (Z.lor (Z.lor (Z.shiftl b 24) (Z.shiftl b 16)) (Z.shiftl b 8)) b.

Lemma u8_land z : u8 z = Z.land z 0xff.
Proof. unfold u8. by rewrite <- Z.land_ones by lia. Qed.

Lemma word_of_bytes b :
  is_u8 b →
  u8 (word_of b) = b ∧ u8 (Z.shiftr (word_of b) 8) = b ∧
  u8 (Z.shiftr (word_of b) 16) = b ∧ u8 (Z.shiftr (word_of b) 24) = b.
Proof.
  unfold is_u8. intros Hb. unfold word_of.
  assert (∀ k, 0 ≤ k < 2 ^ 8 → u8 (word_of k) = k ∧ u8 (Z.shiftr (word_of k) 8) = k ∧
    u8 (Z.shiftr (word_of k) 16) = k ∧ u8 (Z.shiftr (word_of k) 24) = k) as H; [|by apply H].
  assert (Forall (λ k, u8 (word_of k) = k ∧ u8 (Z.shiftr (word_of k) 8) = k ∧
    u8 (Z.shiftr (word_of k) 16) = k ∧ u8 (Z.shiftr (word_of k) 24) = k) (seqZ 0 256)) as HF.
  { apply (bool_decide_unpack _). vm_compute. exact I. }
  intros k Hk. rewrite Forall_seqZ in HF. apply HF. lia.
Qed.

Lemma store32_fill a v b m x :
  in_space a 4 → u8 v = b → u8 (Z.shiftr v 8) = b → u8 (Z.shiftr v 16) = b → u8 (Z.shiftr v 24) = b →
  store32 a v m x = fill a 4 (λ _, b) m x.
Proof.
  unfold in_space, fill, store32. intros Hs E0 E1 E2 E3.
  rewrite !store8_in by (unfold is_u32; lia). rewrite E0, E1, E2, E3. mem_case; done.
Qed.

Lemma stosl_fill addr v b cnt m a :
  in_space addr (4 * Z.of_nat cnt) → u8 v = b → u8 (Z.shiftr v 8) = b → u8 (Z.shiftr v 16) = b →
  u8 (Z.shiftr v 24) = b →
  stosl addr v cnt m a = fill addr (4 * Z.of_nat cnt) (λ _, b) m a.
Proof.
  intros Hs E0 E1 E2 E3. unfold in_space in Hs. revert addr m Hs.
  induction cnt as [|n IH]; intros addr m Hs; simpl stosl.
  { unfold fill. mem_case; done. }
  rewrite IH by lia. unfold fill.
  rewrite (store32_fill addr v b m a); [|unfold in_space; lia|done..]. unfold fill. mem_case; done.
Qed.

Lemma memset_bytes (dst c n : Z) (m : mem) (a : Z) :
  in_space dst n → memset dst c n m a = fill dst n (λ _, u8 c) m a.
Proof.
  intros Hs. pose proof Hs as (Hd & Hn & Hend). unfold memset.
  destruct (_ && _) eqn:E.
  - apply andb_prop in E as [_ E]. apply Z.eqb_eq in E.
    rewrite <- (u8_land c). destruct (word_of_bytes (u8 c)) as (E0 & E1 & E2 & E3); [auto with kernel|].
    assert (4 * Z.of_nat (Z.to_nat (n / 4)) = n) as Hn4 by (pose proof (Z.div_mod n 4); dmlia).
    fold (word_of (u8 c)). rewrite (stosl_fill _ _ (u8 c)); rewrite ?Hn4; done.
  - rewrite stosb_fill; rewrite ?Z2Nat.id by lia; done.
Qed.

(** memset() fills exactly the [n] bytes at [dst] with the
    low byte of [c]; the word-at-a-time path for aligned ranges and the byte
    path agree. *)
Theorem memset_fill (dst c n : Z) (m : mem) (a : Z) :
  in_space dst n → memset dst c n m a = fill dst n (λ _, u8 c) m a.
Proof. apply memset_bytes. Qed.

Lemma memset_fill_witness : memset 8 0x141 8 (λ _, 7) 15 = 0x41 ∧ memset 9 0x141 3 (λ _, 7) 12 = 7.
Proof.
  split.
  - rewrite (memset_fill 8 0x141 8); [reflexivity|]. repeat split; lia.
  - rewrite (memset_fill 9 0x141 3); [reflexivity|]. repeat split; lia.
Defined.

Lemma copy_up_fill d s n m a :
  in_space d (Z.of_nat n) → in_space s (Z.of_nat n) → bytes_ok m → d ≤ s ∨ s + Z.of_nat n ≤ d →
  copy_up d s n m a = fill d (Z.of_nat n) (λ x, m (s + (x - d))) m a.
Proof.
  unfold in_space, fill. revert d s m. induction n as [|n IH]; intros d s m Hd Hs Hm Ho; simpl copy_up.
  { mem_case; done. }
  assert (bytes_ok (store8 d (load8 m s) m)) as Hm'.
  { intros x. unfold store8. mem_case; [auto with kernel|apply Hm]. }
  rewrite IH by (done || lia).
  rewrite load8_in, !store8_in by (unfold is_u32; lia).
  rewrite (u8_id (m s)) by apply Hm. mem_case; try (f_equal; lia).
Qed.

Lemma copy_down_fill d s n m a :
  in_space (d - Z.of_nat n) (Z.of_nat n) → in_space (s - Z.of_nat n) (Z.of_nat n) → bytes_ok m → s ≤ d →
  copy_down d s n m a = fill (d - Z.of_nat n) (Z.of_nat n) (λ x, m (s + (x - d))) m a.
Proof.
  unfold in_space, fill. revert d s m. induction n as [|n IH]; intros d s m Hd Hs Hm Ho; simpl copy_down.
  { mem_case; done. }
  assert (bytes_ok (store8 (d - 1) (load8 m (s - 1)) m)) as Hm'.
  { intros x. unfold store8. mem_case; [auto with kernel|apply Hm]. }
  rewrite IH by (done || lia).
  rewrite load8_in, !store8_in by (unfold is_u32; lia).
  rewrite (u8_id (m (s - 1))) by apply Hm. mem_case; try (f_equal; lia).
Qed.

Lemma memmove_bytes (dst src n : Z) (m : mem) (a : Z) :
  in_space dst n → in_space src n → bytes_ok m →
  memmove dst src n m a = fill dst n (λ x, m (src + (x - dst))) m a.
Proof.
  intros Hd Hs Hm. pose proof Hd as (? & ? & ?). pose proof Hs as (_ & _ & ?). unfold memmove.
  destruct (_ && _) eqn:E.
  - apply andb_prop in E as [E _]. apply Z.ltb_lt in E.
    rewrite copy_down_fill; rewrite ?Z2Nat.id by lia; [|by rewrite Z.add_simpl_r..|done|lia].
    unfold fill. rewrite Z.add_simpl_r. mem_case; [f_equal; lia|done..].
  - rewrite copy_up_fill; rewrite ?Z2Nat.id by lia; [done..|].
    apply andb_false_iff in E as [E|E]; [lia|]. apply Z.ltb_ge in E.
    destruct (Z.eq_dec (src + n) (2 ^ 32)) as [E'|E'].
    + left. lia.
    + right. rewrite u32_id in E by (unfold is_u32; destruct Hs; lia). lia.
Qed.

(** Memmove() copies the [n] bytes as they were before the
    call, whether the ranges overlap or not, and touches nothing else. *)
Theorem memmove_fill (dst src n : Z) (m : mem) (a : Z) :
  in_space dst n → in_space src n → bytes_ok m →
  memmove dst src n m a = fill dst n (λ x, m (src + (x - dst))) m a.
Proof. apply memmove_bytes. Qed.

Lemma memmove_fill_witness :
  memmove 100 98 5 (λ a, u8 a) 103 = 101 ∧ memmove 98 100 5 (λ a, u8 a) 99 = 101.
Proof.
  split.
  - rewrite (memmove_fill 100 98 5); [reflexivity|repeat split; lia|repeat split; lia|].
    intros a. apply u8_range.
  - rewrite (memmove_fill 98 100 5); [reflexivity|repeat split; lia|repeat split; lia|].
    intros a. apply u8_range.
Defined.

(** A range of memory holds the string that is at [t] in [m0], cut to fit. *)
Definition holds_string (m0 : mem) (t s n k : Z) (m : mem) : Prop :=
  0 ≤ k < n ∧ m (s + k) = 0 ∧ (∀ i, 0 ≤ i < k → m (s + i) = m0 (t + i) ∧ m0 (t + i) ≠ 0) ∧
  (k = n - 1 ∨ m0 (t + k) = 0).

Lemma safestrcpy_loop_string s t n m :
  in_space s (Z.of_nat n + 1) → in_space t (Z.of_nat n + 1) → bytes_ok m →
  s + Z.of_nat n + 1 ≤ t ∨ t + Z.of_nat n + 1 ≤ s →
  (∃ k, holds_string m t s (Z.of_nat n + 1) k (safestrcpy_loop s t n m)) ∧
  (∀ a, ¬ (s ≤ a < s + Z.of_nat n + 1) → safestrcpy_loop s t n m a = m a).
Proof.
  unfold in_space, holds_string. revert s t m. induction n as [|n IH]; intros s t m Hs Ht Hm Hd; simpl.
  { split; [exists 0|]; intros; rewrite !store8_in by (unfold is_u32; lia); [|mem_case; done].
    split_and!; try lia. mem_case; done. }
  assert (is_u32 s ∧ is_u32 t ∧ is_u32 (s + 1)) as (? & ? & ?) by (unfold is_u32; lia).
  rewrite load8_in by done. destruct (Z.eqb_spec (m t) 0) as [Hz|Hz].
  - split; [exists 0|]; intros; rewrite !store8_in by done.
    + split_and!; try lia; [|right; by rewrite Z.add_0_r]. rewrite Hz, Z.add_0_r. mem_case; done.
    + mem_case; done.
  - set (m1 := store8 s (m t) m).
    assert (Hm1 : ∀ x, m1 x = if x =? s then m t else m x).
    { intros x. unfold m1. rewrite store8_in by done. by rewrite (u8_id (m t)) by apply Hm. }
    assert (bytes_ok m1) as Hok by (intros x; rewrite Hm1; mem_case; apply Hm).
    destruct (IH (s + 1) (t + 1) m1) as [(k & Hk & Hk0 & Hki & Hend) Hout]; [lia..|done|lia|].
    split.
    + exists (k + 1). split_and!; [lia|lia|by replace (s + (k + 1)) with (s + 1 + k) by lia| |].
      * intros i Hi. destruct (Z.eq_dec i 0) as [->|Hi0].
        -- rewrite !Z.add_0_r, Hout by lia. rewrite Hm1. mem_case; done.
        -- destruct (Hki (i - 1)) as [E1 E2]; [lia|].
           replace (s + 1 + (i - 1)) with (s + i) in E1 by lia.
           replace (t + 1 + (i - 1)) with (t + i) in E1, E2 by lia.
           rewrite Hm1 in E1, E2. revert E1 E2. mem_case; done.
      * destruct Hend as [?|E]; [left; lia|right]. rewrite Hm1 in E.
        replace (t + (k + 1)) with (t + 1 + k) by lia. revert E. mem_case; done.
    + intros a Ha. rewrite Hout by lia. rewrite Hm1. mem_case; done.
Qed.

Lemma safestrcpy_string (s t n : Z) (m : mem) :
  0 < n → in_space s n → in_space t n → bytes_ok m → s + n ≤ t ∨ t + n ≤ s →
  (∃ k, holds_string m t s n k (safestrcpy s t n m)) ∧
  (∀ a, ¬ (s ≤ a < s + n) → safestrcpy s t n m a = m a).
Proof.
  intros Hn Hs Ht Hm Hd. unfold safestrcpy. rewrite (proj2 (Z.leb_gt n 0)) by lia.
  remember (Z.to_nat (n - 1)) as w eqn:Ew. assert (n = Z.of_nat w + 1) as -> by lia. clear Ew.
  destruct (safestrcpy_loop_string s t w m) as [Hk Ho]; [done..|lia|].
  split; [done|]. intros a Ha. apply Ho. lia.
Qed.

(** Safestrcpy() always leaves a terminated string inside the [n]
    bytes of its buffer: the source string, or its first [n - 1] bytes; and it
    writes nowhere else. *)
Theorem safestrcpy_terminated (s t n : Z) (m : mem) :
  0 < n → in_space s n → in_space t n → bytes_ok m → s + n ≤ t ∨ t + n ≤ s →
  (∃ k, holds_string m t s n k (safestrcpy s t n m)) ∧
  (∀ a, ¬ (s ≤ a < s + n) → safestrcpy s t n m a = m a).
Proof. apply safestrcpy_string. Qed.

Lemma safestrcpy_terminated_witness :
  ∃ k, holds_string (λ _, 65) 200 100 16 k (safestrcpy 100 200 16 (λ _, 65)).
Proof.
  refine (proj1 (safestrcpy_terminated 100 200 16 (λ _, 65) _ _ _ _ _)).
  - lia.
  - repeat split; lia.
  - repeat split; lia.
  - intros a. split; lia.
  - left. lia.
Defined.

(** memcmp() is 0 exactly on equal ranges. *)
Lemma memcmp_zero v1 v2 n m :
  0 ≤ n → memcmp v1 v2 n m = 0 ↔ ∀ i, 0 ≤ i < n → load8 m (v1 + i) = load8 m (v2 + i).
Proof.
  intros Hn. unfold memcmp. remember (Z.to_nat n) as w eqn:Ew.
  assert (n = Z.of_nat w) as -> by lia. clear Ew Hn. rename w into n. revert v1 v2. induction n as [|n IH]; intros v1 v2; simpl.
  { split; [intros; lia|done]. }
  destruct (Z.eqb_spec (load8 m v1) (load8 m v2)) as [E|E].
  - rewrite IH. split; intros H i Hi.
    + destruct (Z.eq_dec i 0) as [->|]; [by rewrite !Z.add_0_r|].
      specialize (H (i - 1) ltac:(lia)).
      replace (v1 + 1 + (i - 1)) with (v1 + i) in H by lia.
      by replace (v2 + 1 + (i - 1)) with (v2 + i) in H by lia.
    + specialize (H (i + 1) ltac:(lia)).
      replace (v1 + 1 + i) with (v1 + (i + 1)) by lia. by replace (v2 + 1 + i) with (v2 + (i + 1)) by lia.
  - split; [lia|]. intros H. specialize (H 0 ltac:(lia)). rewrite !Z.add_0_r in H. done.
Qed.

(** strlen() returns the distance to the first NUL. *)
Lemma strlen_first_nul s n m fuel :
  0 ≤ n → (Z.to_nat n < fuel)%nat → load8 m (s + n) = 0 →
  (∀ i, 0 ≤ i < n → load8 m (s + i) ≠ 0) → strlen fuel s m = Some n.
Proof.
  intros Hn Hf Hz Hnz. unfold strlen.
  assert (∀ j fuel, 0 ≤ j ≤ n → (Z.to_nat (n - j) < fuel)%nat → strlen_loop s j fuel m = Some n) as H.
  { intros j f. revert j. induction f as [|f IH]; intros j Hj Hf'; [lia|]. simpl.
    destruct (Z.eq_dec j n) as [->|Hne]; [by rewrite Hz|].
    rewrite (proj2 (Z.eqb_neq _ 0)) by (apply Hnz; lia). apply IH; lia. }
  apply H; [lia|]. by rewrite Z.sub_0_r.
Qed.
