(* ===== verification/Kalloc.v ===== *)
(** * The physical page allocator: kalloc.c

    [kst] is the machine with memory: the core of Proc.v, the bytes of memory
    by kernel virtual address, and [kmem].  [kend] and [kdata] are the
    linker's symbols [end] and [data].  The free list is threaded through the free pages themselves, so
    its shape is a predicate on memory. *)

From S2P Require Import Prelude Machine Proc CString.
Open Scope kernel_scope.

Definition PGSIZE : Z := 4096.
Definition PHYSTOP : Z := 0xE000000.
Definition PGROUNDUP (sz : Z) : Z := Z.land (sz +u (PGSIZE - 1)) (Z.lnot (PGSIZE - 1)).
Definition PGROUNDDOWN (a : Z) : Z := Z.land a (Z.lnot (PGSIZE - 1)).

Record kst := Kst {
  kcore : core;
  kmem : mem;
  use_lock : Z;
  freelist : Z;
  kend : Z;
  kdata : Z;
}.

Definition set_kcore (v : core) (s : kst) : kst := Kst v (kmem s) (use_lock s) (freelist s) (kend s) (kdata s).
Definition set_kmem (v : mem) (s : kst) : kst := Kst (kcore s) v (use_lock s) (freelist s) (kend s) (kdata s).
Definition set_use_lock (v : Z) (s : kst) : kst := Kst (kcore s) (kmem s) v (freelist s) (kend s) (kdata s).
Definition set_freelist (v : Z) (s : kst) : kst := Kst (kcore s) (kmem s) (use_lock s) v (kend s) (kdata s).

Lemma set_kcore_id s : set_kcore (kcore s) s = s.
Proof. by destruct s. Qed.

#[global] Instance lens_core S `{Lens S kst} : Lens S core.
Proof.
  refine {| view s := kcore (view s); upd k s := upd (set_kcore k (view s)) s |}.
  - intros. by rewrite view_upd.
  - intros s. by rewrite set_kcore_id, upd_view.
  - intros. by rewrite view_upd, upd_upd.
Defined.

Module Kmem.

Definition mod_mem (f : mem → mem) : M kst unit := modify (λ s, set_kmem (f (kmem s)) s).

Definition kfree (v : Z) : M kst unit :=
  s ← get;
  if negb (v mod PGSIZE =? 0) || (v <? kend s) || (PHYSTOP <=? V2P v) then panic "kfree" else
  mod_mem (memset v 1 PGSIZE);;
  mwhen (negb (use_lock s =? 0)) (acquire LKmem);;
  modify (λ s, set_kmem (store32 v (freelist s) (kmem s)) s);;
  modify (set_freelist v);;
  mwhen (negb (use_lock s =? 0)) (release LKmem).

Definition kalloc : M kst Z :=
  s ← get;
  mwhen (negb (use_lock s =? 0)) (acquire LKmem);;
  r ← gets freelist;
  mwhen (negb (r =? 0)) (modify (λ s, set_freelist (load32 (kmem s) r) s));;
  mwhen (negb (use_lock s =? 0)) (release LKmem);;
  mret r.

(** The loop of freerange(); [Spin] if [fuel] were too small. *)
Fixpoint freerange_loop (fuel : nat) (p vend : Z) : M kst unit :=
  match fuel with
  | O => spin
  | S fuel =>
      if p +u PGSIZE <=? vend then kfree p;; freerange_loop fuel (p +u PGSIZE) vend
      else mret tt
  end.

Definition freerange (vstart vend : Z) : M kst unit :=
  freerange_loop (S (Z.to_nat (vend / PGSIZE))) (PGROUNDUP vstart) vend.

Definition kinit1 (vstart vend : Z) : M kst unit :=
  initlock LKmem;;
  modify (set_use_lock 0);;
  freerange vstart vend.

Definition kinit2 (vstart vend : Z) : M kst unit :=
  freerange vstart vend;;
  modify (set_use_lock 1).

End Kmem.

Section lifted.
Context {S : Type} `{Lens S kst}.

Definition kfree (v : Z) : M S unit := lift (Kmem.kfree v).
Definition kalloc : M S Z := lift Kmem.kalloc.
Definition get_mem : M S mem := gets (λ s, kmem (view s)).
Definition mod_mem (f : mem → mem) : M S unit := lift (Kmem.mod_mem f).
End lifted.

(** ** Behaviour *)

(** The free list starting at [a] holds the pages [l], in that order. *)
Fixpoint chain (m : mem) (a : Z) (l : list Z) : Prop :=
  match l with
  | [] => a = 0
  | v :: l => a = v ∧ v ≠ 0 ∧ chain m (load32 m v) l
  end.

(** A page the allocator may manage. *)
Definition page_ok (e v : Z) : Prop := v mod PGSIZE = 0 ∧ e ≤ v ∧ KERNBASE ≤ v < KERNBASE + PHYSTOP.

Definition in_page (v a : Z) : Prop := v ≤ a < v + PGSIZE.

(** The free pages are [l]. *)
Record free_pages (s : kst) (l : list Z) : Prop := {
  fp_chain : chain (kmem s) (freelist s) l;
  fp_nodup : NoDup l;
  fp_pages : Forall (page_ok (kend s)) l;
}.

(** The parts of the state that the allocator and its clients leave alone. *)
Definition same_rest (s s' : kst) : Prop :=
  kcore s' = kcore s ∧ use_lock s' = use_lock s ∧ kend s' = kend s ∧ kdata s' = kdata s.

(** The allocator can take its lock: either locking is off, or the lock is
    free and the interrupt state is consistent. *)
Definition can_lock (c : nat) (l : lockid) (s : kst) : Prop :=
  balanced c (chart (kcore s)) ∧ is_free l (chart (kcore s)).

Lemma load32_ext m m' a : (∀ i, 0 ≤ i < 4 → load8 m (a + i) = load8 m' (a + i)) → load32 m a = load32 m' a.
Proof.
  intros H. unfold load32. rewrite <- (Z.add_0_r a) at 1 5. by rewrite !H by lia.
Qed.

Lemma load8_store8 a v m x : load8 (store8 a v m) x = if u32 x =? u32 a then u8 v else load8 m x.
Proof. done. Qed.

Lemma load32_store32 a v m : load32 (store32 a v m) a = u32 v.
Proof.
  unfold load32, store32. rewrite !load8_store8.
  assert (∀ i j, -4 < i - j < 4 → i ≠ j → u32 (a + i) ≠ u32 (a + j)) as Hne.
  { intros i j Hij Hd E. unfold u32 in E. dmlia. }
  assert (∀ i, 0 < i < 4 → u32 a ≠ u32 (a + i) ∧ u32 (a + i) ≠ u32 a) as Hne0.
  { intros i Hi. specialize (Hne 0 i ltac:(lia) ltac:(lia)). rewrite Z.add_0_r in Hne. auto. }
  repeat match goal with
  | |- context [?x =? ?x] => rewrite (Z.eqb_refl x)
  | |- context [?x =? ?y] => rewrite (proj2 (Z.eqb_neq x y)) by
      first [apply Hne0; lia | apply Hne; lia]
  end.
  rewrite !Z.shiftr_div_pow2 by lia. unfold u8, u32. dmlia.
Qed.

Lemma load32_frame m m' a : (∀ x, in_page a x → m' x = m x) → a mod PGSIZE = 0 → is_u32 a →
  load32 m' a = load32 m a.
Proof.
  unfold in_page, PGSIZE, is_u32. intros H Ha Hr. apply load32_ext. intros i Hi.
  assert (a + 4096 ≤ 2 ^ 32) by dmlia.
  rewrite !load8_in by (unfold is_u32; lia). apply H. lia.
Qed.

Lemma page_ok_u32 e v : page_ok e v → is_u32 v ∧ v ≠ 0 ∧ V2P v < PHYSTOP ∧ v + PGSIZE ≤ 2 ^ 32.
Proof.
  intros (_ & _ & Hv). unfold KERNBASE, PHYSTOP, V2P, PGSIZE in *.
  assert (is_u32 (v - KERNBASE)) by (unfold is_u32, KERNBASE; lia).
  rewrite u32_id by done. unfold is_u32, KERNBASE in *. lia.
Qed.

(** Distinct pages do not overlap. *)
Lemma pages_disjoint v w x : v mod PGSIZE = 0 → w mod PGSIZE = 0 → v ≠ w → in_page v x → ¬ in_page w x.
Proof. unfold in_page, PGSIZE. intros. dmlia. Qed.

(** The list survives changes outside its pages. *)
Lemma chain_frame e m m' a l :
  Forall (page_ok e) l → (∀ v x, v ∈ l → in_page v x → m' x = m x) → chain m a l → chain m' a l.
Proof.
  intros Hp. revert a. induction Hp as [|v l Hv Hl IH]; intros a Hm; simpl; [done|].
  intros (-> & Hv0 & Hc). split_and!; [done..|].
  rewrite (load32_frame m).
  - apply IH; [|done]. intros w x Hw. apply Hm. by right.
  - intros x. apply Hm. by left.
  - apply Hv.
  - by eapply page_ok_u32.
Qed.

(** Writing inside page [v] only. *)
Definition same_but (v : Z) (m m' : mem) : Prop := ∀ x, ¬ in_page v x → m' x = m x.

Lemma free_page_same e v m w : page_ok e v → same_but v m (store32 v w (memset v 1 PGSIZE m)).
Proof.
  intros Hp x Hx. destruct (page_ok_u32 e v Hp) as (Hu & _ & _ & Hend).
  unfold in_page, PGSIZE, is_u32 in *.
  unfold store32. rewrite !store8_in by (unfold is_u32; lia).
  rewrite memset_bytes by (unfold in_space; lia). unfold fill. mem_case; done.
Qed.

Section lock.
Context {S : Type} `{Lens S hart}.

Lemma locked_step c l (f : S → S) s :
  balanced c (view s) → is_free l (view s) → (∀ h s, f (upd h s) = upd h (f s)) →
  (acquire l;; modify f;; release l) s = Ok tt (f s).
Proof.
  intros Hb Hf Hc. mstep (acquire_ok c l s Hb Hf). mred. rewrite Hc.
  rewrite (release_ok c l (view s)); [|by rewrite view_upd|done..].
  by rewrite upd_upd, <- Hc, upd_view.
Qed.
End lock.

Lemma kfree_core c v s :
  page_ok (kend s) v → (use_lock s ≠ 0 → can_lock c LKmem s) →
  Kmem.kfree v s =
    Ok tt (set_freelist v (set_kmem (store32 v (freelist s) (memset v 1 PGSIZE (kmem s))) s)).
Proof.
  intros Hp Hl. destruct (page_ok_u32 _ _ Hp) as (Hu & Hv0 & HV & _). destruct Hp as (Hmod & He & _).
  unfold Kmem.kfree, Kmem.mod_mem. mred. rewrite Hmod.
  rewrite (proj2 (Z.ltb_ge v (kend s))) by lia. rewrite (proj2 (Z.leb_gt PHYSTOP (V2P v))) by lia.
  cbn [negb Z.eqb orb]. mred.
  destruct (Z.eqb_spec (use_lock s) 0) as [E|E]; cbn [negb]; mred; [done|].
  destruct (Hl E) as [Hb Hf].
  set (s1 := set_kmem (memset v 1 PGSIZE (kmem s)) s).
  mstep (acquire_ok c LKmem s1 Hb Hf). mred.
  rewrite (release_ok c LKmem (chart (kcore s))); [|done..]. by destruct s as [[] ?????].
Qed.

Lemma kalloc_core c s :
  (use_lock s ≠ 0 → can_lock c LKmem s) →
  Kmem.kalloc s =
    Ok (freelist s) (if freelist s =? 0 then s else set_freelist (load32 (kmem s) (freelist s)) s).
Proof.
  intros Hl. unfold Kmem.kalloc. mred.
  destruct (Z.eqb_spec (use_lock s) 0) as [E|E]; cbn [negb]; mred.
  - destruct (Z.eqb_spec (freelist s) 0); cbn [negb]; mred; done.
  - destruct (Hl E) as [Hb Hf]. mstep (acquire_ok c LKmem s Hb Hf). mred.
    change (freelist (upd _ s)) with (freelist s).
    destruct (Z.eqb_spec (freelist s) 0); cbn [negb]; mred.
    + mstep (release_ok c LKmem (chart (kcore s)) (upd (acq c LKmem (chart (kcore s))) s) eq_refl Hb Hf).
      mred. by destruct s as [[] ?????].
    + match goal with |- context [(release LKmem ≫= _) ?x] =>
        mstep (release_ok c LKmem (chart (kcore s)) x eq_refl Hb Hf) end.
      mred. by destruct s as [[] ?????].
Qed.

Lemma kfree_pages c v s l :
  free_pages s l → page_ok (kend s) v → v ∉ l → (use_lock s ≠ 0 → can_lock c LKmem s) →
  ∃ s', Kmem.kfree v s = Ok tt s' ∧ free_pages s' (v :: l) ∧ same_but v (kmem s) (kmem s') ∧
        same_rest s s'.
Proof.
  intros [Hc Hn Hp] Hv Hni Hl. eexists. split; [by apply (kfree_core c)|].
  pose proof (free_page_same (kend s) v (kmem s) (freelist s) Hv) as Hsame.
  split_and!; [|done..]. split; cbn [kmem freelist kend set_freelist set_kmem].
  - pose proof (page_ok_u32 _ _ Hv) as (Hu & Hv0 & _). split_and!; [done..|].
    rewrite load32_store32. assert (u32 (freelist s) = freelist s) as ->.
    { destruct l as [|w l]; simpl in Hc; [by rewrite Hc|]. destruct Hc as (-> & _).
      apply Forall_cons in Hp as [Hw _]. apply u32_id. by eapply page_ok_u32. }
    eapply chain_frame; [exact Hp| |exact Hc].
    intros w x Hw Hx. apply Hsame. eapply pages_disjoint; [| | |exact Hx].
    + rewrite Forall_forall in Hp. by apply (Hp w Hw).
    + apply Hv.
    + by intros ->.
  - by constructor.
  - by constructor.
Qed.

Lemma kalloc_pages c s l :
  free_pages s l → (use_lock s ≠ 0 → can_lock c LKmem s) →
  match l with
  | [] => Kmem.kalloc s = Ok 0 s
  | v :: l' => ∃ s', Kmem.kalloc s = Ok v s' ∧ free_pages s' l' ∧ kmem s' = kmem s ∧
                     same_rest s s'
  end.
Proof.
  intros [Hc Hn Hp] Hl. rewrite (kalloc_core c s Hl). destruct l as [|v l]; simpl in Hc.
  - by rewrite Hc.
  - destruct Hc as (-> & Hv & Hc). rewrite (proj2 (Z.eqb_neq v 0)) by done.
    eexists. split; [done|]. apply Forall_cons in Hp as [_ Hp]. apply NoDup_cons in Hn as [_ Hn].
    split_and!; [|done..]. by split.
Qed.

(** ** Clients of the allocator

    A state is the machine and the pages handed out so far.  Between calls the
    owners may write anything into their pages. *)
Module Alloc.

Inductive step (c : nat) : kst * list Z → kst * list Z → Prop :=
| step_alloc s A v s' : Kmem.kalloc s = Ok v s' → v ≠ 0 → step c (s, A) (s', v :: A)
| step_full s A s' : Kmem.kalloc s = Ok 0 s' → step c (s, A) (s', A)
| step_free s A1 v A2 s' : Kmem.kfree v s = Ok tt s' → step c (s, A1 ++ v :: A2) (s', A1 ++ A2)
| step_write s A m : (∀ x, (∀ v, v ∈ A → ¬ in_page v x) → m x = kmem s x) →
    step c (s, A) (set_kmem m s, A).

Record inv (c : nat) (all : list Z) (x : kst * list Z) : Prop := {
  inv_lock : use_lock x.1 ≠ 0 → can_lock c LKmem x.1;
  inv_pages : ∃ l, free_pages x.1 l ∧ l ++ x.2 ≡ₚ all;
  inv_nodup : NoDup all;
  inv_ok : Forall (page_ok (kend x.1)) all;
}.

Lemma alloc_inv_step c all x y : inv c all x → step c x y → inv c all y.
Proof.
  intros [Hl (l & Hf & Hperm) Hnd Hok] Hstep.
  destruct Hstep as [s A v s' E Hv|s A s' E|s A1 v A2 s' E|s A m Hm]; cbn in *.
  - pose proof (kalloc_pages c s l Hf Hl) as Hk. destruct l as [|w l]; [rewrite Hk in E; simplify_eq|].
    destruct Hk as (s1 & E1 & Hf1 & _ & Ec & Eu & Ee & Ed). rewrite E in E1. simplify_eq.
    split; cbn; rewrite ?Ee; [unfold can_lock; by rewrite Eu, Ec| |done..].
    exists l. split; [done|]. by rewrite <- Permutation_middle.
  - pose proof (kalloc_pages c s l Hf Hl) as Hk. destruct l as [|w l].
    + rewrite Hk in E. simplify_eq. split; [done|by exists []|done..].
    + destruct Hk as (s1 & E1 & _). destruct Hf as [[_ [Hw _]] _ _]. congruence.
  - assert (v ∈ all) as Hin by (rewrite <- Hperm; set_solver).
    assert (NoDup (l ++ A1 ++ v :: A2)) as Hnd' by (by rewrite Hperm).
    destruct (kfree_pages c v s l Hf) as (s1 & E1 & Hf1 & _ & Ec & Eu & Ee & Ed); [|  |done|].
    { rewrite Forall_forall in Hok. by apply Hok. }
    { apply NoDup_app in Hnd' as (_ & Hd & _). intros Hv. apply (Hd v Hv). set_solver. }
    rewrite E in E1. simplify_eq. split; cbn; rewrite ?Ee; [unfold can_lock; by rewrite Eu, Ec| |done..].
    exists (v :: l). split; [done|]. rewrite <- Hperm. simpl. by rewrite Permutation_middle, Permutation_middle.
  - split; cbn; [done| |done..]. exists l. split; [|done]. destruct Hf as [Hc Hn Hp]. split; [|done..].
    cbn. eapply chain_frame; [exact Hp| |exact Hc]. intros v x Hv Hx. apply Hm. intros w Hw.
    assert (NoDup (l ++ A)) as Hnd' by (by rewrite Hperm).
    apply NoDup_app in Hnd' as (_ & Hd & _).
    assert (page_ok (kend s) w) as [Hwm _].
    { rewrite Forall_forall in Hok. apply Hok. rewrite <- Hperm. set_solver. }
    rewrite Forall_forall in Hp. apply (pages_disjoint v); [by apply Hp|done| |done].
    intros ->. by apply (Hd w Hv).
Qed.

End Alloc.

(** C40 [safety]: the allocator never hands out a page twice and never loses
    one.  Start with the pages [all] free and let clients call kalloc() and
    kfree() and write into the pages they own, in any order: the pages handed
    out are distinct, kalloc() returns a page that nobody owns, and it returns
    0 only when every page is handed out. *)
Theorem kalloc_exclusive (c : nat) (all : list Z) (s0 s : kst) (A : list Z) :
  free_pages s0 all → (use_lock s0 ≠ 0 → can_lock c LKmem s0) →
  rtc (Alloc.step c) (s0, []) (s, A) →
  NoDup A ∧ Forall (λ v, v ∈ all) A ∧
  ∃ v s', Kmem.kalloc s = Ok v s' ∧ if v =? 0 then A ≡ₚ all else v ∈ all ∧ v ∉ A.
Proof.
  intros Hf Hl Hsteps.
  assert (Alloc.inv c all (s, A)) as [Hl' (l & Hf' & Hperm) Hnd Hok].
  { eapply (rtc_invariant _ (Alloc.inv c all)); [intros x y; apply Alloc.alloc_inv_step| |exact Hsteps].
    pose proof Hf as [_ Hnd Hp]. split; cbn; [done| |done..]. exists all. by rewrite app_nil_r. }
  cbn in *. assert (NoDup (l ++ A)) as Hnd' by (by rewrite Hperm).
  apply NoDup_app in Hnd' as (_ & Hd & HA). split_and!; [done| |].
  - apply Forall_forall. intros v Hv. rewrite <- Hperm. set_solver.
  - pose proof (kalloc_pages c s l Hf' Hl') as Hk. destruct l as [|v l].
    + exists 0, s. split; [done|]. exact Hperm.
    + destruct Hk as (s' & E & _). exists v, s'. split; [done|].
      destruct Hf' as [[_ [Hv _]] _ _]. rewrite (proj2 (Z.eqb_neq v 0)) by done.
      split; [rewrite <- Hperm; set_solver|]. apply Hd. set_solver.
Qed.

(** Two free pages. *)
Definition kst0 : kst :=
  Kst core0 (store32 0x80400000 0x80401000 (λ _, 0)) 1 0x80400000 0x80300000 0x80108000.

Lemma kst0_can_lock l : is_free l hart0 → can_lock 1 l kst0.
Proof. intros. split; [exact hart0_balanced|done]. Qed.

Lemma kst0_free : free_pages kst0 [0x80400000; 0x80401000].
Proof.
  split.
  - vm_compute. split_and!; done.
  - repeat constructor; set_solver.
  - repeat constructor; vm_compute; done.
Qed.

Lemma kalloc_exclusive_witness :
  ∃ v s', Kmem.kalloc (set_freelist 0x80401000 kst0) = Ok v s' ∧
    if v =? 0 then [0x80400000] ≡ₚ [0x80400000; 0x80401000]
    else v ∈ [0x80400000; 0x80401000] ∧ v ∉ [0x80400000].
Proof.
  refine (proj2 (proj2 (kalloc_exclusive 1 [0x80400000; 0x80401000] kst0
    (set_freelist 0x80401000 kst0) [0x80400000] kst0_free _ _))).
  - intros _. apply kst0_can_lock. reflexivity.
  - apply rtc_once. apply Alloc.step_alloc; [|discriminate].
    rewrite (kalloc_core 1); [reflexivity|]. intros _. apply kst0_can_lock. reflexivity.
Defined.

(** ** freerange *)

(** The first [n] pages from [p] on. *)
Fixpoint pages_from (p : Z) (n : nat) : list Z :=
  match n with O => [] | S n => p :: pages_from (p + PGSIZE) n end.

Lemma elem_of_pages_from p n v :
  v ∈ pages_from p n → ∃ i, (i < n)%nat ∧ v = p + PGSIZE * Z.of_nat i.
Proof.
  revert p. induction n as [|n IH]; intros p; simpl; [set_solver|].
  intros [->|Hv]%elem_of_cons; [exists O; split; [lia|unfold PGSIZE; lia]|].
  destruct (IH _ Hv) as (i & ? & ->). exists (S i). unfold PGSIZE. lia.
Qed.

Lemma freerange_pages c n fuel p vend s l :
  free_pages s l → (use_lock s ≠ 0 → can_lock c LKmem s) →
  Forall (page_ok (kend s)) (pages_from p n) → (∀ v, v ∈ pages_from p n → v ∉ l) →
  is_u32 (p + PGSIZE * Z.of_nat n) → is_u32 vend → 0 ≤ p → p mod PGSIZE = 0 →
  p + PGSIZE * Z.of_nat n ≤ vend < p + PGSIZE * (Z.of_nat n + 1) →
  p + PGSIZE * (Z.of_nat n + 1) < 2 ^ 32 → (n < fuel)%nat →
  ∃ s', Kmem.freerange_loop fuel p vend s = Ok tt s' ∧ free_pages s' (reverse (pages_from p n) ++ l) ∧
        same_rest s s'.
Proof.
  revert fuel p s l. induction n as [|n IH]; intros fuel p s l Hf Hl Hok Hni Hu Hv Hp Hpm Hend Hmax Hn.
  - destruct fuel as [|fuel]; [lia|]. simpl. unfold PGSIZE in *.
    rewrite u32_id by (unfold is_u32 in *; lia).
    rewrite (proj2 (Z.leb_gt (p + 4096) vend)) by lia. exists s. split_and!; done.
  - destruct fuel as [|fuel]; [lia|]. cbn [Kmem.freerange_loop pages_from] in *.
    apply Forall_cons in Hok as [Hpp Hok].
    rewrite u32_id by (unfold is_u32, PGSIZE in *; lia).
    rewrite (proj2 (Z.leb_le (p + PGSIZE) vend)) by (unfold PGSIZE in *; lia).
    destruct (kfree_pages c p s l Hf Hpp) as (s1 & E1 & Hf1 & _ & Ec & Eu & Ee & Ed); [|done|].
    { apply Hni. left. }
    destruct (IH fuel (p + PGSIZE) s1 (p :: l)) as (s2 & E2 & Hf2 & Ec2 & Eu2 & Ee2 & Ed2); try done.
    + unfold can_lock. by rewrite Eu, Ec.
    + by rewrite Ee.
    + intros v Hin [->|Hvl]%elem_of_cons; [|apply (Hni v); [by right|done]].
      apply elem_of_pages_from in Hin as (i & _ & E). unfold PGSIZE in E. lia.
    + replace (p + PGSIZE + PGSIZE * Z.of_nat n) with (p + PGSIZE * Z.of_nat (S n)) by (unfold PGSIZE; lia).
      done.
    + unfold PGSIZE in *. lia.
    + unfold PGSIZE in *. rewrite <- (Z.mod_add p 1 4096) in Hpm by lia. by rewrite Z.mul_1_l in Hpm.
    + unfold PGSIZE in *. lia.
    + unfold PGSIZE in *. lia.
    + lia.
    + exists s2. mstep E1. split_and!; [done| |split_and!; congruence].
      rewrite reverse_cons, <- app_assoc. exact Hf2.
Qed.

Lemma pgrounddown_eq a : PGROUNDDOWN a = a - a mod PGSIZE.
Proof.
  unfold PGROUNDDOWN, PGSIZE. change (4096 - 1) with (Z.ones 12).
  rewrite <- Z.ldiff_land, Z.ldiff_ones_r, Z.shiftr_div_pow2, Z.shiftl_mul_pow2 by lia.
  change (2 ^ 12) with 4096. dmlia.
Qed.

Lemma pgroundup_spec a :
  0 ≤ a → a + 4095 < 2 ^ 32 → a ≤ PGROUNDUP a < a + PGSIZE ∧ PGROUNDUP a mod PGSIZE = 0.
Proof.
  intros. unfold PGROUNDUP. fold (PGROUNDDOWN (a +u (PGSIZE - 1))). rewrite pgrounddown_eq.
  unfold PGSIZE. rewrite u32_id by (unfold is_u32; lia). dmlia.
Qed.

Lemma initlock_core l s : initlock l s = Ok tt (set_kcore (set_chart (set_lock l (Spinlock 0 None)
  (chart (kcore s))) (kcore s)) s).
Proof. done. Qed.

(** kinit1(vstart, vend) returns, and the free list then
    consists of exactly the whole pages between [vstart] and [vend], each once,
    the highest first. *)
Theorem kinit1_pages (vstart vend : Z) (n : nat) (s : kst) :
  freelist s = 0 → KERNBASE ≤ vstart → kend s ≤ vstart → vend ≤ KERNBASE + PHYSTOP →
  PGROUNDUP vstart + PGSIZE * Z.of_nat n ≤ vend < PGROUNDUP vstart + PGSIZE * (Z.of_nat n + 1) →
  vstart ≤ vend →
  ∃ s', Kmem.kinit1 vstart vend s = Ok tt s' ∧
        free_pages s' (reverse (pages_from (PGROUNDUP vstart) n)) ∧ use_lock s' = 0.
Proof.
  unfold KERNBASE, PHYSTOP. intros H0 Hk He Hv Hn Hle.
  destruct (pgroundup_spec vstart) as [Hup Hmod]; [lia..|]. unfold Kmem.kinit1, Kmem.freerange.
  mstep (initlock_core LKmem s). mred. set (s1 := set_use_lock 0 _).
  destruct (freerange_pages 0 n (S (Z.to_nat (vend / PGSIZE))) (PGROUNDUP vstart) vend s1 [])
    as (s' & E & Hf & _ & Eu & _ & _); try done.
  - split; cbn; [done|constructor..].
  - apply Forall_forall. intros v (i & Hi & ->)%elem_of_pages_from. unfold page_ok, PGSIZE in *. cbn.
    rewrite Z.mul_comm, Z.mod_add by lia. unfold KERNBASE, PHYSTOP. split_and!; [done|lia..].
  - set_solver.
  - unfold is_u32, PGSIZE in *. lia.
  - unfold is_u32. lia.
  - lia.
  - unfold PGSIZE in *. lia.
  - unfold PGSIZE in *. assert (Z.of_nat n ≤ vend / 4096) by (apply Z.div_le_lower_bound; lia). lia.
  - exists s'. rewrite app_nil_r in Hf. done.
Qed.

Lemma kinit1_pages_witness :
  ∃ s', Kmem.kinit1 0x80300123 0x80303456 (set_freelist 0 kst0) = Ok tt s' ∧
        free_pages s' [0x80302000; 0x80301000] ∧ use_lock s' = 0.
Proof.
  refine (kinit1_pages 0x80300123 0x80303456 2 (set_freelist 0 kst0) _ _ _ _ _ _);
    try (vm_compute; first [reflexivity|discriminate]).
  split; vm_compute; first [reflexivity|discriminate].
Defined.
