(* ===== verification/Mp.v ===== *)
(** * Multiprocessor tables: mp.c, mp.h

    The search for the BIOS's tables in physical memory, and mpinit(), which takes
    the processors and the I/O APIC from them.  A structure is read from the bytes
    at its address; [cpus] is the array of the processors' APIC ids. *)

From S2P Require Import Prelude Machine Proc CString Kalloc Io.
Open Scope kernel_scope.

Definition NCPU : Z := 8.
Definition MPPROC : Z := 0x00.
Definition MPBUS : Z := 0x01.
Definition MPIOAPIC : Z := 0x02.
Definition MPIOINTR : Z := 0x03.
Definition MPLINTR : Z := 0x04.

(** [sizeof(struct mp)], [sizeof(struct mpconf)], [sizeof(struct mpproc)],
    [sizeof(struct mpioapic)] and the fields that are used. *)
Definition MP_SIZE : Z := 16.
Definition MPCONF_SIZE : Z := 44.
Definition MPPROC_SIZE : Z := 20.
Definition MPIOAPIC_SIZE : Z := 8.
Definition mp_physaddr (m : mem) (p : Z) : Z := load32 m (p + 4).
Definition mp_imcrp (m : mem) (p : Z) : Z := load8 m (p + 12).
Definition conf_length (m : mem) (p : Z) : Z := load8 m (p + 4) + load8 m (p + 5) * 2 ^ 8.
Definition conf_version (m : mem) (p : Z) : Z := load8 m (p + 6).
Definition conf_lapicaddr (m : mem) (p : Z) : Z := load32 m (p + 36).
Definition proc_apicid (m : mem) (p : Z) : Z := load8 m (p + 1).
Definition ioapic_apicno (m : mem) (p : Z) : Z := load8 m (p + 1).

Fixpoint sum_loop (m : mem) (addr : Z) (len : nat) (acc : Z) : Z :=
  match len with O => acc | S len => sum_loop m (addr + 1) len (acc +i load8 m addr) end.
Definition sum (m : mem) (addr len : Z) : Z := u8 (sum_loop m addr (Z.to_nat len) 0).

(** [memcmp(p, l, n) == 0] for a string literal [l]. *)
Fixpoint same_bytes (m : mem) (p : Z) (l : list Z) : bool :=
  match l with [] => true | c :: l => (load8 m p =? c) && same_bytes m (p + 1) l end.

Fixpoint mpsearch1_loop (m : mem) (p e : Z) (n : nat) : Z :=
  match n with
  | O => 0
  | S n =>
      if negb (p <? e) then 0
      else if same_bytes m p (chars "_MP_") && (sum m p MP_SIZE =? 0) then p
      else mpsearch1_loop m (p +u MP_SIZE) e n
  end.
Definition mpsearch1 (m : mem) (a len : Z) : Z :=
  let addr := P2V a in mpsearch1_loop m addr (addr +u len) (S (Z.to_nat (len / MP_SIZE))).

Definition mpsearch (m : mem) : Z :=
  let bda := P2V 0x400 in
  let p := Z.shiftl (Z.lor (Z.shiftl (load8 m (bda + 0x0F)) 8) (load8 m (bda + 0x0E))) 4 in
  let mp :=
    if negb (p =? 0) then mpsearch1 m p 1024
    else let p := Z.lor (Z.shiftl (load8 m (bda + 0x14)) 8) (load8 m (bda + 0x13)) * 1024 in mpsearch1 m (p -u 1024) 1024 in
  if negb (mp =? 0) then mp else mpsearch1 m 0xF0000 0x10000.

(** The floating pointer and the configuration table. *)
Definition mpconfig (m : mem) : option (Z * Z) :=
  let mp := mpsearch m in
  if (mp =? 0) || (mp_physaddr m mp =? 0) then None else
  let conf := P2V (mp_physaddr m mp) in
  if negb (same_bytes m conf (chars "PCMP")) then None else
  if negb (conf_version m conf =? 1) && negb (conf_version m conf =? 4) then None else
  if negb (sum m conf (conf_length m conf) =? 0) then None else
  Some (mp, conf).

Section mpinit.
Context {D : Type} `{Bus D}.

Record mpst := Mpst { mmem : mem; apicids : list Z; ncpu : Z; ioapicid : Z; lapic : Z; mdev : D }.
Definition set_apicids (v : list Z) (s : mpst) : mpst := Mpst (mmem s) v (ncpu s) (ioapicid s) (lapic s) (mdev s).
Definition set_ncpu (v : Z) (s : mpst) : mpst := Mpst (mmem s) (apicids s) v (ioapicid s) (lapic s) (mdev s).
Definition set_ioapicid (v : Z) (s : mpst) : mpst := Mpst (mmem s) (apicids s) (ncpu s) v (lapic s) (mdev s).
Definition set_lapic (v : Z) (s : mpst) : mpst := Mpst (mmem s) (apicids s) (ncpu s) (ioapicid s) v (mdev s).
Definition set_mdev (v : D) (s : mpst) : mpst := Mpst (mmem s) (apicids s) (ncpu s) (ioapicid s) (lapic s) v.

#[global] Instance lens_mdev : Lens mpst D.
Proof. refine {| view := mdev; upd := set_mdev |}; [done|by intros []|done]. Defined.

(** One entry of the table; [ismp] is 0 once an unknown entry has been seen. *)
Definition mpinit_body (e : Z) (st : Z * Z) : M mpst (Z * Z + Z) :=
  let '(p, ismp) := st in
  if negb (p <? e) then mret (inr ismp) else
  m ← gets mmem;
  let type := load8 m p in
  if type =? MPPROC then
    n ← gets ncpu;
    mwhen (n <? NCPU)
      (modify (λ s, set_apicids (<[Z.to_nat n := proc_apicid m p]> (apicids s)) s);;
       modify (set_ncpu (n +i 1)));;
    mret (inl (p +u MPPROC_SIZE, ismp))
  else if type =? MPIOAPIC then
    modify (set_ioapicid (ioapic_apicno m p));;
    mret (inl (p +u MPIOAPIC_SIZE, ismp))
  else if (type =? MPBUS) || (type =? MPIOINTR) || (type =? MPLINTR) then mret (inl (p +u 8, ismp))
  else mret (inl (p, 0)).

Definition mpinit : M mpst unit :=
  m ← gets mmem;
  match mpconfig m with
  | None => panic "Expect to run on an SMP"
  | Some (mp, conf) =>
      modify (set_lapic (conf_lapicaddr m conf));;
      ismp ← loop (mpinit_body (conf +u conf_length m conf)) 14 (conf +u MPCONF_SIZE, 1);
      if ismp =? 0 then panic "Didn't find a suitable machine" else
      mwhen (negb (mp_imcrp m mp =? 0))
        (outb 0x22 0x70;;
         v ← inb 0x23;
         outb 0x23 (Z.lor v 1))
  end.
End mpinit.
Arguments mpst : clear implicits.

(** ** The entries of a table *)

Inductive entry := EProc (id : Z) | EIoapic (id : Z) | EOther (type : Z).

Definition esize (x : entry) : Z := match x with EProc _ => MPPROC_SIZE | EIoapic _ => MPIOAPIC_SIZE | EOther _ => 8 end.
Definition entry_at (m : mem) (p : Z) (x : entry) : Prop :=
  match x with
  | EProc id => load8 m p = MPPROC ∧ proc_apicid m p = id
  | EIoapic id => load8 m p = MPIOAPIC ∧ ioapic_apicno m p = id
  | EOther t => load8 m p = t ∧ (t = MPBUS ∨ t = MPIOINTR ∨ t = MPLINTR)
  end.

(** The entries from [p] to [q], which start below [e]. *)
Fixpoint table (m : mem) (e p : Z) (l : list entry) (q : Z) : Prop :=
  match l with
  | [] => p = q
  | x :: l => p < e ∧ entry_at m p x ∧ table m e (p + esize x) l q
  end.

Fixpoint procs (l : list entry) : list Z :=
  match l with [] => [] | EProc id :: l => id :: procs l | _ :: l => procs l end.
Definition last_ioapic (old : Z) (l : list entry) : Z := foldl (λ a x, match x with EIoapic id => id | _ => a end) old l.

Section proofs.
Context {D : Type} `{Bus D}.

(** What the loop makes of an entry. *)
Definition collect1 (s : mpst D) (x : entry) : mpst D :=
  match x with
  | EProc id => if ncpu s <? NCPU then set_ncpu (ncpu s + 1) (set_apicids (<[Z.to_nat (ncpu s) := id]> (apicids s)) s) else s
  | EIoapic id => set_ioapicid id s
  | EOther _ => s
  end.

Lemma mpinit_entry e p ismp x s :
  p < e → entry_at (mmem s) p x → 0 ≤ p → p + esize x < 2 ^ 32 → 0 ≤ ncpu s ≤ NCPU →
  mpinit_body e (p, ismp) s = Ok (inl (p + esize x, ismp)) (collect1 s x).
Proof.
  intros Hp Hx Hp0 Hmax Hn. unfold NCPU in Hn. unfold mpinit_body. rewrite (proj2 (Z.ltb_lt p e)) by done. cbn [negb]. mred.
  destruct x as [id|id|t]; cbn [entry_at esize] in *; unfold MPPROC_SIZE, MPIOAPIC_SIZE in *.
  - destruct Hx as [-> <-]. cbn [Z.eqb MPPROC]. mred. rewrite (u32_id (p + 20)) by (unfold is_u32; lia).
    unfold collect1. destruct (ncpu s <? NCPU) eqn:E; [|by mred]. unfold mwhen. mred.
    rewrite (s32_id (ncpu s + 1)) by (unfold is_s32; lia). done.
  - destruct Hx as [-> <-]. cbn. rewrite (u32_id (p + 8)) by (unfold is_u32; lia). done.
  - destruct Hx as [-> [->|[->| ->]]]; cbn; rewrite (u32_id (p + 8)) by (unfold is_u32; lia); done.
Qed.

Lemma collect1_ncpu s x : 0 ≤ ncpu s ≤ NCPU → 0 ≤ ncpu (collect1 s x) ≤ NCPU ∧ mmem (collect1 s x) = mmem s.
Proof. unfold NCPU. destruct x; cbn; try done. unfold NCPU. destruct (Z.ltb_spec (ncpu s) 8); cbn; (split; [lia|done]). Qed.

Lemma mpinit_entries l e p q ismp s k :
  table (mmem s) e p l q → 0 ≤ p → e + MPPROC_SIZE < 2 ^ 32 → 0 ≤ ncpu s ≤ NCPU →
  iter (mpinit_body e) (length l + k) (p, ismp) s = iter (mpinit_body e) k (q, ismp) (foldl collect1 s l).
Proof.
  unfold MPPROC_SIZE. revert p s. induction l as [|x l IH]; intros p s Ht Hp He Hn; cbn [table] in Ht; [by subst|].
  destruct Ht as (Hlt & Hx & Ht). assert (8 ≤ esize x ≤ 20) by (destruct x; cbn; unfold MPPROC_SIZE, MPIOAPIC_SIZE; lia).
  destruct (collect1_ncpu s x Hn) as [Hn' Em]. cbn [length Nat.add foldl].
  rewrite (iter_next _ _ _ _ _ _ (mpinit_entry e p ismp x s Hlt Hx Hp ltac:(lia) Hn)). apply IH; [by rewrite Em|lia|done|done].
Qed.

Lemma table_length m e p l q : table m e p l q → l ≠ [] → p + 8 * (Z.of_nat (length l) - 1) < e.
Proof.
  revert p. induction l as [|x l IH]; intros p; [done|]. cbn [table length]. intros (Hlt & _ & Ht) _.
  assert (8 ≤ esize x ≤ 20) by (destruct x; cbn; unfold MPPROC_SIZE, MPIOAPIC_SIZE; lia).
  destruct l as [|y l]; [cbn; lia|]. specialize (IH _ Ht ltac:(done)). cbn [length] in *. lia.
Qed.

Lemma collect_mem s l : mmem (foldl collect1 s l) = mmem s.
Proof.
  revert s. induction l as [|x l IH]; intros s; [done|]. cbn [foldl]. rewrite IH. destruct x; cbn; [by destruct (_ <? _)|done..].
Qed.

(** The processors collected: the first ones, as many as fit. *)
Lemma collect_procs s l :
  0 ≤ ncpu s ≤ NCPU → length (apicids s) = Z.to_nat NCPU →
  let s' := foldl collect1 s l in
  ncpu s' = Z.min NCPU (ncpu s + Z.of_nat (length (procs l))) ∧ length (apicids s') = Z.to_nat NCPU ∧
  take (Z.to_nat (ncpu s')) (apicids s') = take (Z.to_nat NCPU) (take (Z.to_nat (ncpu s)) (apicids s) ++ procs l) ∧
  ioapicid s' = last_ioapic (ioapicid s) l ∧ lapic s' = lapic s ∧ mdev s' = mdev s ∧ mmem s' = mmem s.
Proof.
  revert s. induction l as [|x l IH]; intros s Hn Hl; cbn [foldl].
  - unfold NCPU in *. cbn. split_and!; [lia|done| |done..]. rewrite app_nil_r, take_take. f_equal. lia.
  - destruct (collect1_ncpu s x Hn) as [Hn' Em].
    assert (length (apicids (collect1 s x)) = Z.to_nat NCPU) as Hl'.
    { destruct x; cbn; try done. destruct (_ <? _); cbn; [by rewrite length_insert|done]. }
    destruct (IH _ Hn' Hl') as (H1 & H2 & H3 & H4 & H5 & H6 & H7). cbv zeta. rewrite H3, H1, H2, H4, H5, H6, H7.
    destruct x as [id|id|t]; cbn [collect1 procs last_ioapic foldl]; try (split_and!; done).
    destruct (Z.ltb_spec (ncpu s) NCPU) as [Hlt|Hge]; unfold NCPU in *.
    + cbn [ncpu set_ncpu set_apicids apicids ioapicid lapic mdev mmem length]. split_and!; [lia|done| |done..].
      assert (take (Z.to_nat (ncpu s + 1)) (<[Z.to_nat (ncpu s) := id]> (apicids s)) = take (Z.to_nat (ncpu s)) (apicids s) ++ [id]) as ->.
      { replace (Z.to_nat (ncpu s + 1)) with (S (Z.to_nat (ncpu s))) by lia. rewrite (take_S_r _ _ id).
        - by rewrite take_insert_ge by lia.
        - apply list_lookup_insert_eq. rewrite Hl. lia. }
      by rewrite <- app_assoc.
    + cbn [length]. split_and!; [lia|done| |done..].
      assert (length (take (Z.to_nat (ncpu s)) (apicids s)) = Z.to_nat 8) by (rewrite length_take, Hl; lia).
      rewrite !take_app_le by lia. done.
Qed.

Lemma loop_iter_spin {A B} (body : A → M (mpst D) (A + B)) d n a s a' s' :
  (∀ k, iter body (n + k) a s = iter body k a' s') → (∀ k, ∃ a1, iter body k a' s' = Ok (inl a1) s') → Z.of_nat n ≤ 2 ^ Z.of_nat d →
  loop body d a s = Spin.
Proof.
  intros H1 H2 Hn. unfold loop, mbind, M_bind. rewrite until_iter.
  assert (n ≤ 2 ^ d)%nat by (apply Nat2Z.inj_le; by rewrite Nat2Z.inj_pow).
  replace (2 ^ d)%nat with (n + (2 ^ d - n))%nat by lia. rewrite H1. by destruct (H2 (2 ^ d - n)%nat) as [a1 ->].
Qed.

Lemma conf_range m conf : bytes_ok m → 0 ≤ conf_length m conf < 2 ^ 16.
Proof. intros Hm. pose proof (Hm (u32 (conf + 4))). pose proof (Hm (u32 (conf + 5))). unfold conf_length, load8, is_u8 in *. lia. Qed.

(** The IMCR belongs to the bus. *)
Lemma imcr_run (s : mpst D) : ∃ d, (outb 0x22 0x70;; v ← inb 0x23; outb 0x23 (Z.lor v 1)) s = Ok tt (set_mdev d s).
Proof.
  unfold outb, inb. rewrite run_bind_modify. unfold mbind, M_bind. destruct (port_in _ _) as [v d]. eexists. reflexivity.
Qed.

(** The table of [conf] has entries [l], up to [q]. *)
Definition has_entries (m : mem) (mp conf : Z) (l : list entry) (q : Z) : Prop :=
  mpconfig m = Some (mp, conf) ∧ 0 ≤ conf ∧ conf + conf_length m conf + 64 < 2 ^ 32 ∧
  table m (conf + conf_length m conf) (conf + MPCONF_SIZE) l q.

Lemma has_entries_length m mp conf l q : bytes_ok m → has_entries m mp conf l q → Z.of_nat (length l) + 1 ≤ 2 ^ 14.
Proof.
  intros Hm (_ & _ & _ & Ht). destruct l as [|x l]; [done|]. apply table_length in Ht; [|done].
  pose proof (Hm (u32 (conf + 4))). pose proof (Hm (u32 (conf + 5))). unfold conf_length, load8, is_u8, MPCONF_SIZE in *. cbn [length] in *. lia.
Qed.
End proofs.

(** C19 [functional]: mpinit() finds the processors.  For a configuration table
    that consists of known entries, it takes the APIC ids of the processors in the
    order of the table, as many as [NCPU], the id of the last I/O APIC, and the
    address of the local APIC; only the IMCR registers of the bus are touched. *)
Theorem mpinit_finds {D} `{Bus D} (s : mpst D) mp conf l q :
  bytes_ok (mmem s) → has_entries (mmem s) mp conf l q → conf + conf_length (mmem s) conf ≤ q →
  ncpu s = 0 → length (apicids s) = Z.to_nat NCPU →
  ∃ s', mpinit s = Ok tt s' ∧ ncpu s' = Z.min NCPU (Z.of_nat (length (procs l))) ∧
    take (Z.to_nat (ncpu s')) (apicids s') = take (Z.to_nat NCPU) (procs l) ∧
    ioapicid s' = last_ioapic (ioapicid s) l ∧ lapic s' = conf_lapicaddr (mmem s) conf ∧ mmem s' = mmem s ∧
    (mp_imcrp (mmem s) mp = 0 → mdev s' = mdev s).
Proof.
  intros Hm He Hq Hn Hl. pose proof (has_entries_length _ _ _ _ _ Hm He) as Hlen. destruct He as (Ec & H0 & Hmax & Ht).
  unfold mpinit. mred. rewrite Ec. mred. set (s1 := set_lapic _ s). set (e := conf + conf_length (mmem s) conf) in *.
  destruct (conf_range _ conf Hm).
  assert (u32 e = e) as -> by (apply u32_id; unfold is_u32; lia).
  assert (conf +u MPCONF_SIZE = conf + MPCONF_SIZE) as -> by (apply u32_id; unfold is_u32, MPCONF_SIZE; lia).
  assert (loop (mpinit_body e) 14 (conf + MPCONF_SIZE, 1) s1 = Ok 1 (foldl collect1 s1 l)) as El.
  { apply (loop_iter _ 14 (length l + 1)); [|lia]. rewrite (mpinit_entries l e _ q).
    - apply iter_exit. unfold mpinit_body. rewrite (proj2 (Z.ltb_ge q e)) by lia. done.
    - done.
    - unfold MPCONF_SIZE. lia.
    - unfold MPPROC_SIZE. lia.
    - cbn. rewrite Hn. unfold NCPU. lia. }
  mstep El. cbn [Z.eqb]. destruct (collect_procs s1 l) as (E1 & _ & E3 & E4 & E5 & E6 & E7); [cbn; rewrite Hn; unfold NCPU; lia|done|].
  change (ncpu s1) with (ncpu s) in *. rewrite Hn in *. cbn [Z.to_nat take app] in E3. rewrite Z.add_0_l in E1.
  destruct (Z.eqb_spec (mp_imcrp (mmem s) mp) 0) as [E|E]; cbn [negb mwhen].
  - exists (foldl collect1 s1 l). split; [done|]. split_and!; try done.
  - destruct (imcr_run (foldl collect1 s1 l)) as [d' ->]. eexists. split; [done|]. cbn [set_mdev ncpu apicids ioapicid lapic mmem mdev].
    split_and!; try done.
Qed.

(** *** A machine with two processors *)

Fixpoint poke (a : Z) (l : list Z) (m : mem) : mem := match l with [] => m | v :: l => store8 a v (poke (a + 1) l m) end.
Definition tables (type : Z) : mem :=
  poke 0x800F0000 [95; 77; 80; 95; 0; 1; 15; 0; 1; 4; 144; 0; 0; 0; 0; 0]
    (poke 0x800F0100 ([80; 67; 77; 80; 100; 0; 1; 126; 0; 0; 0; 0; 0; 0; 0; 0; 0; 0; 0; 0; 0; 0; 0; 0; 0; 0; 0; 0; 0; 0; 0; 0; 0; 0; 4; 0; 0; 0; 224; 254; 0; 0; 0; 0; 0; 0; 0; 0; 0; 0; 0; 0; 0; 0; 0; 0; 0; 0; 0; 0; 0; 0; 0; 0; 2; 5; 0; 0; 0; 0; 0; 0; 0; 1; 0; 0; 0; 0; 0; 0; 0; 0; 0; 0; 0; 0; 0; 0; 0; 0; 0; 0] ++ [type; 3 - type; 0; 0; 0; 0; 0; 0]) (λ _, 0)).
Definition machine (type : Z) : mpst trace := Mpst (tables type) (replicate 8 0) 0 0 0 [].

Lemma poke_bytes a l m : bytes_ok m → bytes_ok (poke a l m).
Proof. intros Hm. revert a. induction l as [|v l IH]; intros a x; [apply Hm|]. cbn. unfold store8. case_match; [apply u8_range|apply IH]. Qed.

Lemma tables_bytes type : bytes_ok (tables type).
Proof. apply poke_bytes, poke_bytes. intros x. done. Qed.

Lemma mpinit_finds_witness : ∃ s', mpinit (machine 3) = Ok tt s' ∧ ncpu s' = 2 ∧ take 2 (apicids s') = [0; 1] ∧ ioapicid s' = 5.
Proof.
  destruct (mpinit_finds (machine 3) 0x800F0000 0x800F0100 [EProc 0; EIoapic 5; EProc 1; EOther 3] 0x800F0164) as (s' & E & H1 & H2 & H3 & _).
  - apply tables_bytes.
  - split_and!; [vm_compute; reflexivity|done|vm_compute; reflexivity|]. vm_compute. repeat split. right. by left.
  - vm_compute. discriminate.
  - reflexivity.
  - reflexivity.
  - exists s'. change (ncpu s' = 2) in H1. rewrite H1 in H2. split; [exact E|]. split; [exact H1|]. split; [exact H2|exact H3].
Defined.

(** C36 [error]: an unknown entry stops the machine for ever.  The [break] under
    [default:] leaves only the switch, so that the loop meets the same entry
    again: mpinit() neither goes on nor reaches the panic for an unsuitable
    machine. *)
Theorem mpinit_unknown_entry {D} `{Bus D} (s : mpst D) mp conf l q :
  bytes_ok (mmem s) → has_entries (mmem s) mp conf l q → q < conf + conf_length (mmem s) conf → load8 (mmem s) q > MPLINTR → ncpu s = 0 →
  mpinit s = Spin.
Proof.
  intros Hm He Hq Hu Hn. pose proof (has_entries_length _ _ _ _ _ Hm He) as Hlen. destruct He as (Ec & H0 & Hmax & Ht).
  unfold mpinit. mred. rewrite Ec. mred. set (s1 := set_lapic _ s). set (e := conf + conf_length (mmem s) conf) in *.
  assert (u32 e = e) as -> by (apply u32_id; unfold is_u32; destruct (conf_range _ conf Hm); lia).
  assert (conf +u MPCONF_SIZE = conf + MPCONF_SIZE) as -> by (apply u32_id; unfold is_u32, MPCONF_SIZE; destruct (conf_range _ conf Hm); lia).
  assert (loop (mpinit_body e) 14 (conf + MPCONF_SIZE, 1) s1 = Spin) as El.
  { apply (loop_iter_spin _ 14 (length l) _ _ (q, 1) (foldl collect1 s1 l)); [| |lia].
    - intros k. apply (mpinit_entries l e _ q); [done|unfold MPCONF_SIZE; lia|unfold MPPROC_SIZE; lia|]. cbn. rewrite Hn. unfold NCPU. lia.
    - pose proof (collect_mem s1 l) as Em. change (mmem s1) with (mmem s) in Em.
      assert (∀ x, mpinit_body e (q, x) (foldl collect1 s1 l) = Ok (inl (q, 0)) (foldl collect1 s1 l)) as Eb.
      { intros x. unfold mpinit_body. rewrite (proj2 (Z.ltb_lt q e)) by lia. cbn [negb]. mred. rewrite Em.
        unfold MPPROC, MPIOAPIC, MPBUS, MPIOINTR, MPLINTR in *. rewrite !(proj2 (Z.eqb_neq _ _)) by lia. done. }
      intros k. generalize 1. induction k as [|k IH]; intros x; [by eexists|]. destruct (IH 0) as [a1 IHk]. exists a1.
      by rewrite (iter_next _ _ _ _ _ _ (Eb x)). }
  unfold mbind, M_bind. by rewrite El.
Qed.

Lemma mpinit_unknown_entry_witness : mpinit (machine 9) = Spin.
Proof.
  apply (mpinit_unknown_entry (machine 9) 0x800F0000 0x800F0100 [EProc 0; EIoapic 5; EProc 1] 0x800F015C).
  - apply tables_bytes.
  - split_and!; [vm_compute; reflexivity|done|vm_compute; reflexivity|]. vm_compute. repeat split.
  - vm_compute. reflexivity.
  - vm_compute. reflexivity.
  - reflexivity.
Defined.
