(* ===== verification/Boot.v ===== *)
(** * The boot loader: bootmain.c

    bootmain() loads the kernel's ELF image, which starts at sector 1 of the disk,
    into physical memory, with the disk controller on any bus.  The jump to the
    kernel's entry is the result [Some entry]; returning to bootasm.S is [None]. *)

From Stdlib Require Import Sorted.
From S2P Require Import Prelude Machine CString Kalloc Io.
Open Scope kernel_scope.

Definition SECTSIZE : Z := 512.
Definition ELF_MAGIC : Z := 0x464C457F.

Section bootmain.
Context {D : Type} `{Bus D}.

Record bootst := Bootst { pmem : mem; pdev : D }.
Definition set_pmem (v : mem) (s : bootst) : bootst := Bootst v (pdev s).
Definition set_pdev (v : D) (s : bootst) : bootst := Bootst (pmem s) v.

#[global] Instance lens_pdev : Lens bootst D.
Proof. refine {| view := pdev; upd := set_pdev |}; [done|by intros []|done]. Defined.

Definition ld32 (a : Z) : M bootst Z := gets (λ s, load32 (pmem s) a).
Definition ld16 (a : Z) : M bootst Z := gets (λ s, load8 (pmem s) a + load8 (pmem s) (a + 1) * 2 ^ 8).

Fixpoint store_bytes (a : Z) (l : list Z) (m : mem) : mem :=
  match l with [] => m | v :: l => store_bytes (a + 1) l (store8 a v m) end.

Definition waitdisk_body (_ : unit) : M bootst (unit + unit) :=
  v ← inb 0x1F7;
  if negb (Z.land v 0xC0 =? 0x40) then mret (inl tt) else mret (inr tt).
Definition waitdisk : M bootst unit := loop waitdisk_body 40 tt.

Definition readsect (dst offset : Z) : M bootst unit :=
  waitdisk;;
  outb 0x1F2 1;;
  outb 0x1F3 offset;;
  outb 0x1F4 (Z.shiftr offset 8);;
  outb 0x1F5 (Z.shiftr offset 16);;
  outb 0x1F6 (Z.lor (Z.shiftr offset 24) 0xE0);;
  outb 0x1F7 0x20;;
  waitdisk;;
  l ← insl 0x1F0 (Z.to_nat (SECTSIZE / 4));
  modify (λ s, set_pmem (store_bytes dst l (pmem s)) s).

Definition readseg_body (epa : Z) (st : Z * Z) : M bootst (Z * Z + unit) :=
  let '(pa, offset) := st in
  if negb (pa <? epa) then mret (inr tt) else
  readsect pa offset;;
  mret (inl (pa +u SECTSIZE, offset +u 1)).

Definition readseg (pa count offset : Z) : M bootst unit :=
  let epa := pa +u count in
  let pa := pa -u offset mod SECTSIZE in
  let offset := offset / SECTSIZE +u 1 in
  loop (readseg_body epa) 24 (pa, offset).

(** struct elfhdr at [elf], and struct proghdr, of 32 bytes. *)
Definition elf : Z := 0x10000.
Definition phsize : Z := 32.

Definition bootmain_body (eph : Z) (ph : Z) : M bootst (Z + unit) :=
  if negb (ph <? eph) then mret (inr tt) else
  off ← ld32 (ph + 4);
  pa ← ld32 (ph + 12);
  filesz ← ld32 (ph + 16);
  readseg pa filesz off;;
  filesz ← ld32 (ph + 16);
  memsz ← ld32 (ph + 20);
  mwhen (filesz <? memsz)
    (modify (λ s, set_pmem (stosb (pa + filesz) 0 (Z.to_nat (memsz - filesz)) (pmem s)) s));;
  mret (inl (ph +u phsize)).

Definition bootmain : M bootst (option Z) :=
  readseg elf 4096 0;;
  magic ← ld32 elf;
  if negb (magic =? ELF_MAGIC) then mret None else
  phoff ← ld32 (elf + 28);
  phnum ← ld16 (elf + 44);
  let ph := elf +u phoff in
  loop (bootmain_body (ph +u phnum * phsize)) 17 ph;;
  entry ← ld32 (elf + 24);
  mret (Some entry).
End bootmain.
Arguments bootst : clear implicits.

(** ** The disk controller *)
Section laws.
Context {D : Type} `{Bus D}.

(** The command to read sector [n]. *)
Definition read_command (n : Z) (d : D) : D :=
  port_out 0x1F7 0x20 (port_out 0x1F6 (u8 (Z.lor (Z.shiftr n 24) 0xE0)) (port_out 0x1F5 (u8 (Z.shiftr n 16))
    (port_out 0x1F4 (u8 (Z.shiftr n 8)) (port_out 0x1F3 (u8 n) (port_out 0x1F2 1 d))))).

(** An idle controller becomes ready, and answers a read command with the bytes of
    the sector. *)
Record ata_laws (idle : D → Prop) (sect : Z → list Z) : Prop := {
  at_idle d : idle d → ∃ k r d', settles k d r d' ∧ Z.of_nat k < 2 ^ 40 ∧ idle d';
  at_read d n : idle d → 0 ≤ n < 2 ^ 28 →
    ∃ k r d1 d2, settles k (read_command n d) r d1 ∧ Z.of_nat k < 2 ^ 40 ∧ port_ins 0x1F0 128 d1 = (sect n, d2) ∧ idle d2;
  at_size n : length (sect n) = 512%nat ∧ Forall is_u8 (sect n);
}.

Lemma waitdisk_run k r d d' s : settles k d r d' → Z.of_nat k < 2 ^ 40 → pdev s = d → waitdisk s = Ok tt (set_pdev d' s).
Proof.
  refine (poll_run waitdisk_body (λ _, tt) k d r d' s _). intros s1 v d1 E. unfold waitdisk_body, inb, mbind, M_bind. rewrite E.
  cbn [obind]. by destruct (_ =? _).
Qed.
End laws.

Lemma store_bytes_fill a l m x :
  in_space a (Z.of_nat (length l)) → Forall is_u8 l → is_u32 x →
  store_bytes a l m x = fill a (Z.of_nat (length l)) (λ y, l !!! Z.to_nat (y - a)) m x.
Proof.
  unfold in_space, fill. intros Hs Hl Hx. revert a m Hs. induction Hl as [|v l Hv Hl IH]; intros a m Hs; cbn [store_bytes length] in *.
  { mem_case; done. }
  rewrite IH by lia. rewrite store8_in by (unfold is_u32; lia). rewrite (u8_id v) by done.
  destruct (Z.eqb_spec x a) as [->|Hne].
  - mem_case. by rewrite Z.sub_diag.
  - mem_case; try done. replace (Z.to_nat (x - a)) with (S (Z.to_nat (x - (a + 1)))) by lia. done.
Qed.

Section load.
Context {D : Type} `{Bus D} (idle : D → Prop) (sect : Z → list Z) (HL : ata_laws idle sect).

(** Byte [k] of the kernel's image. *)
Definition image (k : Z) : Z := sect (k / 512 + 1) !!! Z.to_nat (k mod 512).

Lemma readsect_run dst n s :
  idle (pdev s) → 0 ≤ n < 2 ^ 28 → in_space dst 512 →
  ∃ s', readsect dst n s = Ok tt s' ∧ idle (pdev s') ∧ ∀ x, is_u32 x → pmem s' x = fill dst 512 (λ y, sect n !!! Z.to_nat (y - dst)) (pmem s) x.
Proof using HL.
  intros Hi Hn Hd. destruct (at_idle _ _ HL (pdev s) Hi) as (k & r1 & d1 & Hs1 & Hk & Hi1).
  destruct (at_read _ _ HL d1 n Hi1 Hn) as (k2 & r2 & d2 & d3 & Hs2 & Hk2 & E & Hi3).
  unfold readsect. rewrite (bind_ok _ _ _ _ _ (waitdisk_run k _ _ _ s Hs1 Hk eq_refl)).
  unfold outb. mred. cbn [view upd lens_pdev pdev set_pdev].
  erewrite bind_ok; [|by apply (waitdisk_run k2 r2 (read_command n d1) d2)].
  unfold insl, mbind, M_bind. cbn [view lens_pdev pdev set_pdev]. change (Z.to_nat (SECTSIZE / 4)) with 128%nat. rewrite E.
  destruct (at_size _ _ HL n) as [Hz Hb].
  eexists. split; [reflexivity|]. split; [done|]. intros x Hx. cbn [pmem set_pmem set_pdev upd lens_pdev].
  rewrite store_bytes_fill by (rewrite ?Hz; done). by rewrite Hz.
Qed.

Lemma image_at o i : 0 ≤ i < 512 → image (o * 512 + i) = sect (o + 1) !!! Z.to_nat i.
Proof using. intros Hi. unfold image. by replace ((o * 512 + i) / 512) with o by dmlia; replace ((o * 512 + i) mod 512) with i by dmlia. Qed.

Lemma sects_run k : ∀ epa pa o s,
  idle (pdev s) → 0 ≤ o → o + Z.of_nat k < 2 ^ 28 → 0 ≤ pa → pa + 512 * Z.of_nat k < 2 ^ 32 →
  pa + 512 * (Z.of_nat k - 1) < epa ≤ pa + 512 * Z.of_nat k →
  ∃ s', iter (readseg_body epa) (S k) (pa, o + 1) s = Ok (inr tt) s' ∧ idle (pdev s') ∧
    ∀ x, is_u32 x → pmem s' x = fill pa (512 * Z.of_nat k) (λ y, image (o * 512 + (y - pa))) (pmem s) x.
Proof using HL.
  induction k as [|k IH]; intros epa pa o s Hi Ho Hok Hp Hpk He.
  - exists s. split; [apply iter_exit|split; [done|]].
    + unfold readseg_body. rewrite (proj2 (Z.ltb_ge pa epa)) by lia. done.
    + intros x _. unfold fill. mem_case; done.
  - destruct (readsect_run pa (o + 1) s Hi ltac:(lia) ltac:(unfold in_space; lia)) as (s1 & E & Hi1 & Hm1).
    destruct (IH epa (pa + 512) (o + 1) s1) as (s2 & E2 & Hi2 & Hm2); try (done || lia).
    exists s2. split; [|split; [done|]].
    + rewrite (iter_next _ _ _ _ (pa + 512, o + 1 + 1) s1); [done|].
      unfold readseg_body. rewrite (proj2 (Z.ltb_lt pa epa)) by lia. cbn [negb]. rewrite (bind_ok _ _ _ _ _ E).
      unfold SECTSIZE. rewrite !u32_id by (unfold is_u32; lia). done.
    + intros x Hx. rewrite Hm2 by done. unfold fill. rewrite Hm1 by done. unfold fill. mem_case; try done.
      * f_equal; lia.
      * by rewrite image_at by lia.
Qed.

(** What readseg writes: whole sectors around the segment. *)
Definition seg_lo (pa off : Z) : Z := pa - off mod 512.
Definition seg_len (count off : Z) : Z := (count + off mod 512 + 511) / 512 * 512.
Definition readable (pa count off : Z) : Prop :=
  off mod 512 ≤ pa ∧ 0 ≤ count ∧ 0 ≤ off < 2 ^ 32 ∧ off / 512 + seg_len count off / 512 < 2 ^ 23 ∧ seg_lo pa off + seg_len count off < 2 ^ 32.

Lemma readseg_run pa count off s :
  idle (pdev s) → readable pa count off →
  ∃ s', readseg pa count off s = Ok tt s' ∧ idle (pdev s') ∧
    ∀ x, is_u32 x → pmem s' x = fill (seg_lo pa off) (seg_len count off) (λ y, image (off + (y - pa))) (pmem s) x.
Proof using HL.
  unfold readable, seg_lo, seg_len. intros Hi (Hp & Hc & Ho & Ho2 & He).
  set (k := (count + off mod 512 + 511) / 512) in *.
  assert (0 ≤ k ∧ 512 * (k - 1) < count + off mod 512 ≤ 512 * k) as [Hk0 Hk] by (subst k; dmlia).
  rewrite Z.div_mul in Ho2 by lia.
  pose proof (Z.mod_pos_bound off 512 ltac:(lia)). pose proof (Z.div_pos off 512 ltac:(lia) ltac:(lia)).
  destruct (sects_run (Z.to_nat k) (pa + count) (pa - off mod 512) (off / 512) s) as (s' & E & Hi' & Hm); try (done || lia).
  exists s'. split; [|split; [done|]].
  - unfold readseg, SECTSIZE. rewrite !u32_id by (unfold is_u32; lia).
    eapply loop_iter; [exact E|]. change (2 ^ Z.of_nat 24) with (2 ^ 24). lia.
  - intros x Hx. rewrite Hm by done. replace (512 * Z.of_nat (Z.to_nat k)) with (k * 512) by lia.
    unfold fill. mem_case; try done. f_equal. pose proof (Z.div_mod off 512). lia.
Qed.

(** A program header, and the segments of the image's headers. *)
Record pseg := Pseg { p_off : Z; p_pa : Z; p_filesz : Z; p_memsz : Z }.
Definition seg_of (m : mem) (ph : Z) : pseg :=
  Pseg (load32 m (ph + 4)) (load32 m (ph + 12)) (load32 m (ph + 16)) (load32 m (ph + 20)).
Definition in_header (x : Z) : Prop := elf ≤ x < elf + 4096.
Definition hdr : mem := λ x, image (x - elf).
Definition phoff : Z := load32 hdr (elf + 28).
Definition phnum : Z := load8 hdr (elf + 44) + load8 hdr (elf + 45) * 2 ^ 8.
Definition segments : list pseg := (λ i, seg_of hdr (elf + phoff + 32 * i)) <$> seqZ 0 phnum.

(** The memory of a segment, and the memory written when it is loaded. *)
Definition extent (g : pseg) (x : Z) : Prop := p_pa g ≤ x < p_pa g + Z.max (p_filesz g) (p_memsz g).
Definition touched (g : pseg) (x : Z) : Prop :=
  seg_lo (p_pa g) (p_off g) ≤ x < seg_lo (p_pa g) (p_off g) + seg_len (p_filesz g) (p_off g) ∨ extent g x.
Definition seg_ok (g : pseg) : Prop :=
  readable (p_pa g) (p_filesz g) (p_off g) ∧ p_pa g + p_memsz g < 2 ^ 32 ∧ ∀ x, in_header x → ¬ touched g x.
Definition apart (g g' : pseg) : Prop := ∀ x, extent g x → ¬ touched g' x.
Definition loaded (m : mem) (g : pseg) : Prop := ∀ x,
  (p_pa g ≤ x < p_pa g + p_filesz g → m x = image (p_off g + (x - p_pa g))) ∧
  (p_pa g + p_filesz g ≤ x < p_pa g + p_memsz g → m x = 0).
Definition header (m : mem) : Prop := ∀ x, in_header x → m x = hdr x.

Lemma header_load32 m a : header m → elf ≤ a → a + 4 ≤ elf + 4096 → load32 m a = load32 hdr a.
Proof using.
  intros Hm Ha He. apply load32_ext. intros i Hi. rewrite !load8_in by (unfold is_u32, elf in *; lia). apply Hm. unfold in_header. lia.
Qed.
Lemma loaded_frame m m' g : (∀ x, is_u32 x → extent g x → m' x = m x) → seg_ok g → loaded m g → loaded m' g.
Proof using.
  intros Hm ((? & ? & Ho & _ & Hr) & ? & _) Hl x. destruct (Hl x) as [Ha Hb]. pose proof (Z.mod_pos_bound (p_off g) 512 ltac:(lia)).
  assert (p_pa g + p_filesz g ≤ seg_lo (p_pa g) (p_off g) + seg_len (p_filesz g) (p_off g)) by (unfold seg_lo, seg_len; dmlia).
  split; intros Hx; rewrite Hm; auto; try (unfold is_u32, extent; lia).
Qed.

Lemma load_seg g ph eph s :
  idle (pdev s) → header (pmem s) → g = seg_of hdr ph → seg_ok g → elf ≤ ph → ph + 32 ≤ eph → eph ≤ elf + 4096 →
  ∃ s', bootmain_body eph ph s = Ok (inl (ph + 32)) s' ∧ idle (pdev s') ∧ header (pmem s') ∧ loaded (pmem s') g ∧
    ∀ x, is_u32 x → ¬ touched g x → pmem s' x = pmem s x.
Proof using HL.
  intros Hi Hh Eg (Hr & Hmz & Hnh) Hlo Hph Heph. unfold elf in Hlo, Heph.
  assert (∀ m o, header m → 0 ≤ o → o + 4 ≤ 32 → load32 m (ph + o) = load32 hdr (ph + o)) as Hld.
  { intros m o Hm Ho Ho2. apply header_load32; [done|unfold elf; lia..]. }
  destruct (readseg_run (p_pa g) (p_filesz g) (p_off g) s Hi Hr) as (s1 & E1 & Hi1 & Hm1).
  pose proof Hr as (Hr1 & Hr2 & Hr3 & _ & Hr4). pose proof (Z.mod_pos_bound (p_off g) 512 ltac:(lia)) as Hmod.
  assert (header (pmem s1)) as Hh1.
  { intros x Hx. rewrite Hm1 by (unfold in_header, is_u32, elf in *; lia). pose proof (Hnh x Hx) as Hn.
    unfold touched in Hn. unfold fill. mem_case; first [tauto|by apply Hh]. }
  set (s2 := if p_filesz g <? p_memsz g
    then set_pmem (stosb (p_pa g + p_filesz g) 0 (Z.to_nat (p_memsz g - p_filesz g)) (pmem s1)) s1 else s1).
  assert (bootmain_body eph ph s = Ok (inl (ph + 32)) s2) as E.
  { unfold bootmain_body, ld32. rewrite (proj2 (Z.ltb_lt ph eph)) by lia. cbn [negb]. mred.
    rewrite !(Hld (pmem s)) by (done || lia). subst g. cbn [p_pa p_filesz p_off p_memsz seg_of] in *.
    rewrite (bind_ok _ _ _ _ _ E1). mred. rewrite !(Hld (pmem s1)) by (done || lia).
    unfold s2, mwhen, phsize. rewrite u32_id by (unfold is_u32; lia). destruct (_ <? _); done. }
  assert (∀ x, is_u32 x → pmem s2 x = if (p_pa g + p_filesz g <=? x) && (x <? p_pa g + p_memsz g) then 0 else pmem s1 x) as Hm2.
  { intros x Hx. unfold s2. destruct (Z.ltb_spec (p_filesz g) (p_memsz g)); [|mem_case; done].
    cbn [pmem set_pmem]. rewrite stosb_fill by (unfold in_space, seg_lo, seg_len in *; lia). unfold fill. mem_case; done. }
  assert (∀ x, is_u32 x → ¬ touched g x → pmem s2 x = pmem s x) as Hf.
  { intros x Hx Hn. rewrite Hm2, Hm1 by done. unfold touched, extent in Hn. unfold fill. mem_case; first [done|tauto|exfalso; lia]. }
  assert (p_pa g + p_filesz g ≤ seg_lo (p_pa g) (p_off g) + seg_len (p_filesz g) (p_off g)) as Hcov by (unfold seg_lo, seg_len; dmlia).
  exists s2. split; [done|]. split; [unfold s2; by destruct (_ <? _)|]. split; [|split; [|done]].
  - intros x Hx. rewrite Hf; [by apply Hh|unfold in_header, is_u32, elf in *; lia|by apply Hnh].
  - intros x. split; intros Hx; rewrite Hm2 by (unfold is_u32; lia).
    + mem_case; rewrite Hm1 by (unfold is_u32; lia); unfold fill, seg_lo in *; mem_case; done.
    + mem_case; done.
Qed.

Lemma segs_run gs : ∀ ph s,
  idle (pdev s) → header (pmem s) → elf ≤ ph → ph + 32 * Z.of_nat (length gs) ≤ elf + 4096 →
  (∀ i g, gs !! i = Some g → g = seg_of hdr (ph + 32 * Z.of_nat i)) → Forall seg_ok gs → StronglySorted apart gs →
  ∃ s', iter (bootmain_body (ph + 32 * Z.of_nat (length gs))) (S (length gs)) ph s = Ok (inr tt) s' ∧
    header (pmem s') ∧ Forall (loaded (pmem s')) gs ∧
    ∀ x, is_u32 x → Forall (λ g, ¬ touched g x) gs → pmem s' x = pmem s x.
Proof using HL.
  induction gs as [|g gs IH]; intros ph s Hi Hh Hlo Hhi Hg Hok Hs.
  - exists s. split; [|done]. apply iter_exit. unfold bootmain_body. cbn [length]. rewrite (proj2 (Z.ltb_ge ph _)) by lia. done.
  - apply StronglySorted_inv in Hs as [Hs Hap]. apply Forall_cons_1 in Hok as [Hok1 Hok]. cbn [length] in *.
    set (eph := ph + 32 * Z.of_nat (S (length gs))) in *.
    destruct (load_seg g ph eph s) as (s1 & E1 & Hi1 & Hh1 & Hl1 & Hf1); try (done || subst eph; lia).
    { rewrite (Hg 0%nat g eq_refl). f_equal. lia. }
    destruct (IH (ph + 32) s1) as (s2 & E2 & Hh2 & Hl2 & Hf2); try (done || lia).
    { intros i g' Hi'. rewrite (Hg (S i) g' Hi'). f_equal. lia. }
    replace (ph + 32 + 32 * Z.of_nat (length gs)) with eph in E2 by lia.
    exists s2. split; [by rewrite (iter_next _ _ _ _ _ _ E1)|]. split; [done|]. split.
    + constructor; [|done]. apply (loaded_frame (pmem s1)); [|done..]. intros x Hx He. apply Hf2; [done|].
      eapply Forall_impl; [exact Hap|]. intros g' Hg'. by apply Hg'.
    + intros x Hx [Hn Hns]%Forall_cons_1. rewrite Hf2 by done. by apply Hf1.
Qed.

Lemma image_u8 k : is_u8 (image k).
Proof using HL.
  unfold image. destruct (at_size _ _ HL (k / 512 + 1)) as [Hl Hb]. rewrite Forall_lookup in Hb.
  apply (Hb (Z.to_nat (k mod 512))). apply list_lookup_lookup_total_lt. pose proof (Z.mod_pos_bound k 512). lia.
Qed.

Lemma header_read s : idle (pdev s) → ∃ s', readseg elf 4096 0 s = Ok tt s' ∧ idle (pdev s') ∧ header (pmem s').
Proof using HL.
  intros Hi. destruct (readseg_run elf 4096 0 s Hi) as (s' & E & Hi' & Hm).
  { unfold readable, seg_len, seg_lo, elf. split; [done|]. split; [done|]. done. }
  exists s'. split; [done|]. split; [done|]. intros x Hx. rewrite Hm by (unfold in_header, is_u32, elf in *; lia).
  change (seg_len 4096 0) with 4096. change (seg_lo elf 0) with elf. unfold fill, hdr, in_header in *. mem_case. done.
Qed.

Lemma bootmain_run s :
  idle (pdev s) → load32 hdr elf = ELF_MAGIC → 52 ≤ phoff → phoff + 32 * phnum ≤ 4096 → Forall seg_ok segments → StronglySorted apart segments →
  ∃ s', bootmain s = Ok (Some (load32 hdr (elf + 24))) s' ∧ Forall (loaded (pmem s')) segments.
Proof using HL.
  intros Hi Hmag Hp0 Hp Hok Hs. destruct (header_read s Hi) as (s1 & E1 & Hi1 & Hh1).
  assert (0 ≤ phnum) as Hn.
  { unfold phnum, load8, hdr. pose proof (image_u8 (u32 (elf + 44) - elf)). pose proof (image_u8 (u32 (elf + 45) - elf)). unfold is_u8 in *. lia. }
  assert (Z.of_nat (length segments) = phnum) as Hlen by (unfold segments; rewrite length_fmap, length_seqZ; lia).
  destruct (segs_run segments (elf + phoff) s1) as (s2 & E2 & Hh2 & Hl2 & _); try done.
  - lia.
  - rewrite Hlen. lia.
  - unfold segments. intros i g Hg. rewrite list_lookup_fmap in Hg. apply fmap_Some in Hg as (z & Hz & ->).
    apply lookup_seqZ in Hz as [-> _]. done.
  - exists s2. split; [|done]. unfold bootmain. rewrite (bind_ok _ _ _ _ _ E1). unfold ld32, ld16. mred.
    rewrite !(header_load32 (pmem s1)) by (done || (unfold elf; lia)). rewrite Hmag, Z.eqb_refl. cbn [negb]. mred.
    assert (∀ o, 0 ≤ o < 4096 → load8 (pmem s1) (elf + o) = load8 hdr (elf + o)) as H8.
    { intros o Ho. rewrite !load8_in by (unfold is_u32, elf; lia). apply Hh1. unfold in_header. lia. }
    rewrite (header_load32 (pmem s1)) by (done || (unfold elf; lia)). change (elf + 44 + 1) with (elf + 45). rewrite !H8 by lia. change (load32 hdr (elf + 28)) with phoff.
    change (load8 hdr (elf + 44) + load8 hdr (elf + 45) * 2 ^ 8) with phnum.
    replace (elf +u phoff +u phnum * phsize) with (elf + phoff + 32 * Z.of_nat (length segments))
      by (rewrite Hlen; unfold phsize; rewrite !(u32_id (elf + phoff)) by (unfold elf, is_u32; lia); rewrite u32_id by (unfold elf, is_u32; lia); lia).
    rewrite (u32_id (elf + phoff)) by (unfold elf, is_u32; lia).
    erewrite bind_ok; [|eapply loop_iter; [exact E2|change (2 ^ Z.of_nat 17) with (2 ^ 17); lia]].
    mred. by rewrite (header_load32 (pmem s2)) by (done || (unfold elf; lia)).
Qed.

(** C16 [functional]: for a disk controller that answers read commands with the bytes of the
    sectors, and an image with the ELF magic number whose program headers lie in
    its first page and whose segments keep clear of the header page and of each
    other, the boot loader enters the kernel at the header's entry point, with
    every segment in place: at its physical address the bytes of the image at its
    file offset, followed by zeros up to its size in memory.  Without the magic
    number it returns. *)
Theorem bootmain_loads s :
  idle (pdev s) →
  (load32 hdr elf = ELF_MAGIC → 52 ≤ phoff → phoff + 32 * phnum ≤ 4096 → Forall seg_ok segments → StronglySorted apart segments →
    ∃ s', bootmain s = Ok (Some (load32 hdr (elf + 24))) s' ∧ Forall (loaded (pmem s')) segments) ∧
  (load32 hdr elf ≠ ELF_MAGIC → ∃ s', bootmain s = Ok None s').
Proof using HL.
  intros Hi. split; [by apply bootmain_run|]. intros Hm. destruct (header_read s Hi) as (s1 & E1 & Hi1 & Hh1).
  exists s1. unfold bootmain. rewrite (bind_ok _ _ _ _ _ E1). unfold ld32. mred.
  rewrite (header_load32 (pmem s1)) by (done || (unfold elf; lia)). by rewrite (proj2 (Z.eqb_neq _ _)).
Qed.
End load.

(** A controller that holds the number of the sector to read. *)
Definition lba_out (p v d : Z) : Z :=
  if p =? 0x1F3 then d / 2 ^ 8 * 2 ^ 8 + v
  else if p =? 0x1F4 then d / 2 ^ 16 * 2 ^ 16 + v * 2 ^ 8 + d mod 2 ^ 8
  else if p =? 0x1F5 then d / 2 ^ 24 * 2 ^ 24 + v * 2 ^ 16 + d mod 2 ^ 16
  else if p =? 0x1F6 then v mod 16 * 2 ^ 24 + d mod 2 ^ 24 else d.

(** An image of two pages, with one segment of three bytes in the second one. *)
Definition kernel_sect (n : Z) : list Z :=
  if n =? 1 then
    [0x7F; 0x45; 0x4C; 0x46] ++ replicate 20 0 ++ [0x0C; 0; 0x10; 0; 52; 0; 0; 0] ++ replicate 12 0 ++ [1; 0] ++ replicate 6 0
    ++ [1; 0; 0; 0; 0; 0x10; 0; 0; 0; 0; 0x10; 0x80; 0; 0; 0x10; 0; 3; 0; 0; 0; 5; 0; 0; 0] ++ replicate 436 0
  else if n =? 9 then [0xAA; 0xBB; 0xCC] ++ replicate 509 0x99
  else replicate 512 0.

#[global] Instance lba_bus : Bus Z := {|
  port_in _ d := (0x40, d); port_out := lba_out; port_ins _ _ d := (kernel_sect d, d);
  port_outs _ _ d := d; reg_read _ d := (0, d); reg_write _ _ d := d |}.

Lemma lba_read n d : 0 ≤ n < 2 ^ 28 → read_command n d = n.
Proof.
  intros Hn. unfold read_command. cbn [port_out lba_bus]. unfold lba_out. cbn [Z.eqb Pos.eqb].
  rewrite !Z.shiftr_div_pow2 by lia. unfold u8.
  assert (Z.lor (n / 2 ^ 24) 0xE0 mod 2 ^ 8 mod 16 = n / 2 ^ 24) as ->.
  { assert (0 ≤ n / 2 ^ 24 < 16) as Hq by (split; [apply Z.div_pos; lia|apply Z.div_lt_upper_bound; lia]).
    revert Hq. generalize (n / 2 ^ 24). intros q Hq.
    assert (q ∈ seqZ 0 16) as Hin by (apply elem_of_seqZ; lia).
    assert (Forall (λ q, Z.lor q 0xE0 mod 2 ^ 8 mod 16 = q) (seqZ 0 16)) as Hf by repeat constructor.
    by apply (proj1 (Forall_forall _ _) Hf). }
  dmlia.
Qed.

Lemma lba_laws : ata_laws (λ _, True) kernel_sect.
Proof.
  split.
  - intros d _. exists 0%nat, 0x40, d. split; [by apply (settle_now d 0x40)|done].
  - intros d n _ Hn. exists 0%nat, 0x40, n, n. rewrite lba_read by done. split; [by apply (settle_now n 0x40)|done].
  - intros n. unfold kernel_sect. destruct (n =? 1), (n =? 9); (split; [done|]);
      refine (bool_decide_eq_true_1 _ _); vm_compute; reflexivity.
Qed.

Lemma bootmain_loads_witness :
  ∃ s', bootmain (Bootst (λ _, 7) 0) = Ok (Some 0x10000C) s' ∧ pmem s' 0x100001 = 0xBB ∧ pmem s' 0x100004 = 0.
Proof.
  destruct (bootmain_loads _ _ lba_laws (Bootst (λ _, 7) 0) I) as [Hl _].
  assert (segments kernel_sect = [Pseg 4096 0x100000 3 5]) as Hs by (vm_compute; reflexivity).
  rewrite Hs in Hl. destruct Hl as (s' & E & Hl).
  - vm_compute; reflexivity.
  - vm_compute; discriminate.
  - vm_compute; discriminate.
  - constructor; [|constructor]. split; [|split; [done|]].
    + clear. vm_compute. repeat split; discriminate.
    + intros x Hx [Ht|Ht]; unfold extent, in_header, elf in *; [change (0x100000 ≤ x < 0x100200) in Ht|cbn [p_pa p_filesz p_memsz] in Ht]; lia.
  - repeat constructor.
  - exists s'. apply Forall_cons_1 in Hl as [Hl _]. split; [exact E|].
    split; [rewrite (proj1 (Hl 0x100001)); [vm_compute; reflexivity|cbn [p_pa p_filesz]; lia]|].
    apply (proj2 (Hl 0x100004)). cbn [p_pa p_filesz p_memsz]. lia.
Defined.
