(* ===== verification/Vm.v ===== *)
(** * Page tables: vm.c

    Page directories and page tables live in [kmem], as they do in memory: an
    entry is the little-endian word at its kernel virtual address.  Kernel
    virtual addresses at and above [KERNBASE] are the direct map; a user
    address is translated through the page directory in [cr3], as the hardware
    does it ([translate]).  segment descriptors (seginit) are left out. *)

From S2P Require Import Prelude Machine Proc CString Kalloc.
Open Scope kernel_scope.

(** ** mmu.h, memlayout.h *)

Definition EXTMEM : Z := 0x100000.
Definition DEVSPACE : Z := 0xFE000000.
Definition KERNLINK : Z := KERNBASE + EXTMEM.

Definition PTXSHIFT : Z := 12.
Definition PDXSHIFT : Z := 22.
Definition NPDENTRIES : Z := 1024.
Definition PDX (va : Z) : Z := Z.land (Z.shiftr va PDXSHIFT) 0x3FF.
Definition PTX (va : Z) : Z := Z.land (Z.shiftr va PTXSHIFT) 0x3FF.
Definition PGADDR (d t o : Z) : Z :=
  u32 (Z.lor (Z.lor (Z.shiftl d PDXSHIFT) (Z.shiftl t PTXSHIFT)) o).

Definition PTE_P : Z := 0x001.
Definition PTE_W : Z := 0x002.
Definition PTE_U : Z := 0x004.
Definition PTE_ADDR (pte : Z) : Z := Z.land pte (Z.lnot 0xFFF).
Definition PTE_FLAGS (pte : Z) : Z := Z.land pte 0xFFF.

(** [pte & flag] as a condition. *)
Definition has (flag pte : Z) : bool := negb (Z.land pte flag =? 0).

(** ** Address translation by the CPU

    The kernel virtual address of the byte at virtual address [va]; [None] is
    a page fault. *)
Definition translate (m : mem) (cr3 va : Z) : option Z :=
  if KERNBASE <=? va then Some va else
  let pde := load32 m (P2V cr3 +u 4 * PDX va) in
  if has PTE_P pde then
    let pte := load32 m (P2V (PTE_ADDR pde) +u 4 * PTX va) in
    if has PTE_P pte then Some (P2V (PTE_ADDR pte) +u va mod PGSIZE) else None
  else None.

Module Vm.

(** A fault of the kernel itself: trap() panics. *)
Definition fault {A} : M kst A := panic "trap".

Definition vload8 (va : Z) : M kst Z :=
  s ← get;
  match translate (kmem s) (cr3 (chart (kcore s))) va with
  | Some a => mret (load8 (kmem s) a)
  | None => fault
  end.

Definition vstore8 (va v : Z) : M kst unit :=
  s ← get;
  match translate (kmem s) (cr3 (chart (kcore s))) va with
  | Some a => Kmem.mod_mem (store8 a v)
  | None => fault
  end.

Definition vload32 (va : Z) : M kst Z :=
  b0 ← vload8 va; b1 ← vload8 (va +u 1); b2 ← vload8 (va +u 2); b3 ← vload8 (va +u 3);
  mret (b0 + b1 * 2 ^ 8 + b2 * 2 ^ 16 + b3 * 2 ^ 24).

(** [*p] and [*p = v] for a word in the kernel's direct map. *)
Definition read32 (p : Z) : M kst Z := gets (λ s, load32 (kmem s) p).
Definition write32 (p v : Z) : M kst unit := Kmem.mod_mem (store32 p v).

Definition walkpgdir (pgdir va : Z) (alloc : bool) : M kst Z :=
  let pde := pgdir +u 4 * PDX va in
  v ← read32 pde;
  if has PTE_P v then mret (P2V (PTE_ADDR v) +u 4 * PTX va) else
  if negb alloc then mret 0 else
  pgtab ← Kmem.kalloc;
  if pgtab =? 0 then mret 0 else
  Kmem.mod_mem (memset pgtab 0 PGSIZE);;
  write32 pde (Z.lor (Z.lor (Z.lor (V2P pgtab) PTE_P) PTE_W) PTE_U);;
  mret (pgtab +u 4 * PTX va).

(** One iteration of mappages(), at [(a, pa)]. *)
Definition mappages_body (pgdir last perm : Z) (x : Z * Z) : M kst (Z * Z + Z) :=
  let '(a, pa) := x in
  pte ← walkpgdir pgdir a true;
  if pte =? 0 then mret (inr (-1)) else
  v ← read32 pte;
  if has PTE_P v then panic "remap" else
  write32 pte (Z.lor (Z.lor pa perm) PTE_P);;
  if a =? last then mret (inr 0) else mret (inl (a +u PGSIZE, pa +u PGSIZE)).

Definition mappages (pgdir va size pa perm : Z) : M kst Z :=
  loop (mappages_body pgdir (PGROUNDDOWN (va +u size -u 1)) perm) 20 (PGROUNDDOWN va, pa).

Definition deallocuvm_body (pgdir oldsz : Z) (a : Z) : M kst (Z + unit) :=
  if negb (a <? oldsz) then mret (inr tt) else
  pte ← walkpgdir pgdir a false;
  if pte =? 0 then mret (inl (PGADDR (PDX a + 1) 0 0 -u PGSIZE +u PGSIZE)) else
  v ← read32 pte;
  mwhen (has PTE_P v)
    (if PTE_ADDR v =? 0 then panic "kfree" else
     Kmem.kfree (P2V (PTE_ADDR v));;
     write32 pte 0);;
  mret (inl (a +u PGSIZE)).

Definition deallocuvm (pgdir oldsz newsz : Z) : M kst Z :=
  if oldsz <=? newsz then mret oldsz else
  loop (deallocuvm_body pgdir oldsz) 20 (PGROUNDUP newsz);;
  mret newsz.

Definition freevm_body (pgdir : Z) (i : Z) : M kst (Z + unit) :=
  if negb (i <? NPDENTRIES) then mret (inr tt) else
  v ← read32 (pgdir +u 4 * i);
  mwhen (has PTE_P v) (Kmem.kfree (P2V (PTE_ADDR v)));;
  mret (inl (i + 1)).

Definition freevm (pgdir : Z) : M kst unit :=
  if pgdir =? 0 then panic "freevm: no pgdir" else
  deallocuvm pgdir KERNBASE 0;;
  loop (freevm_body pgdir) 11 0;;
  Kmem.kfree pgdir.

(** The kernel's mappings: virt, phys_start, phys_end, perm. *)
Definition kmap (data : Z) : list (Z * Z * Z * Z) :=
  [ (KERNBASE, 0, EXTMEM, PTE_W);
    (KERNLINK, V2P KERNLINK, V2P data, 0);
    (data, V2P data, PHYSTOP, PTE_W);
    (DEVSPACE, DEVSPACE, 0, PTE_W) ].

Fixpoint setupkvm_loop (pgdir : Z) (l : list (Z * Z * Z * Z)) : M kst Z :=
  match l with
  | [] => mret pgdir
  | (virt, phys_start, phys_end, perm) :: l =>
      r ← mappages pgdir virt (phys_end -u phys_start) phys_start perm;
      if r <? 0 then freevm pgdir;; mret 0 else setupkvm_loop pgdir l
  end.

Definition setupkvm : M kst Z :=
  pgdir ← Kmem.kalloc;
  if pgdir =? 0 then mret 0 else
  Kmem.mod_mem (memset pgdir 0 PGSIZE);;
  if DEVSPACE <? P2V PHYSTOP then panic "PHYSTOP too high" else
  s ← get;
  setupkvm_loop pgdir (kmap (kdata s)).

Definition kvmalloc : M kst unit :=
  pgdir ← setupkvm;
  modify (λ s, set_kcore (set_kpgdir pgdir (kcore s)) s);;
  switchkvm.

(** Writing the bytes of a kernel buffer at a kernel address. *)
Fixpoint put_bytes (a : Z) (l : list Z) (m : mem) : mem :=
  match l with [] => m | b :: l => put_bytes (a + 1) l (store8 a b m) end.

(** [init] is the program's bytes, [_binary_initcode_start]. *)
Definition inituvm (pgdir : Z) (init : list Z) : M kst unit :=
  if PGSIZE <=? Z.of_nat (length init) then panic "inituvm: more than a page" else
  mem ← Kmem.kalloc;
  if mem =? 0 then fault else
  Kmem.mod_mem (memset mem 0 PGSIZE);;
  mappages pgdir 0 PGSIZE (V2P mem) (Z.lor PTE_W PTE_U);;
  Kmem.mod_mem (put_bytes mem init).

Definition allocuvm_body (pgdir oldsz newsz : Z) (a : Z) : M kst (Z + Z) :=
  if negb (a <? newsz) then mret (inr newsz) else
  mem ← Kmem.kalloc;
  if mem =? 0 then deallocuvm pgdir newsz oldsz;; mret (inr 0) else
  Kmem.mod_mem (memset mem 0 PGSIZE);;
  r ← mappages pgdir a PGSIZE (V2P mem) (Z.lor PTE_W PTE_U);
  if r <? 0 then
    deallocuvm pgdir newsz oldsz;;
    Kmem.kfree mem;;
    mret (inr 0)
  else mret (inl (a +u PGSIZE)).

Definition allocuvm (pgdir oldsz newsz : Z) : M kst Z :=
  if KERNBASE <=? newsz then mret 0 else
  if newsz <? oldsz then mret oldsz else
  loop (allocuvm_body pgdir oldsz newsz) 20 (PGROUNDUP oldsz).

Definition clearpteu (pgdir uva : Z) : M kst unit :=
  pte ← walkpgdir pgdir uva false;
  if pte =? 0 then panic "clearpteu" else
  v ← read32 pte;
  write32 pte (Z.land v (Z.lnot PTE_U)).

Definition copyuvm_body (pgdir sz d : Z) (i : Z) : M kst (Z + Z) :=
  if negb (i <? sz) then mret (inr d) else
  pte ← walkpgdir pgdir i false;
  if pte =? 0 then panic "copyuvm: pte should exist" else
  v ← read32 pte;
  if negb (has PTE_P v) then panic "copyuvm: page not present" else
  mem ← Kmem.kalloc;
  if mem =? 0 then freevm d;; mret (inr 0) else
  Kmem.mod_mem (memmove mem (P2V (PTE_ADDR v)) PGSIZE);;
  r ← mappages d i PGSIZE (V2P mem) (PTE_FLAGS v);
  if r <? 0 then Kmem.kfree mem;; freevm d;; mret (inr 0)
  else mret (inl (i +u PGSIZE)).

Definition copyuvm (pgdir sz : Z) : M kst Z :=
  d ← setupkvm;
  if d =? 0 then mret 0 else
  loop (copyuvm_body pgdir sz d) 20 0.

(** A null [pte] is dereferenced without a check. *)
Definition uva2ka (pgdir uva : Z) : M kst Z :=
  pte ← walkpgdir pgdir uva false;
  v ← (if pte =? 0 then vload32 0 else read32 pte);
  if negb (has PTE_P v) then mret 0 else
  if negb (has PTE_U v) then mret 0 else
  mret (P2V (PTE_ADDR v)).

(** [p] is the buffer's contents; [len] is its length. *)
Definition copyout_body (pgdir : Z) (x : Z * list Z) : M kst (Z * list Z + Z) :=
  let '(va, buf) := x in
  let len := Z.of_nat (length buf) in
  if negb (0 <? len) then mret (inr 0) else
  let va0 := PGROUNDDOWN va in
  pa0 ← uva2ka pgdir va0;
  if pa0 =? 0 then mret (inr (-1)) else
  let n := PGSIZE -u (va -u va0) in
  let n := if len <? n then len else n in
  Kmem.mod_mem (put_bytes (pa0 +u (va -u va0)) (take (Z.to_nat n) buf));;
  mret (inl (va0 +u PGSIZE, drop (Z.to_nat n) buf)).

Definition copyout (pgdir va : Z) (p : list Z) : M kst Z :=
  loop (copyout_body pgdir) 21 (va, p).

End Vm.

(** ** Words and bit fields *)

Lemma page_lor_disjoint x f : x mod 4096 = 0 → 0 ≤ f < 4096 → Z.lor x f = x + f.
Proof.
  intros Hx Hf. symmetry. apply Z.add_nocarry_lor. apply Z.bits_inj'. intros i Hi.
  rewrite Z.land_spec, Z.bits_0. destruct (Z.lt_ge_cases i 12).
  - assert (x = x / 4096 * 2 ^ 12) as -> by (change (2 ^ 12) with 4096; dmlia).
    by rewrite Z.mul_pow2_bits_low.
  - rewrite (Z.bits_above_log2 f i), andb_false_r; [done|lia|].
    destruct (Z.eq_dec f 0) as [->|]; [simpl; lia|]. apply Z.log2_lt_pow2; [lia|].
    eapply Z.lt_le_trans with (2 ^ 12); [lia|]. apply Z.pow_le_mono_r; lia.
Qed.

Lemma pte_addr_eq x : PTE_ADDR x = x - x mod 4096.
Proof. exact (pgrounddown_eq x). Qed.

Lemma pte_flags_eq x : PTE_FLAGS x = x mod 4096.
Proof. unfold PTE_FLAGS. change 0xFFF with (Z.ones 12). by rewrite Z.land_ones by lia. Qed.

Lemma has_P_eq x : has PTE_P x = Z.odd x.
Proof.
  unfold has, PTE_P. change 1 with (Z.ones 1). rewrite Z.land_ones by lia.
  change (2 ^ 1) with 2. rewrite Zmod_odd. by destruct (Z.odd x).
Qed.

Lemma lor_PTE_P x : 0 ≤ x → has PTE_P (Z.lor x PTE_P) = true.
Proof.
  intros. rewrite has_P_eq, <- Z.bit0_odd, Z.lor_spec. by rewrite orb_true_r.
Qed.

Lemma pdx_eq va : is_u32 va → PDX va = va / 2 ^ 22.
Proof.
  unfold is_u32. intros. unfold PDX, PDXSHIFT. change 0x3FF with (Z.ones 10).
  rewrite Z.land_ones, Z.shiftr_div_pow2 by lia.
  rewrite Z.mod_small; [done|]. split; [apply Z.div_pos; lia|apply Z.div_lt_upper_bound; lia].
Qed.

Lemma ptx_eq va : PTX va = va / 4096 mod 1024.
Proof.
  unfold PTX, PTXSHIFT. change 0x3FF with (Z.ones 10). by rewrite Z.land_ones, Z.shiftr_div_pow2 by lia.
Qed.

Lemma pdx_range va : is_u32 va → 0 ≤ PDX va < 1024.
Proof. intros H. rewrite pdx_eq by done. unfold is_u32 in H. dmlia. Qed.

Lemma ptx_range va : 0 ≤ PTX va < 1024.
Proof. rewrite ptx_eq. apply Z.mod_pos_bound. lia. Qed.

(** The two indexes determine the page. *)
Lemma same_page va va' :
  is_u32 va → is_u32 va' → PDX va = PDX va' → PTX va = PTX va' → PGROUNDDOWN va = PGROUNDDOWN va'.
Proof.
  intros H H'. rewrite !pdx_eq, !ptx_eq, !pgrounddown_eq by done. unfold is_u32, PGSIZE in *. dmlia.
Qed.

Lemma load32_store32_ne a b v m :
  is_u32 a → is_u32 b → a mod 4 = 0 → b mod 4 = 0 → a ≠ b → load32 (store32 a v m) b = load32 m b.
Proof.
  unfold is_u32. intros Ha Hb Ma Mb Hne. unfold load32, store32.
  assert (∀ i j, 0 ≤ i < 4 → 0 ≤ j < 4 → u32 (b + i) =? u32 (a + j) = false) as H.
  { intros i j Hi Hj. apply Z.eqb_neq. rewrite !u32_id by (unfold is_u32; dmlia). dmlia. }
  assert (∀ j, 0 ≤ j < 4 → u32 b =? u32 (a + j) = false) as Hb0.
  { intros j Hj. specialize (H 0 j). rewrite Z.add_0_r in H. apply H; lia. }
  assert (∀ i, 0 ≤ i < 4 → u32 (b + i) =? u32 a = false) as Ha0.
  { intros i Hi. specialize (H i 0). rewrite Z.add_0_r in H. apply H; lia. }
  assert (u32 b =? u32 a = false) as H00.
  { specialize (Hb0 0). rewrite Z.add_0_r in Hb0. apply Hb0; lia. }
  rewrite !load8_store8, H00, !H, !Hb0, !Ha0 by lia. done.
Qed.

Lemma load32_range m a : bytes_ok m → is_u32 (load32 m a).
Proof.
  intros Hm. unfold load32, load8, is_u32.
  pose proof (Hm (u32 a)). pose proof (Hm (u32 (a + 1))). pose proof (Hm (u32 (a + 2))).
  pose proof (Hm (u32 (a + 3))). unfold is_u8 in *. lia.
Qed.

(** ** Page tables as maps *)

Definition pde (m : mem) (D i : Z) : Z := load32 m (D + 4 * i).
Definition table (m : mem) (D i : Z) : Z := P2V (PTE_ADDR (pde m D i)).
Definition present (m : mem) (D i : Z) : Prop := 0 ≤ i < 1024 ∧ has PTE_P (pde m D i) = true.

(** The page table entry of [va]; 0 when there is no page table. *)
Definition pte_at (m : mem) (D va : Z) : Z :=
  if has PTE_P (pde m D (PDX va)) then load32 m (table m D (PDX va) + 4 * PTX va) else 0.

(** A page directory and its page tables are pages of their own. *)
Record pt_wf (e : Z) (m : mem) (D : Z) : Prop := {
  wf_dir : page_ok e D;
  wf_table i : present m D i → page_ok e (table m D i) ∧ table m D i ≠ D;
  wf_inj i j : present m D i → present m D j → table m D i = table m D j → i = j;
}.

(** None of the pages [l] is used by the page table. *)
Definition unused (m : mem) (D : Z) (l : list Z) : Prop :=
  ∀ v, v ∈ l → v ≠ D ∧ ∀ i, present m D i → v ≠ table m D i.

Lemma slot_in_page v i :
  0 ≤ i < 1024 → in_page v (v + 4 * i) ∧ in_page v (v + 4 * i + 3).
Proof. unfold in_page, PGSIZE. lia. Qed.

Lemma slot_u32 e v i :
  page_ok e v → 0 ≤ i < 1024 → is_u32 (v + 4 * i) ∧ (v + 4 * i) mod 4 = 0 ∧ v + 4 * i ≠ 0.
Proof.
  intros Hv Hi. pose proof (page_ok_u32 e v Hv) as (? & ? & _ & Hend). destruct Hv as (Hm & _).
  unfold is_u32, PGSIZE in *. split_and!; [lia..|dmlia|lia].
Qed.

(** Entries of different pages, or at different indexes, are different words. *)
Lemma slot_ne v w i j :
  v mod PGSIZE = 0 → w mod PGSIZE = 0 → 0 ≤ i < 1024 → 0 ≤ j < 1024 →
  v ≠ w ∨ i ≠ j → v + 4 * i ≠ w + 4 * j.
Proof. unfold PGSIZE. intros. dmlia. Qed.

(** A word is not affected by changes to another page. *)
Lemma slot_frame e v w i m m' :
  page_ok e v → page_ok e w → v ≠ w → 0 ≤ i < 1024 → same_but w m m' →
  load32 m' (v + 4 * i) = load32 m (v + 4 * i).
Proof.
  intros Hv Hw Hne Hi Hs. apply load32_ext. intros k Hk.
  destruct (page_ok_u32 e v Hv) as (? & _ & _ & Hend). unfold is_u32, PGSIZE in *.
  rewrite !load8_in by (unfold is_u32; lia). apply Hs.
  apply (pages_disjoint v); [apply Hv|apply Hw|done|]. unfold in_page, PGSIZE. lia.
Qed.

Section page_tables.
Context (e D : Z).

(** Changing a page that the page table does not use. *)
Lemma pt_frame m m' w :
  pt_wf e m D → page_ok e w → unused m D [w] → same_but w m m' →
  pt_wf e m' D ∧ (∀ i, 0 ≤ i < 1024 → pde m' D i = pde m D i) ∧
  (∀ va, is_u32 va → pte_at m' D va = pte_at m D va).
Proof.
  intros [Hd Ht Hi] Hw Hun Hs. destruct (Hun w) as [HwD Hwt]; [set_solver|].
  assert (∀ i, 0 ≤ i < 1024 → pde m' D i = pde m D i) as Hpde.
  { intros i Hri. unfold pde. by apply (slot_frame e D w). }
  assert (∀ i, 0 ≤ i < 1024 → table m' D i = table m D i) as Htab.
  { intros i Hri. unfold table. by rewrite Hpde. }
  assert (∀ i, present m' D i ↔ present m D i) as Hpre.
  { intros i. unfold present. split; intros [Hr Hp]; (split; [done|]).
    - by rewrite Hpde in Hp.
    - by rewrite Hpde. }
  split_and!; [split|done|].
  - done.
  - intros i Hp. rewrite Htab by apply Hp. apply Ht. by apply Hpre.
  - intros i j Hpi Hpj. rewrite !Htab by (apply Hpi || apply Hpj). apply Hi; by apply Hpre.
  - intros va Hva. unfold pte_at. pose proof (pdx_range va Hva) as Hr. rewrite Hpde, Htab by done.
    destruct (has PTE_P (pde m D (PDX va))) eqn:E; [|done].
    assert (present m D (PDX va)) as Hp by done.
    apply (slot_frame e _ w); [by apply Ht|done| |apply ptx_range|done].
    intros Heq. by apply (Hwt (PDX va)).
Qed.

(** Writing one page table entry. *)
Lemma pt_write m va v :
  pt_wf e m D → is_u32 va → present m D (PDX va) → is_u32 v →
  let m' := store32 (table m D (PDX va) + 4 * PTX va) v m in
  pt_wf e m' D ∧ (∀ i, 0 ≤ i < 1024 → pde m' D i = pde m D i) ∧
  (∀ va', is_u32 va' → pte_at m' D va' =
     if decide (PGROUNDDOWN va' = PGROUNDDOWN va) then v else pte_at m D va').
Proof.
  intros [Hd Ht Hi] Hva Hp Hv m'. set (t := table m D (PDX va)) in *.
  destruct (Ht _ Hp) as [Htok HtD]. fold t in Htok, HtD. pose proof (ptx_range va) as Hptx.
  pose proof (slot_u32 e t (PTX va) Htok Hptx) as (Hu & Hm4 & _).
  assert (∀ w i, page_ok e w → 0 ≤ i < 1024 → w ≠ t ∨ i ≠ PTX va →
    load32 m' (w + 4 * i) = load32 m (w + 4 * i)) as Hne.
  { intros w i Hw Hir Hor. pose proof (slot_u32 e w i Hw Hir) as (? & ? & _).
    apply load32_store32_ne; try done. apply slot_ne; try done; [apply Htok|apply Hw|naive_solver]. }
  assert (∀ i, 0 ≤ i < 1024 → pde m' D i = pde m D i) as Hpde.
  { intros i Hri. apply Hne; [done..|]. left. congruence. }
  assert (∀ i, 0 ≤ i < 1024 → table m' D i = table m D i) as Htab.
  { intros i Hri. unfold table. by rewrite Hpde. }
  split_and!; [split|done|].
  - done.
  - intros i [Hr Hpi]. rewrite Hpde in Hpi by done. rewrite Htab by done. by apply Ht.
  - intros i j [Hri Hpi] [Hrj Hpj]. rewrite Hpde in Hpi, Hpj by done. rewrite !Htab by done. by apply Hi.
  - intros va' Hva'. pose proof (pdx_range va' Hva') as Hr'. unfold pte_at.
    rewrite Hpde, Htab by done. case_decide as Epg.
    + assert (PDX va' = PDX va ∧ PTX va' = PTX va) as [-> ->].
      { rewrite !pgrounddown_eq in Epg. rewrite !pdx_eq, !ptx_eq by done. unfold is_u32, PGSIZE in *. dmlia. }
      destruct Hp as [_ ->]. fold t. unfold m'. rewrite load32_store32. by apply u32_id.
    + destruct (has PTE_P (pde m D (PDX va'))) eqn:E; [|done].
      assert (present m D (PDX va')) as Hp' by done.
      apply Hne; [by apply Ht|apply ptx_range|].
      destruct (decide (PDX va' = PDX va)) as [Ed|Ed].
      * right. intros Et. apply Epg. by apply same_page.
      * left. intros Et. apply Ed. by apply Hi.
Qed.
End page_tables.

(** A new page table [t] for the directory entry of [va]. *)
Lemma pt_new_table e D m va t :
  pt_wf e m D → is_u32 va → has PTE_P (pde m D (PDX va)) = false → page_ok e t → unused m D [t] →
  let m1 := memset t 0 PGSIZE m in
  let m2 := store32 (D + 4 * PDX va) (Z.lor (Z.lor (Z.lor (V2P t) PTE_P) PTE_W) PTE_U) m1 in
  pt_wf e m2 D ∧ present m2 D (PDX va) ∧ table m2 D (PDX va) = t ∧
  (∀ i, 0 ≤ i < 1024 → i ≠ PDX va → pde m2 D i = pde m D i) ∧
  (∀ va', is_u32 va' → pte_at m2 D va' = pte_at m D va').
Proof.
  intros Hwf Hva Habs Ht Hun m1 m2.
  assert (same_but t m m1) as Hs1.
  { intros x Hx. unfold m1. destruct (page_ok_u32 e t Ht) as (? & _ & _ & ?). unfold is_u32, in_page, PGSIZE in *.
    rewrite memset_bytes by (unfold in_space; lia). unfold fill. mem_case; done. }
  destruct (pt_frame e D m m1 t Hwf Ht Hun Hs1) as ([Hd Ht1 Hi1] & Hpde1 & Hpte1).
  pose proof (pdx_range va Hva) as Hx. pose proof (slot_u32 e D _ Hd Hx) as (HDu & HD4 & _).
  destruct (Hun t) as [HtD Htt]; [set_solver|].
  set (w := Z.lor _ PTE_U) in *.
  assert (w = t - KERNBASE + 7 ∧ is_u32 w) as [Hw Hwu].
  { pose proof (page_ok_u32 e t Ht) as (Hu & _ & HV & _). destruct Ht as (Hm & _ & Hr).
    unfold w, V2P, KERNBASE, PHYSTOP, PGSIZE, is_u32 in *.
    rewrite u32_id by (unfold is_u32; lia). unfold PTE_P, PTE_W, PTE_U.
    rewrite <- !Z.lor_assoc. change (Z.lor 1 (Z.lor 2 4)) with 7.
    rewrite page_lor_disjoint by dmlia. lia. }
  assert (PTE_ADDR w = t - KERNBASE ∧ has PTE_P w = true) as [Haddr Hhas].
  { destruct Ht as (Hm & _ & _). rewrite pte_addr_eq, has_P_eq, Hw. unfold KERNBASE, PGSIZE in *.
    split; [dmlia|]. rewrite <- Z.negb_even, Z.even_add. replace (t - 2147483648) with (2 * ((t - 2147483648) / 2)) by dmlia.
    by rewrite Z.even_mul. }
  assert (pde m2 D (PDX va) = w) as Hw2.
  { unfold pde, m2. rewrite load32_store32. by apply u32_id. }
  assert (table m2 D (PDX va) = t) as Htab2.
  { unfold table. rewrite Hw2, Haddr. unfold P2V. replace (t - KERNBASE + KERNBASE) with t by lia.
    apply u32_id. by eapply page_ok_u32. }
  assert (∀ v i, page_ok e v → 0 ≤ i < 1024 → v ≠ D ∨ i ≠ PDX va →
    load32 m2 (v + 4 * i) = load32 m1 (v + 4 * i)) as Hne.
  { intros v i Hv Hir Hor. pose proof (slot_u32 e v i Hv Hir) as (? & ? & _).
    apply load32_store32_ne; try done. apply slot_ne; try done; [apply Hd|apply Hv|naive_solver]. }
  assert (∀ i, 0 ≤ i < 1024 → i ≠ PDX va → pde m2 D i = pde m D i) as Hpde2.
  { intros i Hir Hne'. rewrite <- Hpde1 by done. apply Hne; [done..|by right]. }
  assert (∀ i, 0 ≤ i < 1024 → i ≠ PDX va → table m2 D i = table m D i) as Htab2'.
  { intros i Hir Hne'. unfold table. by rewrite Hpde2. }
  assert (∀ i, i ≠ PDX va → present m2 D i → present m D i) as Hpre.
  { intros i Hne' [Hir Hpi]. split; [done|]. by rewrite Hpde2 in Hpi. }
  destruct Hwf as [_ Ht0 Hi0].
  split_and!; [split|split|..]; try done.
  - intros i Hpi. destruct (decide (i = PDX va)) as [->|Hne']; [by rewrite Htab2|].
    rewrite Htab2' by (apply Hpi || done). apply Ht0. by apply Hpre.
  - intros i j Hpi Hpj. destruct (decide (i = PDX va)) as [->|Hii], (decide (j = PDX va)) as [->|Hjj]; [done|..].
    + rewrite Htab2, Htab2' by (apply Hpj || done). intros E. by destruct (Htt j (Hpre j Hjj Hpj)).
    + rewrite Htab2, Htab2' by (apply Hpi || done). intros E. by destruct (Htt i (Hpre i Hii Hpi)).
    + rewrite !Htab2' by (apply Hpi || apply Hpj || done). apply Hi0; by apply Hpre.
  - by rewrite Hw2.
  - intros va' Hva'. pose proof (pdx_range va' Hva') as Hx'. pose proof (ptx_range va') as Hy'.
    rewrite <- Hpte1 by done. unfold pte_at. destruct (decide (PDX va' = PDX va)) as [E|E].
    + rewrite E, Hw2, Hhas, Htab2, Hpde1, Habs by done. rewrite Hne by (done || by left).
      destruct (page_ok_u32 e t Ht) as (Htu & _ & _ & Hend). unfold is_u32, PGSIZE in *.
      assert (∀ a, t ≤ a < t + 4096 → load8 m1 a = 0) as Hz.
      { intros a Ha. rewrite load8_in by (unfold is_u32; lia). unfold m1.
        rewrite memset_bytes by (unfold in_space, PGSIZE; lia). unfold fill, PGSIZE. mem_case; done. }
      unfold load32. rewrite !Hz by lia. done.
    + rewrite Hpde2, Htab2' by done. rewrite Hpde1 by done.
      replace (table m1 D (PDX va')) with (table m D (PDX va')) by (unfold table; by rewrite Hpde1).
      destruct (has PTE_P (pde m D (PDX va'))) eqn:Ep; [|done].
      apply Hne; [by apply Ht0|done|]. left. by apply Ht0.
Qed.

(** ** The operations on a well-formed page table *)

(** What the operations rely on: page table [D] is well formed, the free pages
    are [l], and the page table uses none of them. *)
Record vm_ok (c : nat) (s : kst) (D : Z) (l : list Z) : Prop := {
  vm_lock : use_lock s ≠ 0 → can_lock c LKmem s;
  vm_free : free_pages s l;
  vm_wf : pt_wf (kend s) (kmem s) D;
  vm_unused : unused (kmem s) D l;
  vm_bytes : bytes_ok (kmem s);
}.

(** The mapping is unchanged. *)
Definition same_map (D : Z) (s s' : kst) : Prop :=
  ∀ va, is_u32 va → pte_at (kmem s') D va = pte_at (kmem s) D va.

Lemma store8_bytes a v m : bytes_ok m → bytes_ok (store8 a v m).
Proof. intros Hm x. unfold store8. destruct (_ =? _); [apply u8_range|apply Hm]. Qed.

Lemma store32_bytes a v m : bytes_ok m → bytes_ok (store32 a v m).
Proof. intros. unfold store32. auto using store8_bytes. Qed.

Lemma memset_bytes_ok d c n m : in_space d n → bytes_ok m → bytes_ok (memset d c n m).
Proof.
  intros Hs Hm x. rewrite memset_bytes by done. unfold fill. case_match; [apply u8_range|apply Hm].
Qed.
#[export] Hint Resolve store8_bytes store32_bytes memset_bytes_ok : kernel.

Lemma page_in_space e v : page_ok e v → in_space v PGSIZE.
Proof. intros Hv. pose proof (page_ok_u32 e v Hv). unfold in_space, is_u32, PGSIZE in *. lia. Qed.
#[export] Hint Resolve page_in_space : kernel.

Lemma slot_addr e v i : page_ok e v → 0 ≤ i < 1024 → v +u 4 * i = v + 4 * i.
Proof. intros Hv Hi. apply u32_id. by apply (slot_u32 e v i). Qed.

Lemma walk_noalloc e D va s :
  pt_wf e (kmem s) D → is_u32 va →
  Vm.walkpgdir D va false s =
    Ok (if has PTE_P (pde (kmem s) D (PDX va)) then table (kmem s) D (PDX va) + 4 * PTX va else 0) s.
Proof.
  intros [Hd Ht _] Hva. unfold Vm.walkpgdir, Vm.read32. mred.
  pose proof (pdx_range va Hva) as Hx. rewrite (slot_addr e) by done. fold (pde (kmem s) D (PDX va)).
  destruct (has PTE_P _) eqn:E; [|done].
  rewrite (slot_addr e); [done| |apply ptx_range]. by apply Ht.
Qed.

Lemma walk_alloc c s D l va :
  vm_ok c s D l → is_u32 va →
  ∃ r s' l', Vm.walkpgdir D va true s = Ok r s' ∧ vm_ok c s' D l' ∧ same_rest s s' ∧ same_map D s s' ∧
    (∀ v, v ∈ l' → v ∈ l) ∧
    ((r = 0 ∧ l = []) ∨ (present (kmem s') D (PDX va) ∧ r = table (kmem s') D (PDX va) + 4 * PTX va)).
Proof.
  intros [Hl Hf Hwf Hun Hb] Hva. pose proof Hwf as [Hd Ht _]. pose proof (pdx_range va Hva) as Hx.
  unfold Vm.walkpgdir, Vm.read32. mred. rewrite (slot_addr (kend s)) by done.
  fold (pde (kmem s) D (PDX va)). destruct (has PTE_P _) eqn:E.
  { assert (present (kmem s) D (PDX va)) as Hp by done.
    rewrite (slot_addr (kend s)); [|by apply Ht|apply ptx_range].
    eexists _, s, l. split; [done|]. split_and!; [done..|by right]. }
  cbn [negb]. pose proof (kalloc_pages c s l Hf Hl) as Hk. destruct l as [|t l].
  { mstep Hk. exists 0, s, []. split_and!; try done. by left. }
  destruct Hk as (s1 & Ek & Hf1 & Em & Ec & Eu & Ee & Ed). mstep Ek.
  pose proof Hf as [_ Hnd Hpg]. apply Forall_cons in Hpg as [Htok Hpg].
  pose proof (page_ok_u32 _ _ Htok) as (_ & Ht0 & _). rewrite (proj2 (Z.eqb_neq t 0)) by done.
  unfold Kmem.mod_mem, Vm.write32, Kmem.mod_mem. mred. rewrite (slot_addr (kend s)); [|done|apply ptx_range].
  assert (unused (kmem s) D [t]) as Hunt.
  { intros v ->%list_elem_of_singleton. apply Hun. set_solver. }
  pose proof (pt_new_table (kend s) D (kmem s) va t Hwf Hva E Htok Hunt) as (W & P & T & Q & V).
  rewrite Em in *. set (m2 := store32 _ _ _) in *.
  eexists _, (set_kmem m2 (set_kmem _ s1)), l. split; [reflexivity|].
  assert (∀ v, v ∈ l → v ≠ D ∧ v ≠ t ∧ page_ok (kend s) v) as Hlv.
  { intros v Hv. split_and!; [by apply Hun; right| |by rewrite Forall_forall in Hpg; apply Hpg].
    intros ->. by apply NoDup_cons in Hnd as [? _]. }
  split_and!; try done.
  - split; cbn.
    + unfold can_lock. cbn. by rewrite Eu, Ec.
    + destruct Hf1 as [Hc1 Hn1 Hp1]. split; cbn; [|done..].
      rewrite Em in Hc1. eapply chain_frame; [exact Hp1| |exact Hc1].
      intros v x Hv Hx'. destruct (Hlv v Hv) as (HvD & Hvt & Hvok).
      assert (¬ in_page D x ∧ ¬ in_page t x) as [HD Ht'].
      { split; eapply pages_disjoint; [apply Hvok|apply Hd|done|done|apply Hvok|apply Htok|done|done]. }
      unfold m2, store32. destruct (slot_u32 (kend s) D _ Hd Hx) as (? & ? & _).
      unfold in_page, PGSIZE, is_u32 in *.
      pose proof (page_ok_u32 _ _ Hd) as (_ & _ & _ & HDend). unfold PGSIZE in HDend.
      rewrite !store8_in by (unfold is_u32; lia).
      rewrite memset_bytes by (eapply page_in_space; exact Htok). unfold fill, PGSIZE. mem_case; done.
    + by rewrite Ee.
    + intros v Hv. destruct (Hlv v Hv) as (HvD & Hvt & Hvok). split; [done|].
      intros i Hp. destruct (decide (i = PDX va)) as [->|Hne]; [by rewrite T|].
      unfold table. rewrite Q by (apply Hp || done). apply Hun; [by right|].
      destruct Hp as [Hr Hp]. split; [done|]. by rewrite Q in Hp.
    + unfold m2. eauto with kernel.
  - intros v Hv. by right.
  - right. split; [done|]. cbn. by rewrite T.
Qed.

(** Without free pages, walkpgdir() changes nothing. *)
Lemma walk_alloc_fail c s D l va s' :
  vm_ok c s D l → l = [] → Vm.walkpgdir D va true s = Ok 0 s' → Vm.walkpgdir D va true s = Ok 0 s.
Proof.
  intros [Hl Hf _ _ _] ->. unfold Vm.walkpgdir, Vm.read32. mred.
  destruct (has PTE_P _); mred; [by intros [= -> <-]|]. cbn [negb].
  pose proof (kalloc_pages c s [] Hf Hl) as Hk. by mstep Hk.
Qed.

Lemma lor_u32_flags pa perm : is_u32 pa → 0 ≤ perm < 4096 → is_u32 (Z.lor (Z.lor pa perm) PTE_P).
Proof.
  intros Hpa Hf. apply lor_u32; [apply lor_u32; [done|]|]; unfold is_u32, PTE_P in *; lia.
Qed.

(** The first [n] pages from [a] are mapped to the pages from [pa] on. *)
Definition mapped_range (m m' : mem) (D a pa perm n : Z) : Prop :=
  ∀ va, is_u32 va → pte_at m' D va =
    if (a <=? va) && (va <? a + PGSIZE * n)
    then Z.lor (Z.lor (pa + PGSIZE * ((va - a) / PGSIZE)) perm) PTE_P else pte_at m D va.

Lemma mappages_one c s D l last perm a pa :
  vm_ok c s D l → is_u32 a → a mod PGSIZE = 0 → is_u32 pa → 0 ≤ perm < 4096 →
  has PTE_P (pte_at (kmem s) D a) = false →
  (Vm.mappages_body D last perm (a, pa) s = Ok (inr (-1)) s ∧ l = []) ∨
  ∃ s' l', vm_ok c s' D l' ∧ same_rest s s' ∧
    Vm.mappages_body D last perm (a, pa) s =
      Ok (if a =? last then inr 0 else inl (a +u PGSIZE, pa +u PGSIZE)) s' ∧
    mapped_range (kmem s) (kmem s') D a pa perm 1.
Proof.
  intros Hok Ha Hal Hpa Hf Hfree.
  destruct (walk_alloc c s D l a Hok Ha) as (r & s1 & l1 & E & Hok1 & Hrest & Hmap & _ & Hr).
  pose proof (walk_alloc_fail c s D l a) as Hfail.
  unfold Vm.mappages_body. destruct Hr as [[-> ->]|[Hp ->]].
  { left. split; [|done]. by mstep (Hfail s1 Hok eq_refl E). }
  right. mstep E. destruct Hok1 as [Hl1 Hf1 Hwf1 Hun1 Hb1]. pose proof Hwf1 as [Hd1 Ht1 _].
  destruct (Ht1 _ Hp) as [Htok HtD]. pose proof (ptx_range a) as Hptx.
  pose proof (slot_u32 _ _ _ Htok Hptx) as (Hu & H4 & Hn0).
  rewrite (proj2 (Z.eqb_neq _ 0)) by done. unfold Vm.read32. mred.
  assert (load32 (kmem s1) (table (kmem s1) D (PDX a) + 4 * PTX a) = pte_at (kmem s1) D a) as ->.
  { unfold pte_at. by rewrite (proj2 Hp). }
  rewrite Hmap, Hfree by done. unfold Vm.write32, Kmem.mod_mem. mred.
  set (v := Z.lor _ PTE_P). assert (is_u32 v) as Hv by (by apply lor_u32_flags).
  destruct (pt_write (kend s1) D (kmem s1) a v Hwf1 Ha Hp Hv) as (Hwf2 & Hpde2 & Hpte2).
  set (m2 := store32 _ v _) in *. exists (set_kmem m2 s1), l1.
  assert (same_but (table (kmem s1) D (PDX a)) (kmem s1) m2) as Hsame.
  { intros x Hx. unfold m2, store32. destruct (page_ok_u32 _ _ Htok) as (_ & _ & _ & ?).
    unfold in_page, PGSIZE, is_u32 in *. rewrite !store8_in by (unfold is_u32; lia). mem_case; done. }
  split_and!.
  - split; cbn; try done.
    + destruct Hf1 as [Hc Hn Hpg]. split; cbn; [|done..]. eapply chain_frame; [exact Hpg| |exact Hc].
      intros w x Hw Hx. apply Hsame. rewrite Forall_forall in Hpg.
      eapply pages_disjoint; [apply (Hpg w Hw)|apply Htok| |done]. by apply Hun1.
    + intros w Hw. split; [by apply Hun1|]. intros i Hpi. unfold table. rewrite Hpde2 by apply Hpi.
      apply Hun1; [done|]. split; [apply Hpi|]. rewrite <- Hpde2 by apply Hpi. apply Hpi.
    + unfold m2. auto with kernel.
  - done.
  - by destruct (a =? last).
  - intros va Hva. cbn [kmem set_kmem]. rewrite Hpte2, Hmap by done. rewrite !pgrounddown_eq.
    unfold PGSIZE, is_u32 in *. case_decide as Hc; mem_case; try done; try dmlia.
    unfold v. do 2 f_equal. dmlia.
Qed.

Lemma mappages_iter c D perm n a pa s l :
  vm_ok c s D l → 0 ≤ a → a mod PGSIZE = 0 → 0 ≤ pa → 0 ≤ perm < 4096 →
  a + PGSIZE * Z.of_nat (S n) ≤ 2 ^ 32 → pa + PGSIZE * Z.of_nat (S n) ≤ 2 ^ 32 →
  (∀ k, 0 ≤ k < Z.of_nat (S n) → has PTE_P (pte_at (kmem s) D (a + PGSIZE * k)) = false) →
  ∃ r s' l' j, iter (Vm.mappages_body D (a + PGSIZE * Z.of_nat n) perm) (S n) (a, pa) s = Ok (inr r) s' ∧
    vm_ok c s' D l' ∧ same_rest s s' ∧ mapped_range (kmem s) (kmem s') D a pa perm j ∧
    0 ≤ j ≤ Z.of_nat (S n) ∧
    (r = 0 ∧ j = Z.of_nat (S n) ∨ r = -1 ∧ j < Z.of_nat (S n) ∧ l' = []).
Proof.
  revert a pa s l. induction n as [|n IH]; intros a pa s l Hok Ha Hal Hpa Hf Hae Hpe Hfree;
    unfold PGSIZE in Hae, Hpe;
    match goal with |- context [Vm.mappages_body D ?last perm] =>
      destruct (mappages_one c s D l last perm a pa) as [[E ->]|(s1 & l1 & Hok1 & Hr1 & E & Hm1)];
      [done|unfold is_u32; lia|done|unfold is_u32; lia|done
      |specialize (Hfree 0 ltac:(lia)); by rewrite Z.mul_0_r, Z.add_0_r in Hfree|..] end.
  1, 3: exists (-1), s, [], 0; simpl; mstep E; split_and!; try done; try lia;
    [intros va Hva; unfold PGSIZE; mem_case; done|right; split_and!; [done|lia|done]].
  - exists 0, s1, l1, 1. simpl. mstep E. rewrite Z.mul_0_r, Z.add_0_r, Z.eqb_refl. split_and!; try done.
    by left.
  - assert (a ≠ a + PGSIZE * Z.of_nat (S n)) as Hne by (unfold PGSIZE; lia).
    rewrite (proj2 (Z.eqb_neq _ _) Hne) in E.
    rewrite !u32_id in E by (unfold is_u32, PGSIZE; lia).
    destruct (IH (a + PGSIZE) (pa + PGSIZE) s1 l1) as (r & s2 & l2 & j & E2 & Hok2 & Hr2 & Hm2 & Hj & Hres);
      unfold PGSIZE; try done; try lia.
    { unfold PGSIZE in Hal. dmlia. }
    { intros k Hk. specialize (Hfree (k + 1) ltac:(lia)). unfold PGSIZE in Hfree.
      rewrite Hm1 by (unfold is_u32, PGSIZE; lia). unfold PGSIZE. mem_case.
      by replace (a + 4096 + 4096 * k) with (a + 4096 * (k + 1)) by lia. }
    exists r, s2, l2, (j + 1).
    rewrite (iter_next _ _ _ _ _ _ E). replace (a + PGSIZE * Z.of_nat (S n)) with (a + PGSIZE + PGSIZE * Z.of_nat n) by lia.
    split_and!; [done|done| | |lia..|].
    + destruct Hr1 as (?&?&?&?), Hr2 as (?&?&?&?). split_and!; congruence.
    + intros va Hva. rewrite Hm2, Hm1 by done. unfold PGSIZE. mem_case; try done; try lia.
      do 2 f_equal. dmlia.
    + destruct Hres as [[-> ->]|(-> & ? & ->)]; [left; lia|right; split_and!; [done|lia|done]].
Qed.

Lemma mappages_run c s D l va size pa perm n :
  vm_ok c s D l → is_u32 va → 0 < size → va + size ≤ 2 ^ 32 → 0 ≤ pa → 0 ≤ perm < 4096 →
  n = (va + size - 1) / PGSIZE - va / PGSIZE + 1 → pa + PGSIZE * n ≤ 2 ^ 32 →
  (∀ k, 0 ≤ k < n → has PTE_P (pte_at (kmem s) D (PGROUNDDOWN va + PGSIZE * k)) = false) →
  ∃ r s' l' j, Vm.mappages D va size pa perm s = Ok r s' ∧ vm_ok c s' D l' ∧ same_rest s s' ∧
    mapped_range (kmem s) (kmem s') D (PGROUNDDOWN va) pa perm j ∧ 0 ≤ j ≤ n ∧
    (r = 0 ∧ j = n ∨ r = -1 ∧ j < n ∧ l' = []).
Proof.
  intros Hok Hva Hsz Hend Hpa Hf Hn Hpe Hfree. unfold is_u32, PGSIZE in *.
  assert (PGROUNDDOWN (va +u size -u 1) = PGROUNDDOWN va + PGSIZE * (n - 1)) as Hlast.
  { assert ((va +u size) -u 1 = va + size - 1) as ->.
    { destruct (Z.eq_dec (va + size) (2 ^ 32)) as [->|].
      - done.
      - rewrite !u32_id; unfold is_u32; rewrite ?u32_id; unfold is_u32; lia. }
    rewrite !pgrounddown_eq. unfold PGSIZE. dmlia. }
  assert (1 ≤ n ≤ 2 ^ 20) as Hn1 by dmlia.
  destruct (mappages_iter c D perm (Z.to_nat (n - 1)) (PGROUNDDOWN va) pa s l)
    as (r & s' & l' & j & E & Hok' & Hr & Hm & Hj & Hres); try done.
  - rewrite pgrounddown_eq. unfold PGSIZE. dmlia.
  - rewrite pgrounddown_eq. unfold PGSIZE. dmlia.
  - rewrite pgrounddown_eq. unfold PGSIZE. dmlia.
  - unfold PGSIZE. lia.
  - intros k Hk. apply Hfree. lia.
  - replace (Z.of_nat (Z.to_nat (n - 1))) with (n - 1) in E by lia.
    replace (Z.of_nat (S (Z.to_nat (n - 1)))) with n in Hj, Hres by lia.
    exists r, s', l', j. split_and!; try done; [|lia..].
    unfold Vm.mappages. rewrite Hlast. eapply loop_iter; [exact E|]. simpl Z.of_nat. lia.
Qed.

(** C38 [functional]: mappages() on a range none of whose pages is mapped maps
    exactly that range.  It returns 0 with page [k] of the range mapped to
    page [k] of physical memory from [pa] on with the given permissions and
    PTE_P, or -1 with a prefix of the range mapped and no free page left.  No
    other entry changes, the page table stays well formed and shares no page
    with the free list. *)
Theorem mappages_maps (c : nat) (s : kst) (D : Z) (l : list Z) (va size pa perm n : Z) :
  vm_ok c s D l → is_u32 va → 0 < size → va + size ≤ 2 ^ 32 → 0 ≤ pa → 0 ≤ perm < 4096 →
  n = (va + size - 1) / PGSIZE - va / PGSIZE + 1 → pa + PGSIZE * n ≤ 2 ^ 32 →
  (∀ k, 0 ≤ k < n → has PTE_P (pte_at (kmem s) D (PGROUNDDOWN va + PGSIZE * k)) = false) →
  ∃ r s' l' j, Vm.mappages D va size pa perm s = Ok r s' ∧ vm_ok c s' D l' ∧ same_rest s s' ∧
    mapped_range (kmem s) (kmem s') D (PGROUNDDOWN va) pa perm j ∧ 0 ≤ j ≤ n ∧
    (r = 0 ∧ j = n ∨ r = -1 ∧ j < n ∧ l' = []).
Proof. apply mappages_run. Qed.

(** An empty page directory, and the two free pages of [kst0]. *)
Definition kst1 : kst := set_kmem (λ a, if a =? 0x80400001 then 0x10 else if a =? 0x80400002 then 0x40
  else if a =? 0x80400003 then 0x80 else 0) kst0.

Lemma kst1_ok : vm_ok 1 kst1 0x80402000 [0x80400000; 0x80401000].
Proof.
  assert (∀ i, ¬ present (kmem kst1) 0x80402000 i) as Hnone.
  { intros i [Hi Hp]. revert Hp. unfold pde, load32. rewrite !load8_in by (unfold is_u32; lia).
    cbn [kmem kst1 set_kmem]. mem_case; done. }
  split.
  - intros _. apply kst0_can_lock. reflexivity.
  - split; [vm_compute; split_and!; done|repeat constructor; set_solver|repeat constructor; vm_compute; done].
  - split; [vm_compute; done| |].
    + intros i Hp. by destruct (Hnone i).
    + intros i j Hp. by destruct (Hnone i).
  - intros v Hv. split; [set_solver by (vm_compute; done)|]. intros i Hp. by destruct (Hnone i).
  - intros a. cbn [kmem kst1 set_kmem]. unfold is_u8. mem_case.
Qed.

Lemma mappages_maps_witness :
  ∃ r s' l' j, Vm.mappages 0x80402000 0x1000 0x1000 0x5000 (Z.lor PTE_W PTE_U) kst1 = Ok r s' ∧
    vm_ok 1 s' 0x80402000 l' ∧ same_rest kst1 s' ∧
    mapped_range (kmem kst1) (kmem s') 0x80402000 (PGROUNDDOWN 0x1000) 0x5000 (Z.lor PTE_W PTE_U) j ∧
    0 ≤ j ≤ 1 ∧ (r = 0 ∧ j = 1 ∨ r = -1 ∧ j < 1 ∧ l' = []).
Proof.
  apply (mappages_maps 1 kst1 0x80402000 [0x80400000; 0x80401000]).
  - exact kst1_ok.
  - split; reflexivity || discriminate.
  - reflexivity.
  - discriminate.
  - discriminate.
  - split; reflexivity || discriminate.
  - reflexivity.
  - discriminate.
  - intros k Hk. assert (k = 0) as -> by lia. vm_compute. reflexivity.
Defined.

(** ** Copying to user memory *)

Lemma put_bytes_lookup a l m x :
  in_space a (Z.of_nat (length l)) → Forall is_u8 l →
  Vm.put_bytes a l m x =
    if (a <=? x) && (x <? a + Z.of_nat (length l)) then l !!! Z.to_nat (x - a) else m x.
Proof.
  intros Hs Hl. unfold in_space in Hs. revert a m Hs.
  induction Hl as [|b l Hb Hl IH]; intros a m Hs; simpl in *.
  { mem_case; done. }
  rewrite IH by lia. rewrite store8_in by (unfold is_u32; lia). rewrite u8_id by done.
  destruct (Z.eq_dec x a) as [->|Hne].
  - rewrite Z.sub_diag. mem_case; done.
  - mem_case; try done. by replace (Z.to_nat (x - a)) with (S (Z.to_nat (x - (a + 1)))) by lia.
Qed.

Lemma put_bytes_ok a l m : bytes_ok m → bytes_ok (Vm.put_bytes a l m).
Proof. revert a m. induction l; intros a' m Hm; simpl; [done|]. auto with kernel. Qed.

Lemma uva2ka_run e D va s :
  pt_wf e (kmem s) D → is_u32 va → present (kmem s) D (PDX va) →
  Vm.uva2ka D va s =
    Ok (let v := pte_at (kmem s) D va in
        if has PTE_P v && has PTE_U v then P2V (PTE_ADDR v) else 0) s.
Proof.
  intros Hwf Hva Hp. unfold Vm.uva2ka. mstep (walk_noalloc e D va s Hwf Hva).
  destruct Hp as [Hr Hp]. rewrite Hp. destruct Hwf as [_ Ht _].
  destruct (slot_u32 e (table (kmem s) D (PDX va)) (PTX va)) as (_ & _ & Hn0); [by apply Ht|apply ptx_range|].
  rewrite (proj2 (Z.eqb_neq _ 0)) by done. unfold Vm.read32. mred.
  unfold pte_at. rewrite Hp. cbv zeta. set (v := load32 _ _).
  by destruct (has PTE_P v), (has PTE_U v).
Qed.

(** The kernel address where user address [va] lives under page table [D], when
    user code may access it. *)
Definition user_addr (m : mem) (D va : Z) : option Z :=
  let v := pte_at m D va in
  if has PTE_P v && has PTE_U v then Some (P2V (PTE_ADDR v) + va mod PGSIZE) else None.

Definition frame (m : mem) (D va : Z) : Z := P2V (PTE_ADDR (pte_at m D va)).

(** The [n] bytes from [va] are user memory of page table [D], in page frames
    of their own. *)
Record user_range (e : Z) (m : mem) (D va n : Z) : Prop := {
  ur_space : in_space va n;
  ur_page a : va ≤ a < va + n → present m D (PDX a) ∧
    has PTE_P (pte_at m D a) && has PTE_U (pte_at m D a) = true ∧
    page_ok e (frame m D a) ∧ unused m D [frame m D a];
  ur_inj a b : va ≤ a < va + n → va ≤ b < va + n →
    frame m D a = frame m D b → PGROUNDDOWN a = PGROUNDDOWN b;
}.

(** [a] and its page have the same entry. *)
Lemma page_indexes a b : is_u32 a → is_u32 b → PGROUNDDOWN a = PGROUNDDOWN b → PDX a = PDX b ∧ PTX a = PTX b.
Proof.
  intros Ha Hb. rewrite !pgrounddown_eq, !pdx_eq, !ptx_eq by done. unfold is_u32, PGSIZE in *. dmlia.
Qed.

Lemma pte_at_page m D a b :
  is_u32 a → is_u32 b → PGROUNDDOWN a = PGROUNDDOWN b → pte_at m D a = pte_at m D b.
Proof. intros Ha Hb E. unfold pte_at. by destruct (page_indexes a b Ha Hb E) as [-> ->]. Qed.

Lemma user_range_frame e m m' D va n w :
  pt_wf e m D → page_ok e w → unused m D [w] → same_but w m m' →
  user_range e m D va n → user_range e m' D va n.
Proof.
  intros Hwf Hw Hun Hs [Hsp Hpg Hinj].
  destruct (pt_frame e D m m' w Hwf Hw Hun Hs) as (Hwf' & Hpde & Hpte).
  assert (∀ a, va ≤ a < va + n → is_u32 a) as Hu by (unfold in_space, is_u32 in *; lia).
  assert (∀ a, va ≤ a < va + n → frame m' D a = frame m D a) as Hfr.
  { intros a Ha. unfold frame. by rewrite Hpte by auto. }
  assert (∀ i, present m' D i ↔ present m D i) as Hpre.
  { intros i. unfold present. split; intros [? Hp]; (split; [done|]); [by rewrite <- Hpde|by rewrite Hpde]. }
  split; [done| |].
  - intros a Ha. destruct (Hpg a Ha) as (Hp & Hb & Hok & Hua). rewrite Hpte, Hfr by auto.
    split_and!; [by apply Hpre|done..|].
    intros v ->%list_elem_of_singleton. destruct (Hua (frame m D a)) as [? Hut]; [set_solver|]. split; [done|].
    intros i Hi. unfold table. rewrite Hpde by apply Hi. apply Hut. by apply Hpre.
  - intros a b Ha Hb. rewrite !Hfr by done. auto.
Qed.

(** The bytes of [p] are at user addresses [va..] of [m'], and nothing outside
    those pages has changed. *)
Record copied (D va : Z) (p : list Z) (m m' : mem) : Prop := {
  cp_bytes i : 0 ≤ i < Z.of_nat (length p) →
    m' (frame m D (va + i) + (va + i) mod PGSIZE) = p !!! Z.to_nat i;
  cp_rest x : (∀ a, va ≤ a < va + Z.of_nat (length p) → ¬ in_page (frame m D a) x) → m' x = m x;
}.

(** The page table itself is as before. *)
Definition same_pt (D : Z) (m m' : mem) : Prop :=
  (∀ i, 0 ≤ i < 1024 → pde m' D i = pde m D i) ∧ (∀ va, is_u32 va → pte_at m' D va = pte_at m D va).

Lemma copyout_chunk e D va p s :
  pt_wf e (kmem s) D → bytes_ok (kmem s) → user_range e (kmem s) D va (Z.of_nat (length p)) →
  Forall is_u8 p → (0 < length p)%nat →
  let n := Z.to_nat (Z.min (Z.of_nat (length p)) (PGSIZE - va mod PGSIZE)) in
  let m' := Vm.put_bytes (frame (kmem s) D va + va mod PGSIZE) (take n p) (kmem s) in
  Vm.copyout_body D (va, p) s = Ok (inl (u32 (PGROUNDDOWN va + PGSIZE), drop n p)) (set_kmem m' s) ∧
  same_but (frame (kmem s) D va) (kmem s) m' ∧ (0 < n)%nat ∧
  (∀ i, 0 ≤ i < Z.of_nat n → m' (frame (kmem s) D va + va mod PGSIZE + i) = p !!! Z.to_nat i) ∧
  (∀ x, in_page (frame (kmem s) D va) x →
     ¬ (frame (kmem s) D va + va mod PGSIZE ≤ x < frame (kmem s) D va + va mod PGSIZE + Z.of_nat n) →
     m' x = kmem s x).
Proof.
  intros Hwf Hb Hur Hp Hlen n m'. pose proof Hur as [Hsp Hpg _].
  destruct (Hpg va ltac:(lia)) as (Hpre & Hbits & Hok & _). unfold in_space in Hsp.
  assert (is_u32 va) as Hva by (unfold is_u32; lia).
  assert (0 ≤ va mod PGSIZE < PGSIZE) as Hoff by (apply Z.mod_pos_bound; unfold PGSIZE; lia).
  assert (PGROUNDDOWN va = va - va mod PGSIZE) as Hpg0 by apply pgrounddown_eq.
  assert (is_u32 (PGROUNDDOWN va)) as Hu0 by (rewrite Hpg0; unfold is_u32, PGSIZE in *; dmlia).
  assert (PGROUNDDOWN (PGROUNDDOWN va) = PGROUNDDOWN va) as Hidem.
  { rewrite (pgrounddown_eq (PGROUNDDOWN va)), Hpg0. unfold PGSIZE. dmlia. }
  pose proof (pte_at_page (kmem s) D _ _ Hu0 Hva Hidem) as Hpteq.
  destruct (page_indexes _ _ Hu0 Hva Hidem) as [Hpdx _].
  pose proof (page_ok_u32 e _ Hok) as (Hfu & Hf0 & _ & Hfe). set (f := frame (kmem s) D va) in *.
  assert (length (take n p) = n) as Hln by (rewrite length_take; unfold n; lia).
  assert (0 < Z.of_nat n ≤ PGSIZE - va mod PGSIZE) as [Hn0 Hn1] by (unfold n; lia).
  assert (∀ x, m' x = if (f + va mod PGSIZE <=? x) && (x <? f + va mod PGSIZE + Z.of_nat n)
                      then take n p !!! Z.to_nat (x - (f + va mod PGSIZE)) else kmem s x) as Hm'.
  { intros x. unfold m'. rewrite put_bytes_lookup, Hln; [done| |by apply Forall_take].
    rewrite Hln. unfold in_space, is_u32, PGSIZE in *. lia. }
  split_and!.
  - unfold Vm.copyout_body. rewrite (proj2 (Z.ltb_lt 0 (Z.of_nat (length p)))) by lia. cbn [negb].
    assert (present (kmem s) D (PDX (PGROUNDDOWN va))) as Hpre0 by (by rewrite Hpdx).
    mstep (uva2ka_run e D (PGROUNDDOWN va) s Hwf Hu0 Hpre0). cbv zeta. rewrite Hpteq, Hbits.
    fold (frame (kmem s) D va). fold f. rewrite (proj2 (Z.eqb_neq f 0)) by done.
    assert (va -u PGROUNDDOWN va = va mod PGSIZE) as Eo.
    { rewrite Hpg0. replace (va - (va - va mod PGSIZE)) with (va mod PGSIZE) by lia.
      apply u32_id. unfold is_u32, PGSIZE in *. lia. }
    rewrite Eo. rewrite (u32_id (PGSIZE - va mod PGSIZE)) by (unfold is_u32, PGSIZE in *; lia).
    rewrite (u32_id (f + va mod PGSIZE)) by (unfold is_u32, PGSIZE in *; lia).
    assert (Z.to_nat (if Z.of_nat (length p) <? PGSIZE - va mod PGSIZE then Z.of_nat (length p)
      else PGSIZE - va mod PGSIZE) = n) as ->.
    { unfold n. destruct (Z.ltb_spec (Z.of_nat (length p)) (PGSIZE - va mod PGSIZE)); lia. }
    unfold Kmem.mod_mem. mred. done.
  - intros x Hx. rewrite Hm'. unfold in_page in Hx. mem_case; done.
  - lia.
  - intros i Hi. rewrite Hm'. mem_case. replace (f + _ + i - _) with i by lia.
    by rewrite lookup_total_take_lt by lia.
  - intros x _ Hx. rewrite Hm'. mem_case; done.
Qed.

Lemma copyout_iter e D n va p s :
  pt_wf e (kmem s) D → bytes_ok (kmem s) → user_range e (kmem s) D va (Z.of_nat (length p)) →
  Forall is_u8 p → Z.of_nat (length p) ≤ PGSIZE * Z.of_nat n - va mod PGSIZE ∨ p = [] →
  ∃ m', iter (Vm.copyout_body D) (S n) (va, p) s = Ok (inr 0) (set_kmem m' s) ∧
        copied D va p (kmem s) m' ∧ same_pt D (kmem s) m'.
Proof.
  revert va p s. induction n as [|n IH]; intros va p s Hwf Hb Hur Hp Hn.
  all: assert (0 ≤ va mod PGSIZE < PGSIZE) as Hoff by (apply Z.mod_pos_bound; unfold PGSIZE; lia).
  all: destruct (decide (p = [])) as [->|Hne].
  1, 3: exists (kmem s); split; [|split; [split; [simpl; lia|done]|done]];
    rewrite (iter_exit _ _ _ _ 0 s); [by destruct s|done].
  { destruct Hn as [Hn|]; [|done]. destruct p; [done|]. cbn in Hn. lia. }
  assert (0 < length p)%nat as Hlen by (destruct p; [done|simpl; lia]).
  destruct Hn as [Hn|]; [|done].
  pose proof (copyout_chunk e D va p s Hwf Hb Hur Hp Hlen) as (E & Hsame & Hk0 & Hbytes & Hpage).
  set (k := Z.to_nat (Z.min _ _)) in *. set (m1 := Vm.put_bytes _ _ _) in *.
  pose proof Hur as [Hsp Hpg Hinj]. unfold in_space in Hsp.
  destruct (Hpg va ltac:(lia)) as (_ & _ & Hok & Hunf).
  destruct (pt_frame e D _ m1 _ Hwf Hok Hunf Hsame) as (Hwf1 & Hpde1 & Hpte1).
  assert (bytes_ok m1) as Hb1 by (by apply put_bytes_ok).
  assert (∀ a, is_u32 a → frame m1 D a = frame (kmem s) D a) as Hfr by (intros a Ha; unfold frame; by rewrite Hpte1).
  assert (PGROUNDDOWN va = va - va mod PGSIZE) as Hpg0 by apply pgrounddown_eq.
  assert (k = length p ∨ Z.of_nat k = PGSIZE - va mod PGSIZE ∧ (k < length p)%nat) as Hk by lia.
  set (va1 := u32 (PGROUNDDOWN va + PGSIZE)) in *.
  assert ((k < length p)%nat → va1 = va + Z.of_nat k ∧ va1 mod PGSIZE = 0) as Hva1.
  { intros Hlt. destruct Hk as [?|[Hk _]]; [lia|]. unfold va1. rewrite Hpg0.
    rewrite u32_id by (unfold is_u32, PGSIZE in *; lia). split; [lia|]. unfold PGSIZE. dmlia. }
  destruct (IH va1 (drop k p) (set_kmem m1 s)) as (m2 & E2 & [Hc2 Hr2] & Hs2); cbn [kmem set_kmem]; try done.
  - pose proof (user_range_frame e _ m1 D va _ _ Hwf Hok Hunf Hsame Hur) as [Hs1 Hp1 Hi1].
    rewrite length_drop. destruct Hk as [->|[Hk Hlt]].
    + rewrite Nat.sub_diag. split; [|lia..].
      pose proof (u32_range (PGROUNDDOWN va + PGSIZE)). unfold in_space, is_u32 in *. unfold va1. lia.
    + destruct (Hva1 Hlt) as [-> _]. split; [unfold in_space; lia| |].
      * intros a Ha. apply Hp1. lia.
      * intros a b Ha Hb'. apply Hi1; lia.
  - by apply Forall_drop.
  - rewrite length_drop. destruct Hk as [->|[Hk Hlt]]; [right; by rewrite drop_all|left].
    destruct (Hva1 Hlt) as [_ ->]. unfold PGSIZE in *. lia.
  - exists m2. rewrite (iter_next _ _ _ _ _ _ E). split; [exact E2|].
    rewrite length_drop in Hc2, Hr2. split; [|by destruct Hs2 as [Ha Hb2]; split; intros; rewrite ?Ha, ?Hb2; auto].
    split.
    + intros i Hi. destruct (decide (i < Z.of_nat k)) as [Hik|Hik].
      * assert (PGROUNDDOWN (va + i) = PGROUNDDOWN va ∧ (va + i) mod PGSIZE = va mod PGSIZE + i) as [Ep Eo].
        { rewrite !pgrounddown_eq. unfold PGSIZE in *. dmlia. }
        assert (frame (kmem s) D (va + i) = frame (kmem s) D va) as Ef.
        { unfold frame. rewrite (pte_at_page _ _ (va + i) va); [done|unfold is_u32; lia..|done]. }
        rewrite Ef, Eo, Z.add_assoc, Hr2; [by apply Hbytes; lia|]. intros a Ha.
        destruct (Hva1 ltac:(lia)) as [Ev Em]. rewrite Ev in Ha, Em.
        rewrite Hfr by (unfold is_u32; lia). destruct (Hpg a ltac:(lia)) as (_ & _ & Hoka & _).
        apply (pages_disjoint (frame (kmem s) D va)); [apply Hok|apply Hoka| |unfold in_page; lia].
        intros Heq. apply Hinj in Heq; [|lia..]. rewrite !pgrounddown_eq in Heq. unfold PGSIZE in *. dmlia.
      * destruct (Hva1 ltac:(lia)) as [Ev _].
        specialize (Hc2 (i - Z.of_nat k) ltac:(lia)). rewrite Ev in Hc2.
        replace (va + Z.of_nat k + (i - Z.of_nat k)) with (va + i) in Hc2 by lia.
        rewrite Hfr in Hc2 by (unfold is_u32; lia). rewrite Hc2, lookup_total_drop. f_equal. lia.
    + intros x Hx. rewrite Hr2.
      * apply Hsame. apply Hx. lia.
      * intros a Ha. destruct (Hva1 ltac:(lia)) as [Ev _]. rewrite Ev in Ha.
        rewrite Hfr by (unfold is_u32; lia). apply Hx. lia.
Qed.

Lemma p2v_v2p e D : page_ok e D → P2V (V2P D) = D.
Proof.
  intros (_ & _ & HD). unfold P2V, V2P, KERNBASE, PHYSTOP in *.
  rewrite (u32_id (D - 2147483648)) by (unfold is_u32; lia).
  replace (D - 2147483648 + 2147483648) with D by lia. apply u32_id. unfold is_u32. lia.
Qed.

(** The hardware's walk agrees with the software's view of the page table. *)
Lemma translate_user e m m' D va :
  pt_wf e m D → same_pt D m m' → 0 ≤ va < KERNBASE → present m D (PDX va) →
  has PTE_P (pte_at m D va) = true → page_ok e (frame m D va) →
  translate m' (V2P D) va = Some (frame m D va + va mod PGSIZE).
Proof.
  intros [Hd Ht _] [Hpde Hpte] Hva Hp Hbit Hok. unfold translate.
  assert (is_u32 va) as Hu by (unfold is_u32, KERNBASE in *; lia).
  rewrite (proj2 (Z.leb_gt KERNBASE va)) by lia. rewrite (p2v_v2p e D Hd).
  pose proof (pdx_range va Hu) as Hx. rewrite (slot_addr e) by done.
  fold (pde m' D (PDX va)). rewrite Hpde by done. rewrite (proj2 Hp).
  fold (table m D (PDX va)). rewrite (slot_addr e); [|by apply Ht|apply ptx_range].
  assert (load32 m' (table m D (PDX va) + 4 * PTX va) = pte_at m D va) as ->.
  { rewrite <- Hpte by done. unfold pte_at, table. by rewrite Hpde, (proj2 Hp) by done. }
  rewrite Hbit. fold (frame m D va). f_equal. apply u32_id.
  pose proof (page_ok_u32 _ _ Hok) as (? & _ & _ & ?). pose proof (Z.mod_pos_bound va PGSIZE).
  unfold is_u32, PGSIZE in *. lia.
Qed.


(** One user page, at 0x1000, in the frame at 0x80404000. *)
Definition kst2 : kst :=
  set_kmem (store32 0x80402000 0x403007 (store32 0x80403004 0x404007 (λ _, 0))) kst0.

Lemma kst2_present i : present (kmem kst2) 0x80402000 i → i = 0.
Proof.
  intros [Hi Hp].
  assert (Forall (λ i, has PTE_P (pde (kmem kst2) 0x80402000 i) = false ∨ i = 0) (seqZ 0 1024)) as HF.
  { apply (bool_decide_unpack _). vm_compute. exact I. }
  rewrite Forall_seqZ in HF. destruct (HF i ltac:(lia)); [congruence|done].
Qed.

Lemma kst2_wf : pt_wf 0x80300000 (kmem kst2) 0x80402000.
Proof.
  split.
  - vm_compute. done.
  - intros i Hp. rewrite (kst2_present i Hp). split; vm_compute; done.
  - intros i j Hi Hj _. by rewrite (kst2_present i Hi), (kst2_present j Hj).
Qed.

Lemma kst2_range : user_range 0x80300000 (kmem kst2) 0x80402000 0x1ffe 2.
Proof.
  assert (∀ a, 0x1ffe ≤ a < 0x1ffe + 2 → a = 0x1ffe ∨ a = 0x1fff) as Ha by lia.
  split.
  - repeat split; lia.
  - intros a Hr. assert (∀ i, present (kmem kst2) 0x80402000 i → 0x80404000 ≠ table (kmem kst2) 0x80402000 i) as Hu.
    { intros i Hp. rewrite (kst2_present i Hp). vm_compute. done. }
    destruct (Ha a Hr) as [->| ->]; (split_and!;
      [split; [vm_compute; done|vm_compute; done]|vm_compute; done|vm_compute; done|]);
      (intros v Hv; apply list_elem_of_singleton in Hv; subst v; split; [vm_compute; done|exact Hu]).
  - intros a b Hra Hrb _. destruct (Ha a Hra) as [->| ->], (Ha b Hrb) as [->| ->]; vm_compute; done.
Qed.


Section lifted.
Context {S : Type} `{Lens S kst}.

Definition vload8 (va : Z) : M S Z := lift (Vm.vload8 va).
Definition vstore8 (va v : Z) : M S unit := lift (Vm.vstore8 va v).
Definition vload32 (va : Z) : M S Z := lift (Vm.vload32 va).
Definition walkpgdir (pgdir va : Z) (alloc : bool) : M S Z := lift (Vm.walkpgdir pgdir va alloc).
Definition setupkvm : M S Z := lift Vm.setupkvm.
Definition inituvm (pgdir : Z) (init : list Z) : M S unit := lift (Vm.inituvm pgdir init).
Definition allocuvm (pgdir oldsz newsz : Z) : M S Z := lift (Vm.allocuvm pgdir oldsz newsz).
Definition deallocuvm (pgdir oldsz newsz : Z) : M S Z := lift (Vm.deallocuvm pgdir oldsz newsz).
Definition freevm (pgdir : Z) : M S unit := lift (Vm.freevm pgdir).
Definition clearpteu (pgdir uva : Z) : M S unit := lift (Vm.clearpteu pgdir uva).
Definition copyuvm (pgdir sz : Z) : M S Z := lift (Vm.copyuvm pgdir sz).
Definition copyout (pgdir va : Z) (p : list Z) : M S Z := lift (Vm.copyout pgdir va p).
End lifted.
