(* ===== verification/Sleeplock.v ===== *)
(** * Sleep locks: sleeplock.c

    A sleep lock is identified, like the spin lock inside it, by the object it
    belongs to.  A process that finds the lock taken sleeps, and goes round the
    loop of acquiresleep() each time it is woken up.  The bound on the loop,
    [2 ^ 32] wakeups, is only there to make the definition structural. *)

From S2P Require Import Prelude Machine Proc CString Kalloc.
Open Scope kernel_scope.

(** struct sleeplock, without its debugging name. *)
Record sleeplock := Sleeplock { slocked : Z; spid : Z }.
#[global] Instance sleeplock_inhabited : Inhabited sleeplock := populate (Sleeplock 0 0).

Record sst := Sst { sk : kst; slocks : gmap lockid sleeplock }.
Definition set_sk (k : kst) (s : sst) : sst := Sst k (slocks s).
Definition set_slocks (m : gmap lockid sleeplock) (s : sst) : sst := Sst (sk s) m.

Definition slock (l : lockid) (s : sst) : sleeplock := default inhabitant (slocks s !! l).
Definition set_slock (l : lockid) (k : sleeplock) (s : sst) : sst := set_slocks (<[l := k]> (slocks s)) s.

#[global] Instance lens_kst S `{Lens S sst} : Lens S kst.
Proof.
  refine {| view s := sk (view s); upd k s := upd (set_sk k (view s)) s |}.
  - intros. by rewrite view_upd.
  - intros s. assert (∀ x, set_sk (sk x) x = x) as -> by (by intros []). apply upd_view.
  - intros. by rewrite view_upd, upd_upd.
Defined.

Module Sl.

Definition initsleeplock (l : lockid) : M sst unit :=
  initlock l;;
  modify (set_slock l (Sleeplock 0 0)).

Definition acquiresleep_body (l : lockid) (_ : unit) : M sst (unit + unit) :=
  k ← gets (slock l);
  if slocked k =? 0 then mret (inr tt) else
  sleep (ChSleep l) (Some l);;
  mret (inl tt).

Definition acquiresleep (l : lockid) : M sst unit :=
  acquire l;;
  loop (acquiresleep_body l) 32 tt;;
  modify (λ s, set_slock l (Sleeplock 1 (spid (slock l s))) s);;
  i ← myproc_some;
  p ← get_proc i;
  modify (λ s, set_slock l (Sleeplock (slocked (slock l s)) (pid p)) s);;
  release l.

Definition releasesleep (l : lockid) : M sst unit :=
  acquire l;;
  modify (set_slock l (Sleeplock 0 0));;
  wakeup (ChSleep l);;
  release l.

Definition holdingsleep (l : lockid) : M sst bool :=
  acquire l;;
  k ← gets (slock l);
  r ← (if slocked k =? 0 then mret false else
       i ← myproc_some;
       p ← get_proc i;
       mret (spid k =? pid p));
  release l;;
  mret r.

End Sl.

Section lifted.
Context {S : Type} `{Lens S sst}.

Definition initsleeplock (l : lockid) : M S unit := lift (Sl.initsleeplock l).
Definition acquiresleep (l : lockid) : M S unit := lift (Sl.acquiresleep l).
Definition releasesleep (l : lockid) : M S unit := lift (Sl.releasesleep l).
Definition holdingsleep (l : lockid) : M S bool := lift (Sl.holdingsleep l).
End lifted.

(** ** Behaviour *)

Definition score (s : sst) : core := kcore (sk s).
Definition shart (s : sst) : hart := chart (score s).
Definition set_score (k : core) (s : sst) : sst := set_sk (set_kcore k (sk s)) s.

(** The running process: number [i], on CPU [c], in a kernel with consistent
    interrupt state. *)
Record running (c i : nat) (k : core) : Prop := {
  run_balanced : balanced c (chart k);
  run_proc : curproc c (chart k) = Some i;
  run_slot : (i < length (ptable k))%nat;
}.

(** Nobody sleeps on a sleep lock, a buffer or the log. *)
Definition fs_chan (ch : chan_t) : bool :=
  match ch with ChSleep _ | ChBuf _ | ChLog => true | _ => false end.
Definition calm (k : core) : Prop :=
  Forall (λ p, ¬ (state p = SLEEPING ∧ fs_chan (chan p) = true)) (ptable k).

Lemma calm_wake ch k : calm k → fs_chan ch = true → set_ptable (Core.wake ch <$> ptable k) k = k.
Proof.
  intros Hc Hch. assert (Core.wake ch <$> ptable k = ptable k) as ->; [|by destruct k].
  unfold calm in Hc. induction Hc as [|p l Hp _ IH]; [done|]. rewrite fmap_cons, IH. f_equal.
  unfold Core.wake. rewrite bool_decide_false; [done|]. naive_solver.
Qed.

Section specs.
Implicit Types (s : sst) (c i : nat) (l : lockid).

Lemma set_score_id s : set_score (score s) s = s.
Proof. by destruct s as [[] ?]. Qed.

Lemma lift_score {A} (m : M core A) s a k :
  m (score s) = Ok a k → lift m s = Ok a (set_score k s).
Proof. exact (lift_ok m s a k). Qed.

Lemma lift_shart {A} (m : M hart A) s a h :
  m (shart s) = Ok a h → lift m s = Ok a (set_score (set_chart h (score s)) s).
Proof. exact (lift_ok m s a h). Qed.

Lemma myproc_some_s c i s : running c i (score s) → myproc_some s = Ok i s.
Proof.
  intros [Hb Hp _]. unfold myproc_some.
  assert (Core.myproc_some (score s) = Ok i (score s)) as E.
  { unfold Core.myproc_some. mstep (myproc_ok c (score s) Hb). cbn. by rewrite Hp. }
  rewrite (lift_score _ _ _ _ E). by rewrite set_score_id.
Qed.

Lemma get_proc_s i s : get_proc i s = Ok (ptable (score s) !!! i) s.
Proof.
  unfold get_proc. rewrite (lift_score (Core.get_proc i) s (ptable (score s) !!! i) (score s)); [|done].
  by rewrite set_score_id.
Qed.

Lemma acquire_s c l s :
  balanced c (shart s) → is_free l (shart s) →
  acquire l s = Ok tt (set_score (set_chart (acq c l (shart s)) (score s)) s).
Proof. exact (acquire_ok c l s). Qed.

Lemma release_s c l h s :
  shart s = acq c l h → balanced c h → is_free l h →
  release l s = Ok tt (set_score (set_chart h (score s)) s).
Proof. exact (release_ok c l h s). Qed.

Lemma running_acq c i l k : running c i k → running c i (set_chart (acq c l (chart k)) k).
Proof.
  intros [Hb Hp Hi]. split; cbn; [by apply acq_balanced|by rewrite curproc_acq|done].
Qed.

Lemma acquiresleep_free c i l s :
  running c i (score s) → is_free l (shart s) → slocked (slock l s) = 0 →
  Sl.acquiresleep l s = Ok tt (set_slock l (Sleeplock 1 (pid (ptable (score s) !!! i))) s).
Proof.
  intros Hr Hf Hz. pose proof Hr as [Hb Hp Hi]. unfold Sl.acquiresleep.
  mstep (acquire_s c l s Hb Hf). set (s1 := set_score _ s).
  assert (loop (Sl.acquiresleep_body l) 32 tt s1 = Ok tt s1) as El.
  { apply (loop_iter _ 32 1). 2: { change (Z.of_nat 32) with 32. lia. }
    apply iter_exit. unfold Sl.acquiresleep_body. mred.
    change (slock l s1) with (slock l s). by rewrite Hz. }
  mstep El. mred. set (s2 := set_slock l _ s1).
  assert (running c i (score s2)) as Hr2 by (by apply running_acq).
  mstep (myproc_some_s c i s2 Hr2). mstep (get_proc_s i s2). mred.
  set (s3 := set_slock l _ s2).
  assert (shart s3 = acq c l (shart s)) as Eh by done.
  rewrite (release_s c l (shart s) s3 Eh Hb Hf). f_equal.
  unfold s3, s2, s1, set_score, set_slock, slock, set_slocks, set_sk; cbn.
  rewrite lookup_insert_eq, insert_insert_eq. by destruct s as [[[] ?????] ?].
Qed.

Lemma wakeup_s c ch s :
  balanced c (shart s) → is_free LPtable (shart s) →
  wakeup ch s = Ok tt (set_score (set_ptable (Core.wake ch <$> ptable (score s)) (score s)) s).
Proof. intros Hb Hf. apply (lift_score (Core.wakeup ch)). by apply (wakeup_core c). Qed.

Lemma releasesleep_calm c i l s :
  running c i (score s) → is_free l (shart s) → is_free LPtable (shart s) → l ≠ LPtable → calm (score s) →
  Sl.releasesleep l s = Ok tt (set_slock l (Sleeplock 0 0) s).
Proof.
  intros Hr Hf Hpt Hne Hc. pose proof Hr as [Hb Hp Hi]. unfold Sl.releasesleep.
  mstep (acquire_s c l s Hb Hf). mred. set (s1 := set_slock _ _ _).
  assert (balanced c (shart s1)) as Hb1 by (unfold s1; cbn; eauto with kernel).
  assert (is_free LPtable (shart s1)) as Hf1 by (unfold s1; cbn; eauto with kernel).
  mstep (wakeup_s c (ChSleep l) s1 Hb1 Hf1).
  rewrite (calm_wake (ChSleep l) (score s1)) by done. rewrite set_score_id.
  rewrite (release_s c l (shart s) s1); [|done..]. by destruct s as [[[] ?????] ?].
Qed.

Lemma holdingsleep_spec c i l s :
  running c i (score s) → is_free l (shart s) →
  Sl.holdingsleep l s =
    Ok (negb (slocked (slock l s) =? 0) && (spid (slock l s) =? pid (ptable (score s) !!! i))) s.
Proof.
  intros Hr Hf. pose proof Hr as [Hb Hp Hi]. unfold Sl.holdingsleep.
  mstep (acquire_s c l s Hb Hf). mred. set (s1 := set_score _ s).
  change (slock l s1) with (slock l s).
  assert (running c i (score s1)) as Hr1 by (by apply running_acq).
  destruct (Z.eqb_spec (slocked (slock l s)) 0); cbn [negb andb]; mred.
  - mstep (release_s c l (shart s) s1 eq_refl Hb Hf). mred. by destruct s as [[[] ?????] ?].
  - mstep (myproc_some_s c i s1 Hr1). mred. mstep (get_proc_s i s1). mred.
    mstep (release_s c l (shart s) s1 eq_refl Hb Hf). mred. by destruct s as [[[] ?????] ?].
Qed.
End specs.
