(* ===== verification/Bio.v ===== *)
(** * The buffer cache and the disk: bio.c, buf.h, memide.c

    [bufs] holds the [NBUF] buffers of [bcache.buf] followed by [bcache.head];
    a [struct buf *] is an index into it and [head] is the index of the list
    head, so that the doubly linked list is updated through shared pointers as
    in the source.  The disk is the in-memory disk of memide.c (the memfs build
    of the kernel), a list of blocks.  [writes] records the blocks written to
    the disk, oldest first: it is not part of the kernel's state, and is what a
    crash leaves a prefix of. *)

From S2P Require Import Prelude Machine Proc CString Kalloc Sleeplock.
Open Scope kernel_scope.

Definition BSIZE : Z := 512.
Definition MAXOPBLOCKS : Z := 10.
Definition FSSIZE : Z := 1000.
Definition NBUF : nat := 30.
Definition B_VALID : Z := 0x2.
Definition B_DIRTY : Z := 0x4.

Notation block := (list Z).

(** struct buf; its sleep lock is [LBuf i], and [qnext] belongs to ide.c. *)
Record buf := Buf {
  flags : Z; bdev : Z; blockno : Z; refcnt : Z; prev : nat; next : nat; data : block
}.
Definition set_flags (v : Z) (b : buf) : buf := Buf v (bdev b) (blockno b) (refcnt b) (prev b) (next b) (data b).
Definition set_bdev (v : Z) (b : buf) : buf := Buf (flags b) v (blockno b) (refcnt b) (prev b) (next b) (data b).
Definition set_blockno (v : Z) (b : buf) : buf := Buf (flags b) (bdev b) v (refcnt b) (prev b) (next b) (data b).
Definition set_refcnt (v : Z) (b : buf) : buf := Buf (flags b) (bdev b) (blockno b) v (prev b) (next b) (data b).
Definition set_prev (v : nat) (b : buf) : buf := Buf (flags b) (bdev b) (blockno b) (refcnt b) v (next b) (data b).
Definition set_next (v : nat) (b : buf) : buf := Buf (flags b) (bdev b) (blockno b) (refcnt b) (prev b) v (data b).
Definition set_data (v : block) (b : buf) : buf := Buf (flags b) (bdev b) (blockno b) (refcnt b) (prev b) (next b) v.

Definition buf0 : buf := Buf 0 0 0 0 0 0 (replicate (Z.to_nat BSIZE) 0).
#[global] Instance buf_inhabited : Inhabited buf := populate buf0.

Record bst := Bst { bs : sst; bufs : list buf; disk : list block; writes : list (Z * block) }.
Definition set_bs (v : sst) (s : bst) : bst := Bst v (bufs s) (disk s) (writes s).
Definition set_bufs (v : list buf) (s : bst) : bst := Bst (bs s) v (disk s) (writes s).
Definition set_disk (v : list block) (s : bst) : bst := Bst (bs s) (bufs s) v (writes s).
Definition set_writes (v : list (Z * block)) (s : bst) : bst := Bst (bs s) (bufs s) (disk s) v.

#[global] Instance lens_sst S `{Lens S bst} : Lens S sst.
Proof.
  refine {| view s := bs (view s); upd k s := upd (set_bs k (view s)) s |}.
  - intros. by rewrite view_upd.
  - intros s. assert (∀ x, set_bs (bs x) x = x) as -> by (by intros []). apply upd_view.
  - intros. by rewrite view_upd, upd_upd.
Defined.

Definition head : nat := NBUF.

Module Bc.

Definition get_buf (b : nat) : M bst buf := gets (λ s, bufs s !!! b).
Definition alter_buf (b : nat) (f : buf → buf) : M bst unit := modify (λ s, set_bufs (alter f b (bufs s)) s).

(** Putting buffer [b] at the front of the list. *)
Definition link_front (b : nat) : M bst unit :=
  h ← get_buf head;
  alter_buf b (set_next (next h));;
  alter_buf b (set_prev head).

Definition link_front_done (b : nat) : M bst unit :=
  h ← get_buf head;
  alter_buf (next h) (set_prev b);;
  alter_buf head (set_next b).

Fixpoint binit_loop (b n : nat) : M bst unit :=
  match n with
  | O => mret tt
  | S n =>
      link_front b;;
      initsleeplock (LBuf b);;
      link_front_done b;;
      binit_loop (S b) n
  end.

Definition binit : M bst unit :=
  initlock LBcache;;
  alter_buf head (set_prev head);;
  alter_buf head (set_next head);;
  binit_loop 0 NBUF.

(** The two scans of bget(): forward for the block, backward for a buffer to
    recycle.  [None]: the scan has come round to the head. *)
Definition find_cached (dev n : Z) (b : nat) : M bst (nat + option nat) :=
  if bool_decide (b = head) then mret (inr None) else
  x ← get_buf b;
  if (bdev x =? dev) && (blockno x =? n) then mret (inr (Some b)) else mret (inl (next x)).

Definition find_unused (b : nat) : M bst (nat + option nat) :=
  if bool_decide (b = head) then mret (inr None) else
  x ← get_buf b;
  if (refcnt x =? 0) && (Z.land (flags x) B_DIRTY =? 0) then mret (inr (Some b)) else mret (inl (prev x)).

Definition bget (dev n : Z) : M bst nat :=
  acquire LBcache;;
  h ← get_buf head;
  r ← loop (find_cached dev n) 10 (next h);
  match r with
  | Some b =>
      alter_buf b (λ x, set_refcnt (refcnt x +u 1) x);;
      release LBcache;;
      acquiresleep (LBuf b);;
      mret b
  | None =>
      h ← get_buf head;
      r ← loop find_unused 10 (prev h);
      match r with
      | Some b =>
          alter_buf b (set_bdev dev);;
          alter_buf b (set_blockno n);;
          alter_buf b (set_flags 0);;
          alter_buf b (set_refcnt 1);;
          release LBcache;;
          acquiresleep (LBuf b);;
          mret b
      | None => panic "bget: no buffers"
      end
  end.

(** memide.c *)
Definition iderw (b : nat) : M bst unit :=
  h ← holdingsleep (LBuf b);
  if negb h then panic "iderw: buf not locked" else
  x ← get_buf b;
  if Z.land (flags x) (Z.lor B_VALID B_DIRTY) =? B_VALID then panic "iderw: nothing to do" else
  if negb (bdev x =? 1) then panic "iderw: request not for disk 1" else
  s ← get;
  if Z.of_nat (length (disk s)) <=? blockno x then panic "iderw: block out of range" else
  (if negb (Z.land (flags x) B_DIRTY =? 0) then
     alter_buf b (λ x, set_flags (Z.land (flags x) (Z.lnot B_DIRTY)) x);;
     modify (λ s, set_disk (<[Z.to_nat (blockno x) := data x]> (disk s)) s);;
     modify (λ s, set_writes (writes s ++ [(blockno x, data x)]) s)
   else alter_buf b (set_data (disk s !!! Z.to_nat (blockno x))));;
  alter_buf b (λ x, set_flags (Z.lor (flags x) B_VALID) x).

Definition bread (dev n : Z) : M bst nat :=
  b ← bget dev n;
  x ← get_buf b;
  mwhen (Z.land (flags x) B_VALID =? 0) (iderw b);;
  mret b.

Definition bwrite (b : nat) : M bst unit :=
  h ← holdingsleep (LBuf b);
  if negb h then panic "bwrite" else
  alter_buf b (λ x, set_flags (Z.lor (flags x) B_DIRTY) x);;
  iderw b.

Definition brelse (b : nat) : M bst unit :=
  h ← holdingsleep (LBuf b);
  if negb h then panic "brelse" else
  releasesleep (LBuf b);;
  acquire LBcache;;
  alter_buf b (λ x, set_refcnt (refcnt x -u 1) x);;
  x ← get_buf b;
  mwhen (refcnt x =? 0)
    (x ← get_buf b;
     alter_buf (next x) (set_prev (prev x));;
     x ← get_buf b;
     alter_buf (prev x) (set_next (next x));;
     link_front b;;
     link_front_done b);;
  release LBcache.

End Bc.

Section lifted.
Context {S : Type} `{Lens S bst}.

Definition get_buf (b : nat) : M S buf := lift (Bc.get_buf b).
Definition alter_buf (b : nat) (f : buf → buf) : M S unit := lift (Bc.alter_buf b f).
Definition bread (dev n : Z) : M S nat := lift (Bc.bread dev n).
Definition bwrite (b : nat) : M S unit := lift (Bc.bwrite b).
Definition brelse (b : nat) : M S unit := lift (Bc.brelse b).
End lifted.

(** ** The doubly linked list *)

(** [seg nx pv a l z]: following [nx] from [a] one meets the nodes [l] and then
    [z], and [pv] goes back the same way. *)
Section ring.
Implicit Types (nx pv : nat → nat) (a b z : nat) (l : list nat).

Fixpoint seg nx pv a l z : Prop :=
  match l with
  | [] => nx a = z ∧ pv z = a
  | b :: l => nx a = b ∧ pv b = a ∧ seg nx pv b l z
  end.

Definition fupd (f : nat → nat) (x v : nat) : nat → nat := λ y, if decide (y = x) then v else f y.

Lemma fupd_eq f x v : fupd f x v x = v.
Proof. unfold fupd. by rewrite decide_True. Qed.
Lemma fupd_ne f x v y : y ≠ x → fupd f x v y = f y.
Proof. intros. unfold fupd. by rewrite decide_False. Qed.

Lemma seg_ext nx pv nx' pv' a l z :
  (∀ x, x ∈ a :: l → nx' x = nx x) → (∀ x, x ∈ l ++ [z] → pv' x = pv x) →
  seg nx pv a l z → seg nx' pv' a l z.
Proof.
  revert a. induction l as [|b l IH]; intros a Hn Hp; simpl.
  - intros [E1 E2]. split; [rewrite Hn; [done|set_solver]|rewrite Hp; [done|set_solver]].
  - intros (E1 & E & Hs). split_and!.
    + rewrite Hn; [done|set_solver].
    + rewrite Hp; [done|set_solver].
    + apply IH; [|  |done]; intros x Hx; [apply Hn|apply Hp]; set_solver.
Qed.

Lemma seg_app nx pv a l1 b l2 z : seg nx pv a (l1 ++ b :: l2) z ↔ seg nx pv a l1 b ∧ seg nx pv b l2 z.
Proof. revert a. induction l1 as [|c l1 IH]; intros a; simpl; [naive_solver|]. rewrite IH. naive_solver. Qed.

(** The node before [z] and the node after [a]. *)
Lemma seg_last nx pv a l z : seg nx pv a l z → pv z = List.last l a ∧ nx (List.last l a) = z.
Proof.
  revert a. induction l as [|b l IH]; intros a; [simpl; naive_solver|].
  intros (_ & _ & Hs). destruct (IH b Hs) as [E1 E2].
  assert (List.last (b :: l) a = List.last l b) as -> by (clear; revert a b; induction l; intros; [done|]; simpl in *; destruct l; auto).
  done.
Qed.

Lemma seg_first nx pv a l z : seg nx pv a l z → nx a = hd z l ∧ pv (hd z l) = a.
Proof. destruct l; simpl; naive_solver. Qed.

Lemma last_in a l : List.last l a ∈ a :: l.
Proof.
  destruct l as [|b l] using rev_ind; [simpl; set_solver|]. rewrite List.last_last. set_solver.
Qed.
Lemma hd_in z l : hd z l ∈ l ++ [z].
Proof. destruct l; simpl; set_solver. Qed.

(** Taking [b] out. *)
Lemma seg_unlink nx pv a l1 b l2 z :
  NoDup (a :: l1 ++ b :: l2) → NoDup (l1 ++ b :: l2 ++ [z]) →
  seg nx pv a (l1 ++ b :: l2) z →
  seg (fupd nx (pv b) (nx b)) (fupd pv (nx b) (pv b)) a (l1 ++ l2) z.
Proof.
  intros Hnd1 Hnd2 [H1 H2]%seg_app.
  destruct (seg_last _ _ _ _ _ H1) as [Ep1 Ep2]. destruct (seg_first _ _ _ _ _ H2) as [En1 En2].
  rewrite Ep1, En1. set (p := List.last l1 a) in *. set (n := hd z l2) in *.
  assert (p ∈ a :: l1) as Hp by apply last_in. assert (n ∈ l2 ++ [z]) as Hn by apply hd_in.
  apply NoDup_cons in Hnd1 as [Ha Hnd1]. apply NoDup_app in Hnd1 as (Hl1 & Hd1 & Hbl2).
  apply NoDup_app in Hnd2 as (_ & Hd2 & Hb2). apply NoDup_cons in Hb2 as [Hb2 Hl2].
  (* the front part ends at [n] *)
  assert (seg (fupd nx p n) (fupd pv n p) a l1 n) as Hfront.
  { destruct l1 as [|c l1] using rev_ind; simpl in p |- *.
    - split; apply fupd_eq.
    - clear IHl1. unfold p in *. rewrite List.last_last in *.
      rewrite seg_app in H1 |- *. destruct H1 as [H1 [Hc1 Hc2]]. split.
      + eapply seg_ext; [| |exact H1].
        * intros x Hx. apply fupd_ne. intros ->.
          apply elem_of_cons in Hx as [->|Hx]; [set_solver|].
          apply NoDup_app in Hl1 as (_ & Hd & _). apply (Hd c Hx). set_solver.
        * intros x Hx. apply fupd_ne. intros ->. apply (Hd2 n); set_solver.
      + split; apply fupd_eq. }
  destruct l2 as [|c l2].
  - rewrite app_nil_r. exact Hfront.
  - simpl in n. apply seg_app. split; [exact Hfront|].
    destruct H2 as (_ & _ & H2). eapply seg_ext; [| |exact H2].
    + intros x Hx. apply fupd_ne. intros ->. apply elem_of_cons in Hp as [->|Hp]; [set_solver|].
      apply (Hd1 p Hp). set_solver.
    + intros x Hx. apply fupd_ne. intros ->. apply NoDup_cons in Hl2 as [? _]. done.
Qed.

(** Putting [b] in front. *)
Lemma seg_link nx pv a b l z :
  b ∉ a :: l → b ≠ z → NoDup (a :: l) → NoDup (l ++ [z]) → seg nx pv a l z →
  seg (fupd (fupd nx b (nx a)) a b) (fupd (fupd pv b a) (nx a) b) a (b :: l) z.
Proof.
  intros Hb Hbz Hnd1 Hnd2 Hs. destruct (seg_first _ _ _ _ _ Hs) as [E1 E2]. rewrite E1.
  assert (hd z l ≠ b) as Hne by (destruct l; simpl; set_solver).
  split_and!.
  - apply fupd_eq.
  - rewrite fupd_ne by done. apply fupd_eq.
  - destruct l as [|c l]; simpl.
    + split; [|apply fupd_eq]. rewrite fupd_ne by set_solver. apply fupd_eq.
    + destruct Hs as (_ & _ & Hs). split_and!.
      * rewrite fupd_ne by set_solver. apply fupd_eq.
      * apply fupd_eq.
      * eapply seg_ext; [| |exact Hs].
        -- intros x Hx. apply NoDup_cons in Hnd1 as [Ha _]. rewrite !fupd_ne; [done|set_solver|set_solver].
        -- intros x Hx. simpl in Hnd2. apply NoDup_cons in Hnd2 as [Hc _].
           rewrite !fupd_ne; [done| |]; intros ->; set_solver.
Qed.
End ring.

Definition nx (B : list buf) (x : nat) : nat := next (B !!! x).
Definition pv (B : list buf) (x : nat) : nat := prev (B !!! x).

(** The list of the cache, most recently used first. *)
Record ring (B : list buf) (l : list nat) : Prop := {
  ring_len : length B = S NBUF;
  ring_perm : l ≡ₚ seq 0 NBUF;
  ring_seg : seg (nx B) (pv B) head l head;
}.

Lemma ring_in B l x : ring B l → x ∈ l ↔ (x < NBUF)%nat.
Proof. intros [_ Hp _]. rewrite Hp, elem_of_seq. lia. Qed.

Lemma ring_nodup B l : ring B l → NoDup (head :: l) ∧ NoDup (l ++ [head]).
Proof.
  intros Hr. assert (NoDup (head :: l)) as Hnd.
  { apply NoDup_cons. split; [rewrite (ring_in B l head Hr); unfold head; lia|].
    rewrite (ring_perm _ _ Hr). apply NoDup_seq. }
  split; [done|]. rewrite <- (Permutation_cons_append l head). done.
Qed.

(** ** The scans *)

Lemma scan_forward dev n s a l :
  seg (nx (bufs s)) (pv (bufs s)) a l head → head ∉ l →
  iter (Bc.find_cached dev n) (S (length l)) (nx (bufs s) a) s =
    Ok (inr (List.find (λ b, (bdev (bufs s !!! b) =? dev) && (blockno (bufs s !!! b) =? n)) l)) s.
Proof.
  revert a. induction l as [|b l IH]; intros a Hs Hh; simpl in Hs.
  - destruct Hs as [-> _]. by apply iter_exit.
  - destruct Hs as (-> & _ & Hs). cbn [List.find length].
    destruct ((bdev (bufs s !!! b) =? dev) && (blockno (bufs s !!! b) =? n)) eqn:E.
    + apply iter_exit. unfold Bc.find_cached, Bc.get_buf.
      rewrite bool_decide_false by set_solver. mred. by rewrite E.
    + rewrite (iter_next _ _ _ _ (nx (bufs s) b) s); [apply IH; [done|set_solver]|].
      unfold Bc.find_cached, Bc.get_buf. rewrite bool_decide_false by set_solver. mred. by rewrite E.
Qed.

Lemma scan_backward s l z :
  seg (nx (bufs s)) (pv (bufs s)) head l z → head ∉ l →
  iter Bc.find_unused (S (length l)) (pv (bufs s) z) s =
    Ok (inr (List.find (λ b, (refcnt (bufs s !!! b) =? 0) && (Z.land (flags (bufs s !!! b)) B_DIRTY =? 0))
               (reverse l))) s.
Proof.
  revert z. induction l as [|b l IH] using rev_ind; intros z Hs Hh.
  - destruct Hs as [_ ->]. by apply iter_exit.
  - apply seg_app in Hs as [Hs [_ ->]]. rewrite reverse_snoc, length_app, Nat.add_1_r. cbn [List.find].
    destruct ((refcnt (bufs s !!! b) =? 0) && (Z.land (flags (bufs s !!! b)) B_DIRTY =? 0)) eqn:E.
    + apply iter_exit. unfold Bc.find_unused, Bc.get_buf.
      rewrite bool_decide_false by set_solver. mred. by rewrite E.
    + rewrite (iter_next _ _ _ _ (pv (bufs s) b) s); [apply IH; [done|set_solver]|].
      unfold Bc.find_unused, Bc.get_buf. rewrite bool_decide_false by set_solver. mred. by rewrite E.
Qed.

Section scan_loops.
Context (s : bst) (l : list nat) (Hr : ring (bufs s) l).

Lemma ring_head_notin : head ∉ l.
Proof. rewrite (ring_in _ _ _ Hr). unfold head. lia. Qed.

Lemma ring_length : length l = NBUF.
Proof. rewrite (ring_perm _ _ Hr). apply length_seq. Qed.

Lemma loop_forward dev n :
  loop (Bc.find_cached dev n) 10 (nx (bufs s) head) s =
    Ok (List.find (λ b, (bdev (bufs s !!! b) =? dev) && (blockno (bufs s !!! b) =? n)) l) s.
Proof.
  eapply loop_iter; [apply scan_forward; [apply Hr|apply ring_head_notin]|].
  rewrite ring_length. unfold NBUF. simpl. lia.
Qed.

Lemma loop_backward :
  loop Bc.find_unused 10 (pv (bufs s) head) s =
    Ok (List.find (λ b, (refcnt (bufs s !!! b) =? 0) && (Z.land (flags (bufs s !!! b)) B_DIRTY =? 0))
          (reverse l)) s.
Proof.
  eapply loop_iter; [apply scan_backward; [apply Hr|apply ring_head_notin]|].
  rewrite ring_length. unfold NBUF. simpl. lia.
Qed.
End scan_loops.

(** ** Moving a buffer to the front *)

Lemma nx_alter (B : list buf) (x : nat) f y :
  (x < length B)%nat → nx (alter f x B) y = if decide (y = x) then next (f (B !!! x)) else nx B y.
Proof.
  intros Hx. unfold nx. case_decide as E; [subst; by rewrite list_lookup_total_alter_eq|].
  by rewrite list_lookup_total_alter_ne.
Qed.

Lemma pv_alter (B : list buf) (x : nat) f y :
  (x < length B)%nat → pv (alter f x B) y = if decide (y = x) then prev (f (B !!! x)) else pv B y.
Proof.
  intros Hx. unfold pv. case_decide as E; [subst; by rewrite list_lookup_total_alter_eq|].
  by rewrite list_lookup_total_alter_ne.
Qed.

(** The list updates of brelse(), on the buffers. *)
Definition unlink (b : nat) (B : list buf) : list buf :=
  let B := alter (set_prev (pv B b)) (nx B b) B in
  alter (set_next (nx B b)) (pv B b) B.
Definition link (b : nat) (B : list buf) : list buf :=
  let B := alter (set_prev head) b (alter (set_next (nx B head)) b B) in
  let B := alter (set_prev b) (nx B head) B in
  alter (set_next b) head B.

(** The links determine the list. *)
Lemma seg_unique (nx pv : nat → nat) z l l' a :
  z ∉ l → z ∉ l' → seg nx pv a l z → seg nx pv a l' z → l = l'.
Proof.
  revert a l'. induction l as [|x l IH]; intros a [|y l'] H1 H2 S1 S2; simpl in *; try done.
  - destruct S1 as [E _], S2 as (E' & _). set_solver.
  - destruct S1 as (E & _), S2 as (E' & _). set_solver.
  - destruct S1 as (E & _ & S1), S2 as (E' & _ & S2). assert (x = y) as -> by congruence.
    f_equal. eapply IH; [| |exact S1|exact S2]; set_solver.
Qed.
Lemma ring_unique B l l' : ring B l → ring B l' → l = l'.
Proof.
  intros H H'. assert (head ∉ l ∧ head ∉ l') as [? ?].
  { split; [rewrite (ring_in _ _ _ H)|rewrite (ring_in _ _ _ H')]; unfold head; lia. }
  by eapply seg_unique; [| |apply H|apply H'].
Qed.

(** The last element with a property. *)
Lemma find_last {A} (Q : A → bool) l j :
  List.find Q (reverse l) = Some j → ∃ l1 l2, l = l1 ++ j :: l2 ∧ Q j = true ∧ ∀ k, k ∈ l2 → Q k = false.
Proof.
  induction l as [|x l IH] using rev_ind; [done|]. rewrite reverse_snoc. simpl.
  destruct (Q x) eqn:E.
  - intros [= ->]. exists l, []. split_and!; [done|done|set_solver].
  - intros (l1 & l2 & -> & Hj & Hk)%IH. exists l1, (l2 ++ [x]). split_and!; [by rewrite <- app_assoc|done|].
    intros k [?|Hx%list_elem_of_singleton]%elem_of_app; [auto|by subst].
Qed.

(** What the list operations leave alone. *)
Definition ess (b : buf) : Z * Z * Z * Z * block := (flags b, bdev b, blockno b, refcnt b, data b).

Lemma ess_alter (f : buf → buf) (x : nat) (B : list buf) (y : nat) : (∀ b, ess (f b) = ess b) → ess (alter f x B !!! y) = ess (B !!! y).
Proof.
  intros Hf. destruct (decide (x = y)) as [->|Hne]; [|by rewrite list_lookup_total_alter_ne].
  rewrite !list_lookup_total_alt, list_lookup_alter_eq. destruct (B !! y); [apply Hf|done].
Qed.

Lemma ess_unlink b B y : ess (unlink b B !!! y) = ess (B !!! y).
Proof. unfold unlink. by rewrite !ess_alter. Qed.
Lemma ess_link b B y : ess (link b B !!! y) = ess (B !!! y).
Proof. unfold link. by rewrite !ess_alter. Qed.

Lemma unlink_links b B :
  (b < length B)%nat → (nx B b < length B)%nat → (pv B b < length B)%nat → nx B b ≠ b →
  (∀ y, nx (unlink b B) y = fupd (nx B) (pv B b) (nx B b) y) ∧
  (∀ y, pv (unlink b B) y = fupd (pv B) (nx B b) (pv B b) y).
Proof.
  intros Hb Hn Hp Hne. unfold unlink. set (B1 := alter _ (nx B b) B).
  assert (length B1 = length B) as HL by apply length_alter.
  assert (∀ y, nx B1 y = nx B y) as N1.
  { intros y. unfold B1. rewrite nx_alter by done. case_decide; [by subst|done]. }
  assert (∀ y, pv B1 y = fupd (pv B) (nx B b) (pv B b) y) as P1.
  { intros y. unfold B1. rewrite pv_alter by done. unfold fupd. case_decide; done. }
  rewrite N1, P1, fupd_ne by done. split; intros y.
  - rewrite nx_alter by lia. unfold fupd. case_decide; [done|]. apply N1.
  - rewrite pv_alter by lia. rewrite <- P1. case_decide; [by subst|done].
Qed.

Lemma link_links b B :
  (b < NBUF)%nat → length B = S NBUF → (nx B head < length B)%nat → nx B head ≠ b →
  (∀ y, nx (link b B) y = fupd (fupd (nx B) b (nx B head)) head b y) ∧
  (∀ y, pv (link b B) y = fupd (fupd (pv B) b head) (nx B head) b y).
Proof.
  intros Hb HL Hn Hne. unfold link. set (B1 := alter _ b B). set (B2 := alter _ b B1).
  assert (length B1 = S NBUF) as HL1 by (unfold B1; by rewrite length_alter).
  assert (length B2 = S NBUF) as HL2 by (unfold B2; by rewrite length_alter).
  assert (∀ y, nx B1 y = fupd (nx B) b (nx B head) y ∧ pv B1 y = pv B y) as H1.
  { intros y. unfold B1. rewrite nx_alter, pv_alter by lia. unfold fupd. case_decide; split; try done; by subst. }
  assert (∀ y, nx B2 y = fupd (nx B) b (nx B head) y ∧ pv B2 y = fupd (pv B) b head y) as H2.
  { intros y. destruct (H1 y) as [<- E2]. unfold B2. rewrite nx_alter, pv_alter by lia. split.
    - case_decide; [by subst|done].
    - unfold fupd. by case_decide. }
  assert (nx B2 head = nx B head) as E2.
  { destruct (H2 head) as [-> _]. apply fupd_ne. unfold head. lia. }
  rewrite E2. set (B3 := alter _ (nx B head) B2).
  assert (length B3 = S NBUF) as HL3 by (unfold B3; by rewrite length_alter).
  assert (∀ y, nx B3 y = nx B2 y ∧ pv B3 y = fupd (pv B2) (nx B head) b y) as H3.
  { intros y. unfold B3. rewrite nx_alter, pv_alter by lia. unfold fupd.
    case_decide; split; try done; by subst. }
  split; intros y.
  - rewrite nx_alter by (rewrite HL3; unfold head; lia). destruct (H3 y) as [-> _], (H2 y) as [-> _].
    case_decide; [subst; by rewrite fupd_eq|by rewrite (fupd_ne _ head)].
  - rewrite pv_alter by (rewrite HL3; unfold head; lia). destruct (H3 y) as [_ Ey], (H3 head) as [_ Eh].
    assert (fupd (pv B2) (nx B head) b y = fupd (fupd (pv B) b head) (nx B head) b y) as Ef.
    { destruct (decide (y = nx B head)) as [->|]; [by rewrite !fupd_eq|].
      rewrite !(fupd_ne _ (nx B head)) by done. apply H2. }
    rewrite <- Ef, <- Ey. case_decide; [by subst|done].
Qed.

(** brelse() moves the buffer to the front and keeps the rest in order. *)
Lemma ring_front B l1 b l2 : ring B (l1 ++ b :: l2) → ring (link b (unlink b B)) (b :: l1 ++ l2).
Proof.
  intros Hr. destruct (ring_nodup _ _ Hr) as [Hn1 Hn2]. pose proof Hr as [HL Hp Hs].
  assert (b < NBUF)%nat as Hb by (apply (ring_in _ _ b Hr); set_solver).
  apply seg_app in Hs as [Hs1 Hs2]. pose proof Hs1 as Hs1'. pose proof Hs2 as Hs2'.
  apply seg_last in Hs1' as [Ep _]. apply seg_first in Hs2' as [En _].
  assert (nx B b ∈ l2 ++ [head]) as Hnin by (rewrite En; apply hd_in).
  assert (pv B b ∈ head :: l1) as Hpin by (rewrite Ep; apply last_in).
  assert (∀ x, x ∈ l1 ++ l2 ++ [head] → (x < S NBUF)%nat) as Hlt.
  { intros x Hx. destruct (decide (x = head)) as [->|]; [unfold head; lia|].
    assert (x ∈ l1 ++ b :: l2) as Hx' by set_solver. apply (ring_in _ _ _ Hr) in Hx'. lia. }
  assert (nx B b ≠ b) as Hnb.
  { intros E. rewrite E in Hnin. rewrite <- app_assoc in Hn2. simpl in Hn2.
    apply NoDup_app in Hn2 as (_ & _ & Hn2). by apply NoDup_cons in Hn2 as [? _]. }
  destruct (unlink_links b B) as [U1 U2]; [lia|rewrite HL; apply Hlt; set_solver..|done|].
  assert (seg (nx (unlink b B)) (pv (unlink b B)) head (l1 ++ l2) head) as Hseg.
  { eapply seg_ext; [intros; apply U1|intros; apply U2|]. apply seg_unlink.
    - done.
    - by rewrite <- app_assoc in Hn2.
    - apply seg_app. done. }
  assert (length (unlink b B) = S NBUF) as HLu by (unfold unlink; by rewrite !length_alter).
  apply NoDup_cons in Hn1 as [Hh Hn1].
  assert (b ∉ head :: l1 ++ l2 ∧ NoDup (head :: l1 ++ l2)) as [Hbl Hnd].
  { rewrite <- Permutation_middle in Hn1. apply NoDup_cons in Hn1 as [Hbn Hn1].
    split; [set_solver by (unfold head; lia)|]. apply NoDup_cons. split; [set_solver|done]. }
  assert (nx (unlink b B) head ∈ (l1 ++ l2) ++ [head]) as Hfst.
  { apply seg_first in Hseg as [-> _]. apply hd_in. }
  assert (nx (unlink b B) head < S NBUF)%nat as Hlt' by (apply Hlt; by rewrite app_assoc).
  assert (nx (unlink b B) head ≠ b) as Hneb.
  { intros E. rewrite E in Hfst. destruct Hbl. rewrite elem_of_cons. apply elem_of_app in Hfst as [?|?%list_elem_of_singleton]; auto. }
  destruct (link_links b (unlink b B)) as [L1 L2]; [done|done|by rewrite HLu|done|].
  split.
  - unfold link. by rewrite !length_alter.
  - rewrite <- Hp. simpl. by rewrite Permutation_middle.
  - eapply seg_ext; [intros; apply L1|intros; apply L2|]. apply seg_link; try done.
    + unfold head. lia.
    + by rewrite <- (Permutation_cons_append (l1 ++ l2) head).
Qed.

(** ** The cache invariant

    The cache as the running process [i] sees it between its own calls: the
    buffers of [held] are the ones it has locked. *)

Definition bcore (s : bst) : core := score (bs s).
Definition mypid (i : nat) (s : bst) : Z := pid (ptable (bcore s) !!! i).
Definition bslock (j : nat) (s : bst) : sleeplock := slock (LBuf j) (bs s).
Definition the_buf (s : bst) (j : nat) : buf := bufs s !!! j.

(** The spin locks the cache needs. *)
Definition bio_locks_free (h : hart) : Prop :=
  is_free LBcache h ∧ is_free LPtable h ∧ ∀ j, (j < NBUF)%nat → is_free (LBuf j) h.

Record bc_inv (c i : nat) (held : gset nat) (s : bst) : Prop := {
  bi_run : running c i (bcore s);
  bi_calm : calm (bcore s);
  bi_free : bio_locks_free (chart (bcore s));
  bi_ring : ∃ l, ring (bufs s) l;
  bi_held j : (j < NBUF)%nat → j ∈ held →
    refcnt (the_buf s j) = 1 ∧ bslock j s = Sleeplock 1 (mypid i s);
  bi_idle j : (j < NBUF)%nat → j ∉ held → refcnt (the_buf s j) = 0 ∧ slocked (bslock j s) = 0;
  bi_uniq j k : (j < NBUF)%nat → (k < NBUF)%nat → bdev (the_buf s j) = 1 → bdev (the_buf s k) = 1 →
    blockno (the_buf s j) = blockno (the_buf s k) → j = k;
  bi_flags j : (j < NBUF)%nat →
    flags (the_buf s j) = 0 ∨
    (flags (the_buf s j) = 2 ∨ flags (the_buf s j) = 6) ∧ bdev (the_buf s j) = 1 ∧
    0 ≤ blockno (the_buf s j) < Z.of_nat (length (disk s));
  bi_clean j : (j < NBUF)%nat → j ∉ held → flags (the_buf s j) = 2 →
    data (the_buf s j) = disk s !!! Z.to_nat (blockno (the_buf s j));
}.

(** The buffer that caches block [n] of disk 1, and the contents of block [n] as
    the kernel sees it. *)
Definition holds (s : bst) (n : Z) (j : nat) : bool :=
  (bdev (the_buf s j) =? 1) && (blockno (the_buf s j) =? n) && negb (flags (the_buf s j) =? 0).
Definition cached (s : bst) (n : Z) : option nat := List.find (holds s n) (seq 0 NBUF).
Definition cont (s : bst) (n : Z) : block :=
  match cached s n with Some j => data (the_buf s j) | None => disk s !!! Z.to_nat n end.
(** Blocks whose cached copy is newer than the disk. *)
Definition dirty (s : bst) (n : Z) : Prop :=
  ∃ j, (j < NBUF)%nat ∧ bdev (the_buf s j) = 1 ∧ blockno (the_buf s j) = n ∧ flags (the_buf s j) = 6.

Lemma holds_true s n j :
  holds s n j = true ↔ bdev (the_buf s j) = 1 ∧ blockno (the_buf s j) = n ∧ flags (the_buf s j) ≠ 0.
Proof. unfold holds. rewrite !andb_true_iff, negb_true_iff, !Z.eqb_eq, Z.eqb_neq. naive_solver. Qed.

Section cached.
Context (c i : nat) (held : gset nat) (s : bst) (Hinv : bc_inv c i held s).

Lemma cached_some n j : (j < NBUF)%nat → holds s n j = true → cached s n = Some j.
Proof using Hinv.
  intros Hj Hh. unfold cached. destruct (List.find _ _) as [k|] eqn:E.
  - apply List.find_some in E as [Hk Hhk]. rewrite in_seq in Hk. f_equal.
    apply holds_true in Hh as (?&?&?). apply holds_true in Hhk as (?&?&?).
    eapply (bi_uniq _ _ _ _ Hinv); congruence || lia.
  - eapply List.find_none in E; [|rewrite in_seq; simpl; split; [lia|exact Hj]]. congruence.
Qed.

Lemma cached_none n : cached s n = None ↔ ∀ j, (j < NBUF)%nat → holds s n j = false.
Proof using.
  unfold cached. split.
  - intros E j Hj. eapply List.find_none in E; [done|]. rewrite in_seq. simpl. lia.
  - intros H. destruct (List.find _ _) as [k|] eqn:E; [|done].
    apply List.find_some in E as [Hk Hhk]. rewrite in_seq in Hk. rewrite H in Hhk; [done|lia].
Qed.

Lemma cont_buf n j : (j < NBUF)%nat → holds s n j = true → cont s n = data (the_buf s j).
Proof using Hinv. intros Hj Hh. unfold cont. by rewrite (cached_some n j Hj Hh). Qed.

(** A block whose cached copy is clean is what the disk holds. *)
Lemma cont_clean n :
  ¬ dirty s n → (∀ j, j ∈ held → holds s n j = false) → cont s n = disk s !!! Z.to_nat n.
Proof using Hinv.
  intros Hd Hh. unfold cont. destruct (cached s n) as [j|] eqn:E; [|done].
  unfold cached in E. apply List.find_some in E as [Hj Hhj]. rewrite in_seq in Hj.
  assert (j ∉ held) as Hnh by (intros Hin; rewrite Hh in Hhj; done).
  pose proof Hhj as Hhj'. apply holds_true in Hhj' as (Hdev & Hbn & Hf).
  rewrite <- Hbn. apply (bi_clean _ _ _ _ Hinv); [lia|done|].
  destruct (bi_flags _ _ _ _ Hinv j) as [?|([?|E6] & _)]; [lia|done|done|].
  destruct Hd. exists j. split_and!; [lia|done..].
Qed.
End cached.

(** ** Executing the operations *)

Lemma lift_b {A} (m : M sst A) s a t : m (bs s) = Ok a t → lift m s = Ok a (set_bs t s).
Proof. exact (lift_ok m s a t). Qed.

Lemma acquire_b c l s :
  balanced c (chart (bcore s)) → is_free l (chart (bcore s)) →
  acquire l s = Ok tt (set_bs (set_score (set_chart (acq c l (chart (bcore s))) (bcore s)) (bs s)) s).
Proof. exact (acquire_ok c l s). Qed.

Lemma release_b c l h s :
  chart (bcore s) = acq c l h → balanced c h → is_free l h →
  release l s = Ok tt (set_bs (set_score (set_chart h (bcore s)) (bs s)) s).
Proof. exact (release_ok c l h s). Qed.

(** A critical section under [bcache.lock] that works on the buffers only. *)
Lemma bcache_section c l (f : bst → bst) s :
  balanced c (chart (bcore s)) → is_free l (chart (bcore s)) →
  (∀ t s, f (set_bs t s) = set_bs t (f s)) →
  ∃ s1, acquire l s = Ok tt s1 ∧ bufs s1 = bufs s ∧ disk s1 = disk s ∧ release l (f s1) = Ok tt (f s).
Proof.
  intros Hb Hf Hc. eexists. split; [by apply (acquire_b c)|]. split_and!; [done..|].
  rewrite Hc. rewrite (release_b c l (chart (bcore s))); [|done..]. f_equal.
  pose proof (Hc (bs s) s) as E. assert (set_bs (bs s) s = s) as Es by (by destruct s). rewrite Es in E.
  rewrite E at 2. unfold bcore, score. cbn. by destruct (bs s) as [[[] ?????] ?].
Qed.

Lemma holding_b c i held s j :
  bc_inv c i held s → (j < NBUF)%nat → j ∈ held → holdingsleep (LBuf j) s = Ok true s.
Proof.
  intros Hinv Hj Hh. unfold holdingsleep.
  assert (Sl.holdingsleep (LBuf j) (bs s) = Ok true (bs s)) as E.
  { rewrite (holdingsleep_spec c i); [|apply Hinv|by apply (bi_free _ _ _ _ Hinv)].
    destruct (bi_held _ _ _ _ Hinv j Hj Hh) as [_ El]. unfold bslock in El. rewrite El. cbn.
    unfold mypid, bcore. by rewrite Z.eqb_refl. }
  rewrite (lift_b _ _ _ _ E). by destruct s.
Qed.

Definition take_lock (i j : nat) (s : bst) : bst :=
  set_bs (set_slock (LBuf j) (Sleeplock 1 (mypid i s)) (bs s)) s.

Lemma acquiresleep_b c i s j :
  running c i (bcore s) → is_free (LBuf j) (chart (bcore s)) → slocked (bslock j s) = 0 →
  acquiresleep (LBuf j) s = Ok tt (take_lock i j s).
Proof.
  intros Hr Hf Hz. unfold acquiresleep. apply lift_b. by apply (acquiresleep_free c i).
Qed.

(** bget() when the block is cached, and when a buffer has to be recycled. *)
Definition bget_hit (i j : nat) (s : bst) : bst :=
  take_lock i j (set_bufs (alter (λ x, set_refcnt (refcnt x +u 1) x) j (bufs s)) s).
Definition recycle (n : Z) (b : buf) : buf := set_refcnt 1 (set_flags 0 (set_blockno n (set_bdev 1 b))).
Definition bget_miss (i j : nat) (n : Z) (s : bst) : bst :=
  take_lock i j (set_bufs (alter (recycle n) j (bufs s)) s).

Lemma bget_run c i held s n :
  bc_inv c i held s → (∀ j, j ∈ held → ¬ (bdev (the_buf s j) = 1 ∧ blockno (the_buf s j) = n)) →
  (∃ j, (j < NBUF)%nat ∧ bdev (the_buf s j) = 1 ∧ blockno (the_buf s j) = n) ∨
    (∃ k, (k < NBUF)%nat ∧ k ∉ held ∧ flags (the_buf s k) ≠ 6) →
  ∃ j, (j < NBUF)%nat ∧ j ∉ held ∧
    ((bdev (the_buf s j) = 1 ∧ blockno (the_buf s j) = n ∧ Bc.bget 1 n s = Ok j (bget_hit i j s)) ∨
     ((∀ k, (k < NBUF)%nat → ¬ (bdev (the_buf s k) = 1 ∧ blockno (the_buf s k) = n)) ∧
      flags (the_buf s j) ≠ 6 ∧ Bc.bget 1 n s = Ok j (bget_miss i j n s) ∧
      (∀ l, ring (bufs s) l → ∃ l1 l2, l = l1 ++ j :: l2 ∧
         ∀ k, k ∈ l2 → k ∈ held ∨ flags (the_buf s k) = 6))).
Proof.
  intros Hinv Hnh Hav. pose proof Hinv as [Hr Hc (Hf1 & Hf2 & Hf3) (l & Hring) Hheld Hidle Huniq Hfl Hcl].
  pose proof Hr as [Hb _ _]. unfold Bc.bget.
  set (P := λ b, (bdev (bufs s !!! b) =? 1) && (blockno (bufs s !!! b) =? n)).
  set (Q := λ b, (refcnt (bufs s !!! b) =? 0) && (Z.land (flags (bufs s !!! b)) B_DIRTY =? 0)).
  destruct (List.find P l) as [j|] eqn:EP.
  - pose proof EP as EP'. apply List.find_some in EP' as [Hjl HPj]. apply list_elem_of_In in Hjl.
    rewrite (ring_in _ _ _ Hring) in Hjl. unfold P in HPj. rewrite andb_true_iff, !Z.eqb_eq in HPj.
    assert (j ∉ held) as Hjh by (intros Hin; by apply (Hnh j Hin)).
    destruct (bcache_section c LBcache (λ s, set_bufs (alter (λ x, set_refcnt (refcnt x +u 1) x) j (bufs s)) s) s)
      as (s1 & E1 & Eb & Ed & E2); [done..|].
    exists j. split_and!; [done..|]. left. split_and!; [apply HPj..|].
    mstep E1. unfold Bc.get_buf, Bc.alter_buf. mred.
    assert (ring (bufs s1) l) as Hring1 by (by rewrite Eb).
    fold (nx (bufs s1) head). mstep (loop_forward s1 l Hring1 1 n). rewrite Eb. fold P. rewrite EP. mred.
    rewrite Eb in E2. rewrite Eb. mstep E2.
    mstep (acquiresleep_b c i (set_bufs (alter (λ x, set_refcnt (refcnt x +u 1) x) j (bufs s)) s) j Hr
      (Hf3 j Hjl) (proj2 (Hidle j Hjl Hjh))). done.
  - assert (∀ k, (k < NBUF)%nat → ¬ (bdev (the_buf s k) = 1 ∧ blockno (the_buf s k) = n)) as Hnone.
    { intros k Hk [H1 H2]. eapply List.find_none in EP; [|apply list_elem_of_In, (ring_in _ _ _ Hring); exact Hk].
      unfold P in EP. unfold the_buf in H1, H2. rewrite H1, H2, !Z.eqb_refl in EP. done. }
    destruct Hav as [(k & Hk & H1 & H2)|(k & Hk & Hkh & Hk6)]; [by destruct (Hnone k)|].
    assert (∀ x, (x < NBUF)%nat → Q x = true ↔ x ∉ held ∧ flags (the_buf s x) ≠ 6) as HQ.
    { intros x Hx. unfold Q. rewrite andb_true_iff, !Z.eqb_eq. fold (the_buf s x). unfold B_DIRTY.
      destruct (decide (x ∈ held)) as [Hin|Hni].
      - destruct (Hheld x Hx Hin) as [-> _]. split; [intros []|intros []]; done.
      - destruct (Hidle x Hx Hni) as [-> _].
        destruct (Hfl x Hx) as [->|([-> | ->] & _)]; vm_compute; naive_solver. }
    destruct (List.find Q (reverse l)) as [j|] eqn:EQ.
    2: { eapply List.find_none in EQ; [|apply list_elem_of_In, elem_of_reverse, (ring_in _ _ _ Hring); exact Hk].
         rewrite (proj2 (HQ k Hk)) in EQ; done. }
    pose proof EQ as EQ'. apply List.find_some in EQ' as [Hjl HQj].
    apply list_elem_of_In in Hjl. rewrite elem_of_reverse, (ring_in _ _ _ Hring) in Hjl.
    apply (HQ j Hjl) in HQj as [Hjh Hj6].
    destruct (bcache_section c LBcache (λ s, set_bufs (alter (recycle n) j (bufs s)) s) s)
      as (s1 & E1 & Eb & Ed & E2); [done..|].
    exists j. split_and!; [done..|]. right. split_and!; [done..| |].
    2: { intros l' Hring'. rewrite (ring_unique _ _ _ Hring' Hring). apply find_last in EQ as (l1 & l2 & -> & _ & HQ2).
         exists l1, l2. split; [done|]. intros k' Hk'. specialize (HQ2 k' Hk').
         assert (k' < NBUF)%nat as Hlt by (apply (ring_in _ _ _ Hring); set_solver).
         destruct (decide (k' ∈ held)); [by left|]. destruct (decide (flags (the_buf s k') = 6)); [by right|].
         rewrite (proj2 (HQ k' Hlt)) in HQ2; done. }
    mstep E1. unfold Bc.get_buf, Bc.alter_buf. mred.
    assert (ring (bufs s1) l) as Hring1 by (by rewrite Eb).
    fold (nx (bufs s1) head). mstep (loop_forward s1 l Hring1 1 n). rewrite Eb. fold P. rewrite EP. mred.
    fold (pv (bufs s1) head). mstep (loop_backward s1 l Hring1). rewrite Eb. fold Q. rewrite EQ. mred.
    cbn [bufs set_bufs]. rewrite !list_alter_alter_eq.
    change (set_refcnt 1 ∘ (set_flags 0 ∘ (set_blockno n ∘ set_bdev 1))) with (recycle n).
    assert (∀ B, set_bufs B (set_bufs (alter (set_flags 0 ∘ (set_blockno n ∘ set_bdev 1)) j (bufs s1))
      (set_bufs (alter (set_blockno n ∘ set_bdev 1) j (bufs s1))
      (set_bufs (alter (set_bdev 1) j (bufs s1)) s1))) = set_bufs B s1) as -> by done.
    mstep E2.
    mstep (acquiresleep_b c i (set_bufs (alter (recycle n) j (bufs s)) s) j Hr
      (Hf3 j Hjl) (proj2 (Hidle j Hjl Hjh))). done.
Qed.

(** Effect of updating one buffer. *)
Lemma the_buf_alter s f j k :
  length (bufs s) = S NBUF → (j < NBUF)%nat →
  bufs s !!! k = the_buf s k ∧
  (alter f j (bufs s) !!! k = if decide (k = j) then f (the_buf s j) else the_buf s k).
Proof.
  intros HL Hj. split; [done|]. case_decide as E.
  - subst. rewrite list_lookup_total_alter_eq; [done|lia].
  - by rewrite list_lookup_total_alter_ne.
Qed.

(** The list does not depend on the other fields. *)
Lemma ring_alter B l f j :
  (∀ b, next (f b) = next b ∧ prev (f b) = prev b) → (j < NBUF)%nat → ring B l → ring (alter f j B) l.
Proof.
  intros Hf Hj [HL Hp Hs]. split; [by rewrite length_alter|done|].
  eapply seg_ext; [| |exact Hs]; intros x _.
  - rewrite nx_alter by lia. case_decide; [subst; apply Hf|done].
  - rewrite pv_alter by lia. case_decide; [subst; apply Hf|done].
Qed.

Lemma bslock_take i j k s : bslock k (take_lock i j s) = if decide (k = j) then Sleeplock 1 (mypid i s) else bslock k s.
Proof.
  unfold bslock, slock, take_lock. cbn. case_decide as E.
  - subst. by rewrite lookup_insert_eq.
  - rewrite lookup_insert_ne; [done|]. congruence.
Qed.

(** Everything the invariant says of the buffers, in terms of a change of
    buffer [j] alone. *)
Lemma cont_other s s' n :
  disk s' = disk s → (∀ j, (j < NBUF)%nat → holds s' n j = holds s n j) →
  (∀ j, (j < NBUF)%nat → holds s n j = true → data (the_buf s' j) = data (the_buf s j)) →
  cont s' n = cont s n.
Proof.
  intros Hd Hh Hdata. unfold cont.
  assert (cached s' n = cached s n) as ->.
  { unfold cached. assert (∀ l, (∀ j, j ∈ l → (j < NBUF)%nat) → List.find (holds s' n) l = List.find (holds s n) l) as H.
    { intros l. induction l as [|x l IH]; intros Hl; [done|]. simpl. rewrite Hh by (apply Hl; set_solver).
      destruct (holds s n x); [done|]. apply IH. set_solver. }
    apply H. intros j Hj. rewrite elem_of_seq in Hj. lia. }
  rewrite Hd. destruct (cached s n) as [j|] eqn:E; [|done].
  unfold cached in E. apply List.find_some in E as [Hj Hhj]. rewrite in_seq in Hj. apply Hdata; [lia|done].
Qed.

(** The caller's view of the disk does not change. *)
Record same_view (s s' : bst) : Prop := {
  sv_cont n : 0 ≤ n < Z.of_nat (length (disk s)) → cont s' n = cont s n;
  sv_dirty n : dirty s' n ↔ dirty s n;
  sv_disk : disk s' = disk s;
  sv_writes : writes s' = writes s;
  sv_core : bcore s' = bcore s;
}.

Lemma same_view_trans s1 s2 s3 : same_view s1 s2 → same_view s2 s3 → same_view s1 s3.
Proof.
  intros [A1 A2 A3 A4 A5] [B1 B2 B3 B4 B5].
  split; try congruence.
  - intros n Hn. rewrite B1, A1 by (rewrite ?A3; done). done.
  - intros n. by rewrite B2, A2.
Qed.

(** Identity and contents of a buffer. *)
Definition same_buf (x y : buf) : Prop :=
  flags x = flags y ∧ bdev x = bdev y ∧ blockno x = blockno y ∧ data x = data y.

Lemma bget_hit_inv c i held s j n :
  bc_inv c i held s → (j < NBUF)%nat → j ∉ held → bdev (the_buf s j) = 1 → blockno (the_buf s j) = n →
  let s' := bget_hit i j s in
  bc_inv c i ({[j]} ∪ held) s' ∧ same_view s s' ∧
  (∀ k, (k < NBUF)%nat → same_buf (the_buf s' k) (the_buf s k)).
Proof.
  intros [Hr Hc Hf (l & Hring) Hheld Hidle Huniq Hfl Hcl] Hj Hjh Hdev Hbn s'.
  assert (∀ k, the_buf s' k = if decide (k = j) then set_refcnt (refcnt (the_buf s j) +u 1) (the_buf s j) else the_buf s k) as Hbuf.
  { intros k. destruct Hring as [HL _ _]. by destruct (the_buf_alter s (λ x, set_refcnt (refcnt x +u 1) x) j k HL Hj). }
  assert (∀ k, flags (the_buf s' k) = flags (the_buf s k) ∧ bdev (the_buf s' k) = bdev (the_buf s k) ∧
     blockno (the_buf s' k) = blockno (the_buf s k) ∧ data (the_buf s' k) = data (the_buf s k)) as Hess.
  { intros k. rewrite Hbuf. case_decide; [by subst|done]. }
  assert (∀ k n, holds s' n k = holds s n k) as Hh.
  { intros k m. unfold holds. by destruct (Hess k) as (-> & -> & -> & _). }
  split_and!; [split|split|]; try done.
  - exists l. by apply ring_alter.
  - intros k Hk Hin. rewrite Hbuf. unfold s', bget_hit. rewrite bslock_take. case_decide as E.
    + subst. destruct (Hidle j Hj Hjh) as [-> _]. done.
    + apply Hheld; [done|set_solver].
  - intros k Hk Hni. rewrite Hbuf. unfold s', bget_hit. rewrite bslock_take.
    rewrite !decide_False by set_solver. apply Hidle; [done|set_solver].
  - intros k k' Hk Hk'. destruct (Hess k) as (_ & -> & -> & _), (Hess k') as (_ & -> & -> & _). by apply Huniq.
  - intros k Hk. destruct (Hess k) as (-> & -> & -> & _). by apply Hfl.
  - intros k Hk Hni. destruct (Hess k) as (-> & _ & -> & ->). apply Hcl; [done|set_solver].
  - intros m _. apply cont_other; [done|intros; apply Hh|intros; apply Hess].
  - intros m. unfold dirty. split; intros (k & Hk & H1 & H2 & H3); exists k;
      destruct (Hess k) as (E1 & E2 & E3 & _); split_and!; congruence.
  - intros k _. apply Hess.
Qed.

Lemma bget_miss_inv c i held s j n :
  bc_inv c i held s → (j < NBUF)%nat → j ∉ held → flags (the_buf s j) ≠ 6 →
  (∀ k, (k < NBUF)%nat → ¬ (bdev (the_buf s k) = 1 ∧ blockno (the_buf s k) = n)) →
  let s' := bget_miss i j n s in
  bc_inv c i ({[j]} ∪ held) s' ∧ same_view s s' ∧
  the_buf s' j = recycle n (the_buf s j) ∧ (∀ k, k ≠ j → the_buf s' k = the_buf s k).
Proof.
  intros Hinv Hj Hjh Hj6 Hnone s'. pose proof Hinv as [Hr Hc Hf (l & Hring) Hheld Hidle Huniq Hfl Hcl].
  assert (∀ k, the_buf s' k = if decide (k = j) then recycle n (the_buf s j) else the_buf s k) as Hbuf.
  { intros k. destruct Hring as [HL _ _]. by destruct (the_buf_alter s (recycle n) j k HL Hj). }
  split_and!; [split|split| |]; try done.
  - exists l. by apply ring_alter.
  - intros k Hk Hin. rewrite Hbuf. unfold s', bget_miss. rewrite bslock_take. case_decide as E; [done|].
    apply Hheld; [done|set_solver].
  - intros k Hk Hni. rewrite Hbuf. unfold s', bget_miss. rewrite bslock_take.
    rewrite !decide_False by set_solver. apply Hidle; [done|set_solver].
  - intros k k' Hk Hk'. rewrite !Hbuf. do 2 case_decide; subst; cbn; try done.
    + intros _ H1 H2. by destruct (Hnone k' Hk').
    + intros H1 _ H2. by destruct (Hnone k Hk).
    + by apply Huniq.
  - intros k Hk. rewrite Hbuf. case_decide; [by left|]. by apply Hfl.
  - intros k Hk Hni. rewrite Hbuf. rewrite decide_False by set_solver. apply Hcl; [done|set_solver].
  - intros m Hm. destruct (holds s m j) eqn:Hmj.
    + (* the recycled buffer held a clean copy of [m] *)
      apply holds_true in Hmj as (Hd1 & Hb1 & Hf1).
      rewrite (cont_buf c i held s Hinv m j Hj) by (apply holds_true; done).
      assert (flags (the_buf s j) = 2) as Hf2 by (destruct (Hfl j Hj) as [?|([?|?] & _)]; done).
      rewrite (Hcl j Hj Hjh Hf2), Hb1. unfold cont.
      assert (cached s' m = None) as ->; [|done]. apply cached_none. intros k Hk.
      unfold holds. rewrite Hbuf. case_decide as E; [by rewrite andb_false_r|].
      destruct (holds s m k) eqn:Hhk; [|done]. apply holds_true in Hhk as (H1 & H2 & _).
      destruct E. apply Huniq; try done. congruence.
    + apply cont_other; [done| |].
      * intros k Hk. unfold holds. rewrite Hbuf. case_decide as E; [|done]. subst.
        rewrite andb_false_r. symmetry. exact Hmj.
      * intros k Hk Hhk. rewrite Hbuf. case_decide as E; [subst; congruence|done].
  - intros m. unfold dirty. split; intros (k & Hk & H1 & H2 & H3); exists k.
    + rewrite Hbuf in H1, H2, H3. case_decide; [done|]. done.
    + rewrite Hbuf. rewrite decide_False; [done|]. intros ->. done.
  - rewrite Hbuf. by rewrite decide_True.
  - intros k Hk. rewrite Hbuf. by rewrite decide_False.
Qed.

Lemma alter_buf_run j f s : Bc.alter_buf j f s = Ok tt (set_bufs (alter f j (bufs s)) s).
Proof. done. Qed.

(** Changing the data or the flags of a buffer the process holds. *)
Section held_update.
Context (c i : nat) (held : gset nat) (s : bst) (Hinv : bc_inv c i held s).
Context (j : nat) (Hj : (j < NBUF)%nat) (Hh : j ∈ held) (f : buf → buf).
Hypothesis f_links : ∀ b, next (f b) = next b ∧ prev (f b) = prev b.
Hypothesis f_id : ∀ b, refcnt (f b) = refcnt b ∧ bdev (f b) = bdev b ∧ blockno (f b) = blockno b.
Hypothesis f_flags : flags (f (the_buf s j)) = 2 ∨ flags (f (the_buf s j)) = 6.
Hypothesis j_disk : bdev (the_buf s j) = 1 ∧ 0 ≤ blockno (the_buf s j) < Z.of_nat (length (disk s)).

Let s' := set_bufs (alter f j (bufs s)) s.

Lemma held_update_buf k : the_buf s' k = if decide (k = j) then f (the_buf s j) else the_buf s k.
Proof using Hinv Hj.
  destruct Hinv as [_ _ _ (l & [HL _ _]) _ _ _ _ _]. by destruct (the_buf_alter s f j k HL Hj).
Qed.

Lemma held_update_inv : bc_inv c i held s'.
Proof.
  destruct Hinv as [Hr Hc Hf (l & Hring) Hheld Hidle Huniq Hfl Hcl].
  split; try done.
  - exists l. by apply ring_alter.
  - intros k Hk Hin. rewrite held_update_buf. case_decide as E; [|by apply Hheld].
    subst. destruct (f_id (the_buf s j)) as (-> & _). by apply Hheld.
  - intros k Hk Hni. rewrite held_update_buf. rewrite decide_False by congruence. by apply Hidle.
  - intros k k' Hk Hk'. rewrite !held_update_buf.
    destruct (f_id (the_buf s j)) as (_ & E1 & E2).
    do 2 case_decide; subst; rewrite ?E1, ?E2; by apply Huniq.
  - intros k Hk. rewrite held_update_buf. case_decide; [|by apply Hfl]. right.
    destruct (f_id (the_buf s j)) as (_ & -> & ->). split; [done|]. apply j_disk.
  - intros k Hk Hni. rewrite held_update_buf. rewrite decide_False by congruence. by apply Hcl.
Qed.

Lemma held_update_cont n :
  cont s' n = if decide (n = blockno (the_buf s j)) then data (f (the_buf s j)) else cont s n.
Proof.
  pose proof held_update_inv as Hinv'. case_decide as E.
  - rewrite (cont_buf c i held s' Hinv' n j Hj), held_update_buf; [by rewrite decide_True|].
    apply holds_true. rewrite held_update_buf, decide_True by done.
    destruct (f_id (the_buf s j)) as (_ & -> & ->), f_flags as [-> | ->]; split_and!; try done; apply j_disk.
  - apply cont_other; [done| |].
    + intros k Hk. unfold holds. rewrite held_update_buf. case_decide; [|done]. subst.
      destruct (f_id (the_buf s j)) as (_ & -> & ->). rewrite (proj2 (Z.eqb_neq _ n)) by done.
      by rewrite !andb_false_r.
    + intros k Hk Hhk. rewrite held_update_buf. case_decide; [|done]. subst.
      apply holds_true in Hhk as (_ & ? & _). congruence.
Qed.

Lemma held_update_dirty n :
  dirty s' n ↔ if decide (n = blockno (the_buf s j)) then flags (f (the_buf s j)) = 6 else dirty s n.
Proof.
  destruct Hinv as [_ _ _ _ _ _ Huniq _ _]. destruct (f_id (the_buf s j)) as (_ & E1 & E2).
  destruct j_disk as [Hdev _]. unfold dirty. case_decide as E.
  - split.
    + intros (k & Hk & H1 & H2 & H3). rewrite held_update_buf in H1, H2, H3. case_decide; [done|].
      assert (k = j) by (apply Huniq; congruence). done.
    + intros H6. exists j. rewrite held_update_buf, decide_True, E1, E2 by done. done.
  - split; intros (k & Hk & H1 & H2 & H3); exists k; rewrite held_update_buf in *.
    + case_decide; [subst; congruence|done].
    + rewrite decide_False; [done|]. intros ->. congruence.
Qed.
End held_update.

Lemma iderw_read c i held s j n :
  bc_inv c i held s → (j < NBUF)%nat → j ∈ held → flags (the_buf s j) = 0 → bdev (the_buf s j) = 1 →
  blockno (the_buf s j) = n → 0 ≤ n < Z.of_nat (length (disk s)) →
  Bc.iderw j s =
    Ok tt (set_bufs (alter (λ x, set_flags (Z.lor (flags x) 2) (set_data (disk s !!! Z.to_nat n) x)) j (bufs s)) s).
Proof.
  intros Hinv Hj Hh Hfl Hd Hb Hn. unfold Bc.iderw, Bc.get_buf. mstep (holding_b c i held s j Hinv Hj Hh).
  cbn [negb]. mred. fold (the_buf s j). rewrite Hfl, Hd, Hb.
  change (Z.land 0 (Z.lor B_VALID B_DIRTY) =? B_VALID) with false. change (negb (1 =? 1)) with false.
  change (negb (Z.land 0 B_DIRTY =? 0)) with false. cbn iota. mred. rewrite (proj2 (Z.leb_gt _ n)) by lia. mred.
  mstep (alter_buf_run j (set_data (disk s !!! Z.to_nat n)) s). rewrite alter_buf_run.
  cbn [bufs set_bufs]. by rewrite list_alter_alter_eq.
Qed.

(** Reading the block into a fresh buffer [j]. *)
Lemma fill_run c i held s j n :
  bc_inv c i held s → (j < NBUF)%nat → j ∈ held → flags (the_buf s j) = 0 → bdev (the_buf s j) = 1 →
  blockno (the_buf s j) = n → 0 ≤ n < Z.of_nat (length (disk s)) →
  ∃ s', Bc.iderw j s = Ok tt s' ∧ bc_inv c i held s' ∧ same_view s s' ∧ holds s' n j = true ∧
    data (the_buf s' j) = cont s n ∧ (∀ k, k ≠ j → the_buf s' k = the_buf s k).
Proof.
  intros Hinv Hj Hin F Hd Hb Hn. eexists. split; [by apply (iderw_read c i held s j n)|].
  set (f := λ x, set_flags _ _).
  assert (flags (f (the_buf s j)) = 2) as Hf2 by (unfold f; cbn; by rewrite F).
  assert (bdev (the_buf s j) = 1 ∧ 0 ≤ blockno (the_buf s j) < Z.of_nat (length (disk s))) as Hjd by (by rewrite Hb).
  pose proof (held_update_inv c i _ s Hinv j Hj Hin f ltac:(done) ltac:(done) (or_introl Hf2) Hjd) as Hinv2.
  pose proof (held_update_cont c i _ s Hinv j Hj Hin f ltac:(done) ltac:(done) (or_introl Hf2) Hjd) as Hc2.
  pose proof (held_update_dirty c i _ s Hinv j Hj f ltac:(done) Hjd) as Hd2.
  pose proof (held_update_buf c i _ s Hinv j Hj f) as Hb2. rewrite Hb in Hc2, Hd2.
  assert (cont s n = disk s !!! Z.to_nat n) as Hcn.
  { unfold cont. assert (cached s n = None) as ->; [|done]. apply cached_none. intros k Hk.
    destruct (holds s n k) eqn:Hhk; [|done]. apply holds_true in Hhk as (H1 & H2 & H3).
    assert (k = j) by (apply (bi_uniq _ _ _ _ Hinv); congruence). congruence. }
  split_and!; [done|split; try done|..].
  - intros m Hm. rewrite Hc2. case_decide; [by subst m|done].
  - intros m. rewrite Hd2. case_decide; [|done]. rewrite Hf2. split; [done|].
    intros (k & Hk & H1 & H2 & H3). assert (k = j) by (apply (bi_uniq _ _ _ _ Hinv); congruence). congruence.
  - apply holds_true. rewrite Hb2, decide_True by done. unfold f. cbn. by rewrite Hd, Hb, F.
  - rewrite Hb2, decide_True by done. by rewrite Hcn.
  - intros k Hk. rewrite Hb2. by rewrite decide_False.
Qed.

Lemma bread_run c i held s n :
  bc_inv c i held s → 0 ≤ n < Z.of_nat (length (disk s)) →
  (∀ j, j ∈ held → ¬ (bdev (the_buf s j) = 1 ∧ blockno (the_buf s j) = n)) →
  (∃ j, (j < NBUF)%nat ∧ bdev (the_buf s j) = 1 ∧ blockno (the_buf s j) = n) ∨
    (∃ k, (k < NBUF)%nat ∧ k ∉ held ∧ flags (the_buf s k) ≠ 6) →
  ∃ j s', Bc.bread 1 n s = Ok j s' ∧ (j < NBUF)%nat ∧ j ∉ held ∧ bc_inv c i ({[j]} ∪ held) s' ∧
    same_view s s' ∧ holds s' n j = true ∧ data (the_buf s' j) = cont s n ∧
    (∀ k, (k < NBUF)%nat → k ∈ held → same_buf (the_buf s' k) (the_buf s k)).
Proof.
  intros Hinv Hn Hnh Hav. unfold Bc.bread.
  destruct (bget_run c i held s n Hinv Hnh Hav) as (j & Hj & Hjh & [(Hd & Hb & E)|(Hnone & Hj6 & E & _)]).
  - destruct (bget_hit_inv c i held s j n Hinv Hj Hjh Hd Hb) as (Hinv1 & Hv & Hess).
    set (s1 := bget_hit i j s) in *. mstep E. unfold Bc.get_buf. mred. fold (the_buf s1 j).
    destruct (Hess j Hj) as (Ef & Ed & Eb & Edata). pose proof (sv_disk _ _ Hv) as Edk.
    destruct (decide (flags (the_buf s j) = 0)) as [F|F].
    + rewrite Ef, F. cbn [Z.land Z.eqb]. mred.
      destruct (fill_run c i _ s1 j n Hinv1 Hj ltac:(set_solver)) as (s2 & E2 & Hinv2 & Hv2 & Hh2 & Hd2 & Ho2);
        [congruence..|by rewrite Edk|]. mstep E2. exists j, s2.
      split_and!; try done; [by eapply same_view_trans|by rewrite Hd2, (sv_cont _ _ Hv)|].
      intros k Hk Hkin. rewrite Ho2 by congruence. by apply Hess.
    + assert (Z.land (flags (the_buf s j)) B_VALID =? 0 = false) as HV.
      { by destruct (bi_flags _ _ _ _ Hinv j Hj) as [?|([-> | ->] & _)]. }
      rewrite Ef, HV. mred. exists j, s1.
      assert (holds s n j = true) as Hhj by (apply holds_true; done).
      split_and!; try done.
      * apply holds_true. rewrite Ef, Ed, Eb. done.
      * rewrite Edata. symmetry. by apply (cont_buf c i held).
      * intros k Hk _. by apply Hess.
  - destruct (bget_miss_inv c i held s j n Hinv Hj Hjh Hj6 Hnone) as (Hinv1 & Hv & Ej & Eo).
    set (s1 := bget_miss i j n s) in *. mstep E. unfold Bc.get_buf. mred. fold (the_buf s1 j). rewrite Ej.
    cbn [recycle flags set_refcnt set_flags Z.land Z.eqb]. mred. pose proof (sv_disk _ _ Hv) as Edk.
    destruct (fill_run c i _ s1 j n Hinv1 Hj ltac:(set_solver)) as (s2 & E2 & Hinv2 & Hv2 & Hh2 & Hd2 & Ho2);
      [by rewrite Ej..|by rewrite Edk|]. mstep E2. exists j, s2.
    split_and!; try done; [by eapply same_view_trans|by rewrite Hd2, (sv_cont _ _ Hv)|].
    intros k Hk Hkin. rewrite Ho2, Eo by congruence. done.
Qed.

(** The disk after a write to block [n]. *)
Definition disk_write (n : Z) (d : block) (s : bst) : bst :=
  set_writes (writes s ++ [(n, d)]) (set_disk (<[Z.to_nat n := d]> (disk s)) s).

Lemma bwrite_state c i held s j n :
  bc_inv c i held s → (j < NBUF)%nat → j ∈ held → holds s n j = true →
  Bc.bwrite j s = Ok tt (disk_write n (data (the_buf s j)) (set_bufs (alter (set_flags 2) j (bufs s)) s)).
Proof.
  intros Hinv Hj Hh (Hd & Hb & Hf)%holds_true. unfold Bc.bwrite.
  destruct (bi_flags _ _ _ _ Hinv j Hj) as [?|(Hfl & _ & Hn)]; [done|]. rewrite Hb in Hn.
  mstep (holding_b c i held s j Hinv Hj Hh). cbn [negb].
  set (f := λ x, set_flags (Z.lor (flags x) B_DIRTY) x).
  assert (flags (f (the_buf s j)) = 6) as Hf6 by (unfold f; cbn; by destruct Hfl as [-> | ->]).
  mstep (alter_buf_run j f s).
  assert (bc_inv c i held (set_bufs (alter f j (bufs s)) s)) as Hinv1.
  { apply held_update_inv; try done; [by right|by rewrite Hb]. }
  pose proof (held_update_buf c i held s Hinv j Hj f j) as Ej. rewrite decide_True in Ej by done.
  set (s1 := set_bufs _ s) in *. unfold Bc.iderw, Bc.get_buf.
  mstep (holding_b c i held s1 j Hinv1 Hj Hh). cbn [negb]. mred. fold (the_buf s1 j).
  rewrite Ej, Hf6. change (bdev (f (the_buf s j))) with (bdev (the_buf s j)).
  change (blockno (f (the_buf s j))) with (blockno (the_buf s j)). rewrite Hd, Hb.
  change (Z.land 6 (Z.lor B_VALID B_DIRTY) =? B_VALID) with false. change (negb (1 =? 1)) with false.
  change (negb (Z.land 6 B_DIRTY =? 0)) with true. cbn iota. mred. change (disk s1) with (disk s). rewrite (proj2 (Z.leb_gt _ n)) by lia. mred.
  mstep (alter_buf_run j (λ x, set_flags (Z.land (flags x) (Z.lnot 4)) x) s1). mred. rewrite alter_buf_run.
  unfold s1. cbn [bufs set_bufs set_disk set_writes disk writes bs]. rewrite !list_alter_alter_eq.
  unfold disk_write, set_bufs, set_disk, set_writes. cbn. f_equal. f_equal.
  destruct (bi_ring _ _ _ _ Hinv) as (l & [HL _ _]).
  assert (bufs s !! j = Some (the_buf s j)) as Hlk by (apply list_lookup_lookup_total_lt; lia).
  rewrite !(alter_lookup_insert _ _ _ _ Hlk). f_equal. unfold f. cbn. unfold set_flags; cbn. f_equal.
  by destruct Hfl as [-> | ->].
Qed.

Lemma bwrite_run c i held s j n :
  bc_inv c i held s → (j < NBUF)%nat → j ∈ held → holds s n j = true →
  ∃ s', Bc.bwrite j s = Ok tt s' ∧ bc_inv c i held s' ∧
    disk s' = <[Z.to_nat n := data (the_buf s j)]> (disk s) ∧
    writes s' = writes s ++ [(n, data (the_buf s j))] ∧ bcore s' = bcore s ∧
    (∀ m, 0 ≤ m < Z.of_nat (length (disk s)) → cont s' m = cont s m) ∧
    (∀ m, dirty s' m ↔ dirty s m ∧ m ≠ n) ∧
    the_buf s' j = set_flags 2 (the_buf s j) ∧ (∀ k, k ≠ j → the_buf s' k = the_buf s k).
Proof.
  intros Hinv Hj Hh Hhj. eexists. split; [by apply (bwrite_state c i held s j n)|].
  pose proof Hhj as (Hd & Hb & Hf)%holds_true.
  destruct (bi_flags _ _ _ _ Hinv j Hj) as [?|(Hfl & _ & Hn)]; [done|].
  assert (bdev (the_buf s j) = 1 ∧ 0 ≤ blockno (the_buf s j) < Z.of_nat (length (disk s))) as Hjd by done.
  set (f := set_flags 2).
  pose proof (held_update_inv c i held s Hinv j Hj Hh f ltac:(done) ltac:(done) (or_introl eq_refl) Hjd) as Hinv1.
  pose proof (held_update_cont c i held s Hinv j Hj Hh f ltac:(done) ltac:(done) (or_introl eq_refl) Hjd) as Hc1.
  pose proof (held_update_dirty c i held s Hinv j Hj f ltac:(done) Hjd) as Hd1.
  pose proof (held_update_buf c i held s Hinv j Hj f) as Hbuf.
  set (s1 := set_bufs (alter f j (bufs s)) s) in *. rewrite Hb in Hc1, Hd1, Hn.
  assert (∀ k, the_buf (disk_write n (data (the_buf s j)) s1) k = the_buf s1 k) as Hsame by done.
  split_and!; try done.
  - destruct Hinv1 as [Hr Hc Hfr Hring Hheld Hidle Huniq Hfl1 Hcl1]. split; try done.
    + intros k Hk. cbn [disk disk_write set_writes set_disk]. rewrite length_insert. by apply Hfl1.
    + intros k Hk Hni Hf2. cbn [disk disk_write set_writes set_disk].
      destruct (decide (Z.to_nat (blockno (the_buf s1 k)) = Z.to_nat n)) as [En|En].
      * destruct (Hfl1 k Hk) as [F|(_ & Hk1 & Hkn)]; [rewrite Hsame in Hf2; congruence|].
        destruct Hni. assert (k = j) as ->; [|done]. apply Huniq; try done.
        { rewrite Hbuf, decide_True by done. done. }
        rewrite (Hbuf j), decide_True by done. change (blockno (f (the_buf s j))) with (blockno (the_buf s j)).
        rewrite Hb. lia.
      * rewrite list_lookup_total_insert_ne by done. by apply Hcl1.
  - intros m Hm. assert (cont (disk_write n (data (the_buf s j)) s1) m = cont s1 m) as ->.
    { unfold cont. change (cached (disk_write n (data (the_buf s j)) s1) m) with (cached s1 m).
      destruct (cached s1 m) as [k|] eqn:Ek; [done|]. cbn [disk disk_write set_writes set_disk].
      rewrite list_lookup_total_insert_ne; [done|]. intros E.
      assert (m = n) as -> by lia.
      assert (holds s1 n j = true) as Hh1 by (apply holds_true; rewrite Hbuf, decide_True by done; done).
      rewrite (proj1 (cached_none s1 n) Ek j Hj) in Hh1. done. }
    rewrite Hc1. case_decide; [|done]. subst m. symmetry. by apply (cont_buf c i held).
  - intros m. change (dirty (disk_write n (data (the_buf s j)) s1) m) with (dirty s1 m). rewrite Hd1.
    case_decide; [subst; cbn; naive_solver lia|naive_solver].
  - rewrite Hsame, Hbuf. by rewrite decide_True.
  - intros k Hk. rewrite Hsame, Hbuf. by rewrite decide_False.
Qed.

Definition brelse_bufs (j : nat) (B : list buf) : list buf :=
  link j (unlink j (alter (λ x, set_refcnt (refcnt x -u 1) x) j B)).

Lemma brelse_state c i held s j :
  bc_inv c i held s → (j < NBUF)%nat → j ∈ held →
  Bc.brelse j s =
    Ok tt (set_bs (set_slock (LBuf j) (Sleeplock 0 0) (bs s)) (set_bufs (brelse_bufs j (bufs s)) s)).
Proof.
  intros Hinv Hj Hh. pose proof Hinv as [Hr Hc (Hf1 & Hf2 & Hf3) (l & Hring) Hheld _ _ _ _].
  unfold Bc.brelse. mstep (holding_b c i held s j Hinv Hj Hh). cbn [negb].
  set (s1 := set_bs (set_slock (LBuf j) (Sleeplock 0 0) (bs s)) s).
  assert (releasesleep (LBuf j) s = Ok tt s1) as E1.
  { apply lift_b. by apply (releasesleep_calm c i); auto. }
  mstep E1. pose proof Hr as [Hb _ _].
  destruct (bcache_section c LBcache (λ s, set_bufs (brelse_bufs j (bufs s)) s) s1)
    as (s2 & E2 & Eb & _ & E3); [done..|].
  mstep E2. mstep (alter_buf_run j (λ x, set_refcnt (refcnt x -u 1) x) s2). unfold Bc.get_buf. mred.
  cbn [bufs set_bufs]. assert (refcnt (alter (λ x, set_refcnt (refcnt x -u 1) x) j (bufs s2) !!! j) = 0) as ->.
  { rewrite Eb. destruct Hring as [HL _ _]. rewrite list_lookup_total_alter_eq by (cbn; lia). cbn.
    destruct (Hheld j Hj Hh) as [E _]. unfold the_buf in E. by rewrite E. }
  cbn [Z.eqb]. unfold Bc.link_front, Bc.link_front_done, Bc.get_buf, Bc.alter_buf. mred.
  exact E3.
Qed.

Lemma brelse_run c i held s j :
  bc_inv c i held s → (j < NBUF)%nat → j ∈ held →
  (flags (the_buf s j) = 2 → data (the_buf s j) = disk s !!! Z.to_nat (blockno (the_buf s j))) →
  ∃ s', Bc.brelse j s = Ok tt s' ∧ bc_inv c i (held ∖ {[j]}) s' ∧ same_view s s' ∧
    (∀ k, (k < NBUF)%nat → same_buf (the_buf s' k) (the_buf s k)).
Proof.
  intros Hinv Hj Hh Hcln. eexists. split; [by apply (brelse_state c i held)|].
  pose proof Hinv as [Hr Hc Hf (l & Hring) Hheld Hidle Huniq Hfl Hcl].
  set (s' := set_bs _ _). pose proof Hring as [HL _ _].
  assert (∀ k, (k < NBUF)%nat → ess (the_buf s' k) = ess (if decide (k = j)
    then set_refcnt (refcnt (the_buf s j) -u 1) (the_buf s j) else the_buf s k)) as Hess.
  { intros k Hk. unfold the_buf at 1, s'. cbn [bufs set_bs set_bufs]. unfold brelse_bufs.
    rewrite ess_link, ess_unlink. f_equal. by destruct (the_buf_alter s (λ x, set_refcnt (refcnt x -u 1) x) j k HL Hj). }
  assert (∀ k, (k < NBUF)%nat → same_buf (the_buf s' k) (the_buf s k)) as Hsame.
  { intros k Hk. specialize (Hess k Hk). unfold ess in Hess. unfold same_buf.
    case_decide; cbn in Hess; [subst|]; injection Hess as -> -> -> _ ->; done. }
  assert (∀ k n, (k < NBUF)%nat → holds s' n k = holds s n k) as Hh'.
  { intros k m Hk. unfold holds. by destruct (Hsame k Hk) as (-> & -> & -> & _). }
  split_and!; [split|split|]; try done.
  - destruct (list_elem_of_split l j) as (l1 & l2 & ->); [by apply (ring_in _ _ _ Hring)|].
    exists (j :: l1 ++ l2). apply ring_front. by apply ring_alter.
  - intros k Hk Hin. assert (k ≠ j ∧ k ∈ held) as [Hkj Hkh] by set_solver.
    destruct (Hheld k Hk Hkh) as [Er Es]. split.
    + specialize (Hess k Hk). rewrite decide_False in Hess by done. unfold ess in Hess. congruence.
    + transitivity (bslock k s); [|exact Es]. unfold bslock, slock, s', set_bs, set_slock, set_slocks. cbn.
      rewrite lookup_insert_ne; [done|congruence].
  - intros k Hk Hni. destruct (decide (k = j)) as [->|Hkj].
    + split.
      * specialize (Hess j Hk). rewrite decide_True in Hess by done. unfold ess in Hess. cbn in Hess.
        destruct (Hheld j Hj Hh) as [Er _]. rewrite Er in Hess. by injection Hess as _ _ _ -> _.
      * unfold bslock, slock, s', set_bs, set_slock, set_slocks. cbn. by rewrite lookup_insert_eq.
    + destruct (Hidle k Hk ltac:(set_solver)) as [Er Es]. split.
      * specialize (Hess k Hk). rewrite decide_False in Hess by done. unfold ess in Hess. congruence.
      * rewrite <- Es. unfold bslock, slock, s', set_bs, set_slock, set_slocks. cbn.
        rewrite lookup_insert_ne; [done|congruence].
  - intros k k' Hk Hk'. destruct (Hsame k Hk) as (_ & -> & -> & _), (Hsame k' Hk') as (_ & -> & -> & _). by apply Huniq.
  - intros k Hk. destruct (Hsame k Hk) as (-> & -> & -> & _). by apply Hfl.
  - intros k Hk Hni. destruct (Hsame k Hk) as (-> & _ & -> & ->).
    destruct (decide (k = j)) as [->|Hkj]; [done|]. apply Hcl; [done|set_solver].
  - intros m _. apply cont_other; [done|intros; by apply Hh'|intros; by apply Hsame].
  - intros m. unfold dirty. split; intros (k & Hk & H1 & H2 & H3); exists k;
      destruct (Hsame k Hk) as (E1 & E2 & E3 & _); split_and!; congruence.
Qed.

(** ** The cache's contract *)

(** C28 [functional]: bread() returns the current contents of a block.  If block
    [n] is on the disk, not already locked by the caller, and either cached or
    some buffer is neither locked nor pinned, then bread() returns a locked buffer
    that holds the block's current contents (the cached ones if there are any,
    else the disk's); the caller's view of every block, the disk and the buffers
    it holds are unchanged, and the cache invariant is kept. *)
Theorem bread_current c i held s n :
  bc_inv c i held s → 0 ≤ n < Z.of_nat (length (disk s)) →
  (∀ j, j ∈ held → ¬ (bdev (the_buf s j) = 1 ∧ blockno (the_buf s j) = n)) →
  (∃ j, (j < NBUF)%nat ∧ bdev (the_buf s j) = 1 ∧ blockno (the_buf s j) = n) ∨
    (∃ k, (k < NBUF)%nat ∧ k ∉ held ∧ flags (the_buf s k) ≠ 6) →
  ∃ j s', Bc.bread 1 n s = Ok j s' ∧ (j < NBUF)%nat ∧ j ∉ held ∧ bc_inv c i ({[j]} ∪ held) s' ∧
    same_view s s' ∧ holds s' n j = true ∧ data (the_buf s' j) = cont s n ∧
    (∀ k, (k < NBUF)%nat → k ∈ held → same_buf (the_buf s' k) (the_buf s k)).
Proof. apply bread_run. Qed.

(** Replacement is least recently used.  Let [l] be the list of
    buffers and block [n] not be cached.  Then bget() takes the last buffer of [l]
    that is neither locked nor pinned: every buffer behind it is.  When brelse()
    releases it the buffer moves to the front and the others keep their order. *)
Theorem bcache_lru c i held s n l :
  bc_inv c i held s → (∀ j, j ∈ held → (j < NBUF)%nat) → ring (bufs s) l →
  (∀ k, (k < NBUF)%nat → ¬ (bdev (the_buf s k) = 1 ∧ blockno (the_buf s k) = n)) →
  (∃ k, (k < NBUF)%nat ∧ k ∉ held ∧ flags (the_buf s k) ≠ 6) →
  ∃ l1 j l2 s1 s2, l = l1 ++ j :: l2 ∧ j ∉ held ∧ flags (the_buf s j) ≠ 6 ∧
    (∀ k, k ∈ l2 → k ∈ held ∨ flags (the_buf s k) = 6) ∧
    Bc.bget 1 n s = Ok j s1 ∧ ring (bufs s1) l ∧ Bc.brelse j s1 = Ok tt s2 ∧ ring (bufs s2) (j :: l1 ++ l2).
Proof.
  intros Hinv Hhl Hring Hnone Hav.
  destruct (bget_run c i held s n Hinv) as (j & Hj & Hjh & [(Hd & Hb & _)|(_ & Hj6 & E & Hl)]);
    [auto|by right|by destruct (Hnone j)|].
  destruct (bget_miss_inv c i held s j n Hinv Hj Hjh Hj6 Hnone) as (Hinv1 & _).
  destruct (Hl l Hring) as (l1 & l2 & -> & Hl2). set (s1 := bget_miss i j n s) in *.
  assert (ring (bufs s1) (l1 ++ j :: l2)) as Hring1 by (by apply ring_alter).
  eexists l1, j, l2, s1, _. split_and!; try done.
  - apply (brelse_state c i _ s1 j Hinv1 Hj). set_solver.
  - apply ring_front. by apply ring_alter.
Qed.

(** A cache as binit() leaves it, over an empty disk of 50 blocks. *)
Definition bst_blank : bst :=
  Bst (Sst kst0 ∅) (replicate (S NBUF) buf0) (replicate 50 (replicate (Z.to_nat BSIZE) 0)) [].
Definition bst0 : bst := match Bc.binit bst_blank with Ok _ s => s | _ => bst_blank end.
#[global] Strategy 100 [bst0].

Lemma below_NBUF (P : nat → Prop) : Forall P (seq 0 NBUF) → ∀ j, (j < NBUF)%nat → P j.
Proof. rewrite Forall_forall. intros H j Hj. apply H. apply elem_of_seq. lia. Qed.

(** The state of a cache of [n] clean, unlocked buffers, by computation. *)
Lemma bst0_ring : ring (bufs bst0) (reverse (seq 0 NBUF)).
Proof. split; [by vm_compute|apply reverse_Permutation|vm_compute]. repeat split. Qed.

Lemma bst0_inv : bc_inv 1 0 ∅ bst0.
Proof.
  split.
  - split; [split; [by vm_compute|]|by vm_compute|vm_compute; lia].
    eexists. split; [vm_compute; reflexivity|]. vm_compute. naive_solver.
  - refine (bool_decide_eq_true_1 _ _). by vm_compute.
  - split_and!; [by vm_compute..|]. apply below_NBUF. unfold is_free. refine (bool_decide_eq_true_1 _ _). by vm_compute.
  - exists (reverse (seq 0 NBUF)). apply bst0_ring.
  - intros j _ Hj. by apply not_elem_of_empty in Hj.
  - intros j Hj _. revert j Hj. apply below_NBUF. refine (bool_decide_eq_true_1 _ _). by vm_compute.
  - intros j k Hj Hk Hd. exfalso. revert j Hj Hd.
    apply (below_NBUF (λ j, bdev (the_buf bst0 j) ≠ 1)). refine (bool_decide_eq_true_1 _ _). by vm_compute.
  - intros j Hj. left. revert j Hj. apply below_NBUF. refine (bool_decide_eq_true_1 _ _). by vm_compute.
  - intros j Hj _ Hf. exfalso. revert j Hj Hf.
    apply (below_NBUF (λ j, flags (the_buf bst0 j) ≠ 2)). refine (bool_decide_eq_true_1 _ _). by vm_compute.
Qed.

Lemma bread_current_witness :
  ∃ j s', Bc.bread 1 40 bst0 = Ok j s' ∧ data (the_buf s' j) = replicate (Z.to_nat BSIZE) 0.
Proof.
  destruct (bread_current 1 0 ∅ bst0 40 bst0_inv) as (j & s' & E & _ & _ & _ & _ & _ & Hd & _).
  - vm_compute. split; [discriminate|reflexivity].
  - intros j Hj. apply not_elem_of_empty in Hj. destruct Hj.
  - right. exists 0%nat. split_and!; [unfold NBUF; lia|apply not_elem_of_empty|vm_compute; discriminate].
  - exists j, s'. split; [exact E|]. rewrite Hd. vm_compute. reflexivity.
Defined.

Lemma bcache_lru_witness :
  ∃ l1 j l2 s1 s2, reverse (seq 0 NBUF) = l1 ++ j :: l2 ∧ Bc.bget 1 40 bst0 = Ok j s1 ∧
    Bc.brelse j s1 = Ok tt s2 ∧ ring (bufs s2) (j :: l1 ++ l2).
Proof.
  destruct (bcache_lru 1 0 ∅ bst0 40 (reverse (seq 0 NBUF)) bst0_inv)
    as (l1 & j & l2 & s1 & s2 & H1 & _ & _ & _ & H2 & _ & H3 & H4).
  - intros j Hj. apply not_elem_of_empty in Hj. destruct Hj.
  - exact bst0_ring.
  - apply (below_NBUF (λ k, ¬ (bdev (the_buf bst0 k) = 1 ∧ blockno (the_buf bst0 k) = 40))).
    refine (bool_decide_eq_true_1 _ _). vm_compute. reflexivity.
  - exists 0%nat. split_and!; [unfold NBUF; lia|apply not_elem_of_empty|vm_compute; discriminate].
  - exists l1, j, l2, s1, s2. split_and!; assumption.
Defined.
