(* ===== verification/Log.v ===== *)
(** * The write-ahead log: log.c

    The log header is kept in memory in [lh_n] and [lh_block] and, on disk, in
    the words of the log's first block.  [readsb] of fs.c is here because
    initlog() calls it. *)

From S2P Require Import Prelude Machine Proc CString Kalloc Sleeplock Bio.
Open Scope kernel_scope.

Definition LOGSIZE : nat := 30.

(** ** Words of a block *)

Definition get_word (d : block) (k : nat) : Z :=
  d !!! (4 * k)%nat + d !!! (4 * k + 1)%nat * 2 ^ 8 + d !!! (4 * k + 2)%nat * 2 ^ 16
  + d !!! (4 * k + 3)%nat * 2 ^ 24.
Definition set_word (k : nat) (v : Z) (d : block) : block :=
  <[(4 * k + 3)%nat := u8 (Z.shiftr v 24)]> (<[(4 * k + 2)%nat := u8 (Z.shiftr v 16)]>
    (<[(4 * k + 1)%nat := u8 (Z.shiftr v 8)]> (<[(4 * k)%nat := u8 v]> d))).

(** fs.h: the fields of struct superblock, in order. *)
Record superblock := Superblock {
  sb_size : Z; sb_nblocks : Z; sb_ninodes : Z; sb_nlog : Z; sb_logstart : Z; sb_inodestart : Z; sb_bmapstart : Z
}.

Record logstate := Logstate {
  lstart : Z; lsize : Z; outstanding : Z; committing : Z; ldev : Z; lh_n : Z; lh_block : list Z
}.
Definition set_lstart (v : Z) (l : logstate) : logstate :=
  Logstate v (lsize l) (outstanding l) (committing l) (ldev l) (lh_n l) (lh_block l).
Definition set_lsize (v : Z) (l : logstate) : logstate :=
  Logstate (lstart l) v (outstanding l) (committing l) (ldev l) (lh_n l) (lh_block l).
Definition set_outstanding (v : Z) (l : logstate) : logstate :=
  Logstate (lstart l) (lsize l) v (committing l) (ldev l) (lh_n l) (lh_block l).
Definition set_committing (v : Z) (l : logstate) : logstate :=
  Logstate (lstart l) (lsize l) (outstanding l) v (ldev l) (lh_n l) (lh_block l).
Definition set_ldev (v : Z) (l : logstate) : logstate :=
  Logstate (lstart l) (lsize l) (outstanding l) (committing l) v (lh_n l) (lh_block l).
Definition set_lh_n (v : Z) (l : logstate) : logstate :=
  Logstate (lstart l) (lsize l) (outstanding l) (committing l) (ldev l) v (lh_block l).
Definition set_lh_block (v : list Z) (l : logstate) : logstate :=
  Logstate (lstart l) (lsize l) (outstanding l) (committing l) (ldev l) (lh_n l) v.

Record lst := Lst { lb : bst; log : logstate }.
Definition set_lb (v : bst) (s : lst) : lst := Lst v (log s).
Definition set_log (v : logstate) (s : lst) : lst := Lst (lb s) v.

#[global] Instance lens_bst S `{Lens S lst} : Lens S bst.
Proof.
  refine {| view s := lb (view s); upd k s := upd (set_lb k (view s)) s |}.
  - intros. by rewrite view_upd.
  - intros s. assert (∀ x, set_lb (lb x) x = x) as -> by (by intros []). apply upd_view.
  - intros. by rewrite view_upd, upd_upd.
Defined.

Module Lg.

Definition get_log : M lst logstate := gets log.
Definition mod_log (f : logstate → logstate) : M lst unit := modify (λ s, set_log (f (log s)) s).

(** [for(i = 0; i < n; i++) body(i)], from index [i] with [n] rounds left. *)
Fixpoint for_each (body : nat → M lst unit) (i n : nat) : M lst unit :=
  match n with
  | O => mret tt
  | S n => body i;; for_each body (S i) n
  end.

Definition install_one (tail : nat) : M lst unit :=
  l ← get_log;
  lbuf ← bread (ldev l) (lstart l + Z.of_nat tail + 1);
  dbuf ← bread (ldev l) (lh_block l !!! tail);
  b ← get_buf lbuf;
  alter_buf dbuf (set_data (data b));;
  bwrite dbuf;;
  brelse lbuf;;
  brelse dbuf.

Definition install_trans : M lst unit :=
  l ← get_log;
  for_each install_one 0 (Z.to_nat (lh_n l)).

Definition read_head : M lst unit :=
  l ← get_log;
  b ← bread (ldev l) (lstart l);
  x ← get_buf b;
  mod_log (set_lh_n (s32 (get_word (data x) 0)));;
  l ← get_log;
  for_each (λ i, mod_log (λ l, set_lh_block (<[i := s32 (get_word (data x) (S i))]> (lh_block l)) l))
    0 (Z.to_nat (lh_n l));;
  brelse b.

Definition write_head : M lst unit :=
  l ← get_log;
  b ← bread (ldev l) (lstart l);
  alter_buf b (λ x, set_data (set_word 0 (lh_n l) (data x)) x);;
  for_each (λ i, alter_buf b (λ x, set_data (set_word (S i) (lh_block l !!! i) (data x)) x))
    0 (Z.to_nat (lh_n l));;
  bwrite b;;
  brelse b.

Definition recover_from_log : M lst unit :=
  read_head;;
  install_trans;;
  mod_log (set_lh_n 0);;
  write_head.

(** fs.c *)
Definition readsb (dev : Z) : M lst superblock :=
  bp ← bread dev 1;
  x ← get_buf bp;
  let w := get_word (data x) in
  brelse bp;;
  mret (Superblock (w 0%nat) (w 1%nat) (w 2%nat) (w 3%nat) (w 4%nat) (w 5%nat) (w 6%nat)).

(** sizeof(struct logheader) is 124, below BSIZE. *)
Definition initlog (dev : Z) : M lst unit :=
  if BSIZE <=? 4 * (Z.of_nat LOGSIZE + 1) then panic "initlog: too big logheader" else
  initlock LLog;;
  sb ← readsb dev;
  mod_log (set_lstart (s32 (sb_logstart sb)));;
  mod_log (set_lsize (s32 (sb_nlog sb)));;
  mod_log (set_ldev dev);;
  recover_from_log.

Definition begin_op_body (_ : unit) : M lst (unit + unit) :=
  l ← get_log;
  if negb (committing l =? 0) then sleep ChLog (Some LLog);; mret (inl tt)
  else if Z.of_nat LOGSIZE <? lh_n l + (outstanding l + 1) * MAXOPBLOCKS then
    sleep ChLog (Some LLog);; mret (inl tt)
  else
    mod_log (λ l, set_outstanding (outstanding l +i 1) l);;
    release LLog;;
    mret (inr tt).

Definition begin_op : M lst unit :=
  acquire LLog;;
  loop begin_op_body 32 tt.

Definition write_log_one (tail : nat) : M lst unit :=
  l ← get_log;
  to ← bread (ldev l) (lstart l + Z.of_nat tail + 1);
  from ← bread (ldev l) (lh_block l !!! tail);
  b ← get_buf from;
  alter_buf to (set_data (data b));;
  bwrite to;;
  brelse from;;
  brelse to.

Definition write_log : M lst unit :=
  l ← get_log;
  for_each write_log_one 0 (Z.to_nat (lh_n l)).

Definition commit : M lst unit :=
  l ← get_log;
  mwhen (0 <? lh_n l)
    (write_log;;
     write_head;;
     install_trans;;
     mod_log (set_lh_n 0);;
     write_head).

Definition end_op : M lst unit :=
  acquire LLog;;
  mod_log (λ l, set_outstanding (outstanding l -i 1) l);;
  l ← get_log;
  if negb (committing l =? 0) then panic "log.committing" else
  do_commit ← (if outstanding l =? 0 then mod_log (set_committing 1);; mret true
               else wakeup ChLog;; mret false);
  release LLog;;
  mwhen do_commit
    (commit;;
     acquire LLog;;
     mod_log (set_committing 0);;
     wakeup ChLog;;
     release LLog).

Definition log_write (b : nat) : M lst unit :=
  l ← get_log;
  if (Z.of_nat LOGSIZE <=? lh_n l) || (lsize l - 1 <=? lh_n l) then panic "too big a transaction" else
  if outstanding l <? 1 then panic "log_write outside of trans" else
  acquire LLog;;
  l ← get_log;
  x ← get_buf b;
  let i := default (Z.to_nat (lh_n l))
             (first_index (λ n, n =? blockno x) (take (Z.to_nat (lh_n l)) (lh_block l))) in
  mod_log (set_lh_block (<[i := blockno x]> (lh_block l)));;
  mwhen (Z.of_nat i =? lh_n l) (mod_log (set_lh_n (lh_n l +i 1)));;
  alter_buf b (λ x, set_flags (Z.lor (flags x) B_DIRTY) x);;
  release LLog.

End Lg.

Section lifted.
Context {S : Type} `{Lens S lst}.

Definition begin_op : M S unit := lift Lg.begin_op.
Definition end_op : M S unit := lift Lg.end_op.
Definition log_write (b : nat) : M S unit := lift (Lg.log_write b).
Definition readsb (dev : Z) : M S superblock := lift (Lg.readsb dev).
End lifted.

(** ** Words and headers *)

Lemma length_set_word k v d : length (set_word k v d) = length d.
Proof. unfold set_word. by rewrite !length_insert. Qed.

Lemma u32_bytes v :
  u8 v + u8 (Z.shiftr v 8) * 2 ^ 8 + u8 (Z.shiftr v 16) * 2 ^ 16 + u8 (Z.shiftr v 24) * 2 ^ 24 = u32 v.
Proof.
  unfold u8, u32. rewrite !Z.shiftr_div_pow2 by lia.
  change (2 ^ 8) with 256. change (2 ^ 16) with 65536. change (2 ^ 24) with 16777216. change (2 ^ 32) with 4294967296.
  Z.div_mod_to_equations. lia.
Qed.

Lemma get_set_word k v d : (4 * k + 4 ≤ length d)%nat → get_word (set_word k v d) k = u32 v.
Proof.
  intros Hd. unfold get_word, set_word.
  rewrite list_lookup_total_insert_eq by (rewrite ?length_insert; lia).
  rewrite !list_lookup_total_insert_ne by lia. rewrite list_lookup_total_insert_eq by (rewrite ?length_insert; lia).
  rewrite !list_lookup_total_insert_ne by lia. rewrite list_lookup_total_insert_eq by (rewrite ?length_insert; lia).
  rewrite !list_lookup_total_insert_ne by lia. rewrite list_lookup_total_insert_eq by (rewrite ?length_insert; lia).
  apply u32_bytes.
Qed.

Lemma get_set_word_ne k k' v d : k ≠ k' → get_word (set_word k v d) k' = get_word d k'.
Proof. intros Hk. unfold get_word, set_word. by rewrite !list_lookup_total_insert_ne by lia. Qed.

(** The header block that write_head() produces from a block [d]: the words of
    [L] from index [i] on, and the whole header. *)
Fixpoint put_words (i : nat) (L : list Z) (d : block) : block :=
  match L with [] => d | b :: L => put_words (S i) L (set_word (S i) b d) end.
Definition hdr (L : list Z) (d : block) : block := put_words 0 L (set_word 0 (Z.of_nat (length L)) d).

Lemma length_put_words L i d : length (put_words i L d) = length d.
Proof. revert i d. induction L as [|b L IH]; intros; simpl; [done|]. by rewrite IH, length_set_word. Qed.
Lemma length_hdr L d : length (hdr L d) = length d.
Proof. unfold hdr. by rewrite length_put_words, length_set_word. Qed.

Lemma put_words_before L i d k : (k ≤ i)%nat → get_word (put_words i L d) k = get_word d k.
Proof.
  revert i d. induction L as [|b L IH]; intros i d Hk; simpl; [done|].
  rewrite IH by lia. apply get_set_word_ne. lia.
Qed.

Lemma put_words_get L i d k b :
  (4 * (i + length L) + 4 ≤ length d)%nat → L !! k = Some b → get_word (put_words i L d) (S (i + k)) = u32 b.
Proof.
  revert i d k. induction L as [|b' L IH]; intros i d k Hd Hk; simpl in *; [done|].
  destruct k as [|k]; simpl in Hk.
  - injection Hk as ->. rewrite Nat.add_0_r, put_words_before, get_set_word by lia. done.
  - replace (i + S k)%nat with (S i + k)%nat by lia. apply IH; [rewrite length_set_word; lia|done].
Qed.

Lemma hdr_count L d : (4 ≤ length d)%nat → Z.of_nat (length L) < 2 ^ 31 → s32 (get_word (hdr L d) 0) = Z.of_nat (length L).
Proof.
  intros Hd HL. unfold hdr. rewrite put_words_before, get_set_word by lia. rewrite u32_id by (unfold is_u32; lia).
  apply s32_id. unfold is_s32. lia.
Qed.

Lemma hdr_block L d k b :
  (4 * length L + 4 ≤ length d)%nat → L !! k = Some b → 0 ≤ b < 2 ^ 31 → s32 (get_word (hdr L d) (S k)) = b.
Proof.
  intros Hd Hk Hb. unfold hdr. rewrite (put_words_get L 0 _ k b) by (rewrite ?length_set_word; done || lia).
  rewrite u32_id, s32_id by (unfold is_u32, is_s32; lia). done.
Qed.

(** ** Sequences of disk writes *)

Definition apply_writes (D : list block) (W : list (Z * block)) : list block :=
  foldl (λ D w, <[Z.to_nat w.1 := w.2]> D) D W.

Lemma apply_writes_app D W W' : apply_writes D (W ++ W') = apply_writes (apply_writes D W) W'.
Proof. apply foldl_app. Qed.
Lemma length_apply_writes W D : length (apply_writes D W) = length D.
Proof. revert D. induction W as [|w W IH]; intros; simpl; [done|]. by rewrite IH, length_insert. Qed.

Lemma apply_writes_other W D x :
  0 ≤ x → (∀ w, w ∈ W → 0 ≤ w.1 ∧ w.1 ≠ x) → apply_writes D W !!! Z.to_nat x = D !!! Z.to_nat x.
Proof.
  revert D. induction W as [|w W IH]; intros D Hx HW; simpl; [done|].
  rewrite IH by (set_solver). destruct (HW w ltac:(set_solver)). apply list_lookup_total_insert_ne. lia.
Qed.

Lemma apply_writes_in W D x d :
  0 ≤ x < Z.of_nat (length D) → (∀ w, w ∈ W → 0 ≤ w.1) → (∀ d', (x, d') ∈ W → d' = d) → (x, d) ∈ W →
  apply_writes D W !!! Z.to_nat x = d.
Proof.
  revert D. induction W as [|[y e] W IH]; intros D Hx H0 Hu Hin; [set_solver|]. simpl.
  destruct (decide ((x, d) ∈ W)) as [Hin'|Hni].
  - apply IH; [by rewrite length_insert| | |done].
    + intros w Hw. apply H0. by right.
    + intros d' Hd'. apply Hu. by right.
  - apply elem_of_cons in Hin as [[= -> ->]|?]; [|done].
    rewrite apply_writes_other; [apply list_lookup_total_insert_eq; lia|lia|].
    intros [z f] Hz. split; [apply (H0 (z, f)); by right|]. cbn. intros ->.
    rewrite (Hu f) in Hz; [done|by right].
Qed.

(** [s'] is [s] after the writes [W] have reached the disk. *)
Definition wrote (W : list (Z * block)) (s s' : bst) : Prop :=
  writes s' = writes s ++ W ∧ disk s' = apply_writes (disk s) W.

Lemma wrote_refl s s' : writes s' = writes s → disk s' = disk s → wrote [] s s'.
Proof. intros E1 E2. split; [by rewrite app_nil_r|done]. Qed.
Lemma wrote_trans W W' s1 s2 s3 : wrote W s1 s2 → wrote W' s2 s3 → wrote (W ++ W') s1 s3.
Proof. intros [A B] [A' B']. split; [by rewrite A', A, app_assoc|by rewrite B', B, apply_writes_app]. Qed.

(** ** Running the buffer cache from the log *)

(** A clean block can be recycled while fewer than NBUF buffers are pinned. *)
Lemma spare_buffer c i held s (L : list Z) :
  bc_inv c i held s → (∀ n, dirty s n → n ∈ L) → (length L + size held < NBUF)%nat →
  ∃ k, (k < NBUF)%nat ∧ k ∉ held ∧ flags (the_buf s k) ≠ 6.
Proof.
  intros Hinv HL Hlen.
  destruct (decide (Exists (λ k, k ∉ held ∧ flags (the_buf s k) ≠ 6) (seq 0 NBUF))) as [He|Hne].
  { apply Exists_exists in He as (k & Hk & ? & ?). exists k. rewrite elem_of_seq in Hk. split_and!; [lia|done..]. }
  exfalso. set (F := filter (λ k, k ∉ held) (seq 0 NBUF)).
  assert (∀ k, k ∈ F → (k < NBUF)%nat ∧ bdev (the_buf s k) = 1 ∧ flags (the_buf s k) = 6) as HF.
  { intros k Hk. unfold F in Hk. apply list_elem_of_filter in Hk as [Hk1 Hk2].
    assert (flags (the_buf s k) = 6) as H6.
    { destruct (decide (flags (the_buf s k) = 6)); [done|]. destruct Hne. apply Exists_exists. eauto. }
    rewrite elem_of_seq in Hk2. assert (k < NBUF)%nat as Hlt by lia.
    destruct (bi_flags _ _ _ _ Hinv k Hlt) as [?|(_ & ? & _)]; [lia|done]. }
  assert (length F ≤ length L)%nat as HFL.
  { rewrite <- (length_map (λ k, blockno (the_buf s k))). apply submseteq_length, NoDup_submseteq.
    - apply NoDup_fmap_2_strong; [|apply NoDup_filter, NoDup_seq].
      intros x y Hx Hy E. apply HF in Hx as (? & ? & _). apply HF in Hy as (? & ? & _). by apply (bi_uniq _ _ _ _ Hinv).
    - intros n (k & -> & Hk)%list_elem_of_fmap. apply HL. exists k. by apply HF in Hk as (? & ? & ?). }
  assert (NBUF ≤ length F + size held)%nat; [|lia].
  transitivity (length (seq 0 NBUF)); [by rewrite length_seq|].
  change (size held) with (length (elements held)). rewrite <- length_app.
  apply submseteq_length, NoDup_submseteq; [apply NoDup_seq|].
  intros k Hk. rewrite elem_of_app, elem_of_elements. destruct (decide (k ∈ held)); [by right|left].
  by apply list_elem_of_filter.
Qed.

(** A buffer just read is clean or dirty. *)
Definition unmodified (s : bst) (j : nat) : Prop :=
  flags (the_buf s j) = 2 → data (the_buf s j) = disk s !!! Z.to_nat (blockno (the_buf s j)).

Lemma not_held_here s (held : gset nat) n : (∀ j, j ∈ held → ¬ (bdev (the_buf s j) = 1 ∧ blockno (the_buf s j) = n)) →
  ∀ j, j ∈ held → holds s n j = false.
Proof.
  intros H j Hj. destruct (holds s n j) eqn:E; [|done]. apply holds_true in E as (? & ? & _). by destruct (H j Hj).
Qed.

Lemma bread_unmodified c i held s n j s' :
  bc_inv c i held s → (∀ j, j ∈ held → ¬ (bdev (the_buf s j) = 1 ∧ blockno (the_buf s j) = n)) →
  bc_inv c i ({[j]} ∪ held) s' → same_view s s' → (j < NBUF)%nat → holds s' n j = true →
  data (the_buf s' j) = cont s n → unmodified s' j.
Proof.
  intros Hinv Hnh Hinv' Hv Hj Hh Hd H2. pose proof Hh as (Hdev & Hbn & _)%holds_true.
  rewrite Hd, Hbn, (sv_disk _ _ Hv). apply (cont_clean c i held); [done| |by apply not_held_here].
  rewrite <- (sv_dirty _ _ Hv). intros (k & Hk & E1 & E2 & E6).
  assert (k = j) as -> by (apply (bi_uniq _ _ _ _ Hinv'); congruence). lia.
Qed.

(** Storing data [d] into a held buffer and writing it to disk. *)
Lemma store_bwrite c i held s j n d :
  bc_inv c i held s → (j < NBUF)%nat → j ∈ held → holds s n j = true →
  ∃ s', Bc.bwrite j (set_bufs (alter (set_data d) j (bufs s)) s) = Ok tt s' ∧ bc_inv c i held s' ∧
    wrote [(n, d)] s s' ∧ bcore s' = bcore s ∧
    (∀ m, 0 ≤ m < Z.of_nat (length (disk s)) → cont s' m = if decide (m = n) then d else cont s m) ∧
    (∀ m, dirty s' m ↔ dirty s m ∧ m ≠ n) ∧ unmodified s' j ∧ (∀ k, k ≠ j → the_buf s' k = the_buf s k).
Proof.
  intros Hinv Hj Hh Hhj. pose proof Hhj as (Hd & Hb & Hf)%holds_true.
  destruct (bi_flags _ _ _ _ Hinv j Hj) as [?|(Hfl & _ & Hn)]; [done|].
  assert (bdev (the_buf s j) = 1 ∧ 0 ≤ blockno (the_buf s j) < Z.of_nat (length (disk s))) as Hjd by done.
  pose proof (held_update_inv c i held s Hinv j Hj Hh (set_data d) ltac:(done) ltac:(done) Hfl Hjd) as Hinv1.
  pose proof (held_update_cont c i held s Hinv j Hj Hh (set_data d) ltac:(done) ltac:(done) Hfl Hjd) as Hc1.
  pose proof (held_update_dirty c i held s Hinv j Hj (set_data d) ltac:(done) Hjd) as Hd1.
  pose proof (held_update_buf c i held s Hinv j Hj (set_data d)) as Hbuf.
  set (s1 := set_bufs _ s) in *. pose proof (Hbuf j) as Ej. rewrite decide_True in Ej by done.
  destruct (bwrite_run c i held s1 j n) as (s' & E & Hinv' & Edk & Ew & Eco & Ect & Edt & Ebj & Ebo); try done.
  { apply holds_true. by rewrite Ej. }
  rewrite Ej in *. cbn [data set_data] in *. exists s'. split_and!; try done.
  - intros m Hm. rewrite Ect, Hc1, Hb by done. done.
  - intros m. rewrite Edt, Hd1, Hb. case_decide; naive_solver.
  - unfold unmodified. rewrite Ebj, Edk. cbn. intros _. rewrite Hb in *.
    rewrite list_lookup_total_insert_eq; [done|]. cbn. lia.
  - intros k Hk. rewrite Ebo, Hbuf by done. by rewrite decide_False.
Qed.

(** Two different blocks read one after the other. *)
Lemma bread_two c i s (x y : Z) (L : list Z) :
  bc_inv c i ∅ s → 0 ≤ x < Z.of_nat (length (disk s)) → 0 ≤ y < Z.of_nat (length (disk s)) → x ≠ y →
  (∀ n, dirty s n → n ∈ L) → (length L < NBUF)%nat → dirty s y ∨ (length L + 1 < NBUF)%nat →
  ∃ j k s1 s2, Bc.bread 1 x s = Ok j s1 ∧ Bc.bread 1 y s1 = Ok k s2 ∧ (j < NBUF)%nat ∧ (k < NBUF)%nat ∧
    j ≠ k ∧ bc_inv c i {[j; k]} s2 ∧ same_view s s2 ∧ holds s2 x j = true ∧ holds s2 y k = true ∧
    data (the_buf s2 j) = cont s x ∧ data (the_buf s2 k) = cont s y ∧ unmodified s2 j ∧ unmodified s2 k.
Proof.
  intros Hinv Hx Hy Hxy HL Hlen Hav.
  destruct (bread_run c i ∅ s x) as (j & s1 & E1 & Hj & _ & Hinv1 & Hv1 & Hh1 & Hd1 & _);
    [done..|set_solver|right; eapply spare_buffer; [done|done|by rewrite size_empty, Nat.add_0_r]|].
  pose proof Hh1 as (Hjd & Hjb & Hjf)%holds_true.
  assert (bread_ok : unmodified s1 j) by (eapply (bread_unmodified c i ∅); [done|set_solver|done..]).
  destruct (bread_run c i ({[j]} ∪ ∅) s1 y) as (k & s2 & E2 & Hk & Hkj & Hinv2 & Hv2 & Hh2 & Hd2 & Ho2);
    [done|by rewrite (sv_disk _ _ Hv1)| | |].
  - intros k Hk. assert (k = j) as -> by set_solver. rewrite Hjb. naive_solver.
  - destruct Hav as [Hdy|Hlen2].
    + left. rewrite <- (sv_dirty _ _ Hv1) in Hdy. destruct Hdy as (k & ? & ? & ? & _). eauto.
    + right. apply (spare_buffer c i _ s1 L); [done|intros n; rewrite (sv_dirty _ _ Hv1); auto|].
      rewrite union_empty_r_L, size_singleton. done.
  - destruct (Ho2 j Hj ltac:(set_solver)) as (F1 & F2 & F3 & F4).
    exists j, k, s1, s2. split_and!; try done.
    + set_solver.
    + by replace ({[j; k]} : gset nat) with ({[k]} ∪ ({[j]} ∪ ∅) : gset nat) by set_solver.
    + by eapply same_view_trans.
    + apply holds_true. by rewrite F1, F2, F3.
    + by rewrite F4, Hd1.
    + rewrite Hd2, (sv_cont _ _ Hv1); done.
    + unfold unmodified. rewrite F1, F3, F4, (sv_disk _ _ Hv2). done.
    + eapply (bread_unmodified c i ({[j]} ∪ ∅) s1); try done.
      intros k' Hk'. assert (k' = j) as -> by set_solver. rewrite Hjb. naive_solver.
Qed.

Lemma brelse_two c i s j k :
  bc_inv c i {[j; k]} s → (j < NBUF)%nat → (k < NBUF)%nat → j ≠ k → unmodified s j → unmodified s k →
  ∃ s1 s2, Bc.brelse j s = Ok tt s1 ∧ Bc.brelse k s1 = Ok tt s2 ∧ bc_inv c i ∅ s2 ∧ same_view s s2.
Proof.
  intros Hinv Hj Hk Hjk Huj Huk.
  destruct (brelse_run c i _ s j Hinv Hj ltac:(set_solver) Huj) as (s1 & E1 & Hinv1 & Hv1 & Hb1).
  destruct (Hb1 k Hk) as (F1 & F2 & F3 & F4).
  destruct (brelse_run c i _ s1 k Hinv1 Hk ltac:(set_solver)) as (s2 & E2 & Hinv2 & Hv2 & _).
  { rewrite F1, F3, F4, (sv_disk _ _ Hv1). done. }
  exists s1, s2. split_and!; try done; [|by eapply same_view_trans].
  by replace (∅ : gset nat) with ({[j; k]} ∖ {[j]} ∖ {[k]} : gset nat) by set_solver.
Qed.

Lemma lift_l {A} (m : M bst A) s a t : m (lb s) = Ok a t → lift m s = Ok a (set_lb t s).
Proof. exact (lift_ok m s a t). Qed.

Lemma for_each_run body (P : nat → lst → Prop) n i s :
  (∀ k s, (i ≤ k < i + n)%nat → P k s → ∃ s', body k s = Ok tt s' ∧ P (S k) s') → P i s →
  ∃ s', Lg.for_each body i n s = Ok tt s' ∧ P (i + n)%nat s'.
Proof.
  revert i s. induction n as [|n IH]; intros i s Hstep Hs.
  - exists s. by rewrite Nat.add_0_r.
  - destruct (Hstep i s ltac:(lia) Hs) as (s1 & E1 & H1).
    destruct (IH (S i) s1) as (s2 & E2 & H2); [intros; apply Hstep; [lia|done]|done|].
    exists s2. split; [|by replace (i + S n)%nat with (S i + n)%nat by lia].
    cbn [Lg.for_each]. mstep E1. exact E2.
Qed.

(** [t] is [s] after block [y] has been given the contents [d] and written. *)
Record put_block (y : Z) (d : block) (s t : bst) : Prop := {
  pb_wrote : wrote [(y, d)] s t;
  pb_core : bcore t = bcore s;
  pb_cont m : 0 ≤ m < Z.of_nat (length (disk s)) → cont t m = if decide (m = y) then d else cont s m;
  pb_dirty m : dirty t m ↔ dirty s m ∧ m ≠ y;
}.

Lemma put_block_view s t u v y d :
  same_view s t → put_block y d t u → same_view u v → put_block y d s v.
Proof.
  intros Hv1 [[W D] C T Y] Hv2. split.
  - split; [by rewrite (sv_writes _ _ Hv2), W, (sv_writes _ _ Hv1)|].
    by rewrite (sv_disk _ _ Hv2), D, (sv_disk _ _ Hv1).
  - by rewrite (sv_core _ _ Hv2), C, (sv_core _ _ Hv1).
  - intros m Hm. rewrite <- (sv_disk _ _ Hv1) in Hm.
    rewrite (sv_cont _ _ Hv2) by (rewrite D, length_apply_writes; done). rewrite T by done.
    case_decide; [done|]. apply (sv_cont _ _ Hv1). by rewrite <- (sv_disk _ _ Hv1).
  - intros m. rewrite (sv_dirty _ _ Hv2), Y, (sv_dirty _ _ Hv1). done.
Qed.

Section copy.
Context (c i : nat) (s : lst) (tail : nat) (L : list Z).
Let l := log s.
Let a := lstart l + Z.of_nat tail + 1.
Let b := lh_block l !!! tail.
Hypothesis Hdev : ldev l = 1.
Hypothesis Hinv : bc_inv c i ∅ (lb s).
Hypothesis Ha : 0 ≤ a < Z.of_nat (length (disk (lb s))).
Hypothesis Hb : 0 ≤ b < Z.of_nat (length (disk (lb s))).
Hypothesis Hab : a ≠ b.
Hypothesis HL : ∀ n, dirty (lb s) n → n ∈ L.
Hypothesis Hlen : (length L < NBUF)%nat.
Hypothesis Hav : dirty (lb s) b ∨ (length L + 1 < NBUF)%nat.

Lemma write_log_one_run :
  ∃ t, Lg.write_log_one tail s = Ok tt (set_lb t s) ∧ bc_inv c i ∅ t ∧ put_block a (cont (lb s) b) (lb s) t.
Proof.
  destruct (bread_two c i (lb s) a b L Hinv Ha Hb Hab HL Hlen Hav)
    as (j & k & s1 & s2 & E1 & E2 & Hj & Hk & Hjk & Hinv2 & Hv & Hh1 & Hh2 & Hd1 & Hd2 & Hu1 & Hu2).
  destruct (store_bwrite c i _ s2 j a (cont (lb s) b) Hinv2 Hj ltac:(set_solver) Hh1)
    as (s3 & E3 & Hinv3 & Hw & Hc & Hct & Hdt & Huj & Ho).
  assert (unmodified s3 k) as Huk.
  { unfold unmodified. rewrite Ho by done. destruct Hw as [_ ->]. intros H2. specialize (Hu2 H2). rewrite Hu2.
    pose proof Hh2 as (_ & -> & _)%holds_true. cbn. rewrite list_lookup_total_insert_ne; [done|lia]. }
  destruct (brelse_two c i s3 k j) as (s4 & s5 & E4 & E5 & Hinv5 & Hv5); try done.
  { by replace ({[k; j]} : gset nat) with ({[j; k]} : gset nat) by set_solver. }
  exists s5. split_and!; [|done|eapply put_block_view; [exact Hv| |exact Hv5]; by split].
  unfold Lg.write_log_one, Lg.get_log. mred. fold l. rewrite Hdev.
  mstep (lift_l _ s _ _ E1 : bread 1 (lstart l + Z.of_nat tail + 1) s = _).
  mstep (lift_l _ (set_lb s1 s) _ _ E2 : bread 1 (lh_block l !!! tail) (set_lb s1 s) = _).
  unfold get_buf, alter_buf.
  mstep (lift_l (Bc.get_buf k) (set_lb s2 (set_lb s1 s)) _ s2 eq_refl).
  change (bufs (lb (set_lb s2 (set_lb s1 s))) !!! k) with (the_buf s2 k). rewrite Hd2.
  mstep (lift_l (Bc.alter_buf j (set_data (cont (lb s) b))) (set_lb s2 s) _ _ eq_refl).
  mstep (lift_l _ (set_lb _ s) _ _ E3 : bwrite j _ = _).
  mstep (lift_l _ (set_lb s3 s) _ _ E4 : brelse k _ = _).
  exact (lift_l _ (set_lb s4 s) _ _ E5).
Qed.

Lemma install_one_run :
  ∃ t, Lg.install_one tail s = Ok tt (set_lb t s) ∧ bc_inv c i ∅ t ∧ put_block b (cont (lb s) a) (lb s) t.
Proof.
  destruct (bread_two c i (lb s) a b L Hinv Ha Hb Hab HL Hlen Hav)
    as (j & k & s1 & s2 & E1 & E2 & Hj & Hk & Hjk & Hinv2 & Hv & Hh1 & Hh2 & Hd1 & Hd2 & Hu1 & Hu2).
  destruct (store_bwrite c i _ s2 k b (cont (lb s) a) Hinv2 Hk ltac:(set_solver) Hh2)
    as (s3 & E3 & Hinv3 & Hw & Hc & Hct & Hdt & Huk & Ho).
  assert (unmodified s3 j) as Huj.
  { unfold unmodified. rewrite Ho by done. destruct Hw as [_ ->]. intros H2. specialize (Hu1 H2). rewrite Hu1.
    pose proof Hh1 as (_ & -> & _)%holds_true. cbn. rewrite list_lookup_total_insert_ne; [done|lia]. }
  destruct (brelse_two c i s3 j k) as (s4 & s5 & E4 & E5 & Hinv5 & Hv5); try done.
  exists s5. split_and!; [|done|eapply put_block_view; [exact Hv| |exact Hv5]; by split].
  unfold Lg.install_one, Lg.get_log. mred. fold l. rewrite Hdev.
  mstep (lift_l _ s _ _ E1 : bread 1 (lstart l + Z.of_nat tail + 1) s = _).
  mstep (lift_l _ (set_lb s1 s) _ _ E2 : bread 1 (lh_block l !!! tail) (set_lb s1 s) = _).
  unfold get_buf, alter_buf.
  mstep (lift_l (Bc.get_buf j) (set_lb s2 (set_lb s1 s)) _ s2 eq_refl).
  change (bufs (lb (set_lb s2 (set_lb s1 s))) !!! j) with (the_buf s2 j). rewrite Hd1.
  mstep (lift_l (Bc.alter_buf k (set_data (cont (lb s) a))) (set_lb s2 s) _ _ eq_refl).
  mstep (lift_l _ (set_lb _ s) _ _ E3 : bwrite k _ = _).
  mstep (lift_l _ (set_lb s3 s) _ _ E4 : brelse j _ = _).
  exact (lift_l _ (set_lb s4 s) _ _ E5).
Qed.
End copy.

(** ** The header block *)

Lemma bread_one c i s (x : Z) (L : list Z) :
  bc_inv c i ∅ s → 0 ≤ x < Z.of_nat (length (disk s)) → (∀ n, dirty s n → n ∈ L) → (length L < NBUF)%nat →
  ∃ j s1, Bc.bread 1 x s = Ok j s1 ∧ (j < NBUF)%nat ∧ bc_inv c i {[j]} s1 ∧ same_view s s1 ∧
    holds s1 x j = true ∧ data (the_buf s1 j) = cont s x ∧ unmodified s1 j.
Proof.
  intros Hinv Hx HL Hlen.
  destruct (bread_run c i ∅ s x) as (j & s1 & E1 & Hj & _ & Hinv1 & Hv1 & Hh1 & Hd1 & _);
    [done..|set_solver|right; eapply spare_buffer; [done|done|by rewrite size_empty, Nat.add_0_r]|].
  exists j, s1. split_and!; try done.
  - by replace ({[j]} : gset nat) with ({[j]} ∪ ∅ : gset nat) by set_solver.
  - apply (bread_unmodified c i ∅ s x); [done|set_solver|done..].
Qed.

Lemma brelse_one c i s j :
  bc_inv c i {[j]} s → (j < NBUF)%nat → unmodified s j →
  ∃ s1, Bc.brelse j s = Ok tt s1 ∧ bc_inv c i ∅ s1 ∧ same_view s s1.
Proof.
  intros Hinv Hj Hu.
  destruct (brelse_run c i _ s j Hinv Hj ltac:(set_solver) Hu) as (s1 & E1 & Hinv1 & Hv1 & _).
  exists s1. split_and!; try done. by replace (∅ : gset nat) with ({[j]} ∖ {[j]} : gset nat) by set_solver.
Qed.

Lemma set_data_alter (j : nat) (g : block → block) (B : list buf) :
  (j < length B)%nat → alter (λ x, set_data (g (data x)) x) j B = alter (set_data (g (data (B !!! j)))) j B.
Proof.
  intros Hj. assert (B !! j = Some (B !!! j)) as E by (by apply list_lookup_lookup_total_lt).
  by rewrite !(alter_lookup_insert _ _ _ _ E).
Qed.

(** The loop of write_head() stores the block numbers one after the other. *)
Lemma put_words_run j (B : list Z) n i s :
  (i + n ≤ length B)%nat →
  Lg.for_each (λ i, alter_buf j (λ x, set_data (set_word (S i) (B !!! i) (data x)) x)) i n s =
    Ok tt (set_lb (set_bufs (alter (λ x, set_data (put_words i (take n (drop i B)) (data x)) x) j (bufs (lb s))) (lb s)) s).
Proof.
  revert i s. induction n as [|n IH]; intros i s Hn; cbn [Lg.for_each].
  - cbn. rewrite (list_alter_ext _ id (bufs (lb s)) (bufs (lb s)) j), list_alter_id; [by destruct s as [[] ?]|done|by intros []|done].
  - mstep (lift_l (Bc.alter_buf j (λ x, set_data (set_word (S i) (B !!! i) (data x)) x)) s _ _ eq_refl).
    rewrite IH by lia. unfold set_lb, set_bufs. cbn. do 3 f_equal. rewrite list_alter_alter_eq.
    apply list_alter_ext; [|done]. intros x _. unfold compose, set_data. cbn. f_equal.
    rewrite (drop_S B (B !!! i) i) by (apply list_lookup_lookup_total_lt; lia). done.
Qed.

Section head.
Context (c i : nat) (s : lst) (L : list Z).
Let l := log s.
Hypothesis Hdev : ldev l = 1.
Hypothesis Hinv : bc_inv c i ∅ (lb s).
Hypothesis Hst : 0 ≤ lstart l < Z.of_nat (length (disk (lb s))).
Hypothesis HL : ∀ n, dirty (lb s) n → n ∈ L.
Hypothesis Hlen : (length L < NBUF)%nat.

Lemma write_head_run n :
  lh_n l = Z.of_nat n → (n ≤ length (lh_block l))%nat →
  ∃ t, Lg.write_head s = Ok tt (set_lb t s) ∧ bc_inv c i ∅ t ∧
    put_block (lstart l) (hdr (take n (lh_block l)) (cont (lb s) (lstart l))) (lb s) t.
Proof.
  intros Hn HnB. destruct (bread_one c i (lb s) (lstart l) L) as (j & s1 & E1 & Hj & Hinv1 & Hv & Hh & Hd & Hu); try done.
  set (h := hdr (take n (lh_block l)) (cont (lb s) (lstart l))).
  destruct (store_bwrite c i _ s1 j (lstart l) h Hinv1 Hj ltac:(set_solver) Hh)
    as (s2 & E2 & Hinv2 & Hw & Hc & Hct & Hdt & Hu2 & _).
  destruct (brelse_one c i s2 j Hinv2 Hj Hu2) as (s3 & E3 & Hinv3 & Hv3).
  exists s3. split_and!; [|done|eapply put_block_view; [exact Hv| |exact Hv3]; by split].
  assert (j < length (bufs s1))%nat as HjB by (destruct (bi_ring _ _ _ _ Hinv1) as (? & [-> _ _]); lia).
  unfold Lg.write_head, Lg.get_log. mred. fold l. rewrite Hdev.
  mstep (lift_l _ s _ _ E1 : bread 1 (lstart l) s = _). unfold alter_buf at 1.
  mstep (lift_l (Bc.alter_buf j (λ x, set_data (set_word 0 (lh_n l) (data x)) x)) (set_lb s1 s) _ _ eq_refl).
  rewrite Hn, Nat2Z.id.
  mstep (put_words_run j (lh_block l) n 0
    (set_lb (set_bufs (alter (λ x, set_data (set_word 0 (Z.of_nat n) (data x)) x) j (bufs s1)) s1) (set_lb s1 s)) HnB).
  cbn [lb set_lb set_bufs bufs bs disk writes log]. rewrite list_alter_alter_eq.
  rewrite (list_alter_ext _ (λ x, set_data (hdr (take n (lh_block l)) (data x)) x) (bufs s1) (bufs s1) j); [|intros x _|done].
  2: { unfold compose, set_data, hdr. cbn. by rewrite length_take_le. }
  rewrite (set_data_alter j (hdr (take n (lh_block l)))) by done. fold (the_buf s1 j). rewrite Hd. fold h.
  mstep (lift_l _ (set_lb (set_bufs (alter (set_data h) j (bufs s1)) s1) s) _ _ E2 : bwrite j _ = _).
  exact (lift_l _ (set_lb s2 s) _ _ E3).
Qed.

Lemma read_head_run n :
  let h := cont (lb s) (lstart l) in
  s32 (get_word h 0) = Z.of_nat n → (n ≤ length (lh_block l))%nat →
  ∃ t B, Lg.read_head s = Ok tt (Lst t (set_lh_block B (set_lh_n (Z.of_nat n) l))) ∧ bc_inv c i ∅ t ∧
    same_view (lb s) t ∧ length B = length (lh_block l) ∧
    (∀ k, (k < n)%nat → B !!! k = s32 (get_word h (S k))).
Proof.
  intros h Hn HnB. destruct (bread_one c i (lb s) (lstart l) L) as (j & s1 & E1 & Hj & Hinv1 & Hv & Hh & Hd & Hu); try done.
  destruct (brelse_one c i s1 j Hinv1 Hj Hu) as (s2 & E2 & Hinv2 & Hv2).
  set (body := λ i, Lg.mod_log (λ l, set_lh_block (<[i := s32 (get_word h (S i))]> (lh_block l)) l)).
  destruct (for_each_run body
    (λ k s, ∃ B, s = Lst s1 (set_lh_block B (set_lh_n (Z.of_nat n) l)) ∧ length B = length (lh_block l) ∧
       ∀ k', (k' < k)%nat → B !!! k' = s32 (get_word h (S k'))) n 0 (Lst s1 (set_lh_n (Z.of_nat n) l)))
    as (s3 & E3 & B & -> & HB & Hk).
  - intros k s' Hkn (B & -> & HB & Hk). eexists. split; [done|]. eexists. split; [done|].
    cbn. rewrite length_insert. split; [done|]. intros k' Hk'. destruct (decide (k' = k)) as [->|].
    + apply list_lookup_total_insert_eq. lia.
    + rewrite list_lookup_total_insert_ne by done. apply Hk. lia.
  - exists (lh_block l). split; [by destruct l|]. split; [done|lia].
  - exists s2, B. split_and!; [|done|by eapply same_view_trans|done|exact Hk].
    unfold Lg.read_head, Lg.get_log. mred. fold l. rewrite Hdev.
    mstep (lift_l _ s _ _ E1 : bread 1 (lstart l) s = _). unfold get_buf.
    mstep (lift_l (Bc.get_buf j) (set_lb s1 s) _ s1 eq_refl).
    change (bufs (lb (set_lb s1 s)) !!! j) with (the_buf s1 j). rewrite Hd. fold h. rewrite Hn.
    fold body. unfold Lg.mod_log. mred. cbn [log lh_n set_log set_lh_n set_lb lb]. rewrite Nat2Z.id. fold l.
    mstep E3. exact (lift_l _ (Lst s1 (set_lh_block B (set_lh_n (Z.of_nat n) l))) _ _ E2).
Qed.
End head.

(** ** Transactions *)

Notation disk_size s := (Z.of_nat (length (disk s))).

(** Blocks outside the log, on a disk of [N] blocks. *)
Definition home (l : logstate) (N : Z) (b : Z) : Prop :=
  0 ≤ b < N ∧ ¬ (lstart l ≤ b < lstart l + lsize l).

(** The log lies on the disk and its header can name any of its blocks. *)
Record log_wf (l : logstate) (N : Z) : Prop := {
  lw_dev : ldev l = 1;
  lw_start : 0 ≤ lstart l;
  lw_size : 0 < lsize l ≤ Z.of_nat LOGSIZE;
  lw_end : lstart l + lsize l ≤ N;
  lw_disk : N < 2 ^ 31;
  lw_blocks : length (lh_block l) = LOGSIZE;
}.

(** The in-memory header lists the blocks [L]. *)
Record lists_blocks (l : logstate) (N : Z) (L : list Z) : Prop := {
  lb_n : lh_n l = Z.of_nat (length L);
  lb_take : take (length L) (lh_block l) = L;
  lb_fits : Z.of_nat (length L) < lsize l;
  lb_nodup : NoDup L;
  lb_home b : b ∈ L → home l N b;
}.

(** What write_log() and install_trans() write: the log's copies, and the blocks
    in their places. *)
Definition log_writes (st : Z) (C : Z → block) (L : list Z) : list (Z * block) :=
  imap (λ k b, (st + Z.of_nat k + 1, C b)) L.
Definition home_writes (st : Z) (C : Z → block) (L : list Z) : list (Z * block) :=
  imap (λ k b, (b, C (st + Z.of_nat k + 1))) L.

Section transaction.
Context (c i : nat) (s : lst) (L : list Z).
Let l := log s.
Let st := lstart l.
Hypothesis Hinv : bc_inv c i ∅ (lb s).
Hypothesis Hwf : log_wf l (disk_size (lb s)).
Hypothesis HL : lists_blocks l (disk_size (lb s)) L.

Lemma listed k b : L !! k = Some b → lh_block l !!! k = b.
Proof using HL.
  intros Hk. rewrite <- (lb_take _ _ _ HL) in Hk. apply lookup_take_Some in Hk as [Hk _].
  by apply list_lookup_total_correct.
Qed.

Lemma slot_range k : (k < length L)%nat →
  st ≤ st + Z.of_nat k + 1 < st + lsize l ∧ 0 ≤ st + Z.of_nat k + 1 < disk_size (lb s).
Proof using Hwf HL. intros Hk. destruct Hwf, HL. fold st in lw_start0, lw_end0. lia. Qed.

Lemma wrote_length W t : wrote W (lb s) t → disk_size t = disk_size (lb s).
Proof using. intros [_ ->]. by rewrite length_apply_writes. Qed.

Lemma small_list : (length L < NBUF)%nat.
Proof using Hwf HL. destruct Hwf, HL. unfold LOGSIZE, NBUF in *. lia. Qed.

Lemma write_log_run :
  (∀ m, dirty (lb s) m ↔ m ∈ L) →
  ∃ t, Lg.write_log s = Ok tt (set_lb t s) ∧ bc_inv c i ∅ t ∧
    wrote (log_writes st (cont (lb s)) L) (lb s) t ∧ bcore t = bcore (lb s) ∧ (∀ m, dirty t m ↔ m ∈ L) ∧
    (∀ k b, L !! k = Some b → cont t (st + Z.of_nat k + 1) = cont (lb s) b) ∧
    (∀ m, 0 ≤ m < disk_size (lb s) → ¬ (st < m < st + lsize l) → cont t m = cont (lb s) m).
Proof.
  intros Hd. set (W := log_writes st (cont (lb s)) L).
  destruct (for_each_run Lg.write_log_one (λ k s', ∃ t, s' = set_lb t s ∧ bc_inv c i ∅ t ∧
     wrote (take k W) (lb s) t ∧ bcore t = bcore (lb s) ∧ (∀ m, dirty t m ↔ m ∈ L) ∧
     (∀ k' b, (k' < k)%nat → L !! k' = Some b → cont t (st + Z.of_nat k' + 1) = cont (lb s) b) ∧
     (∀ m, 0 ≤ m < disk_size (lb s) → ¬ (st < m < st + lsize l) → cont t m = cont (lb s) m))
    (length L) 0 s) as (s' & E & t & -> & Hinv' & Hw & Hco & Hd' & Hc1 & Hc2).
  - intros k s' Hk (t & -> & Hinv' & Hw & Hco & Hd' & Hc1 & Hc2).
    destruct (lookup_lt_is_Some_2 L k ltac:(lia)) as [b Hb]. pose proof (slot_range k ltac:(lia)) as [Hr1 Hr2].
    assert (b ∈ L) as HbL by (by eapply list_elem_of_lookup_2). destruct (lb_home _ _ _ HL b HbL) as [Hb1 Hb2].
    fold st in Hb2. pose proof (wrote_length _ _ Hw) as Elen.
    destruct (write_log_one_run c i (set_lb t s) k L) as (t' & E & Hi & [Hw' Hco' Hct Hdt]);
      cbn [log lb set_lb]; fold l; fold st; rewrite ?(listed k b Hb), ?Elen; try done; try lia.
    + apply Hwf.
    + intros n. by rewrite Hd'.
    + apply small_list.
    + left. by rewrite Hd'.
    + cbn [log lb set_lb] in Hw', Hct, Hdt. fold l in Hw', Hct, Hdt. fold st in Hw', Hct, Hdt.
      rewrite (listed k b Hb) in Hw', Hct. rewrite Elen in Hct.
      rewrite Hc2 in Hct, Hw' by (done || lia).
      eexists. split; [exact E|]. exists t'. split_and!; try done.
      * rewrite (take_S_r W k (st + Z.of_nat k + 1, cont (lb s) b)); [by eapply wrote_trans|].
        unfold W, log_writes. by rewrite list_lookup_imap, Hb.
      * exact (eq_trans Hco' Hco).
      * intros m. rewrite Hdt, Hd'. split; [by intros []|]. intros Hm. split; [done|]. intros ->.
        by destruct (lb_home _ _ _ HL _ Hm) as [_ []].
      * intros k' b' Hk' Hb'. rewrite Hct by (apply slot_range, lookup_lt_is_Some; eauto).
        case_decide; [assert (k' = k) as -> by lia; congruence|]. apply Hc1; [lia|done].
      * intros m Hm Hml. rewrite Hct by done. rewrite decide_False by lia. by apply Hc2.
  - exists (lb s). split_and!; try done; [by destruct s|by apply wrote_refl|lia].
  - exists t. split_and!; try done.
    + unfold Lg.write_log, Lg.get_log. mred. fold l. by rewrite (lb_n _ _ _ HL), Nat2Z.id.
    + by rewrite take_ge in Hw by (unfold W, log_writes; by rewrite length_imap).
    + intros k b Hb. apply Hc1; [|done]. apply lookup_lt_is_Some. eauto.
Qed.

Lemma install_run (Ld : list Z) :
  (∀ m, dirty (lb s) m → m ∈ Ld) → (length Ld < NBUF)%nat →
  (∀ b, b ∈ L → dirty (lb s) b ∨ (length Ld + 1 < NBUF)%nat) →
  ∃ t, Lg.install_trans s = Ok tt (set_lb t s) ∧ bc_inv c i ∅ t ∧
    wrote (home_writes st (cont (lb s)) L) (lb s) t ∧ bcore t = bcore (lb s) ∧
    (∀ m, dirty t m ↔ dirty (lb s) m ∧ m ∉ L) ∧
    (∀ k b, L !! k = Some b → cont t b = cont (lb s) (st + Z.of_nat k + 1)) ∧
    (∀ m, 0 ≤ m < disk_size (lb s) → m ∉ L → cont t m = cont (lb s) m).
Proof.
  intros Hd Hlen Hav. set (W := home_writes st (cont (lb s)) L).
  destruct (for_each_run Lg.install_one (λ k s', ∃ t, s' = set_lb t s ∧ bc_inv c i ∅ t ∧
     wrote (take k W) (lb s) t ∧ bcore t = bcore (lb s) ∧ (∀ m, dirty t m ↔ dirty (lb s) m ∧ m ∉ take k L) ∧
     (∀ k' b, (k' < k)%nat → L !! k' = Some b → cont t b = cont (lb s) (st + Z.of_nat k' + 1)) ∧
     (∀ m, 0 ≤ m < disk_size (lb s) → m ∉ take k L → cont t m = cont (lb s) m))
    (length L) 0 s) as (s' & E & t & -> & Hinv' & Hw & Hco & Hd' & Hc1 & Hc2).
  - intros k s' Hk (t & -> & Hinv' & Hw & Hco & Hd' & Hc1 & Hc2).
    destruct (lookup_lt_is_Some_2 L k ltac:(lia)) as [b Hb]. pose proof (slot_range k ltac:(lia)) as [Hr1 Hr2].
    assert (b ∈ L) as HbL by (by eapply list_elem_of_lookup_2). destruct (lb_home _ _ _ HL b HbL) as [Hb1 Hb2].
    fold st in Hb2. pose proof (wrote_length _ _ Hw) as Elen.
    assert (b ∉ take k L) as Hbk.
    { intros (k' & Hk')%list_elem_of_lookup. apply lookup_take_Some in Hk' as [Hk' ?].
      pose proof (NoDup_lookup _ _ _ _ (lb_nodup _ _ _ HL) Hb Hk'). lia. }
    assert (st + Z.of_nat k + 1 ∉ take k L) as Hak.
    { intros Hin%elem_of_take. destruct Hin as (k' & Hk' & _). apply list_elem_of_lookup_2 in Hk'.
      by destruct (lb_home _ _ _ HL _ Hk') as [_ []]. }
    destruct (install_one_run c i (set_lb t s) k Ld) as (t' & E & Hi & [Hw' Hco' Hct Hdt]);
      cbn [log lb set_lb]; fold l; fold st; rewrite ?(listed k b Hb), ?Elen; try done; try lia.
    + apply Hwf.
    + intros n [Hn _]%Hd'. by apply Hd.
    + rewrite Hd'. destruct (Hav b HbL); auto.
    + cbn [log lb set_lb] in Hw', Hct, Hdt. fold l in Hw', Hct, Hdt. fold st in Hw', Hct, Hdt.
      rewrite (listed k b Hb) in Hw', Hct, Hdt. rewrite Elen in Hct.
      rewrite Hc2 in Hct, Hw' by (done || lia).
      eexists. split; [exact E|]. exists t'. rewrite (take_S_r L k b) by done. split_and!; try done.
      * rewrite (take_S_r W k (b, cont (lb s) (st + Z.of_nat k + 1))); [by eapply wrote_trans|].
        unfold W, home_writes. by rewrite list_lookup_imap, Hb.
      * exact (eq_trans Hco' Hco).
      * intros m. rewrite Hdt, Hd'. set_solver.
      * intros k' b' Hk' Hb'. assert (b' ∈ L) as HbL' by (by eapply list_elem_of_lookup_2).
        rewrite Hct by (by apply (lb_home _ _ _ HL)). case_decide as Eb.
        { subst. by rewrite (NoDup_lookup _ _ _ _ (lb_nodup _ _ _ HL) Hb Hb'). }
        apply Hc1; [|done]. assert (k' ≠ k); [congruence|lia].
      * intros m Hm Hml. rewrite Hct by done. rewrite decide_False by set_solver. apply Hc2; set_solver.
  - exists (lb s). split_and!; try done; [by destruct s|by apply wrote_refl|set_solver|lia].
  - exists t. rewrite take_ge in Hd', Hc2 by lia. split_and!; try done.
    + unfold Lg.install_trans, Lg.get_log. mred. fold l. by rewrite (lb_n _ _ _ HL), Nat2Z.id.
    + by rewrite take_ge in Hw by (unfold W, home_writes; by rewrite length_imap).
    + intros k b Hb. apply Hc1; [|done]. apply lookup_lt_is_Some. eauto.
Qed.
End transaction.

(** Every disk write of a commit, in order: the copies in the log, the header
    that commits them, the blocks themselves, the empty header. *)
Definition commit_writes (st : Z) (C : Z → block) (L : list Z) (h : block) : list (Z * block) :=
  log_writes st C L ++ [(st, hdr L h)] ++ ((λ b, (b, C b)) <$> L) ++ [(st, hdr [] (hdr L h))].

Lemma home_writes_logged st C C' L :
  (∀ k b, L !! k = Some b → C (st + Z.of_nat k + 1) = C' b) →
  home_writes st C L = (λ b, (b, C' b)) <$> L.
Proof.
  intros H. unfold home_writes. apply list_eq. intros k. rewrite list_lookup_imap, list_lookup_fmap.
  destruct (L !! k) as [b|] eqn:E; [|done]. cbn. by rewrite (H k b).
Qed.

Lemma lists_none l N : 0 < lsize l → lh_n l = 0 → lists_blocks l N [].
Proof. intros Hs Hn. split; [done|done|done|constructor|set_solver]. Qed.

Lemma commit_run c i s L :
  let l := log s in
  bc_inv c i ∅ (lb s) → log_wf l (disk_size (lb s)) → lists_blocks l (disk_size (lb s)) L → L ≠ [] →
  (∀ m, dirty (lb s) m ↔ m ∈ L) →
  ∃ t, Lg.commit s = Ok tt (Lst t (set_lh_n 0 l)) ∧ bc_inv c i ∅ t ∧
    wrote (commit_writes (lstart l) (cont (lb s)) L (cont (lb s) (lstart l))) (lb s) t ∧
    bcore t = bcore (lb s) ∧ (∀ m, ¬ dirty t m) ∧
    (∀ m, home l (disk_size (lb s)) m → cont t m = cont (lb s) m).
Proof.
  intros l Hinv Hwf HL Hne Hd. set (C := cont (lb s)). set (st := lstart l). set (h := C st).
  pose proof (small_list s L Hwf HL) as Hlen.
  assert (0 ≤ st < disk_size (lb s)) as Hst by (destruct Hwf; unfold st; lia).
  assert (∀ b, b ∈ L → b ≠ st) as Hnst.
  { intros b Hb ->. destruct (lb_home _ _ _ HL _ Hb) as [_ []]. destruct Hwf. unfold st. lia. }
  destruct (write_log_run c i s L Hinv Hwf HL Hd) as (t1 & E1 & I1 & W1 & K1 & D1 & C1 & C1').
  fold l in W1, C1, C1'. fold st in W1, C1, C1'. pose proof (wrote_length s _ _ W1) as N1.
  destruct (write_head_run c i (set_lb t1 s) L) with (n := length L) as (t2 & E2 & I2 & [W2 K2 C2 D2]);
    try done; [apply Hwf|cbn [lb set_lb log]; rewrite N1; exact Hst|intros n; apply D1|apply HL| |].
  { change (log (set_lb t1 s)) with l. rewrite (lw_blocks _ _ Hwf). unfold NBUF, LOGSIZE in *. lia. }
  cbn [lb set_lb log] in W2, K2, C2, D2, E2. fold l in W2, C2, D2. fold st in W2, C2, D2.
  rewrite (lb_take _ _ _ HL) in W2, C2. rewrite N1 in C2.
  rewrite (C1' st) in W2, C2 by (done || lia). fold C in W2, C2. fold h in W2, C2.
  pose proof (wrote_trans _ _ _ _ _ W1 W2) as W12. pose proof (wrote_length s _ _ W12) as N2.
  assert (∀ m, dirty t2 m ↔ m ∈ L) as D2'.
  { intros m. rewrite D2, D1. split; [by intros []|]. intros Hm. split; [done|by apply Hnst]. }
  destruct (install_run c i (set_lb t2 s) L) with (Ld := L) as (t3 & E3 & I3 & W3 & K3 & D3 & C3 & C3');
    try done; cbn [lb set_lb log]; rewrite ?N2; try done.
  { intros m. apply D2'. }
  { intros b Hb. left. by apply D2'. }
  cbn [lb set_lb log] in W3, K3, C3, C3', D3, E3. rewrite N2 in C3'. fold l in W3, C3. fold st in W3, C3.
  assert (∀ k b, L !! k = Some b → cont t2 (st + Z.of_nat k + 1) = C b) as Hslot.
  { intros k b Hb. destruct (slot_range s L Hwf HL k) as [? ?]; [apply lookup_lt_is_Some; eauto|].
    rewrite C2 by done. rewrite decide_False by lia. by apply C1. }
  rewrite (home_writes_logged st _ C) in W3 by done.
  pose proof (wrote_trans _ _ _ _ _ W12 W3) as W123. pose proof (wrote_length s _ _ W123) as N3.
  assert (∀ m, ¬ dirty t3 m) as D3' by (intros m; rewrite D3, D2'; naive_solver).
  destruct (write_head_run c i (Lst t3 (set_lh_n 0 l)) []) with (n := 0%nat) as (t4 & E4 & I4 & [W4 K4 C4 D4]);
    try done; [apply Hwf|cbn [lb log]; rewrite N3; exact Hst|intros m Hm; by destruct (D3' m)|simpl; unfold NBUF; lia|simpl; lia|].
  cbn [lb log set_lh_n lstart lh_block take] in W4, K4, C4, D4, E4. fold st in W4, C4, D4.
  assert (cont t3 st = hdr L h) as Eh.
  { rewrite C3' by (done || (intros Hin; by apply Hnst in Hin)). rewrite C2 by done. by rewrite decide_True. }
  rewrite Eh in W4, C4. pose proof (wrote_trans _ _ _ _ _ W123 W4) as W. exists t4. split_and!.
  - unfold Lg.commit, Lg.get_log. mred. fold l. rewrite (lb_n _ _ _ HL).
    assert (0 <? Z.of_nat (length L) = true) as -> by (apply Z.ltb_lt; destruct L; [done|simpl; lia]).
    cbn [mwhen]. mstep E1. mstep E2. mstep E3. unfold Lg.mod_log. mred. exact E4.
  - done.
  - unfold commit_writes. by rewrite <- !app_assoc in W.
  - congruence.
  - intros m. rewrite D4. intros [Hm _]. by apply (D3' m).
  - intros m [Hm Hm']. assert (m ≠ st) as Hmst by (destruct Hwf; unfold st; lia).
    rewrite N3 in C4. rewrite C4 by done. rewrite decide_False by done.
    destruct (decide (m ∈ L)) as [Hin|Hni].
    + apply list_elem_of_lookup in Hin as [k Hk]. rewrite (C3 k m Hk). by apply Hslot.
    + rewrite C3' by done. rewrite C2 by done. rewrite decide_False by done.
      apply C1'; [done|]. unfold st. lia.
Qed.

(** ** Recovery *)

(** A machine just restarted on disk [D]: nothing modified in the cache, the
    log's geometry read from the super block. *)
Record booted (c i : nat) (l : logstate) (D : list block) (r : lst) : Prop := {
  bt_cache : bc_inv c i ∅ (lb r);
  bt_clean m : ¬ dirty (lb r) m;
  bt_disk : disk (lb r) = D;
  bt_start : lstart (log r) = lstart l;
  bt_size : lsize (log r) = lsize l;
  bt_dev : ldev (log r) = 1;
  bt_blocks : length (lh_block (log r)) = LOGSIZE;
}.

(** The header block [h] lists the blocks [L]. *)
Definition header_is (h : block) (L : list Z) : Prop :=
  s32 (get_word h 0) = Z.of_nat (length L) ∧ ∀ k b, L !! k = Some b → s32 (get_word h (S k)) = b.

Lemma header_is_hdr L h N l :
  lists_blocks l N L → log_wf l N → length h = Z.to_nat BSIZE → header_is (hdr L h) L.
Proof.
  intros HL Hwf Hh. pose proof (lb_fits _ _ _ HL). destruct Hwf. change (Z.to_nat BSIZE) with 512%nat in Hh.
  unfold LOGSIZE in *. split; [apply hdr_count; lia|].
  intros k b Hk. apply hdr_block; [lia|done|]. apply list_elem_of_lookup_2, (lb_home _ _ _ HL) in Hk as [? _]. lia.
Qed.

Lemma header_is_empty h : length h = Z.to_nat BSIZE → header_is (hdr [] h) [].
Proof. intros Hh. change (Z.to_nat BSIZE) with 512%nat in Hh. split; [by apply hdr_count; simpl; lia|done]. Qed.

Lemma cont_disk c i s m : bc_inv c i ∅ s → ¬ dirty s m → cont s m = disk s !!! Z.to_nat m.
Proof. intros Hinv Hd. apply (cont_clean c i ∅); [done|done|set_solver]. Qed.

Lemma home_writes_ext st C C' L :
  (∀ k, (k < length L)%nat → C (st + Z.of_nat k + 1) = C' (st + Z.of_nat k + 1)) →
  home_writes st C L = home_writes st C' L.
Proof.
  intros H. unfold home_writes. apply list_eq. intros k. rewrite !list_lookup_imap.
  destruct (L !! k) as [b|] eqn:E; [|done]. cbn. rewrite H; [done|]. apply lookup_lt_is_Some. eauto.
Qed.

Lemma recover_run c i l D r L :
  booted c i l D r → log_wf l (Z.of_nat (length D)) →
  header_is (D !!! Z.to_nat (lstart l)) L → NoDup L → (∀ b, b ∈ L → home l (Z.of_nat (length D)) b) →
  Z.of_nat (length L) < lsize l →
  ∃ r', Lg.recover_from_log r = Ok tt r' ∧ booted c i l (disk (lb r')) r' ∧ lh_n (log r') = 0 ∧
    disk (lb r') = apply_writes D (home_writes (lstart l) (λ m, D !!! Z.to_nat m) L
                     ++ [(lstart l, hdr [] (D !!! Z.to_nat (lstart l)))]).
Proof.
  intros [Hinv Hcl HD Hs Hz Hv HB] Hwf [Hh Hhk] Hnd Hhome Hfit. set (st := lstart l) in *.
  destruct Hwf as [_ Hst0 Hsz Hend HN _]. fold st in Hst0, Hend. unfold LOGSIZE in Hsz.
  assert (∀ m, dirty (lb r) m → m ∈ []) as Hd0 by (intros m Hm; by destruct (Hcl m)).
  assert (0 < NBUF)%nat as Hnb by (unfold NBUF; lia).
  assert (0 ≤ lstart (log r) < disk_size (lb r)) as Hst by (rewrite Hs, HD; lia).
  assert (cont (lb r) (lstart (log r)) = D !!! Z.to_nat st) as Ec.
  { rewrite (cont_disk c i) by done. by rewrite HD, Hs. }
  destruct (read_head_run c i r [] Hv Hinv Hst Hd0 Hnb (length L)) as (t1 & B & E1 & I1 & V1 & HlB & HB1).
  { by rewrite Ec. } { rewrite HB. unfold LOGSIZE. lia. }
  set (l1 := set_lh_block B (set_lh_n (Z.of_nat (length L)) (log r))) in *.
  pose proof (sv_disk _ _ V1) as Dt1. rewrite HD in Dt1.
  assert (∀ m, ¬ dirty t1 m) as Cl1 by (intros m; rewrite (sv_dirty _ _ V1); auto).
  assert (take (length L) B = L) as HtB.
  { apply list_eq. intros k. destruct (L !! k) as [b|] eqn:Ek.
    - pose proof (lookup_lt_Some _ _ _ Ek). rewrite lookup_take_lt by done.
      rewrite (list_lookup_lookup_total_lt B k) by (rewrite HlB, HB; unfold LOGSIZE; lia).
      rewrite HB1 by done. rewrite Ec. f_equal. by apply Hhk.
    - apply lookup_ge_None in Ek. apply lookup_ge_None. rewrite length_take. lia. }
  destruct (install_run c i (Lst t1 l1) L) with (Ld := @nil Z) as (t2 & E2 & I2 & W2 & _ & D2 & _ & C2).
  { done. }
  { split; cbn; rewrite ?Hs, ?Hz, ?Dt1, ?HlB; fold st; unfold LOGSIZE; try done; lia. }
  { split; cbn; rewrite ?Hz; try done. unfold home in *. cbn. rewrite Hs, Hz, Dt1. apply Hhome. }
  { intros m Hm. by destruct (Cl1 m). } { done. } { intros. right. unfold NBUF. simpl. lia. }
  cbn [lb set_lb log] in *. change (lstart l1) with (lstart (log r)) in *. rewrite Hs in W2. fold st in W2.
  assert (∀ m, ¬ dirty t2 m) as Cl2 by (intros m; rewrite D2; intros [Hm _]; by apply (Cl1 m)).
  pose proof W2 as [_ Dt2]. rewrite Dt1 in Dt2.
  rewrite (home_writes_ext _ _ (λ m, D !!! Z.to_nat m)) in Dt2.
  2: { intros k Hk. rewrite (cont_disk c i), Dt1 by done. done. }
  destruct (write_head_run c i (Lst t2 (set_lh_n 0 l1)) []) with (n := 0%nat) as (t3 & E3 & I3 & [[_ Dt3] _ C3 D3]);
    try done.
  { cbn. by rewrite Dt2, length_apply_writes, <- HD. } { intros m Hm. by destruct (Cl2 m). } { simpl. lia. }
  cbn [lb log] in *. change (lstart (set_lh_n 0 l1)) with (lstart (log r)) in *. rewrite Hs in *. fold st in Dt3.
  exists (Lst t3 (set_lh_n 0 l1)). split_and!.
  - unfold Lg.recover_from_log. mstep E1. mstep E2. unfold Lg.mod_log. mred. exact E3.
  - split; cbn; try done; [|by rewrite HlB]. intros m. rewrite D3. intros [Hm _]. by apply (Cl2 m).
  - done.
  - cbn. rewrite Dt3, Dt2, apply_writes_app. cbn [take]. do 4 f_equal.
    assert (st ∉ L) as HstL by (intros Hin; destruct (Hhome _ Hin) as [_ []]; fold st; lia).
    rewrite C2; [|rewrite Dt1; lia|done]. rewrite (cont_disk c i), Dt1 by done. done.
Qed.

(** ** Crash safety *)

(** A transaction in progress: the modified blocks [L] are pinned in the cache,
    and the log on disk is empty.  [held] are the buffers the process has locked. *)
Record pending (c i : nat) (held : gset nat) (s : lst) (L : list Z) : Prop := {
  pd_cache : bc_inv c i held (lb s);
  pd_lock : is_free LLog (chart (bcore (lb s)));
  pd_wf : log_wf (log s) (disk_size (lb s));
  pd_list : lists_blocks (log s) (disk_size (lb s)) L;
  pd_dirty m : dirty (lb s) m ↔ m ∈ L;
  pd_header : header_is (disk (lb s) !!! Z.to_nat (lstart (log s))) [];
  pd_hlen : length (disk (lb s) !!! Z.to_nat (lstart (log s))) = Z.to_nat BSIZE;
}.

Lemma apply_writes_last D st d b :
  0 ≤ st → 0 ≤ b → b ≠ st → apply_writes D [(st, d)] !!! Z.to_nat b = D !!! Z.to_nat b.
Proof. intros. cbn. apply list_lookup_total_insert_ne. lia. Qed.

Lemma header_after D st d W :
  0 ≤ st < Z.of_nat (length D) → (∀ w, w ∈ W → 0 ≤ w.1 ∧ w.1 ≠ st) →
  apply_writes D ((st, d) :: W) !!! Z.to_nat st = d.
Proof.
  intros Hst HW. cbn. rewrite apply_writes_other by (done || lia). apply list_lookup_total_insert_eq. lia.
Qed.

Section crash.
Context (c i : nat) (s : lst) (L : list Z) (Hp : pending c i ∅ s L).
Let l := log s.
Let st := lstart l.
Let D := disk (lb s).
Let C := cont (lb s).
Let N := disk_size (lb s).

Lemma log_writes_slots w : w ∈ log_writes st C L → st < w.1 < st + lsize l.
Proof using Hp.
  intros (k & Hk)%list_elem_of_lookup. unfold log_writes in Hk. rewrite list_lookup_imap in Hk.
  destruct (L !! k) as [b|] eqn:E; [|done]. cbn in Hk. injection Hk as <-. cbn.
  destruct (slot_range s L (pd_wf _ _ _ _ _ Hp) (pd_list _ _ _ _ _ Hp) k) as [H1 _]; [apply lookup_lt_is_Some; eauto|].
  fold l in H1. fold st in H1. lia.
Qed.

Lemma home_not_log b : home l N b → ¬ (st ≤ b < st + lsize l) ∧ 0 ≤ b < N ∧ b ≠ st.
Proof using Hp. intros [H1 H2]. destruct (pd_wf _ _ _ _ _ Hp). unfold st, l in *. lia. Qed.

Lemma home_part_home w : w ∈ ((λ b, (b, C b)) <$> L) → home l N w.1.
Proof using Hp. intros (b & -> & Hb)%list_elem_of_fmap. by apply (lb_home _ _ _ (pd_list _ _ _ _ _ Hp)). Qed.

(** A clean block is on disk. *)
Lemma untouched b : b ∉ L → D !!! Z.to_nat b = C b.
Proof using Hp.
  intros Hb. symmetry. apply (cont_disk c i); [apply Hp|]. by rewrite (pd_dirty _ _ _ _ _ Hp).
Qed.

(** Before the header is written the home blocks and the header are as before. *)
Lemma before_commit W1 b :
  W1 `prefix_of` log_writes st C L → b = st ∨ home l N b →
  apply_writes D W1 !!! Z.to_nat b = D !!! Z.to_nat b.
Proof using Hp.
  intros Hpre Hb. assert (0 ≤ st) by apply (pd_wf _ _ _ _ _ Hp).
  assert (¬ (st < b < st + lsize l) ∧ 0 ≤ b) as [Hb1 Hb2].
  { destruct Hb as [->|Hb%home_not_log]; lia. }
  apply apply_writes_other; [done|]. intros w Hw.
  assert (st < w.1 < st + lsize l); [|lia]. apply log_writes_slots. by eapply elem_of_prefix.
Qed.

(** After it, the log's slots hold the new contents. *)
Lemma logged_slot W2 k b :
  (∀ w, w ∈ W2 → w.1 = st ∨ home l N w.1) → L !! k = Some b →
  apply_writes D (log_writes st C L ++ W2) !!! Z.to_nat (st + Z.of_nat k + 1) = C b.
Proof using Hp.
  intros HW Hk. rewrite apply_writes_app.
  destruct (slot_range s L (pd_wf _ _ _ _ _ Hp) (pd_list _ _ _ _ _ Hp) k) as [H1 H2]; [apply lookup_lt_is_Some; eauto|].
  fold l in H1, H2. fold st in H1, H2. assert (0 ≤ st) by apply (pd_wf _ _ _ _ _ Hp).
  rewrite apply_writes_other; [|lia|intros w [E|E%home_not_log]%HW; lia].
  apply apply_writes_in; [done|intros w Hw%log_writes_slots; lia| |].
  - intros d (k' & Hk')%list_elem_of_lookup. unfold log_writes in Hk'. rewrite list_lookup_imap in Hk'.
    destruct (L !! k') as [b'|] eqn:E; [|done]. cbn in Hk'. injection Hk' as ? <-.
    assert (k' = k) as -> by lia. congruence.
  - apply list_elem_of_lookup. exists k. unfold log_writes. by rewrite list_lookup_imap, Hk.
Qed.

(** The installed blocks, whether or not they had been copied before. *)
Lemma installed D1 b :
  length D1 = length D → home l N b → (b ∉ L → D1 !!! Z.to_nat b = C b) →
  apply_writes D1 ((λ b, (b, C b)) <$> L) !!! Z.to_nat b = C b.
Proof using Hp.
  intros Hlen Hb Hoth. pose proof (home_not_log b Hb) as (_ & Hr & _). destruct (decide (b ∈ L)) as [Hin|Hni].
  - apply apply_writes_in; [by rewrite Hlen|intros w Hw%home_part_home; destruct Hw; lia| |].
    + intros d (b' & [= -> ->] & _)%list_elem_of_fmap. done.
    + apply list_elem_of_fmap. by exists b.
  - rewrite apply_writes_other; [by apply Hoth|lia|]. intros w Hw. pose proof (home_part_home w Hw) as [? _].
    split; [lia|]. apply list_elem_of_fmap in Hw as (b' & -> & Hb'). cbn. intros ->. done.
Qed.

(** Writes to the log and to the listed blocks leave the other blocks alone. *)
Lemma others_kept W b :
  home l N b → b ∉ L → (∀ w, w ∈ W → w ∈ log_writes st C L ∨ w.1 = st ∨ w ∈ ((λ b, (b, C b)) <$> L)) →
  apply_writes D W !!! Z.to_nat b = C b.
Proof using Hp.
  intros Hb Hni HW. pose proof (home_not_log b Hb) as (H1 & H2 & H3). assert (0 ≤ st) by apply (pd_wf _ _ _ _ _ Hp).
  rewrite apply_writes_other; [by apply untouched|lia|].
  intros w [Hw%log_writes_slots|[Hw|Hw]]%HW; [lia|lia|].
  pose proof (home_part_home w Hw) as [? _]. split; [lia|]. apply list_elem_of_fmap in Hw as (b' & -> & Hb').
  cbn. by intros ->.
Qed.

(** The prefixes of a commit's writes. *)
Lemma commit_prefix h W1 :
  W1 `prefix_of` commit_writes st C L h →
  ((length W1 ≤ length L)%nat ∧ W1 `prefix_of` log_writes st C L) ∨
  ((length L < length W1)%nat ∧ ∃ W2, W2 `prefix_of` ((λ b, (b, C b)) <$> L) ∧
     W1 = log_writes st C L ++ (st, hdr L h) :: W2) ∨
  ((length L < length W1)%nat ∧ W1 = commit_writes st C L h).
Proof using.
  assert (∀ (A : Type) (W A1 B1 : list A), W `prefix_of` A1 ++ B1 →
    W `prefix_of` A1 ∨ ∃ x W', W = A1 ++ x :: W' ∧ x :: W' `prefix_of` B1) as Hcases.
  { intros A W A1. revert W. induction A1 as [|a A1 IH]; intros W B1 HW.
    - destruct W as [|x W]; [left; by exists []|right; by exists x, W].
    - destruct W as [|x W]; [left; apply prefix_nil|]. cbn in HW.
      pose proof (prefix_cons_inv_1 _ _ _ _ HW) as ->. apply prefix_cons_inv_2, IH in HW as [HW|(y & W' & -> & HW)].
      + left. by apply prefix_cons.
      + right. by exists y, W'. }
  assert (length (log_writes st C L) = length L) as HlL by (unfold log_writes; by rewrite length_imap).
  intros HW. unfold commit_writes in HW. apply Hcases in HW as [HW|(x & W' & -> & HW)].
  - left. split; [|done]. apply prefix_length in HW. by rewrite <- HlL.
  - right. cbn in HW. pose proof (prefix_cons_inv_1 _ _ _ _ HW) as ->. apply prefix_cons_inv_2, Hcases in HW.
    rewrite length_app, HlL. destruct HW as [HW|(y & W2 & -> & HW)].
    + left. split; [simpl; lia|]. by exists W'.
    + right. split; [simpl; lia|]. pose proof (prefix_cons_inv_1 _ _ _ _ HW) as ->.
      apply prefix_cons_inv_2, prefix_nil_inv in HW as ->. done.
Qed.

(** Recovery from a prefix of the commit's writes brings back [V]. *)
Definition recovers (W1 : list (Z * block)) (V : Z → block) : Prop :=
  ∀ c' i' r, booted c' i' l (apply_writes D W1) r →
    ∃ r', Lg.recover_from_log r = Ok tt r' ∧ booted c' i' l (disk (lb r')) r' ∧ lh_n (log r') = 0 ∧
      ∀ b, home l N b → disk (lb r') !!! Z.to_nat b = V b.

Lemma start_range : 0 ≤ st < N.
Proof using Hp. destruct (pd_wf _ _ _ _ _ Hp). unfold st, N, l. lia. Qed.

Lemma header_cont : C st = D !!! Z.to_nat st.
Proof using Hp.
  symmetry. apply untouched. intros Hin. apply (lb_home _ _ _ (pd_list _ _ _ _ _ Hp)) in Hin.
  by destruct (home_not_log st Hin) as (_ & _ & []).
Qed.

Lemma wf_after W1 : log_wf l (Z.of_nat (length (apply_writes D W1))).
Proof using Hp. rewrite length_apply_writes. apply Hp. Qed.

(** Replaying an empty log only rewrites the header. *)
Lemma recovers_empty W1 V :
  header_is (apply_writes D W1 !!! Z.to_nat st) [] →
  (∀ b, home l N b → apply_writes D W1 !!! Z.to_nat b = V b) → recovers W1 V.
Proof using Hp.
  intros Hh HV c' i' r Hb. pose proof start_range as Hst.
  destruct (recover_run c' i' l _ r [] Hb (wf_after W1) Hh) as (r' & Er & Hb' & Hn & Dr);
    [constructor|set_solver|destruct (pd_wf _ _ _ _ _ Hp); simpl; unfold l; lia|].
  exists r'. split_and!; try done. intros b Hbh. pose proof (home_not_log b Hbh) as (_ & ? & ?).
  rewrite Dr. cbn [home_writes imap app]. fold st. rewrite apply_writes_last by (done || lia). auto.
Qed.

Lemma crash_before W1 : W1 `prefix_of` log_writes st C L → recovers W1 (λ b, D !!! Z.to_nat b).
Proof using Hp.
  intros Hpre. apply recovers_empty; [rewrite before_commit by auto; apply Hp|].
  intros b Hb. rewrite before_commit by auto. done.
Qed.

Lemma crash_during W2 :
  W2 `prefix_of` ((λ b, (b, C b)) <$> L) → recovers (log_writes st C L ++ (st, hdr L (C st)) :: W2) C.
Proof using Hp.
  intros Hpre c' i' r Hb. pose proof start_range as Hst. pose proof (pd_list _ _ _ _ _ Hp) as HL.
  assert (∀ w, w ∈ W2 → w ∈ ((λ b, (b, C b)) <$> L)) as HW2 by (intros w Hw; by eapply elem_of_prefix).
  assert (∀ w, w ∈ W2 → 0 ≤ w.1 ∧ w.1 ≠ st) as HW2'.
  { intros w Hw%HW2%home_part_home. destruct (home_not_log _ Hw) as (_ & ? & ?). split; [lia|done]. }
  destruct (recover_run c' i' l _ r L Hb (wf_after _)) as (r' & Er & Hb' & Hn & Dr); rewrite ?length_apply_writes; try apply HL.
  { fold st. rewrite apply_writes_app, header_after; [|by rewrite length_apply_writes|done].
    apply (header_is_hdr L _ N l); [done|apply Hp|]. rewrite header_cont. apply (pd_hlen _ _ _ _ _ Hp). }
  exists r'. split_and!; try done. intros b Hbh. pose proof (home_not_log b Hbh) as (_ & ? & ?).
  rewrite Dr. fold st. rewrite (apply_writes_app (apply_writes D _)), apply_writes_last by (done || lia).
  rewrite (home_writes_logged _ _ C).
  - apply installed; [apply length_apply_writes|done|]. intros Hni. apply others_kept; [done|done|].
    intros w [Hw|[->|Hw]%elem_of_cons]%elem_of_app; auto.
  - intros k b' Hk. apply logged_slot; [|done].
    intros w [->|Hw]%elem_of_cons; [by left|right]. by apply home_part_home, HW2.
Qed.

Lemma crash_after : recovers (commit_writes st C L (C st)) C.
Proof using Hp.
  pose proof start_range as Hst. apply recovers_empty.
  - unfold commit_writes. rewrite !apply_writes_app, header_after; [|by rewrite !length_apply_writes|set_solver].
    apply header_is_empty. rewrite length_hdr, header_cont. apply (pd_hlen _ _ _ _ _ Hp).
  - intros b Hbh. pose proof (home_not_log b Hbh) as (_ & ? & ?).
    unfold commit_writes. rewrite app_assoc, (apply_writes_app D), (apply_writes_app _ _ [_]), apply_writes_last by (done || lia).
    apply installed; [apply length_apply_writes|done|]. intros Hni.
    apply others_kept; [done|done|]. intros w [Hw|Hw%list_elem_of_singleton]%elem_of_app; [auto|]. subst w. auto.
Qed.
End crash.

(** C24 [safety]: commits are atomic across crashes.  Let the log be empty on disk
    and the modified blocks [L] pinned in the cache.  Then commit() returns, with
    the caller's view of every block unchanged, nothing left modified, and a
    sequence [W] of disk writes.  If the machine stops after any number of these
    writes, then recover_from_log() on the restarted machine returns and leaves
    every block outside the log as it was before the transaction, when the header
    had not been written yet, and with the contents of the whole transaction,
    otherwise.  In particular neither commit() nor recovery runs out of buffers. *)
Theorem commit_crash_atomic c i s L :
  pending c i ∅ s L → L ≠ [] →
  ∃ s' W, Lg.commit s = Ok tt s' ∧ wrote W (lb s) (lb s') ∧ bc_inv c i ∅ (lb s') ∧
    (∀ m, ¬ dirty (lb s') m) ∧ lh_n (log s') = 0 ∧
    (∀ b, home (log s) (disk_size (lb s)) b → cont (lb s') b = cont (lb s) b) ∧
    ∀ W1, W1 `prefix_of` W →
      recovers s W1 (λ b, if decide (length W1 ≤ length L)%nat then disk (lb s) !!! Z.to_nat b else cont (lb s) b).
Proof.
  intros Hp Hne. pose proof Hp as [Hinv _ Hwf HL Hd _ _].
  destruct (commit_run c i s L Hinv Hwf HL Hne Hd) as (t & E & It & Wt & _ & Ct & Vt).
  eexists _, _. split_and!; [exact E|exact Wt|done|done|done|exact Vt|].
  intros W1 HW1.
  destruct (commit_prefix s L _ W1 HW1) as [(Hle & Hpre)|[(Hlt & W2 & Hpre & ->)|(Hlt & ->)]];
    destruct (decide _) as [?|?]; try lia.
  - by apply (crash_before c i s L Hp).
  - by apply (crash_during c i s L Hp).
  - by apply (crash_after c i s L Hp).
Qed.

(** ** Adding a block to the transaction *)

(** The list of blocks after log_write() of block [n]. *)
Definition absorb (n : Z) (L : list Z) : list Z := if decide (n ∈ L) then L else L ++ [n].

(** log_write()'s update of the in-memory header. *)
Definition logged (n : Z) (l : logstate) : logstate :=
  let i := default (Z.to_nat (lh_n l)) (first_index (λ m, m =? n) (take (Z.to_nat (lh_n l)) (lh_block l))) in
  let l' := set_lh_block (<[i := n]> (lh_block l)) l in
  if Z.of_nat i =? lh_n l then set_lh_n (lh_n l +i 1) l' else l'.

Lemma logged_lists l N L n :
  log_wf l N → lists_blocks l N L → home l N n → Z.of_nat (length L) < lsize l - 1 →
  log_wf (logged n l) N ∧ lists_blocks (logged n l) N (absorb n L) ∧
  ∃ k B, logged n l = set_lh_n k (set_lh_block B l).
Proof.
  intros Hwf HL Hn Hfit. pose proof HL as [E1 E2 E3 E4 E5]. unfold logged. cbv zeta. rewrite E1, Nat2Z.id, E2.
  destruct (first_index _ L) as [k|] eqn:Ek; unfold default, id.
  - apply first_index_Some in Ek as [(x & Hk & Hx%Z.eqb_eq) _]. subst x.
    assert (n ∈ L) as Hin by (by eapply list_elem_of_lookup_2). pose proof (lookup_lt_Some _ _ _ Hk) as Hlt.
    assert (lh_block l !! k = Some n) as HkB by (rewrite <- E2 in Hk; by apply lookup_take_Some in Hk as [? _]).
    rewrite (list_insert_id _ _ _ HkB), (proj2 (Z.eqb_neq _ _)) by lia.
    assert (set_lh_block (lh_block l) l = l) as -> by (by destruct l).
    unfold absorb. rewrite decide_True by done. split_and!; [done|done|]. exists (lh_n l), (lh_block l). by destruct l.
  - assert (n ∉ L) as Hni.
    { intros (k & Hk)%list_elem_of_lookup. apply (proj1 (first_index_None _ _) Ek) in Hk. lia. }
    destruct Hwf as [F1 F2 F3 F4 F5 F6]. unfold LOGSIZE in *. unfold absorb. rewrite Z.eqb_refl, decide_False by done.
    split_and!; [| |by eexists _, _].
    + split; cbn; try done. by rewrite length_insert.
    + split; cbn; rewrite ?length_app; cbn [length].
      * rewrite s32_id by (unfold is_s32; lia). lia.
      * rewrite Nat.add_1_r, (take_S_r _ _ n) by (apply list_lookup_insert_eq; lia).
        by rewrite take_insert_ge, E2 by lia.
      * lia.
      * apply NoDup_app. split_and!; [done|set_solver|apply NoDup_singleton].
      * intros b [Hb|Hb%list_elem_of_singleton]%elem_of_app; [by apply E5|by subst].
Qed.

Lemma alter_buf_l b f s : alter_buf b f s = Ok tt (set_lb (set_bufs (alter f b (bufs (lb s))) (lb s)) s).
Proof. exact (lift_l (Bc.alter_buf b f) s tt _ eq_refl). Qed.

(** The steps of log_write() inside its critical section. *)
Lemma logged_steps {A} b f n s (k : M lst A) :
  (let l := log s in
   let i := default (Z.to_nat (lh_n l)) (first_index (λ m, m =? n) (take (Z.to_nat (lh_n l)) (lh_block l))) in
   Lg.mod_log (set_lh_block (<[i := n]> (lh_block l)));;
   mwhen (Z.of_nat i =? lh_n l) (Lg.mod_log (set_lh_n (lh_n l +i 1)));;
   alter_buf b f;; k) s =
  k (Lst (set_bufs (alter f b (bufs (lb s))) (lb s)) (logged n (log s))).
Proof.
  cbv zeta. unfold logged. set (j := default _ (first_index _ _)). unfold Lg.mod_log. mred.
  destruct (Z.of_nat j =? lh_n (log s)); mred.
  all: by rewrite (bind_ok _ _ _ _ _ (alter_buf_l b f _)).
Qed.

Lemma log_write_run c i held s L b n :
  pending c i held s L → (b < NBUF)%nat → b ∈ held → holds (lb s) n b = true →
  home (log s) (disk_size (lb s)) n → 1 ≤ outstanding (log s) → Z.of_nat (length L) < lsize (log s) - 1 →
  let t := set_bufs (alter (set_flags 6) b (bufs (lb s))) (lb s) in
  Lg.log_write b s = Ok tt (Lst t (logged n (log s))) ∧ pending c i held (Lst t (logged n (log s))) (absorb n L) ∧
  (∀ m, cont t m = cont (lb s) m) ∧ (∀ k, the_buf t k = if decide (k = b) then set_flags 6 (the_buf (lb s) b) else the_buf (lb s) k).
Proof.
  intros [Hinv Hlk Hwf HL Hd Hh Hhl] Hb Hbh Hhold Hn Hout Hfit t.
  pose proof Hhold as (Hdev & Hbn & Hf)%holds_true.
  destruct (bi_flags _ _ _ _ Hinv b Hb) as [?|(Hfl & _ & Hr)]; [done|].
  destruct (logged_lists _ _ _ _ Hwf HL Hn Hfit) as (Hwf' & HL' & k & B & El).
  assert (bdev (the_buf (lb s) b) = 1 ∧ 0 ≤ blockno (the_buf (lb s) b) < disk_size (lb s)) as Hbd by done.
  pose proof (held_update_inv c i held _ Hinv b Hb Hbh (set_flags 6) ltac:(done) ltac:(done) (or_intror eq_refl) Hbd) as Hi.
  pose proof (held_update_cont c i held _ Hinv b Hb Hbh (set_flags 6) ltac:(done) ltac:(done) (or_intror eq_refl) Hbd) as Hc.
  pose proof (held_update_dirty c i held _ Hinv b Hb (set_flags 6) ltac:(done) Hbd) as Hdt.
  pose proof (held_update_buf c i held _ Hinv b Hb (set_flags 6)) as Hbuf. fold t in Hi, Hc, Hdt, Hbuf.
  rewrite Hbn in Hc, Hdt. split_and!.
  - assert (alter (λ x, set_flags (Z.lor (flags x) B_DIRTY) x) b (bufs (lb s)) = alter (set_flags 6) b (bufs (lb s))) as Ealt.
    { destruct (bi_ring _ _ _ _ Hinv) as (? & [Hlen _ _]).
      assert (bufs (lb s) !! b = Some (the_buf (lb s) b)) as Hlk' by (apply list_lookup_lookup_total_lt; lia).
      rewrite !(alter_lookup_insert _ _ _ _ Hlk'). do 2 f_equal. by destruct Hfl as [-> | ->]. }
    destruct (locked_section c LLog (λ s, Lst (set_bufs (alter (λ x, set_flags (Z.lor (flags x) B_DIRTY) x) b (bufs (lb s))) (lb s))
      (logged n (log s))) s) as [E1 E2]; [apply Hinv|done|done|].
    unfold Lg.log_write, Lg.get_log. mred. pose proof (lb_n _ _ _ HL) as En. destruct Hwf. unfold LOGSIZE in *.
    rewrite (proj2 (Z.leb_gt _ (lh_n (log s)))), (proj2 (Z.leb_gt (lsize (log s) - 1) _)) by lia. cbn [orb].
    rewrite (proj2 (Z.ltb_ge _ 1)) by lia. mstep E1. set (s1 := upd _ s) in *.
    assert (bufs (lb s1) = bufs (lb s) ∧ log s1 = log s) as [B1 B2] by done. clearbody s1. mred.
    assert (get_buf b s1 = Ok (the_buf (lb s) b) s1) as Eg.
    { unfold the_buf. rewrite <- B1. destruct s1. exact (lift_l (Bc.get_buf b) _ _ _ eq_refl). }
    mstep Eg. rewrite Hbn. rewrite (logged_steps b _ n s1). cbn beta in E2. rewrite B1, B2, Ealt in *. exact E2.
  - split; try done.
    + intros m. cbn [lb]. rewrite Hdt. unfold absorb. case_decide as Em.
      * subst m. cbn. split; [intros _|done]. case_decide; set_solver.
      * rewrite Hd. case_decide; set_solver.
    + rewrite El. apply Hh.
    + rewrite El. apply Hhl.
  - intros m. rewrite Hc. case_decide; [|done]. subst. symmetry. by apply (cont_buf c i held).
  - done.
Qed.

(** The use of the log that log.c prescribes: read, modify, log_write, release. *)
Definition update_block (n : Z) (g : block → block) : M lst unit :=
  b ← bread 1 n;
  alter_buf b (λ x, set_data (g (data x)) x);;
  Lg.log_write b;;
  brelse b.

Lemma update_block_run c i s L n g :
  pending c i ∅ s L → home (log s) (disk_size (lb s)) n → 1 ≤ outstanding (log s) →
  Z.of_nat (length L) < lsize (log s) - 1 →
  ∃ t, update_block n g s = Ok tt (Lst t (logged n (log s))) ∧
    pending c i ∅ (Lst t (logged n (log s))) (absorb n L) ∧
    disk t = disk (lb s) ∧ writes t = writes (lb s) ∧ bcore t = bcore (lb s) ∧
    (∀ m, home (log s) (disk_size (lb s)) m → cont t m = if decide (m = n) then g (cont (lb s) n) else cont (lb s) m).
Proof.
  intros Hp Hn Hout Hfit. pose proof Hp as [Hinv Hlk Hwf HL Hd Hh Hhl].
  destruct (bread_one c i (lb s) n L) as (j & s1 & E1 & Hj & Hinv1 & Hv & Hhj & Hdj & Hu);
    [done|apply Hn|intros m; apply Hd|by eapply small_list|].
  pose proof Hhj as (Hjd & Hjb & Hjf)%holds_true.
  destruct (bi_flags _ _ _ _ Hinv1 j Hj) as [?|(Hfl & _ & Hr)]; [done|].
  assert (bdev (the_buf s1 j) = 1 ∧ 0 ≤ blockno (the_buf s1 j) < disk_size s1) as Hjbd by done.
  assert (j ∈ ({[j]} : gset nat)) as Hjh by set_solver.
  set (f := λ x, set_data (g (data x)) x).
  pose proof (held_update_inv c i _ _ Hinv1 j Hj Hjh f ltac:(done) ltac:(done) Hfl Hjbd) as Hi.
  pose proof (held_update_cont c i _ _ Hinv1 j Hj Hjh f ltac:(done) ltac:(done) Hfl Hjbd) as Hc.
  pose proof (held_update_dirty c i _ _ Hinv1 j Hj f ltac:(done) Hjbd) as Hdt.
  pose proof (held_update_buf c i _ _ Hinv1 j Hj f) as Hbuf.
  set (s2 := set_bufs (alter f j (bufs s1)) s1) in *. rewrite Hjb in Hc, Hdt.
  pose proof (sv_disk _ _ Hv) as Ed1. pose proof (Hbuf j) as Ebj. rewrite decide_True in Ebj by done.
  assert (pending c i {[j]} (Lst s2 (log s)) L) as Hp2.
  { split; cbn [lb log]; change (disk s2) with (disk s1); rewrite ?Ed1; try done.
    - change (bcore s2) with (bcore s1). by rewrite (sv_core _ _ Hv).
    - intros m. rewrite Hdt. case_decide; [|by rewrite (sv_dirty _ _ Hv)]. subst m.
      rewrite <- Hd, <- (sv_dirty _ _ Hv). split; [intros; by exists j|].
      intros (k & Hk & K1 & K2 & K3). assert (k = j) as -> by (apply (bi_uniq _ _ _ _ Hinv1); congruence). done. }
  destruct (log_write_run c i {[j]} (Lst s2 (log s)) L j n Hp2 Hj Hjh) as (E3 & Hp3 & Hc3 & Hb3); cbn [lb log]; try done.
  { apply holds_true. rewrite Ebj. done. } { cbn. by rewrite Ed1. }
  cbn [lb log] in *. set (s3 := set_bufs (alter (set_flags 6) j (bufs s2)) s2) in *.
  destruct (brelse_one c i s3 j (pd_cache _ _ _ _ _ Hp3) Hj) as (s4 & E4 & Hinv4 & Hv4).
  { unfold unmodified. rewrite Hb3, decide_True by done. done. }
  exists s4. split_and!.
  - unfold update_block. mstep (lift_l _ s _ _ E1 : bread 1 n s = _). mstep (alter_buf_l j f (set_lb s1 s)).
    mstep E3. exact (lift_l _ (Lst s3 (logged n (log s))) _ _ E4).
  - destruct Hp3 as [_ F1 F2 F3 F4 F5 F6]. cbn [lb log] in *. rewrite <- (sv_disk _ _ Hv4) in *.
    split; cbn [lb log]; try done; [by rewrite (sv_core _ _ Hv4)|]. intros m. by rewrite (sv_dirty _ _ Hv4).
  - by rewrite (sv_disk _ _ Hv4).
  - by rewrite (sv_writes _ _ Hv4), <- (sv_writes _ _ Hv).
  - by rewrite (sv_core _ _ Hv4), <- (sv_core _ _ Hv).
  - intros m [Hm _]. rewrite (sv_cont _ _ Hv4) by (cbn; by rewrite Ed1). rewrite Hc3, Hc.
    case_decide; [unfold f; cbn; by rewrite Hdj|]. by apply (sv_cont _ _ Hv).
Qed.


(** An empty transaction on the empty disk, with the log in blocks 2 to 31. *)
Definition lst0 : lst := Lst bst0 (Logstate 2 30 1 0 1 0 (replicate LOGSIZE 0)).

Lemma lst0_pending : pending 1 0 ∅ lst0 [].
Proof.
  split; [exact bst0_inv|by vm_compute| | | | |by vm_compute].
  - split; vm_compute; done.
  - by apply lists_none.
  - intros m. split; [|set_solver]. intros (j & Hj & _ & _ & H6). exfalso. revert j Hj H6.
    apply (below_NBUF (λ j, flags (the_buf bst0 j) ≠ 6)). refine (bool_decide_eq_true_1 _ _). by vm_compute.
  - split; [by vm_compute|done].
Qed.

Lemma lst0_home : home (log lst0) (disk_size (lb lst0)) 40.
Proof. vm_compute. split; [split; [discriminate|reflexivity]|]. intros [_ H]. discriminate. Qed.


(** The transaction of one block, committed. *)
Definition lst1 : lst := match update_block 40 (λ _, replicate 512 7) lst0 with Ok _ s => s | _ => lst0 end.

Lemma lst1_run s : update_block 40 (λ _, replicate 512 7) lst0 = Ok tt s → lst1 = s.
Proof. intros E. unfold lst1. by rewrite E. Qed.
#[global] Strategy 100 [lst1].

Lemma lst1_pending :
  pending 1 0 ∅ lst1 [40] ∧ disk (lb lst1) = disk (lb lst0) ∧ log lst1 = logged 40 (log lst0).
Proof.
  destruct (update_block_run 1 0 lst0 [] 40 (λ _, replicate 512 7) lst0_pending lst0_home) as (t & E & Hp & Hd & _);
    [cbn; lia..|]. rewrite (lst1_run _ E). split_and!; [exact Hp|exact Hd|reflexivity].
Qed.

(** The machine restarted before the commit wrote anything. *)
Lemma lst0_booted : booted 1 0 (log lst1) (apply_writes (disk (lb lst1)) []) lst0.
Proof.
  destruct lst1_pending as (_ & Hd & Hl). rewrite Hd, Hl.
  split; [exact bst0_inv| |reflexivity..]. intros m Hm. apply (pd_dirty _ _ _ _ _ lst0_pending) in Hm.
  by apply not_elem_of_nil in Hm.
Qed.

Lemma commit_crash_atomic_witness :
  ∃ s' W r', Lg.commit lst1 = Ok tt s' ∧ wrote W (lb lst1) (lb s') ∧
    Lg.recover_from_log lst0 = Ok tt r' ∧ lh_n (log r') = 0 ∧
    ∀ b, home (log lst1) (disk_size (lb lst1)) b → disk (lb r') !!! Z.to_nat b = disk (lb lst1) !!! Z.to_nat b.
Proof.
  destruct (commit_crash_atomic 1 0 lst1 [40] (proj1 lst1_pending)) as (s' & W & E & HW & _ & _ & _ & _ & Hrec); [discriminate|].
  destruct (Hrec [] (prefix_nil W) 1%nat 0%nat lst0 lst0_booted) as (r' & Er & _ & Hn & Hb).
  exists s', W, r'. split_and!; [exact E|exact HW|exact Er|exact Hn|exact Hb].
Defined.
