(* ===== verification/Grep.v ===== *)
(** * The pattern matcher of grep.c

    A string is the list of its characters, without the terminating NUL; a
    pointer into it is a suffix.  The matcher is compared with the language a
    pattern denotes. *)

From S2P Require Import Prelude.
Open Scope kernel_scope.

Definition ch_caret : Z := 94.
Definition ch_star : Z := 42.
Definition ch_dollar : Z := 36.
Definition ch_dot : Z := 46.

(** ** grep.c *)

(** [matchstar] with the continuation [here] for [matchhere(re, _)]. *)
Fixpoint matchstar (c : Z) (here : list Z → bool) (text : list Z) : bool :=
  if here text then true else
  match text with
  | [] => false
  | t :: text => if (t =? c) || (c =? ch_dot) then matchstar c here text else false
  end.

Fixpoint matchhere (re : list Z) (text : list Z) : bool :=
  match re with
  | [] => true
  | c :: re' =>
      match re' with
      | x :: re'' =>
          if x =? ch_star then matchstar c (matchhere re'') text else
          match text with
          | t :: text => if (c =? ch_dot) || (c =? t) then matchhere re' text else false
          | [] => false
          end
      | [] =>
          if c =? ch_dollar then match text with [] => true | _ => false end else
          match text with
          | t :: text => if (c =? ch_dot) || (c =? t) then matchhere re' text else false
          | [] => false
          end
      end
  end.

(** The do-while loop of match(), which also tries the empty suffix. *)
Fixpoint match_loop (re : list Z) (text : list Z) : bool :=
  if matchhere re text then true else
  match text with
  | [] => false
  | _ :: text => match_loop re text
  end.

Definition match_ (re text : list Z) : bool :=
  match re with
  | c :: re' => if c =? ch_caret then matchhere re' text else match_loop re text
  | [] => match_loop re text
  end.

(** ** The language of a pattern *)

Inductive item := One (c : Z) | Star (c : Z).

(** [c] stands for any character if it is a dot, else for itself. *)
Definition stands_for (c t : Z) : Prop := c = ch_dot ∨ c = t.

Inductive lang : list item → list Z → Prop :=
| lang_nil : lang [] []
| lang_one c t its w : stands_for c t → lang its w → lang (One c :: its) (t :: w)
| lang_star c ts its w : Forall (stands_for c) ts → lang its w → lang (Star c :: its) (ts ++ w).

(** A pattern without its leading [^]: its items, and whether it ends in [$]. *)
Fixpoint items (re : list Z) : list item * bool :=
  match re with
  | [] => ([], false)
  | c :: re' =>
      match re' with
      | x :: re'' => if x =? ch_star then let '(its, e) := items re'' in (Star c :: its, e)
                     else let '(its, e) := items re' in (One c :: its, e)
      | [] => if c =? ch_dollar then ([], true) else ([One c], false)
      end
  end.

(** A match of [re] at the beginning of [text]. *)
Definition prefix_match (re text : list Z) : Prop :=
  ∃ w rest, text = w ++ rest ∧ lang (items re).1 w ∧ ((items re).2 = true → rest = []).

Lemma re_ind (P : list Z → Prop) :
  P [] → (∀ c, P [c]) → (∀ c re, P re → P (c :: ch_star :: re)) →
  (∀ c x re, x ≠ ch_star → P (x :: re) → P (c :: x :: re)) → ∀ re, P re.
Proof.
  intros H0 H1 Hs Ho re. assert (P re ∧ ∀ c, P (c :: re)) as [? _]; [|done].
  induction re as [|x re [IH1 IH2]]; [done|]. split; [done|]. intros c.
  destruct (decide (x = ch_star)) as [->|Hx]; [by apply Hs|by apply Ho].
Qed.

Lemma stands_for_spec c t : (c =? ch_dot) || (c =? t) = true ↔ stands_for c t.
Proof. unfold stands_for. by rewrite orb_true_iff, !Z.eqb_eq. Qed.

(** matchstar() tries every run of the starred character. *)
Lemma matchstar_spec c here text :
  matchstar c here text = true ↔
  ∃ ts text', text = ts ++ text' ∧ Forall (stands_for c) ts ∧ here text' = true.
Proof.
  induction text as [|t text IH]; simpl.
  - destruct (here []) eqn:E; split; try done; [by exists [], []|].
    intros (ts & text' & Hc & _ & Hh). symmetry in Hc. apply app_eq_nil in Hc as [-> ->]. congruence.
  - destruct (here (t :: text)) eqn:E; [split; [by exists [], (t :: text)|done]|].
    rewrite (orb_comm (t =? c)), (Z.eqb_sym t c). destruct ((c =? ch_dot) || (c =? t)) eqn:Ec.
    + rewrite IH. apply stands_for_spec in Ec. split.
      * intros (ts & text' & -> & Hf & Hh). exists (t :: ts), text'. auto.
      * intros ([|t' ts] & text' & Hc & Hf & Hh); simpl in Hc; [subst; congruence|].
        injection Hc as <- ->. inversion Hf; subst. by exists ts, text'.
    + split; [done|]. intros ([|t' ts] & text' & Hc & Hf & Hh); simpl in Hc; [subst; congruence|].
      injection Hc as <- ->. inversion Hf as [|? ? Ht]; subst. apply stands_for_spec in Ht. congruence.
Qed.

Lemma matchhere_spec re : ∀ text, matchhere re text = true ↔ prefix_match re text.
Proof.
  unfold prefix_match. induction re as [|c|c re IH|c x re Hx IH] using re_ind; intros text.
  - split; [|done]. intros _. exists [], text. split_and!; [done|constructor|done].
  - simpl. destruct (Z.eqb_spec c ch_dollar) as [->|Hc].
    + destruct text as [|t text]; split; try done.
      * intros _. exists [], []. split_and!; [done|constructor|done].
      * intros (w & rest & E & Hl & Hr). simpl in *. inversion Hl; subst. by rewrite Hr in E.
    + destruct text as [|t text]; simpl.
      * split; [done|]. intros (w & rest & E & Hl & _). inversion Hl; subst. done.
      * destruct ((c =? ch_dot) || (c =? t)) eqn:Ec.
        -- split; [|done]. intros _. apply stands_for_spec in Ec.
           exists [t], text. split_and!; [done|apply lang_one; [done|constructor]|done].
        -- split; [done|]. intros (w & rest & E & Hl & _). inversion Hl as [|? ? ? ? Hs Hn|]; subst.
           injection E as -> _. apply stands_for_spec in Hs. congruence.
  - cbn [matchhere items]. rewrite Z.eqb_refl. rewrite matchstar_spec.
    destruct (items re) as [its e] eqn:Ei. cbn [fst snd] in *. split.
    + intros (ts & text' & -> & Hf & (w & rest & -> & Hl & He)%IH).
      exists (ts ++ w), rest. split_and!; [by rewrite app_assoc|by constructor|done].
    + intros (w & rest & -> & Hl & He). inversion Hl as [| |? ts ? w' Hf Hl']; subst.
      exists ts, (w' ++ rest). split_and!; [by rewrite app_assoc|done|]. apply IH. by exists w', rest.
  - change (matchhere (c :: x :: re) text) with (if x =? ch_star then matchstar c (matchhere re) text else
      match text with t :: text => if (c =? ch_dot) || (c =? t) then matchhere (x :: re) text else false | [] => false end).
    change (items (c :: x :: re)) with (if x =? ch_star then let '(its, e) := items re in (Star c :: its, e)
                     else let '(its, e) := items (x :: re) in (One c :: its, e)).
    rewrite (proj2 (Z.eqb_neq _ _) Hx). destruct (items (x :: re)) as [its e] eqn:Ei. cbn [fst snd] in *.
    destruct text as [|t text].
    + split; [done|]. intros (w & rest & E & Hl & _). inversion Hl; subst. done.
    + destruct ((c =? ch_dot) || (c =? t)) eqn:Ec.
      * rewrite IH. apply stands_for_spec in Ec. split.
        -- intros (w & rest & -> & Hl & He). exists (t :: w), rest. split_and!; [done|by constructor|done].
        -- intros (w & rest & E & Hl & He). inversion Hl as [|? ? ? w' Hs Hl'|]; subst.
           injection E as -> ->. by exists w', rest.
      * split; [done|]. intros (w & rest & E & Hl & _). inversion Hl as [|? ? ? w' Hs Hl'|]; subst.
        injection E as -> _. apply stands_for_spec in Hs. congruence.
Qed.

Lemma match_loop_spec re text :
  match_loop re text = true ↔ ∃ pre suf, text = pre ++ suf ∧ matchhere re suf = true.
Proof.
  induction text as [|t text IH]; simpl.
  - destruct (matchhere re []) eqn:E; split; try done; [by exists [], []|].
    intros (pre & suf & Hc & Hh). symmetry in Hc. apply app_eq_nil in Hc as [-> ->]. congruence.
  - destruct (matchhere re (t :: text)) eqn:E; [split; [by exists [], (t :: text)|done]|].
    rewrite IH. split.
    + intros (pre & suf & -> & Hh). by exists (t :: pre), suf.
    + intros ([|t' pre] & suf & Hc & Hh); simpl in Hc; [subst; congruence|]. injection Hc as <- ->. by exists pre, suf.
Qed.

(** C27 [equivalence]: grep's recursive matcher decides the language of the
    pattern.  match(re, text) succeeds exactly when some part of the text is in
    the language of the pattern's items ([c], [.], [c*]), that part starting at
    the beginning of the text if the pattern starts with [^] and reaching its
    end if the pattern ends in [$].  The matcher is a structural recursion, so it
    always returns. *)
Theorem match_language re text :
  match_ re text = true ↔
  ∃ pre w post, text = pre ++ w ++ post ∧
    let re' := match re with c :: r => if c =? ch_caret then r else re | [] => re end in
    lang (items re').1 w ∧ (hd 0 re = ch_caret → pre = []) ∧ ((items re').2 = true → post = []).
Proof.
  destruct re as [|c re]; [|unfold match_; simpl; destruct (Z.eqb_spec c ch_caret) as [->|Hc]].
  - unfold match_. rewrite match_loop_spec. setoid_rewrite matchhere_spec. unfold prefix_match. naive_solver.
  - rewrite matchhere_spec. unfold prefix_match. split.
    + intros (w & rest & -> & Hl & He). by exists [], w, rest.
    + intros (pre & w & post & -> & Hl & Hp & He). rewrite Hp by done. by exists w, post.
  - rewrite match_loop_spec. setoid_rewrite matchhere_spec. unfold prefix_match. naive_solver.
Qed.
