(* ===== verification/User.v ===== *)
(** * User programs: system calls, ulib.c and printf.c

    A user program runs until it traps into the kernel.  It uses the same monad
    as the kernel's functions, with [Swtch] at each system call: the state then
    holds the request, and the program resumes from a state that holds the reply.
    A string is the list of its characters, without the terminating NUL; a
    pointer into it is a suffix. *)

From S2P Require Import Prelude CString.
Open Scope kernel_scope.

Definition nl : Z := 10.

(** ** System calls (user.h) *)

Inductive call :=
| CFork | CExit | CWait | CPipe | CRead (fd n : Z) | CKill (pid : Z) | CExec (path : list Z) (argv : list (list Z))
| CFstat (fd : Z) | CChdir (path : list Z) | CDup (fd : Z) | CGetpid | CSbrk (n : Z) | CSleep (n : Z) | CUptime
| COpen (path : list Z) (mode : Z) | CWrite (fd : Z) (data : list Z) | CMknod (path : list Z) (major minor : Z)
| CUnlink (path : list Z) | CLink (old new : list Z) | CMkdir (path : list Z) | CClose (fd : Z)
| CInfo (n : Z) | CTickets (n : Z) | CClone (stack size : Z).

(** The request, and the reply: the value in eax and the words or bytes the
    kernel copied out. *)
Record ust := Ust { req : call; rval : Z; rdata : list Z }.

Definition syscall (c : call) : M ust Z :=
  modify (λ s, Ust c (rval s) (rdata s));;
  swtch;;
  gets rval.
Definition reply : M ust (list Z) := gets rdata.

Definition O_RDONLY : Z := 0x000.
Definition O_WRONLY : Z := 0x001.
Definition O_RDWR : Z := 0x002.
Definition O_CREATE : Z := 0x200.

(** The call does not return. *)
Definition exit {A} : M ust A := syscall CExit;; spin.
(** exec() returns only when it fails. *)
Definition exec (path : list Z) (argv : list (list Z)) : M ust Z := syscall (CExec path argv).
(** The bytes that read() delivers. *)
Definition read (fd n : Z) : M ust (Z * list Z) :=
  r ← syscall (CRead fd n);
  d ← reply;
  mret (r, take (Z.to_nat r) d).
Definition write (fd : Z) (data : list Z) : M ust Z := syscall (CWrite fd data).

(** ** Running a program against an environment

    [env w c] is the reply to call [c] in the world [w], and the world after. *)
Section drive.
Context {W : Type} (env : W → call → Z * list Z * W).

Inductive result (A : Type) := Returned (a : A) | Exited | Panicked | Diverged.
Arguments Returned {_} _.
Arguments Exited {_}.
Arguments Panicked {_}.
Arguments Diverged {_}.

Fixpoint drive {A} (o : outcome ust A) (w : W) : result A * W :=
  match o with
  | Ok a _ => (Returned a, w)
  | Panic _ => (Panicked, w)
  | Spin => (Diverged, w)
  | Swtch s r =>
      match req s with
      | CExit => (Exited, w)
      | c => let '(v, d, w') := env w c in drive (r (Ust c v d)) w'
      end
  end.

(** What a program does from a world, whatever the last reply was. *)
Definition does {A} (m : M ust A) (w : W) (r : result A) (w' : W) : Prop := ∀ u, drive (m u) w = (r, w').

Lemma drive_obind {A B} (o : outcome ust A) (k : A → M ust B) w a w' :
  drive o w = (Returned a, w') → ∃ u, drive (obind o k) w = drive (k a u) w'.
Proof.
  revert w. induction o as [x s|e|s r IH|]; intros w H; simpl in *; try done.
  - injection H as <- <-. by exists s.
  - destruct (req s); try (destruct (env w _) as [[v d] w1]; by eapply IH). done.
Qed.

Lemma drive_exit {A B} (o : outcome ust A) (k : A → M ust B) w w' :
  drive o w = (Exited, w') → drive (obind o k) w = (Exited, w').
Proof.
  revert w. induction o as [x s|e|s r IH|]; intros w H; simpl in *; try done.
  destruct (req s); try (destruct (env w _) as [[v d] w1]; by eapply IH). by injection H as <-.
Qed.

Lemma does_ret {A} (a : A) w : does (mret a) w (Returned a) w.
Proof. done. Qed.

Lemma does_bind {A B} (m : M ust A) (k : A → M ust B) w a w1 r w2 :
  does m w (Returned a) w1 → does (k a) w1 r w2 → does (m ≫= k) w r w2.
Proof.
  intros Hm Hk u. destruct (drive_obind (m u) k w a w1 (Hm u)) as [u' E].
  unfold mbind, M_bind. rewrite E. apply Hk.
Qed.

Lemma does_bind_exit {A B} (m : M ust A) (k : A → M ust B) w w1 :
  does m w Exited w1 → does (m ≫= k) w Exited w1.
Proof. intros Hm u. by apply drive_exit. Qed.

Lemma does_exit {A} w : does (exit : M ust A) w Exited w.
Proof. done. Qed.

Lemma does_syscall c w v d w1 :
  c ≠ CExit → env w c = (v, d, w1) → does (syscall c) w (Returned v) w1.
Proof. intros Hc E u. unfold syscall. mred. simpl. by destruct c; rewrite ?E. Qed.

Lemma does_read fd n w v d w1 :
  env w (CRead fd n) = (v, d, w1) → does (read fd n) w (Returned (v, take (Z.to_nat v) d)) w1.
Proof. intros E u. unfold read, syscall. mred. simpl. by rewrite E. Qed.

(** Loops. *)
Section loops.
Context {A B : Type} (body : A → M ust (A + B)).

Lemma does_iter_next n a w a' w1 r w2 :
  does (body a) w (Returned (inl a')) w1 → does (iter body n a') w1 r w2 → does (iter body (S n) a) w r w2.
Proof. intros H1 H2. cbn [iter]. by eapply does_bind. Qed.

Lemma does_iter_end n a w b w1 :
  does (body a) w (Returned (inr b)) w1 → does (iter body (S n) a) w (Returned (inr b)) w1.
Proof. intros H1. cbn [iter]. by eapply does_bind. Qed.

Lemma does_loop d n a w b w' :
  does (iter body n a) w (Returned (inr b)) w' → Z.of_nat n ≤ 2 ^ Z.of_nat d →
  does (loop body d a) w (Returned b) w'.
Proof.
  intros H Hn. unfold loop. apply (does_bind _ _ _ (inr b) w'); [|done]. intros u. rewrite until_iter.
  assert (n ≤ 2 ^ d)%nat by (apply Nat2Z.inj_le; by rewrite Nat2Z.inj_pow).
  replace (2 ^ d)%nat with (n + (2 ^ d - n))%nat by lia. rewrite iter_add.
  apply (does_bind (iter body n a) _ _ _ _ _ _ H). done.
Qed.
End loops.
End drive.
Arguments Returned {_} _.
Arguments Exited {_}.
Arguments Panicked {_}.
Arguments Diverged {_}.

(** ** ulib.c *)
Module Ulib.

(** The characters are compared as unsigned bytes, a missing one as NUL. *)
Fixpoint strcmp (p q : list Z) : Z :=
  match p, q with
  | c :: p', d :: q' => if c =? d then strcmp p' q' else u8 c - u8 d
  | c :: _, [] => u8 c
  | [], d :: _ => - u8 d
  | [], [] => 0
  end.

Definition strlen (s : list Z) : Z := Z.of_nat (length s).

(** The suffix that starts at the first [c]. *)
Fixpoint strchr (s : list Z) (c : Z) : option (list Z) :=
  match s with
  | [] => None
  | x :: s' => if x =? c then Some s else strchr s' c
  end.

Fixpoint atoi_loop (n : Z) (s : list Z) : Z :=
  match s with
  | c :: s => if (48 <=? c) && (c <=? 57) then atoi_loop (s32 (n * 10 + c - 48)) s else n
  | [] => n
  end.
Definition atoi (s : list Z) : Z := atoi_loop 0 s.

(** On memory: the copy stops after the NUL, [None] if there is none in [fuel] bytes. *)
Fixpoint strcpy (s t : Z) (fuel : nat) (m : mem) : option mem :=
  match fuel with
  | O => None
  | S fuel => let v := load8 m t in
              let m := store8 s v m in
              if v =? 0 then Some m else strcpy (s + 1) (t + 1) fuel m
  end.
Definition memset (dst c n : Z) (m : mem) : mem := stosb dst c (Z.to_nat n) m.
Definition memmove (dst src n : Z) (m : mem) : mem := copy_up dst src (Z.to_nat n) m.

(** [buf] so far, and the line read. *)
Definition gets_body (max : Z) (buf : list Z) : M ust (list Z + list Z) :=
  if negb (Z.of_nat (length buf) + 1 <? max) then mret (inr buf) else
  x ← read 0 1;
  let '(cc, d) := x in
  if cc <? 1 then mret (inr buf) else
  let c := d !!! 0%nat in
  if (c =? 10) || (c =? 13) then mret (inr (buf ++ [c])) else mret (inl (buf ++ [c])).
Definition gets (max : Z) : M ust (list Z) := loop (gets_body max) 32 [].

(** The fields of struct stat are the reply's words. *)
Definition stat (n : list Z) : M ust (Z * list Z) :=
  fd ← syscall (COpen n O_RDONLY);
  if fd <? 0 then mret (-1, []) else
  r ← syscall (CFstat fd);
  st ← reply;
  syscall (CClose fd);;
  mret (r, st).

End Ulib.

(** ** printf.c *)
Module Printf.

Definition putc (fd c : Z) : M ust unit := write fd [c];; mret tt.

Definition digits : list Z := chars "0123456789ABCDEF".

(** The do-while loop: digits of [x], least significant first. *)
Fixpoint digits_loop (fuel : nat) (x base : Z) : list Z :=
  match fuel with
  | O => []
  | S fuel => digits !!! Z.to_nat (x mod base) :: (if x / base =? 0 then [] else digits_loop fuel (x / base) base)
  end.

(** The characters of printint(), in the order they are written.  A 32-bit value
    has at most 32 digits in any base. *)
Definition int_chars (xx base : Z) (sgn : bool) : list Z :=
  let neg := sgn && (xx <? 0) in
  let x := if neg then u32 (- xx) else u32 xx in
  reverse (digits_loop 32 x base ++ (if neg then [45] else [])).

Fixpoint put_chars (fd : Z) (l : list Z) : M ust unit :=
  match l with [] => mret tt | c :: l => putc fd c;; put_chars fd l end.

Definition printint (fd xx base : Z) (sgn : bool) : M ust unit := put_chars fd (int_chars xx base sgn).

(** The words after the format: a number, or a pointer to a string. *)
Inductive arg := AInt (w : Z) | AStr (s : list Z) | ANull.

(** A conversion without an argument of its kind is undefined behaviour. *)
Fixpoint printf_loop (fd : Z) (fmt : list Z) (state : Z) (ap : list arg) : M ust unit :=
  match fmt with
  | [] => mret tt
  | c :: fmt =>
      if state =? 0 then
        if c =? 37 then printf_loop fd fmt 37 ap else putc fd c;; printf_loop fd fmt 0 ap
      else
        if c =? 100 then
          match ap with
          | AInt w :: ap => printint fd (s32 w) 10 true;; printf_loop fd fmt 0 ap
          | _ => panic "undefined"
          end
        else if (c =? 120) || (c =? 112) then
          match ap with
          | AInt w :: ap => printint fd (s32 w) 16 false;; printf_loop fd fmt 0 ap
          | _ => panic "undefined"
          end
        else if c =? 115 then
          match ap with
          | AStr s :: ap => put_chars fd s;; printf_loop fd fmt 0 ap
          | ANull :: ap => put_chars fd (chars "(null)");; printf_loop fd fmt 0 ap
          | _ => panic "undefined"
          end
        else if c =? 99 then
          match ap with
          | AInt w :: ap => putc fd (u8 w);; printf_loop fd fmt 0 ap
          | _ => panic "undefined"
          end
        else if c =? 37 then putc fd c;; printf_loop fd fmt 0 ap
        else putc fd 37;; putc fd c;; printf_loop fd fmt 0 ap
  end.
Definition printf (fd : Z) (fmt : list Z) (ap : list arg) : M ust unit := printf_loop fd fmt 0 ap.

End Printf.
Export Printf.

(** ** Numbers printed and read back *)

Definition digit_value (c : Z) : Z := if c <=? 57 then c - 48 else c - 55.

(** The number written with the digits [l], least significant first. *)
Definition number (base : Z) (l : list Z) : Z := foldr (λ c n, digit_value c + base * n) 0 l.

Lemma digits_nth k : 0 ≤ k < 16 → digit_value (digits !!! Z.to_nat k) = k.
Proof.
  intros Hk. assert (Forall (λ k, digit_value (digits !!! k) = Z.of_nat k) (seq 0 16)) as H by (by repeat constructor).
  rewrite Forall_forall in H. rewrite H; [lia|]. apply elem_of_seq. lia.
Qed.

Lemma digits_loop_number fuel x base :
  2 ≤ base ≤ 16 → 0 ≤ x < base ^ Z.of_nat fuel → fuel ≠ O → number base (digits_loop fuel x base) = x.
Proof.
  intros Hb. revert x. induction fuel as [|fuel IH]; intros x Hx Hf; [done|]. cbn [digits_loop number foldr].
  pose proof (Z.mod_pos_bound x base ltac:(lia)) as Hm. rewrite digits_nth by lia.
  pose proof (Z.div_mod x base ltac:(lia)) as Hdm.
  destruct (Z.eqb_spec (x / base) 0) as [E|E]; [simpl; lia|].
  assert (x / base < base ^ Z.of_nat fuel) as Hlt.
  { apply Z.div_lt_upper_bound; [lia|]. rewrite Nat2Z.inj_succ, Z.pow_succ_r in Hx by lia. lia. }
  assert (0 ≤ x / base) by (apply Z.div_pos; lia).
  fold (number base (digits_loop fuel (x / base) base)). rewrite IH; [lia|lia|].
  intros ->. simpl in Hlt. lia.
Qed.

Lemma digits_loop_length fuel x base (n : nat) :
  2 ≤ base → 0 ≤ x < base ^ Z.of_nat n → n ≠ O → (length (digits_loop fuel x base) ≤ n)%nat.
Proof.
  intros Hb. revert x n. induction fuel as [|fuel IH]; intros x n Hx Hn; simpl; [lia|].
  destruct (Z.eqb_spec (x / base) 0) as [E|E]; [simpl; lia|]. destruct n as [|n]; [done|].
  assert (0 ≤ x / base) by (apply Z.div_pos; lia).
  assert (x / base < base ^ Z.of_nat n) as Hlt.
  { apply Z.div_lt_upper_bound; [lia|]. rewrite Nat2Z.inj_succ, Z.pow_succ_r in Hx by lia. lia. }
  simpl. specialize (IH (x / base) n). assert (n ≠ O) by (intros ->; simpl in Hlt; lia). lia.
Qed.

Lemma digits_loop_digits fuel x : Forall (λ c, 48 ≤ c ≤ 57) (digits_loop fuel x 10).
Proof.
  revert x. induction fuel as [|fuel IH]; intros x; simpl; [constructor|]. constructor; [|by destruct (_ =? _)].
  pose proof (Z.mod_pos_bound x 10 ltac:(lia)) as Hm.
  assert (Forall (λ k, 48 ≤ digits !!! k ≤ 57) (seq 0 10)) as H by (repeat constructor; vm_compute; discriminate).
  rewrite Forall_forall in H. apply H, elem_of_seq. lia.
Qed.

Lemma s32_step n c : s32 (s32 n * 10 + c - 48) = s32 (n * 10 + c - 48).
Proof.
  unfold s32. f_equal.
  replace (((n + 2 ^ 31) mod 2 ^ 32 - 2 ^ 31) * 10 + c - 48 + 2 ^ 31)
    with ((n + 2 ^ 31) mod 2 ^ 32 * 10 + (c - 48 + 2 ^ 31 - 2 ^ 31 * 10)) by lia.
  replace (n * 10 + c - 48 + 2 ^ 31) with ((n + 2 ^ 31) * 10 + (c - 48 + 2 ^ 31 - 2 ^ 31 * 10)) by lia.
  rewrite Z.add_mod, Z.mul_mod_idemp_l, <- Z.add_mod by lia. done.
Qed.

Lemma atoi_number l n :
  Forall (λ c, 48 ≤ c ≤ 57) l → Ulib.atoi_loop (s32 n) (reverse l) = s32 (foldr (λ c n, digit_value c + 10 * n) n l).
Proof.
  intros Hl. assert (∀ l n, Forall (λ c, 48 ≤ c ≤ 57) l →
    Ulib.atoi_loop (s32 n) l = s32 (foldl (λ n c, digit_value c + 10 * n) n l)) as H.
  { clear. intros l n Hl. revert n. induction Hl as [|c l Hc _ IH]; intros n; [done|]. cbn [Ulib.atoi_loop foldl].
    rewrite (proj2 (Z.leb_le 48 c)), (proj2 (Z.leb_le c 57)) by lia. cbn [andb]. rewrite s32_step, IH. do 2 f_equal.
    unfold digit_value. rewrite (proj2 (Z.leb_le c 57)) by lia. lia. }
  rewrite H by (by apply Forall_reverse). f_equal. clear. induction l as [|c l IH]; [done|].
  rewrite reverse_cons, foldl_app. simpl. by rewrite IH.
Qed.

Lemma int_chars_atoi x : is_u32 x → Ulib.atoi (reverse (digits_loop 32 x 10)) = s32 x.
Proof.
  intros Hx. unfold Ulib.atoi. change 0 with (s32 0) at 1. rewrite atoi_number by apply digits_loop_digits.
  fold (number 10 (digits_loop 32 x 10)). rewrite digits_loop_number; [done|lia| |done].
  destruct Hx. split; [done|]. eapply Z.lt_le_trans; [done|]. by vm_compute.
Qed.

(** Printf("%d") and atoi() are inverse.  For every 32-bit int the
    decimal digits that printint() writes read back as that int; a negative one
    is written as a minus sign before the digits of its magnitude (also for the
    least int, whose magnitude does not fit); and the digits with their sign fill
    at most 11 of the 16 bytes of printint()'s buffer. *)
Theorem printint_roundtrip xx :
  is_s32 xx →
  (0 ≤ xx → Ulib.atoi (int_chars xx 10 true) = xx) ∧
  (xx < 0 → ∃ l, int_chars xx 10 true = 45 :: l ∧ Ulib.atoi l = s32 (- xx)) ∧
  (length (int_chars xx 10 true) ≤ 11)%nat.
Proof.
  intros Hx. unfold is_s32 in Hx. unfold int_chars. cbn [andb]. split_and!.
  - intros Hp. rewrite (proj2 (Z.ltb_ge xx 0)) by lia. rewrite app_nil_r, int_chars_atoi by auto with kernel.
    rewrite u32_id by (unfold is_u32; lia). by apply s32_id.
  - intros Hn. rewrite (proj2 (Z.ltb_lt xx 0)) by lia. rewrite reverse_snoc. eexists. split; [done|].
    rewrite int_chars_atoi by auto with kernel. rewrite u32_id by (unfold is_u32; lia). done.
  - assert (∀ x, is_u32 x → length (digits_loop 32 x 10) ≤ 10)%nat as H.
    { intros x Hu. apply digits_loop_length; [lia| |lia]. destruct Hu. split; [done|]. eapply Z.lt_le_trans; [done|by vm_compute]. }
    rewrite length_reverse, length_app. set (x := if xx <? 0 then _ else _).
    assert (is_u32 x) as Hu by (unfold x; destruct (xx <? 0); auto with kernel). specialize (H x Hu).
    destruct (xx <? 0); cbn [length]; lia.
Qed.

Lemma printint_roundtrip_witness :
  int_chars (- 2 ^ 31) 10 true = chars "-2147483648" ∧ (length (int_chars (- 2 ^ 31) 10 true) ≤ 11)%nat.
Proof.
  split; [vm_compute; reflexivity|]. apply (printint_roundtrip (- 2 ^ 31)). unfold is_s32. lia.
Defined.

(** strcmp() decides equality of strings and orders them by
    their first different bytes, a proper prefix first. *)
Theorem strcmp_order p q :
  Forall (λ c, 0 < c < 256) p → Forall (λ c, 0 < c < 256) q →
  (Ulib.strcmp p q = 0 ↔ p = q) ∧
  (Ulib.strcmp p q < 0 ↔ ∃ l, (p = l ∧ ∃ d q', q = l ++ d :: q') ∨
     (∃ c p' d q', p = l ++ c :: p' ∧ q = l ++ d :: q' ∧ c < d)).
Proof.
  intros Hp. revert q. induction Hp as [|c p Hc Hp IH]; intros q Hq.
  - destruct Hq as [|d q Hd Hq]; simpl.
    + split; [done|]. split; [lia|]. intros (l & [(_ & d & q' & E)|(c & p' & d & q' & E & _)]); by destruct l.
    + rewrite u8_id by (unfold is_u8; lia). split; [split; [lia|done]|]. split; [|lia].
      intros _. exists []. left. split; [done|]. by exists d, q.
  - destruct Hq as [|d q Hd Hq]; simpl.
    + rewrite u8_id by (unfold is_u8; lia). split; [split; [lia|done]|]. split; [lia|].
      intros (l & [(_ & d & q' & E)|(c' & p' & d & q' & _ & E & _)]); by destruct l.
    + destruct (Z.eqb_spec c d) as [->|Hne].
      * destruct (IH q Hq) as [IH1 IH2]. rewrite IH1, IH2. split; [naive_solver|]. split.
        -- intros (l & [(-> & d' & q' & ->)|(c' & p' & d' & q' & -> & -> & Hlt)]).
           ++ exists (d :: l). left. split; [done|]. by exists d', q'.
           ++ exists (d :: l). right. by exists c', p', d', q'.
        -- intros ([|x l] & [(E & d' & q' & E')|(c' & p' & d' & q' & E & E' & Hlt)]); simplify_eq/=.
           ++ lia.
           ++ exists l. left. split; [done|]. by exists d', q'.
           ++ exists l. right. by exists c', p', d', q'.
      * rewrite !u8_id by (unfold is_u8; lia). split; [split; [lia|naive_solver]|]. split.
        -- intros Hlt. exists []. right. exists c, p, d, q. split_and!; [done|done|lia].
        -- intros ([|x l] & [(E & d' & q' & E')|(c' & p' & d' & q' & E & E' & Hlt)]); simplify_eq/=. lia.
Qed.

Lemma strcmp_order_witness :
  Ulib.strcmp (chars "cat") (chars "car") = 0 ↔ chars "cat" = chars "car".
Proof. apply strcmp_order; repeat constructor. Defined.
