(* ===== verification/Coreutils.v ===== *)
(** * User programs: cat, wc, echo, grep, ls, rm, mkdir, ln, kill, init and friends

    Each main() takes its arguments as strings, [argv[0]] included.  A loop over
    system calls is cut after [2 ^ 62] iterations. *)

From S2P Require Import Prelude CString User Grep.
Open Scope kernel_scope.

Definition msg (s : string) : list Z := chars s ++ [nl].

(** A loop over the arguments. *)
Fixpoint each_arg (body : list Z → M ust unit) (args : list (list Z)) : M ust unit :=
  match args with [] => mret tt | a :: args => body a;; each_arg body args end.

(** ** cat.c *)
Module Cat.

Definition cat_body (fd : Z) (_ : unit) : M ust (unit + Z) :=
  x ← read fd 512;
  let '(n, buf) := x in
  if 0 <? n then
    r ← write 1 buf;
    if negb (r =? n) then printf 1 (msg "cat: write error") [];; exit else mret (inl tt)
  else mret (inr n).

Definition cat (fd : Z) : M ust unit :=
  n ← loop (cat_body fd) 62 tt;
  if n <? 0 then printf 1 (msg "cat: read error") [];; exit else mret tt.

Definition main (argv : list (list Z)) : M ust unit :=
  if Z.of_nat (length argv) <=? 1 then cat 0;; exit else
  each_arg (λ a,
    fd ← syscall (COpen a 0);
    if fd <? 0 then printf 1 (msg "cat: cannot open %s") [AStr a];; exit else
    cat fd;;
    syscall (CClose fd);;
    mret tt) (tail argv);;
  exit.

End Cat.

(** ** wc.c *)
Module Wc.

Definition is_space (c : Z) : bool := match Ulib.strchr [32; 13; 9; 10; 11] c with Some _ => true | None => false end.

(** The counters l, w, c and the flag inword; 32-bit ints. *)
Record counts := Counts { l : Z; w : Z; c : Z; inword : bool }.

Definition count_char (b : Z) (k : counts) : counts :=
  let c' := c k +i 1 in
  let l' := if b =? nl then l k +i 1 else l k in
  if is_space b then Counts l' (w k) c' false
  else if inword k then Counts l' (w k) c' true
  else Counts l' (w k +i 1) c' true.

Definition wc_body (fd : Z) (k : counts) : M ust (counts + Z * counts) :=
  x ← read fd 512;
  let '(n, buf) := x in
  if 0 <? n then mret (inl (foldl (λ k b, count_char b k) k buf)) else mret (inr (n, k)).

Definition wc (fd : Z) (name : list Z) : M ust unit :=
  x ← loop (wc_body fd) 62 (Counts 0 0 0 false);
  let '(n, k) := x in
  if n <? 0 then printf 1 (msg "wc: read error") [];; exit else
  printf 1 (msg "%d %d %d %s") [AInt (l k); AInt (w k); AInt (c k); AStr name].

Definition main (argv : list (list Z)) : M ust unit :=
  if Z.of_nat (length argv) <=? 1 then wc 0 [];; exit else
  each_arg (λ a,
    fd ← syscall (COpen a 0);
    if fd <? 0 then printf 1 (msg "wc: cannot open %s") [AStr a];; exit else
    wc fd a;;
    syscall (CClose fd);;
    mret tt) (tail argv);;
  exit.

End Wc.

(** ** grep.c *)
Module Gr.

(** The inner loop: [p] is the unread part of the buffer, up to the NUL. *)
Fixpoint lines_loop (pattern : list Z) (fuel : nat) (p : list Z) : M ust (list Z) :=
  match fuel with
  | O => mret p
  | S fuel =>
      match Ulib.strchr p nl with
      | None => mret p
      | Some q =>
          let line := take (length p - length q) p in
          mwhen (match_ pattern line) (write 1 (line ++ [nl]);; mret tt);;
          lines_loop pattern fuel (tail q)
      end
  end.

(** The C string at the start of a buffer. *)
Fixpoint c_str (b : list Z) : list Z :=
  match b with c :: b => if c =? 0 then [] else c :: c_str b | [] => [] end.

(** [b] is [buf[0..m)]. *)
Definition grep_body (pattern : list Z) (fd : Z) (b : list Z) : M ust (list Z + unit) :=
  x ← read fd (1024 - Z.of_nat (length b) - 1);
  let '(n, d) := x in
  if negb (0 <? n) then mret (inr tt) else
  let b := b ++ d in
  let s := c_str b in
  p ← lines_loop pattern (S (length s)) s;
  let done := (length s - length p)%nat in
  mret (inl (if (done =? 0)%nat then [] else drop done b)).

Definition grep (pattern : list Z) (fd : Z) : M ust unit := loop (grep_body pattern fd) 62 [].

Definition main (argv : list (list Z)) : M ust unit :=
  if Z.of_nat (length argv) <=? 1 then printf 2 (msg "usage: grep pattern [file ...]") [];; exit else
  let pattern := argv !!! 1%nat in
  if Z.of_nat (length argv) <=? 2 then grep pattern 0;; exit else
  each_arg (λ a,
    fd ← syscall (COpen a 0);
    if fd <? 0 then printf 1 (msg "grep: cannot open %s") [AStr a];; exit else
    grep pattern fd;;
    syscall (CClose fd);;
    mret tt) (drop 2 argv);;
  exit.

End Gr.

(** ** ls.c *)
Module Ls.

Definition DIRSIZ : nat := 14.
Definition T_DIR : Z := 1.
Definition T_FILE : Z := 2.

(** The part of the path after its last slash. *)
Fixpoint last_elem (p acc : list Z) : list Z :=
  match p with
  | [] => acc
  | c :: p => if c =? 47 then last_elem p p else last_elem p acc
  end.

Definition fmtname (path : list Z) : list Z :=
  let p := last_elem path path in
  if (DIRSIZ <=? length p)%nat then p else p ++ replicate (DIRSIZ - length p) 32.

(** The words of struct stat, in order: type, dev, ino, nlink, size. *)
Definition print_stat (name : list Z) (st : list Z) : M ust unit :=
  printf 1 (msg "%s %d %d %d") [AStr name; AInt (st !!! 0%nat); AInt (st !!! 2%nat); AInt (st !!! 4%nat)].

Definition ls_body (fd : Z) (path : list Z) (_ : unit) : M ust (unit + unit) :=
  x ← read fd 16;
  let '(n, de) := x in
  if negb (n =? 16) then mret (inr tt) else
  if de !!! 0%nat + 256 * de !!! 1%nat =? 0 then mret (inl tt) else
  let buf := path ++ [47] ++ Gr.c_str (take DIRSIZ (drop 2 de)) in
  y ← Ulib.stat buf;
  let '(r, st) := y in
  if r <? 0 then printf 1 (msg "ls: cannot stat %s") [AStr buf];; mret (inl tt)
  else print_stat (fmtname buf) st;; mret (inl tt).

Definition ls (path : list Z) : M ust unit :=
  fd ← syscall (COpen path 0);
  if fd <? 0 then printf 2 (msg "ls: cannot open %s") [AStr path] else
  r ← syscall (CFstat fd);
  st ← reply;
  if r <? 0 then printf 2 (msg "ls: cannot stat %s") [AStr path];; syscall (CClose fd);; mret tt else
  (if st !!! 0%nat =? T_FILE then print_stat (fmtname path) st
   else if st !!! 0%nat =? T_DIR then
     if 512 <? Z.of_nat (length path) + 1 + Z.of_nat DIRSIZ + 1 then printf 1 (msg "ls: path too long") []
     else loop (ls_body fd path) 62 tt
   else mret tt);;
  syscall (CClose fd);;
  mret tt.

Definition main (argv : list (list Z)) : M ust unit :=
  if Z.of_nat (length argv) <? 2 then ls (chars ".");; exit else
  each_arg ls (tail argv);;
  exit.

End Ls.

(** ** echo.c, rm.c, mkdir.c, ln.c, kill.c *)
Module Small.

Fixpoint echo_loop (args : list (list Z)) : M ust unit :=
  match args with
  | [] => mret tt
  | a :: args => printf 1 (chars "%s%s") [AStr a; AStr (if (0 <? length args)%nat then [32] else [nl])];; echo_loop args
  end.
Definition echo (argv : list (list Z)) : M ust unit := echo_loop (tail argv);; exit.

(** The loops of rm and mkdir stop at the first failure. *)
Fixpoint until_fails (op : list Z → call) (err : list Z) (args : list (list Z)) : M ust unit :=
  match args with
  | [] => mret tt
  | a :: args =>
      r ← syscall (op a);
      if r <? 0 then printf 2 err [AStr a] else until_fails op err args
  end.

Definition rm (argv : list (list Z)) : M ust unit :=
  if Z.of_nat (length argv) <? 2 then printf 2 (msg "Usage: rm files...") [];; exit else
  until_fails CUnlink (msg "rm: %s failed to delete") (tail argv);;
  exit.

Definition mkdir (argv : list (list Z)) : M ust unit :=
  if Z.of_nat (length argv) <? 2 then printf 2 (msg "Usage: mkdir files...") [];; exit else
  until_fails CMkdir (msg "mkdir: %s failed to create") (tail argv);;
  exit.

Definition ln (argv : list (list Z)) : M ust unit :=
  match argv with
  | [_; old; new] =>
      r ← syscall (CLink old new);
      mwhen (r <? 0) (printf 2 (msg "link %s %s: failed") [AStr old; AStr new]);;
      exit
  | _ => printf 2 (msg "Usage: ln old new") [];; exit
  end.

Definition kill (argv : list (list Z)) : M ust unit :=
  if Z.of_nat (length argv) <? 2 then printf 2 (msg "usage: kill pid...") [];; exit else
  each_arg (λ a, syscall (CKill (Ulib.atoi a));; mret tt) (tail argv);;
  exit.

(** zombie.c *)
Definition zombie : M ust unit :=
  pid ← syscall CFork;
  mwhen (0 <? pid) (syscall (CSleep 5);; mret tt);;
  exit.

(** init.c *)
Definition init_wait (pid : Z) (_ : unit) : M ust (unit + unit) :=
  wpid ← syscall CWait;
  if (0 <=? wpid) && negb (wpid =? pid) then printf 1 (msg "zombie!") [];; mret (inl tt) else mret (inr tt).

Definition init_body (_ : unit) : M ust (unit + unit) :=
  printf 1 (msg "init: starting sh") [];;
  pid ← syscall CFork;
  if pid <? 0 then printf 1 (msg "init: fork failed") [];; exit else
  if pid =? 0 then exec (chars "sh") [chars "sh"];; printf 1 (msg "init: exec sh failed") [];; exit else
  loop (init_wait pid) 62 tt;;
  mret (inl tt).

Definition init : M ust unit :=
  fd ← syscall (COpen (chars "console") O_RDWR);
  mwhen (fd <? 0)
    (syscall (CMknod (chars "console") 1 1);;
     syscall (COpen (chars "console") O_RDWR);;
     mret tt);;
  syscall (CDup 0);;
  syscall (CDup 0);;
  loop init_body 62 tt.

(** lab1.c *)
Definition lab1 : M ust unit :=
  printf 1 (msg "Please Enter Value [1-3]:" ++ msg "(1)A count of the processes in the system"
    ++ msg "(2)A count of the total number of system calls that the current process has made so far"
    ++ msg "(3)The number of memory pages the current process is using.") [];;
  c ← Ulib.gets 2;
  (if Ulib.atoi c =? 1 then
     n ← syscall (CInfo (Ulib.atoi c));
     printf 1 (msg "Number of Process on System: (%d)") [AInt n]
   else if Ulib.atoi c =? 2 then
     n ← syscall (CInfo (Ulib.atoi c));
     printf 1 (msg "Current Process has %d system calls") [AInt n]
   else if Ulib.atoi c =? 3 then
     n ← syscall (CInfo (Ulib.atoi c));
     printf 1 (msg "The number of memory pages the current process is using is %d") [AInt n]
   else mret tt);;
  exit.

End Small.

(** ** Behaviour on a stream

    Standard input arrives in chunks, as from a pipe or a terminal; what is
    written is collected. *)
Record io := Io { input : list (list Z); output : list Z }.

Definition stream (w : io) (c : call) : Z * list Z * io :=
  match c with
  | CRead _ n =>
      match input w with
      | d :: rest =>
          let got := take (Z.to_nat n) d in
          let left := drop (Z.to_nat n) d in
          (Z.of_nat (length got), got, Io (if left is [] then rest else left :: rest) (output w))
      | [] => (0, [], w)
      end
  | CWrite _ data => (Z.of_nat (length data), [], Io (input w) (output w ++ data))
  | _ => (0, [], w)
  end.

(** Chunks that fit a buffer of [n] bytes. *)
Definition fits (n : Z) (ds : list (list Z)) : Prop :=
  Forall (λ d, d ≠ [] ∧ Z.of_nat (length d) ≤ n) ds ∧ Z.of_nat (length ds) < 2 ^ 62.

Lemma stream_read fd n d ds out :
  d ≠ [] → Z.of_nat (length d) ≤ n →
  does stream (read fd n) (Io (d :: ds) out) (Returned (Z.of_nat (length d), d)) (Io ds out).
Proof.
  intros Hd Hn. pose proof (does_read stream fd n (Io (d :: ds) out)) as H. cbn in H.
  rewrite take_ge, drop_ge in H by lia. specialize (H _ _ _ eq_refl). rewrite Nat2Z.id, take_ge in H by lia. done.
Qed.

Lemma stream_eof fd n out : does stream (read fd n) (Io [] out) (Returned (0, [])) (Io [] out).
Proof. apply (does_read stream fd n (Io [] out) 0 []). done. Qed.

Lemma stream_write fd data ds out :
  does stream (write fd data) (Io ds out) (Returned (Z.of_nat (length data))) (Io ds (out ++ data)).
Proof. apply (does_syscall stream (CWrite fd data) (Io ds out) _ [] _); done. Qed.

Lemma stream_put_chars fd l ds out : does stream (put_chars fd l) (Io ds out) (Returned tt) (Io ds (out ++ l)).
Proof.
  revert out. induction l as [|c l IH]; intros out; cbn [put_chars]; [rewrite app_nil_r; apply does_ret|].
  eapply does_bind; [unfold putc; eapply does_bind; [apply stream_write|apply does_ret]|].
  replace (out ++ c :: l) with ((out ++ [c]) ++ l) by (by rewrite <- app_assoc). apply IH.
Qed.

(** printf() on the stream, one directive at a time. *)
Section printf.
Context (fd : Z) (ds : list (list Z)) (r : result unit) (w' : io).
Implicit Types (fmt out : list Z) (ap : list arg).

Lemma stream_printf_char c fmt ap out :
  c ≠ 37 → does stream (printf_loop fd fmt 0 ap) (Io ds (out ++ [c])) r w' →
  does stream (printf_loop fd (c :: fmt) 0 ap) (Io ds out) r w'.
Proof.
  intros Hc H. cbn [printf_loop]. rewrite (proj2 (Z.eqb_neq c 37)) by done. change (0 =? 0) with true. cbn iota.
  eapply does_bind; [|exact H]. unfold putc. eapply does_bind; [apply stream_write|apply does_ret].
Qed.

Lemma stream_printf_d z fmt ap out :
  is_s32 z → does stream (printf_loop fd fmt 0 ap) (Io ds (out ++ int_chars z 10 true)) r w' →
  does stream (printf_loop fd (37 :: 100 :: fmt) 0 (AInt z :: ap)) (Io ds out) r w'.
Proof.
  intros Hz H. change (printf_loop fd (37 :: 100 :: fmt) 0 (AInt z :: ap)) with
    (printint fd (s32 z) 10 true;; printf_loop fd fmt 0 ap). rewrite s32_id by done.
  eapply does_bind; [apply stream_put_chars|exact H].
Qed.

Lemma stream_printf_s x fmt ap out :
  does stream (printf_loop fd fmt 0 ap) (Io ds (out ++ x)) r w' →
  does stream (printf_loop fd (37 :: 115 :: fmt) 0 (AStr x :: ap)) (Io ds out) r w'.
Proof.
  intros H. change (printf_loop fd (37 :: 115 :: fmt) 0 (AStr x :: ap)) with
    (put_chars fd x;; printf_loop fd fmt 0 ap). eapply does_bind; [apply stream_put_chars|exact H].
Qed.
End printf.

Ltac printf_steps :=
  repeat first [apply stream_printf_d; [unfold is_s32; lia|]|apply stream_printf_s|apply stream_printf_char; [done|]].

Lemma pow62 n : Z.of_nat n < 2 ^ 62 → Z.of_nat (S n) ≤ 2 ^ Z.of_nat 62.
Proof. intros. change (Z.of_nat 62) with 62. lia. Qed.

(** Cat copies its input to its output, however the input is
    cut into reads. *)
Theorem cat_copies fd ds out :
  fits 512 ds → does stream (Cat.cat fd) (Io ds out) (Returned tt) (Io [] (out ++ concat ds)).
Proof.
  intros [Hf Hn]. unfold Cat.cat. apply (does_bind _ _ _ _ 0 (Io [] (out ++ concat ds))); [|apply does_ret].
  apply (does_loop _ _ _ (S (length ds))); [|by apply pow62]. clear Hn. revert out.
  induction Hf as [|d ds [Hd Hl] _ IH]; intros out.
  - apply does_iter_end. unfold Cat.cat_body. rewrite app_nil_r.
    eapply does_bind; [apply stream_eof|]. apply does_ret.
  - eapply does_iter_next with (a' := tt) (w1 := Io ds (out ++ d)).
    + unfold Cat.cat_body. eapply does_bind; [by apply stream_read|]. cbn beta iota.
      rewrite (proj2 (Z.ltb_lt 0 _)) by (destruct d; [done|simpl; lia]).
      eapply does_bind; [apply stream_write|]. rewrite Z.eqb_refl. apply does_ret.
    + cbn [concat]. rewrite app_assoc. apply IH.
Qed.

Lemma cat_copies_witness :
  does stream (Cat.cat 0) (Io [chars "he"; chars "llo"] []) (Returned tt) (Io [] (chars "hello")).
Proof.
  apply (cat_copies 0 [chars "he"; chars "llo"] []). split; [|reflexivity].
  repeat constructor; discriminate.
Defined.

(** ** What wc counts *)

(** Position [i] starts a word: it holds a character that is no white space, at
    the beginning of the text or after white space. *)
Definition starts_word (xs : list Z) (i : nat) : bool :=
  negb (Wc.is_space (xs !!! i)) && ((i =? 0)%nat || Wc.is_space (xs !!! pred i)).
Definition words (xs : list Z) : Z := Z.of_nat (length (List.filter (starts_word xs) (seq 0 (length xs)))).
Definition newlines (xs : list Z) : Z := Z.of_nat (length (List.filter (λ x, x =? nl) xs)).

(** The last character seen is part of a word. *)
Definition in_word (xs : list Z) : bool :=
  match reverse xs with x :: _ => negb (Wc.is_space x) | [] => false end.

Lemma words_snoc xs b :
  words (xs ++ [b]) = words xs + (if negb (Wc.is_space b) && negb (in_word xs) then 1 else 0).
Proof.
  unfold words. rewrite length_app, Nat.add_comm. cbn [length]. rewrite seq_S, List.filter_app, length_app.
  assert (List.filter (starts_word (xs ++ [b])) (seq 0 (length xs)) =
          List.filter (starts_word xs) (seq 0 (length xs))) as ->.
  { apply List.filter_ext_in. intros i Hi. apply in_seq in Hi. unfold starts_word.
    rewrite !lookup_total_app_l by lia. done. }
  rewrite Nat2Z.inj_add. f_equal. cbn [List.filter Nat.add]. unfold starts_word at 1.
  rewrite lookup_total_app_r, Nat.sub_diag by lia. cbn [lookup_total].
  change ([b] !!! 0%nat) with b. unfold in_word.
  destruct xs as [|x xs _] using rev_ind; [simpl; destruct (Wc.is_space b); done|].
  rewrite reverse_snoc, length_app. simpl. rewrite Nat.add_1_r. simpl.
  rewrite lookup_total_app_l by (rewrite length_app; simpl; lia).
  rewrite lookup_total_app_r, Nat.sub_diag by lia. change ([x] !!! 0%nat) with x.
  destruct (Wc.is_space b), (Wc.is_space x); done.
Qed.

Lemma newlines_snoc xs b : newlines (xs ++ [b]) = newlines xs + (if b =? nl then 1 else 0).
Proof.
  unfold newlines. rewrite List.filter_app, length_app, Nat2Z.inj_add. f_equal. cbn. by destruct (b =? nl).
Qed.

Lemma words_le xs : 0 ≤ words xs ≤ Z.of_nat (length xs).
Proof.
  unfold words. pose proof (List.filter_length_le (starts_word xs) (seq 0 (length xs))) as H.
  rewrite length_seq in H. lia.
Qed.
Lemma newlines_le xs : 0 ≤ newlines xs ≤ Z.of_nat (length xs).
Proof. unfold newlines. pose proof (List.filter_length_le (λ x, x =? nl) xs). lia. Qed.

Definition counted (xs : list Z) : Wc.counts :=
  Wc.Counts (newlines xs) (words xs) (Z.of_nat (length xs)) (in_word xs).

Lemma count_char_snoc xs b :
  Z.of_nat (length xs) + 1 < 2 ^ 31 → Wc.count_char b (counted xs) = counted (xs ++ [b]).
Proof.
  intros Hlen. pose proof (words_le xs). pose proof (newlines_le xs). unfold counted, Wc.count_char.
  cbn [Wc.c Wc.l Wc.w Wc.inword]. rewrite words_snoc, newlines_snoc, length_app, Nat2Z.inj_add.
  rewrite (s32_id (Z.of_nat _ + 1)), (s32_id (newlines xs + 1)), (s32_id (words xs + 1)) by (unfold is_s32; lia).
  assert (in_word (xs ++ [b]) = negb (Wc.is_space b)) as -> by (unfold in_word; by rewrite reverse_snoc).
  destruct (b =? nl), (Wc.is_space b), (in_word xs); cbn; by rewrite ?Z.add_0_r.
Qed.

Lemma count_chars xs ys :
  Z.of_nat (length (xs ++ ys)) < 2 ^ 31 →
  foldl (λ k b, Wc.count_char b k) (counted xs) ys = counted (xs ++ ys).
Proof.
  revert xs. induction ys as [|b ys IH]; intros xs Hlen; simpl; [by rewrite app_nil_r|].
  rewrite length_app in Hlen. simpl in Hlen.
  rewrite count_char_snoc by lia. replace (xs ++ b :: ys) with ((xs ++ [b]) ++ ys) by (by rewrite <- app_assoc).
  apply IH. rewrite !length_app. simpl. lia.
Qed.

(** Wc prints the number of newlines, of words (maximal runs of
    characters that are no white space) and of characters of its input, however
    the input is cut into reads, also within a word. *)
Theorem wc_counts fd name ds out :
  fits 512 ds → Z.of_nat (length (concat ds)) < 2 ^ 31 →
  let xs := concat ds in
  does stream (Wc.wc fd name) (Io ds out) (Returned tt)
    (Io [] (out ++ int_chars (newlines xs) 10 true ++ [32] ++ int_chars (words xs) 10 true ++ [32]
              ++ int_chars (Z.of_nat (length xs)) 10 true ++ [32] ++ name ++ [nl])).
Proof.
  intros [Hf Hn] Hlen xs. unfold Wc.wc. apply (does_bind _ _ _ _ (0, counted xs) (Io [] out)).
  - apply (does_loop _ _ _ (S (length ds))); [|by apply pow62]. clear Hn.
    change (Wc.Counts 0 0 0 false) with (counted []). subst xs. rewrite <- (app_nil_l (concat ds)) in Hlen.
    change (counted (concat ds)) with (counted ([] ++ concat ds)). revert Hlen. generalize (@nil Z) as pre.
    induction Hf as [|d ds [Hd Hl] _ IH]; intros pre Hlen.
    + apply does_iter_end. unfold Wc.wc_body. cbn [concat]. rewrite app_nil_r.
      eapply does_bind; [apply stream_eof|]. apply does_ret.
    + eapply does_iter_next with (a' := counted (pre ++ d)) (w1 := Io ds out).
      * unfold Wc.wc_body. eapply does_bind; [by apply stream_read|]. cbn beta iota.
        rewrite (proj2 (Z.ltb_lt 0 _)) by (destruct d; [done|simpl; lia]).
        rewrite count_chars; [apply does_ret|]. cbn [concat] in Hlen. rewrite !length_app in *. lia.
      * cbn [concat] in *. rewrite app_assoc in *. by apply IH.
  - cbn beta iota. change (0 <? 0) with false. cbn iota. unfold printf, counted.
    pose proof (words_le xs). pose proof (newlines_le xs). fold xs in Hlen.
    change (msg "%d %d %d %s") with [37; 100; 32; 37; 100; 32; 37; 100; 32; 37; 115; 10].
    cbn [Wc.l Wc.w Wc.c]. printf_steps. rewrite <- !app_assoc. apply does_ret.
Qed.

Lemma wc_counts_witness :
  does stream (Wc.wc 0 (chars "f")) (Io [chars "a b"; chars "c d"] []) (Returned tt) (Io [] (chars "0 3 6 f" ++ [nl])).
Proof.
  apply (wc_counts 0 (chars "f") [chars "a b"; chars "c d"] []); [|reflexivity].
  split; [|reflexivity]. repeat constructor; discriminate.
Defined.

(** ** What grep prints *)

(** The complete lines of a text that continues the line [cur], and what is left. *)
Fixpoint split_lines (cur xs : list Z) : list (list Z) * list Z :=
  match xs with
  | [] => ([], cur)
  | x :: xs => if x =? nl then let '(ls, r) := split_lines [] xs in (cur :: ls, r) else split_lines (cur ++ [x]) xs
  end.

(** The lines that match, each with its newline. *)
Definition selected (pattern : list Z) (ls : list (list Z)) : list Z :=
  concat ((λ l, l ++ [nl]) <$> List.filter (match_ pattern) ls).

Lemma split_lines_app xs ys cur :
  split_lines cur (xs ++ ys) =
  ((split_lines cur xs).1 ++ (split_lines (split_lines cur xs).2 ys).1, (split_lines (split_lines cur xs).2 ys).2).
Proof.
  revert cur. induction xs as [|x xs IH]; intros cur; simpl; [by destruct (split_lines cur ys)|].
  destruct (x =? nl); [|apply IH]. rewrite IH. by destruct (split_lines [] xs) as [ls r].
Qed.

Lemma split_lines_none xs cur : nl ∉ xs → split_lines cur xs = ([], cur ++ xs).
Proof.
  revert cur. induction xs as [|x xs IH]; intros cur Hx; simpl; [by rewrite app_nil_r|].
  rewrite (proj2 (Z.eqb_neq x nl)) by set_solver. rewrite IH by set_solver. by rewrite <- app_assoc.
Qed.

Lemma split_lines_rest xs cur : nl ∈ xs → (length (split_lines cur xs).2 < length xs)%nat.
Proof.
  revert cur. induction xs as [|x xs IH]; intros cur Hx; [set_solver|]. simpl.
  destruct (Z.eqb_spec x nl) as [->|Hne].
  - destruct (decide (nl ∈ xs)) as [Hin|Hni].
    + specialize (IH [] Hin). destruct (split_lines [] xs) as [ls r]. simpl in *. lia.
    + rewrite split_lines_none by done. simpl. lia.
  - specialize (IH (cur ++ [x]) ltac:(set_solver)). lia.
Qed.

Lemma split_lines_no_nl xs cur : nl ∉ cur → nl ∉ (split_lines cur xs).2.
Proof.
  revert cur. induction xs as [|x xs IH]; intros cur Hc; simpl; [done|].
  destruct (Z.eqb_spec x nl) as [->|Hne].
  - specialize (IH [] (not_elem_of_nil _)). by destruct (split_lines [] xs).
  - apply IH. rewrite elem_of_app, list_elem_of_singleton. naive_solver.
Qed.

Lemma selected_app pattern l1 l2 : selected pattern (l1 ++ l2) = selected pattern l1 ++ selected pattern l2.
Proof. unfold selected. by rewrite List.filter_app, fmap_app, concat_app. Qed.

Lemma strchr_spec p c :
  match Ulib.strchr p c with
  | None => c ∉ p
  | Some q => ∃ line rest, p = line ++ c :: rest ∧ q = c :: rest ∧ c ∉ line
  end.
Proof.
  induction p as [|x p IH]; simpl; [set_solver|]. destruct (Z.eqb_spec x c) as [->|Hne].
  - exists [], p. set_solver.
  - destruct (Ulib.strchr p c) as [q|]; [|set_solver]. destruct IH as (line & rest & -> & -> & Hc).
    exists (x :: line), rest. set_solver.
Qed.

Lemma grep_lines_loop pattern fuel p ds out :
  (length p < fuel)%nat →
  does stream (Gr.lines_loop pattern fuel p) (Io ds out) (Returned (split_lines [] p).2)
    (Io ds (out ++ selected pattern (split_lines [] p).1)).
Proof.
  revert p out. induction fuel as [|fuel IH]; intros p out Hf; [lia|]. cbn [Gr.lines_loop].
  pose proof (strchr_spec p nl) as Hs. destruct (Ulib.strchr p nl) as [q|].
  - destruct Hs as (line & rest & -> & -> & Hl).
    assert (take (length (line ++ nl :: rest) - length (nl :: rest)) (line ++ nl :: rest) = line) as ->.
    { rewrite length_app. replace (_ + _ - _)%nat with (length line) by lia. by rewrite take_app_length. }
    rewrite split_lines_app, (split_lines_none line) by done. cbn [fst snd app split_lines tail].
    rewrite Z.eqb_refl. rewrite length_app in Hf. simpl in Hf.
    destruct (split_lines [] rest) as [ls r] eqn:Er. cbn [fst snd].
    change (line :: ls) with ([line] ++ ls). rewrite selected_app, app_assoc.
    assert (does stream (Gr.lines_loop pattern fuel rest) (Io ds (out ++ selected pattern [line])) (Returned r)
      (Io ds ((out ++ selected pattern [line]) ++ selected pattern ls))) as Hrest.
    { pose proof (IH rest (out ++ selected pattern [line]) ltac:(lia)) as H. by rewrite Er in H. }
    unfold selected in Hrest at 1 2 |- * at 1. cbn [List.filter] in *. destruct (match_ pattern line); cbn [fmap list_fmap concat mwhen] in *.
    + rewrite app_nil_r in *. eapply does_bind; [|exact Hrest]. eapply does_bind; [apply stream_write|apply does_ret].
    + rewrite app_nil_r in *. eapply does_bind; [apply does_ret|exact Hrest].
  - rewrite split_lines_none by done. cbn. rewrite app_nil_r. apply does_ret.
Qed.

Lemma c_str_id b : 0 ∉ b → Gr.c_str b = b.
Proof.
  induction b as [|x b IH]; intros H; simpl; [done|]. rewrite (proj2 (Z.eqb_neq x 0)) by set_solver.
  f_equal. apply IH. set_solver.
Qed.

Lemma split_lines_suffix xs : ∃ pre, xs = pre ++ (split_lines [] xs).2.
Proof.
  assert (∀ xs cur, ∃ pre, cur ++ xs = pre ++ (split_lines cur xs).2) as H.
  { clear xs. intros xs. induction xs as [|x xs IH]; intros cur; simpl; [exists []; by rewrite app_nil_r|].
    destruct (x =? nl).
    - destruct (IH []) as [pre E]. simpl in E. destruct (split_lines [] xs) as [ls r]. simpl in *.
      exists (cur ++ x :: pre). rewrite E at 1. by rewrite <- app_assoc.
    - destruct (IH (cur ++ [x])) as [pre E]. exists pre. rewrite <- E. by rewrite <- app_assoc. }
  apply (H xs []).
Qed.

(** Grep prints the matching lines.  If every read delivers at
    least one newline, no NUL and at most 511 bytes, then grep prints exactly the
    complete lines of its input that match the pattern, in order, however the
    lines are cut between reads. *)
Theorem grep_prints pattern fd ds out :
  Forall (λ d, nl ∈ d ∧ 0 ∉ d ∧ Z.of_nat (length d) ≤ 511) ds → Z.of_nat (length ds) < 2 ^ 62 →
  does stream (Gr.grep pattern fd) (Io ds out) (Returned tt)
    (Io [] (out ++ selected pattern (split_lines [] (concat ds)).1)).
Proof.
  intros Hf Hn. unfold Gr.grep. apply (does_loop _ _ _ (S (length ds))); [|by apply pow62]. clear Hn.
  assert (Hb : (length (@nil Z) ≤ 510)%nat ∧ 0 ∉ (@nil Z) ∧ nl ∉ (@nil Z)) by (split; [simpl; lia|set_solver]).
  revert out Hb. generalize (@nil Z) as b. induction Hf as [|d ds (Hd1 & Hd2 & Hd3) _ IH]; intros b out (Hb1 & Hb2 & Hb3).
  - apply does_iter_end. unfold Gr.grep_body. eapply does_bind; [apply stream_eof|]. cbn. rewrite app_nil_r. apply does_ret.
  - assert (d ≠ []) as Hd0 by (intros ->; by apply not_elem_of_nil in Hd1).
    assert (split_lines b d = split_lines [] (b ++ d)) as Esp.
    { rewrite split_lines_app, (split_lines_none b) by done. cbn. by destruct (split_lines b d). }
    set (r := (split_lines [] (b ++ d)).2) in *. set (ls := (split_lines [] (b ++ d)).1) in *.
    pose proof (split_lines_rest d b Hd1) as Hr. rewrite Esp in Hr. fold r in Hr.
    destruct (split_lines_suffix (b ++ d)) as [pre Epre]. fold r in Epre.
    eapply does_iter_next with (a' := r) (w1 := Io ds (out ++ selected pattern ls)).
    + unfold Gr.grep_body. eapply does_bind; [apply stream_read; [done|lia]|]. cbn beta iota.
      rewrite (proj2 (Z.ltb_lt 0 _)) by (destruct d; [done|simpl; lia]). cbn [negb].
      rewrite c_str_id by set_solver. eapply does_bind; [apply grep_lines_loop; lia|]. fold r ls.
      assert (length (b ++ d) - length r = length pre)%nat as -> by (rewrite Epre, length_app; lia).
      assert (length pre ≠ 0%nat) as Hp.
      { apply (f_equal length) in Epre. rewrite !length_app in Epre. lia. }
      rewrite (proj2 (Nat.eqb_neq _ 0)) by done. rewrite Epre, drop_app_length. apply does_ret.
    + cbn [concat]. rewrite split_lines_app, Esp. fold r ls. cbn [fst snd]. rewrite selected_app, app_assoc.
      apply IH. split_and!; [lia| |].
      * intros Hin. assert (0 ∈ b ++ d) as Hbd by (rewrite Epre; by apply elem_of_app; right).
        apply elem_of_app in Hbd as [?|?]; done.
      * apply split_lines_no_nl. apply not_elem_of_nil.
Qed.

Lemma grep_prints_witness :
  does stream (Gr.grep (chars "a.*c") 0) (Io [chars "abc" ++ [nl] ++ chars "xa"; chars "zc" ++ [nl]] []) (Returned tt)
    (Io [] (chars "abc" ++ [nl] ++ chars "xazc" ++ [nl])).
Proof.
  apply (grep_prints (chars "a.*c") 0 [chars "abc" ++ [nl] ++ chars "xa"; chars "zc" ++ [nl]] []); [|reflexivity].
  repeat (apply Forall_cons; split); [..|apply Forall_nil; exact I].
  all: split_and!; [refine (bool_decide_eq_true_1 _ _); vm_compute; reflexivity..|vm_compute; discriminate].
Defined.

