(* ===== verification/Tests.v ===== *)
(** * Test programs: forktest.c, stressfs.c, the ticket programs and usertests.c

    The programs that exercise the kernel, as interactions with an environment like
    the utilities of Coreutils.v.  Loops that only pass time are left out.  The
    array [buf] of usertests.c is a list of bytes that a test takes and gives back.
    Of usertests.c the tests that look at addresses are left out: mem, sbrktest,
    validatetest, uio and argptest, and main(), which calls them. *)

From S2P Require Import Prelude CString User Coreutils.
Open Scope kernel_scope.

(** [for(i = 0; i < n; i++) body] from [i] on, without and with [break]. *)
Fixpoint for_ (body : Z → M ust unit) (i : Z) (n : nat) : M ust unit :=
  match n with O => mret tt | S n => body i;; for_ body (i + 1) n end.
Fixpoint for_while (body : Z → M ust bool) (i : Z) (n : nat) : M ust Z :=
  match n with O => mret i | S n => go ← body i; if go : bool then for_while body (i + 1) n else mret i end.

Definition fork : M ust Z := syscall CFork.
Definition wait : M ust Z := syscall CWait.
Definition sleep (n : Z) : M ust unit := syscall (CSleep n);; mret tt.
Definition kill (pid : Z) : M ust unit := syscall (CKill pid);; mret tt.
Definition open (path : list Z) (mode : Z) : M ust Z := syscall (COpen path mode).
Definition close (fd : Z) : M ust unit := syscall (CClose fd);; mret tt.
Definition unlink (path : list Z) : M ust Z := syscall (CUnlink path).
Definition link (old new : list Z) : M ust Z := syscall (CLink old new).
Definition mkdir (path : list Z) : M ust Z := syscall (CMkdir path).
Definition chdir (path : list Z) : M ust Z := syscall (CChdir path).
Definition say (m : string) : M ust unit := printf 1 (msg m) [].

(** Printing a message and leaving; [check bad m] does so when [bad]. *)
Definition die {A} (m : string) : M ust A := say m;; exit.
Definition check (bad : bool) (m : string) : M ust unit := if bad then die m else mret tt.

(** ** forktest.c: its printf() writes the string as it is *)
Module Forktest.

Definition N : nat := 1000.
Definition printf (fd : Z) (s : list Z) : M ust unit := write fd s;; mret tt.

Definition fork_body (_ : Z) : M ust bool :=
  pid ← fork;
  if pid <? 0 then mret false else
  if pid =? 0 then exit else mret true.

Fixpoint wait_loop (n : nat) : M ust unit :=
  match n with
  | O => mret tt
  | S n => r ← wait; if r <? 0 then printf 1 (msg "wait stopped early");; exit else wait_loop n
  end.

Definition forktest : M ust unit :=
  printf 1 (msg "fork test");;
  n ← for_while fork_body 0 N;
  if n =? Z.of_nat N then printf 1 (msg "fork claimed to work N times!");; exit else
  wait_loop (Z.to_nat n);;
  r ← wait;
  if negb (r =? -1) then printf 1 (msg "wait got too many");; exit else
  printf 1 (msg "fork test OK").

Definition main : M ust unit := forktest;; exit.
End Forktest.

(** ** stressfs.c *)
Module Stressfs.

Definition main : M ust unit :=
  say "stressfs starting";;
  let data := replicate 512 97 in
  i ← for_while (λ _, pid ← fork; mret (negb (0 <? pid))) 0 4;
  printf 1 (msg "write %d") [AInt i];;
  let path := chars "stressfs" ++ [48 + i] in
  fd ← open path (Z.lor O_CREATE O_RDWR);
  for_ (λ _, write fd data;; mret tt) 0 20;;
  close fd;;
  say "read";;
  fd ← open path O_RDONLY;
  for_ (λ _, read fd 512;; mret tt) 0 20;;
  close fd;;
  wait;;
  exit.
End Stressfs.

(** ** example.c, example1.c, prog1.c, prog2.c: children with tickets *)
Module Tickets.

Definition tickets (n : Z) : M ust unit := syscall (CTickets n);; mret tt.

(** Child [i]: it takes [give i] tickets, and prints [shown i]. *)
Definition child (give shown : Z → Z) (i : Z) : M ust unit :=
  tickets (give i);;
  pid ← syscall CGetpid;
  printf 1 (nl :: msg "  child# %d with %d tickets has finished!  ") [AInt pid; AInt (shown i)];;
  exit.

(** The loop over the children; the result is the last [pid]. *)
Fixpoint children (give shown : Z → Z) (i : Z) (n : nat) (pid : Z) : M ust Z :=
  match n with
  | O => mret pid
  | S n =>
      pid ← fork;
      (if 0 <? pid then mret tt
       else if pid =? 0 then child give shown i
       else printf 2 (chars "  " ++ [nl] ++ chars "  Error  " ++ [nl; 32]) []);;
      children give shown (i + 1) n pid
  end.

Definition Scheduler (give shown : Z → Z) : M ust unit :=
  pid ← children give shown 0 3 0;
  mwhen (0 <? pid) (for_ (λ _, wait;; mret tt) 0 3);;
  exit.

Definition fixed (i : Z) : Z := if i =? 0 then 50 else if i =? 1 then 33 else 17.

Definition example : M ust unit := Scheduler fixed (λ i, if i =? 0 then 55 else fixed i).
Definition example1 : M ust unit := tickets 100;; Scheduler fixed (λ i, 30 - 10 * i).
Definition prog1 : M ust unit := tickets 60;; Scheduler (λ i, 30 - 10 * i) (λ i, 30 - 10 * i).

Definition shares (total i : Z) : Z :=
  let high := Z.quot total 2 in
  let mid := Z.quot total 3 in
  if i =? 0 then high else if i =? 1 then mid else total -i (high +i mid).
Definition prog2 (argv : list (list Z)) : M ust unit :=
  match argv with
  | [_; a] => Scheduler (shares (Ulib.atoi a)) (shares (Ulib.atoi a))
  | _ => printf 1 (msg "usage: x y") [];; exit
  end.
End Tickets.

(** ** usertests.c *)
Module Usertests.

Definition BUFSIZE : nat := 8192.
Definition MAXFILE : nat := 140.

(** read() into a buffer: the result, and the buffer after it. *)
Definition read_buf (fd n : Z) (buf : list Z) : M ust (Z * list Z) :=
  '(r, d) ← read fd n;
  mret (r, d ++ drop (length d) buf).
(** The first [int] of the buffer. *)
Definition get_int (buf : list Z) : Z :=
  s32 (buf !!! 0%nat + buf !!! 1%nat * 2 ^ 8 + buf !!! 2%nat * 2 ^ 16 + buf !!! 3%nat * 2 ^ 24).
Definition put_int (v : Z) (buf : list Z) : list Z :=
  [u8 v; u8 (Z.shiftr v 8); u8 (Z.shiftr v 16); u8 (Z.shiftr v 24)] ++ drop 4 buf.
Definition memset (c : Z) (n : nat) (buf : list Z) : list Z := replicate n c ++ drop n buf.
Definition two (a b : Z) : list Z := [a; b].

Definition iputtest : M ust unit :=
  say "iput test";;
  r ← mkdir (chars "iputdir"); check (r <? 0) "mkdir failed";;
  r ← chdir (chars "iputdir"); check (r <? 0) "chdir iputdir failed";;
  r ← unlink (chars "../iputdir"); check (r <? 0) "unlink ../iputdir failed";;
  r ← chdir (chars "/"); check (r <? 0) "chdir / failed";;
  say "iput test ok".

Definition exitiputtest : M ust unit :=
  say "exitiput test";;
  pid ← fork;
  check (pid <? 0) "fork failed";;
  mwhen (pid =? 0)
    (r ← mkdir (chars "iputdir"); check (r <? 0) "mkdir failed";;
     r ← chdir (chars "iputdir"); check (r <? 0) "child chdir failed";;
     r ← unlink (chars "../iputdir"); check (r <? 0) "unlink ../iputdir failed";;
     exit);;
  wait;;
  say "exitiput test ok".

Definition openiputtest : M ust unit :=
  say "openiput test";;
  r ← mkdir (chars "oidir"); check (r <? 0) "mkdir oidir failed";;
  pid ← fork;
  check (pid <? 0) "fork failed";;
  mwhen (pid =? 0)
    (fd ← open (chars "oidir") O_RDWR;
     check (0 <=? fd) "open directory for write succeeded";;
     exit);;
  sleep 1;;
  r ← unlink (chars "oidir"); check (negb (r =? 0)) "unlink failed";;
  wait;;
  say "openiput test ok".

Definition opentest : M ust unit :=
  say "open test";;
  fd ← open (chars "echo") 0;
  check (fd <? 0) "open echo failed!";;
  close fd;;
  fd ← open (chars "doesnotexist") 0;
  check (0 <=? fd) "open doesnotexist succeeded!";;
  say "open test ok".

Definition writetest (buf : list Z) : M ust (list Z) :=
  say "small file test";;
  fd ← open (chars "small") (Z.lor O_CREATE O_RDWR);
  (if 0 <=? fd then say "creat small succeeded; ok" else die "error: creat small failed!");;
  for_ (λ i,
    r ← write fd (replicate 10 97);
    (if negb (r =? 10) then printf 1 (msg "error: write aa %d new file failed") [AInt i];; exit else mret tt);;
    r ← write fd (replicate 10 98);
    (if negb (r =? 10) then printf 1 (msg "error: write bb %d new file failed") [AInt i];; exit else mret tt)) 0 100;;
  say "writes ok";;
  close fd;;
  fd ← open (chars "small") O_RDONLY;
  (if 0 <=? fd then say "open small succeeded ok" else die "error: open small failed!");;
  '(i, buf) ← read_buf fd 2000 buf;
  (if i =? 2000 then say "read succeeded ok" else die "read failed");;
  close fd;;
  r ← unlink (chars "small"); check (r <? 0) "unlink small failed";;
  say "small file test ok";;
  mret buf.

(** The writing loop, and a turn of the reading one. *)
Fixpoint big_writes (fd i : Z) (n : nat) (buf : list Z) : M ust (list Z) :=
  match n with
  | O => mret buf
  | S n =>
      let buf := put_int i buf in
      r ← write fd (take 512 buf);
      check (negb (r =? 512)) "error: write big file failed";;
      big_writes fd (i + 1) n buf
  end.
Definition big_read (fd : Z) (st : Z * list Z) : M ust (Z * list Z + list Z) :=
  let '(n, buf) := st in
  '(i, buf) ← read_buf fd 512 buf;
  if i =? 0 then
    (if n =? Z.of_nat MAXFILE - 1 then printf 1 (chars "read only %d blocks from big") [AInt n];; exit else mret (inr buf))
  else if negb (i =? 512) then printf 1 (msg "read failed %d") [AInt i];; exit
  else if negb (get_int buf =? n) then printf 1 (msg "read content of block %d is %d") [AInt n; AInt (get_int buf)];; exit
  else mret (inl (n + 1, buf)).
Definition writetest1 (buf : list Z) : M ust (list Z) :=
  say "big files test";;
  fd ← open (chars "big") (Z.lor O_CREATE O_RDWR);
  check (fd <? 0) "error: creat big failed!";;
  buf ← big_writes fd 0 MAXFILE buf;
  close fd;;
  fd ← open (chars "big") O_RDONLY;
  check (fd <? 0) "error: open big failed!";;
  buf ← loop (big_read fd) 32 (0, buf);
  close fd;;
  r ← unlink (chars "big"); check (r <? 0) "unlink big failed";;
  say "big files ok";;
  mret buf.

Definition createtest : M ust unit :=
  say "many creates, followed by unlink test";;
  for_ (λ i, fd ← open (two 97 (48 + i)) (Z.lor O_CREATE O_RDWR); close fd) 0 52;;
  for_ (λ i, unlink (two 97 (48 + i));; mret tt) 0 52;;
  say "many creates, followed by unlink; ok".

Definition dirtest : M ust unit :=
  say "mkdir test";;
  r ← mkdir (chars "dir0"); check (r <? 0) "mkdir failed";;
  r ← chdir (chars "dir0"); check (r <? 0) "chdir dir0 failed";;
  r ← chdir (chars ".."); check (r <? 0) "chdir .. failed";;
  r ← unlink (chars "dir0"); check (r <? 0) "unlink dir0 failed";;
  say "mkdir test ok".

Definition exectest : M ust unit :=
  say "exec test";;
  r ← exec (chars "echo") [chars "echo"; chars "ALL"; chars "TESTS"; chars "PASSED"];
  check (r <? 0) "exec echo failed".

(** pipe1(): the child's writes, and the parent's reads while the bytes are right;
    the result of a wrong byte is [None]. *)
Definition pipe1_bytes (n : Z) : list Z := (λ i, u8 (1033 * n + Z.of_nat i)) <$> seq 0 1033.
Definition pipe1_read (fd : Z) (st : Z * Z * Z * list Z) : M ust (Z * Z * Z * list Z + option Z * list Z) :=
  let '(sq, total, cc, buf) := st in
  '(n, buf) ← read_buf fd cc buf;
  if negb (0 <? n) then mret (inr (Some total, buf)) else
  if forallb (λ i, u8 (buf !!! i) =? u8 (sq + Z.of_nat i)) (seq 0 (Z.to_nat n)) then
    let cc := if Z.of_nat BUFSIZE <? cc * 2 then Z.of_nat BUFSIZE else cc * 2 in
    mret (inl (sq + n, total + n, cc, buf))
  else printf 1 (msg "pipe1 oops 2") [];; mret (inr (None, buf)).
Definition pipe1 (buf : list Z) : M ust (list Z) :=
  r ← syscall CPipe;
  fds ← reply;
  check (negb (r =? 0)) "pipe() failed";;
  let fd0 := fds !!! 0%nat in
  let fd1 := fds !!! 1%nat in
  pid ← fork;
  if pid =? 0 then
    close fd0;;
    for_ (λ n, r ← write fd1 (pipe1_bytes n); check (negb (r =? 1033)) "pipe1 oops 1") 0 5;;
    exit
  else if 0 <? pid then
    close fd1;;
    '(o, buf) ← loop (pipe1_read fd0) 32 (0, 0, 1, buf);
    match o with
    | None => mret buf
    | Some total =>
        (if negb (total =? 5 * 1033) then printf 1 (msg "pipe1 oops 3 total %d") [AInt total];; exit else mret tt);;
        close fd0;;
        wait;;
        say "pipe1 ok";;
        mret buf
    end
  else die "fork() failed".

Definition preempt (buf : list Z) : M ust (list Z) :=
  printf 1 (chars "preempt: ") [];;
  pid1 ← fork;
  if pid1 =? 0 then spin else
  pid2 ← fork;
  if pid2 =? 0 then spin else
  syscall CPipe;;
  pfds ← reply;
  let fd0 := pfds !!! 0%nat in
  let fd1 := pfds !!! 1%nat in
  pid3 ← fork;
  if pid3 =? 0 then
    close fd0;;
    r ← write fd1 [120];
    mwhen (negb (r =? 1)) (printf 1 (chars "preempt write error") []);;
    close fd1;;
    spin
  else
  close fd1;;
  '(r, buf) ← read_buf fd0 (Z.of_nat BUFSIZE) buf;
  if negb (r =? 1) then printf 1 (chars "preempt read error") [];; mret buf else
  close fd0;;
  printf 1 (chars "kill... ") [];;
  kill pid1;;
  kill pid2;;
  kill pid3;;
  printf 1 (chars "wait... ") [];;
  wait;;
  wait;;
  wait;;
  say "preempt ok";;
  mret buf.

(** A turn of exitwait(): false when it returns from the test. *)
Definition exitwait_body (_ : Z) : M ust bool :=
  pid ← fork;
  if pid <? 0 then say "fork failed";; mret false else
  if negb (pid =? 0) then
    w ← wait;
    if negb (w =? pid) then say "wait wrong pid";; mret false else mret true
  else exit.
Definition exitwait : M ust unit :=
  n ← for_while exitwait_body 0 100;
  mwhen (n =? 100) (say "exitwait ok").

Definition sharedfd_read (fd : Z) (st : Z * Z * list Z) : M ust (Z * Z * list Z + Z * Z) :=
  let '(nc, np, buf) := st in
  '(n, buf) ← read_buf fd 10 buf;
  if negb (0 <? n) then mret (inr (nc, np)) else
  mret (inl (nc + Z.of_nat (length (List.filter (λ c, c =? 99) buf)), np + Z.of_nat (length (List.filter (λ c, c =? 112) buf)), buf)).
Definition sharedfd : M ust unit :=
  say "sharedfd test";;
  unlink (chars "sharedfd");;
  fd ← open (chars "sharedfd") (Z.lor O_CREATE O_RDWR);
  if fd <? 0 then printf 1 (chars "fstests: cannot open sharedfd for writing") [] else
  pid ← fork;
  let buf := replicate 10 (if pid =? 0 then 99 else 112) in
  for_while (λ _, r ← write fd buf;
                  if negb (r =? 10) then say "fstests: write sharedfd failed";; mret false else mret true) 0 1000;;
  (if pid =? 0 then exit else wait;; mret tt);;
  close fd;;
  fd ← open (chars "sharedfd") 0;
  if fd <? 0 then say "fstests: cannot open sharedfd for reading" else
  '(nc, np) ← loop (sharedfd_read fd) 32 (0, 0, buf);
  close fd;;
  unlink (chars "sharedfd");;
  if (nc =? 10000) && (np =? 10000) then say "sharedfd ok" else printf 1 (msg "sharedfd oops %d %d") [AInt nc; AInt np];; exit.

Definition fname (i : Z) : list Z := two 102 (48 + i).
Definition fourfiles_child (pi : Z) (buf : list Z) : M ust unit :=
  fd ← open (fname pi) (Z.lor O_CREATE O_RDWR);
  check (fd <? 0) "create failed";;
  let buf := memset (48 + pi) 512 buf in
  for_ (λ _, n ← write fd (take 500 buf);
             if negb (n =? 500) then printf 1 (msg "write failed %d") [AInt n];; exit else mret tt) 0 12;;
  exit.
Definition fourfiles_read (fd i : Z) (st : Z * list Z) : M ust (Z * list Z + Z * list Z) :=
  let '(total, buf) := st in
  '(n, buf) ← read_buf fd (Z.of_nat BUFSIZE) buf;
  if negb (0 <? n) then mret (inr (total, buf)) else
  check (negb (forallb (λ j, buf !!! j =? 48 + i) (seq 0 (Z.to_nat n)))) "wrong char";;
  mret (inl (total + n, buf)).
Fixpoint fourfiles_check (i : Z) (n : nat) (buf : list Z) : M ust (list Z) :=
  match n with
  | O => mret buf
  | S n =>
      fd ← open (fname i) 0;
      '(total, buf) ← loop (fourfiles_read fd i) 32 (0, buf);
      close fd;;
      (if negb (total =? 12 * 500) then printf 1 (msg "wrong length %d") [AInt total];; exit else mret tt);;
      unlink (fname i);;
      fourfiles_check (i + 1) n buf
  end.
Definition fourfiles (buf : list Z) : M ust (list Z) :=
  say "fourfiles test";;
  for_ (λ pi, unlink (fname pi);;
              pid ← fork;
              check (pid <? 0) "fork failed";;
              mwhen (pid =? 0) (fourfiles_child pi buf)) 0 4;;
  for_ (λ _, wait;; mret tt) 0 4;;
  buf ← fourfiles_check 0 2 buf;
  say "fourfiles ok";;
  mret buf.

Definition createdelete_child (pi : Z) : M ust unit :=
  for_ (λ i,
    fd ← open (two (112 + pi) (48 + i)) (Z.lor O_CREATE O_RDWR);
    check (fd <? 0) "create failed";;
    close fd;;
    mwhen ((0 <? i) && (Z.rem i 2 =? 0))
      (r ← unlink (two (112 + pi) (48 + Z.quot i 2)); check (r <? 0) "unlink failed")) 0 20;;
  exit.
Definition createdelete : M ust unit :=
  say "createdelete test";;
  for_ (λ pi, pid ← fork; check (pid <? 0) "fork failed";; mwhen (pid =? 0) (createdelete_child pi)) 0 4;;
  for_ (λ _, wait;; mret tt) 0 4;;
  for_ (λ i, for_ (λ pi,
    let name := two (112 + pi) (48 + i) in
    fd ← open name 0;
    (if ((i =? 0) || (10 <=? i)) && (fd <? 0) then printf 1 (msg "oops createdelete %s didn't exist") [AStr name];; exit
     else if ((1 <=? i) && (i <? 10)) && (0 <=? fd) then printf 1 (msg "oops createdelete %s did exist") [AStr name];; exit
     else mret tt);;
    mwhen (0 <=? fd) (close fd)) 0 4) 0 20;;
  for_ (λ i, for_ (λ _, unlink (two (112 + i) (48 + i));; mret tt) 0 4) 0 20;;
  say "createdelete ok".

Definition unlinkread (buf : list Z) : M ust (list Z) :=
  say "unlinkread test";;
  fd ← open (chars "unlinkread") (Z.lor O_CREATE O_RDWR);
  check (fd <? 0) "create unlinkread failed";;
  write fd (chars "hello");;
  close fd;;
  fd ← open (chars "unlinkread") O_RDWR;
  check (fd <? 0) "open unlinkread failed";;
  r ← unlink (chars "unlinkread"); check (negb (r =? 0)) "unlink unlinkread failed";;
  fd1 ← open (chars "unlinkread") (Z.lor O_CREATE O_RDWR);
  write fd1 (chars "yyy");;
  close fd1;;
  '(r, buf) ← read_buf fd (Z.of_nat BUFSIZE) buf;
  (if negb (r =? 5) then printf 1 (chars "unlinkread read failed") [];; exit else mret tt);;
  check (negb (buf !!! 0%nat =? 104)) "unlinkread wrong data";;
  r ← write fd (take 10 buf); check (negb (r =? 10)) "unlinkread write failed";;
  close fd;;
  unlink (chars "unlinkread");;
  say "unlinkread ok";;
  mret buf.

Definition linktest (buf : list Z) : M ust (list Z) :=
  say "linktest";;
  unlink (chars "lf1");;
  unlink (chars "lf2");;
  fd ← open (chars "lf1") (Z.lor O_CREATE O_RDWR);
  check (fd <? 0) "create lf1 failed";;
  r ← write fd (chars "hello"); check (negb (r =? 5)) "write lf1 failed";;
  close fd;;
  r ← link (chars "lf1") (chars "lf2"); check (r <? 0) "link lf1 lf2 failed";;
  unlink (chars "lf1");;
  r ← open (chars "lf1") 0; check (0 <=? r) "unlinked lf1 but it is still there!";;
  fd ← open (chars "lf2") 0;
  check (fd <? 0) "open lf2 failed";;
  '(r, buf) ← read_buf fd (Z.of_nat BUFSIZE) buf;
  check (negb (r =? 5)) "read lf2 failed";;
  close fd;;
  r ← link (chars "lf2") (chars "lf2"); check (0 <=? r) "link lf2 lf2 succeeded! oops";;
  unlink (chars "lf2");;
  r ← link (chars "lf2") (chars "lf1"); check (0 <=? r) "link non-existant succeeded! oops";;
  r ← link (chars ".") (chars "lf1"); check (0 <=? r) "link . lf1 succeeded! oops";;
  say "linktest ok";;
  mret buf.

(** concreate(): creating and linking C0, C1, ..., then reading the directory. *)
Definition cfile (i : Z) : list Z := two 67 (48 + i).
Definition concreate_make (i : Z) : M ust unit :=
  unlink (cfile i);;
  pid ← fork;
  (if negb (pid =? 0) && (Z.rem i 3 =? 1) then link (chars "C0") (cfile i);; mret tt
   else if (pid =? 0) && (Z.rem i 5 =? 1) then link (chars "C0") (cfile i);; mret tt
   else
     fd ← open (cfile i) (Z.lor O_CREATE O_RDWR);
     (if fd <? 0 then printf 1 (msg "concreate create %s failed") [AStr (cfile i)];; exit else mret tt);;
     close fd);;
  if pid =? 0 then exit else wait;; mret tt.

(** A signed char. *)
Definition schar (c : Z) : Z := if c <? 128 then c else c - 256.

(** [de] is the directory entry's 16 bytes, [fa] the files seen, [n] their number. *)
Definition concreate_read (fd : Z) (st : list Z * list Z * Z) : M ust (list Z * list Z * Z + Z) :=
  let '(de, fa, n) := st in
  '(r, de) ← read_buf fd 16 de;
  if negb (0 <? r) then mret (inr n) else
  if de !!! 0%nat + de !!! 1%nat * 2 ^ 8 =? 0 then mret (inl (de, fa, n)) else
  let name := drop 2 de in
  if (name !!! 0%nat =? 67) && (name !!! 2%nat =? 0) then
    let i := schar (name !!! 1%nat) - 48 in
    if (i <? 0) || (40 <=? i) then printf 1 (msg "concreate weird file %s") [AStr (cstring name)];; exit else
    if negb (fa !!! Z.to_nat i =? 0) then printf 1 (msg "concreate duplicate file %s") [AStr (cstring name)];; exit else
    mret (inl (de, <[Z.to_nat i := 1]> fa, n + 1))
  else mret (inl (de, fa, n)).

Definition concreate_destroy (i : Z) : M ust unit :=
  pid ← fork;
  check (pid <? 0) "fork failed";;
  (if ((Z.rem i 3 =? 0) && (pid =? 0)) || ((Z.rem i 3 =? 1) && negb (pid =? 0))
   then for_ (λ _, fd ← open (cfile i) 0; close fd) 0 4
   else for_ (λ _, unlink (cfile i);; mret tt) 0 4);;
  if pid =? 0 then exit else wait;; mret tt.

Definition concreate : M ust unit :=
  say "concreate test";;
  for_ concreate_make 0 40;;
  fd ← open (chars ".") 0;
  n ← loop (concreate_read fd) 32 (replicate 16 0, replicate 40 0, 0);
  close fd;;
  check (negb (n =? 40)) "concreate not enough files in directory listing";;
  for_ concreate_destroy 0 40;;
  say "concreate ok".

Fixpoint linkunlink_loop (n : nat) (x : Z) : M ust unit :=
  match n with
  | O => mret tt
  | S n =>
      let x := u32 (x * 1103515245 + 12345) in
      (if x mod 3 =? 0 then fd ← open (chars "x") (Z.lor O_RDWR O_CREATE); close fd
       else if x mod 3 =? 1 then link (chars "cat") (chars "x");; mret tt
       else unlink (chars "x");; mret tt);;
      linkunlink_loop n x
  end.
Definition linkunlink : M ust unit :=
  say "linkunlink test";;
  unlink (chars "x");;
  pid ← fork;
  check (pid <? 0) "fork failed";;
  linkunlink_loop 100 (if negb (pid =? 0) then 1 else 97);;
  (if negb (pid =? 0) then wait;; mret tt else exit);;
  say "linkunlink ok".

Definition xname (i : Z) : list Z := [120; 48 + Z.quot i 64; 48 + Z.rem i 64].
Definition bigdir : M ust unit :=
  say "bigdir test";;
  unlink (chars "bd");;
  fd ← open (chars "bd") O_CREATE;
  check (fd <? 0) "bigdir create failed";;
  close fd;;
  for_ (λ i, r ← link (chars "bd") (xname i); check (negb (r =? 0)) "bigdir link failed") 0 500;;
  unlink (chars "bd");;
  for_ (λ i, r ← unlink (xname i);
             if negb (r =? 0) then printf 1 (chars "bigdir unlink failed") [];; exit else mret tt) 0 500;;
  say "bigdir ok".

(** subdir(), in three parts: building dd, walking it, and the calls that fail. *)
Definition subdir_build (buf : list Z) : M ust (list Z) :=
  unlink (chars "ff");;
  r ← mkdir (chars "dd"); check (negb (r =? 0)) "subdir mkdir dd failed";;
  fd ← open (chars "dd/ff") (Z.lor O_CREATE O_RDWR);
  check (fd <? 0) "create dd/ff failed";;
  write fd (chars "ff");;
  close fd;;
  r ← unlink (chars "dd"); check (0 <=? r) "unlink dd (non-empty dir) succeeded!";;
  r ← mkdir (chars "/dd/dd"); check (negb (r =? 0)) "subdir mkdir dd/dd failed";;
  fd ← open (chars "dd/dd/ff") (Z.lor O_CREATE O_RDWR);
  check (fd <? 0) "create dd/dd/ff failed";;
  write fd (chars "FF");;
  close fd;;
  fd ← open (chars "dd/dd/../ff") 0;
  check (fd <? 0) "open dd/dd/../ff failed";;
  '(cc, buf) ← read_buf fd (Z.of_nat BUFSIZE) buf;
  check (negb (cc =? 2) || negb (buf !!! 0%nat =? 102)) "dd/dd/../ff wrong content";;
  close fd;;
  mret buf.
Definition subdir_walk (buf : list Z) : M ust (list Z) :=
  r ← link (chars "dd/dd/ff") (chars "dd/dd/ffff"); check (negb (r =? 0)) "link dd/dd/ff dd/dd/ffff failed";;
  r ← unlink (chars "dd/dd/ff"); check (negb (r =? 0)) "unlink dd/dd/ff failed";;
  r ← open (chars "dd/dd/ff") O_RDONLY; check (0 <=? r) "open (unlinked) dd/dd/ff succeeded";;
  r ← chdir (chars "dd"); check (negb (r =? 0)) "chdir dd failed";;
  r ← chdir (chars "dd/../../dd"); check (negb (r =? 0)) "chdir dd/../../dd failed";;
  r ← chdir (chars "dd/../../../dd"); check (negb (r =? 0)) "chdir dd/../../dd failed";;
  r ← chdir (chars "./.."); check (negb (r =? 0)) "chdir ./.. failed";;
  fd ← open (chars "dd/dd/ffff") 0;
  check (fd <? 0) "open dd/dd/ffff failed";;
  '(r, buf) ← read_buf fd (Z.of_nat BUFSIZE) buf;
  check (negb (r =? 2)) "read dd/dd/ffff wrong len";;
  close fd;;
  mret buf.
Definition subdir_errors : M ust unit :=
  r ← open (chars "dd/dd/ff") O_RDONLY; check (0 <=? r) "open (unlinked) dd/dd/ff succeeded!";;
  r ← open (chars "dd/ff/ff") (Z.lor O_CREATE O_RDWR); check (0 <=? r) "create dd/ff/ff succeeded!";;
  r ← open (chars "dd/xx/ff") (Z.lor O_CREATE O_RDWR); check (0 <=? r) "create dd/xx/ff succeeded!";;
  r ← open (chars "dd") O_CREATE; check (0 <=? r) "create dd succeeded!";;
  r ← open (chars "dd") O_RDWR; check (0 <=? r) "open dd rdwr succeeded!";;
  r ← open (chars "dd") O_WRONLY; check (0 <=? r) "open dd wronly succeeded!";;
  r ← link (chars "dd/ff/ff") (chars "dd/dd/xx"); check (r =? 0) "link dd/ff/ff dd/dd/xx succeeded!";;
  r ← link (chars "dd/xx/ff") (chars "dd/dd/xx"); check (r =? 0) "link dd/xx/ff dd/dd/xx succeeded!";;
  r ← link (chars "dd/ff") (chars "dd/dd/ffff"); check (r =? 0) "link dd/ff dd/dd/ffff succeeded!";;
  r ← mkdir (chars "dd/ff/ff"); check (r =? 0) "mkdir dd/ff/ff succeeded!";;
  r ← mkdir (chars "dd/xx/ff"); check (r =? 0) "mkdir dd/xx/ff succeeded!";;
  r ← mkdir (chars "dd/dd/ffff"); check (r =? 0) "mkdir dd/dd/ffff succeeded!";;
  r ← unlink (chars "dd/xx/ff"); check (r =? 0) "unlink dd/xx/ff succeeded!";;
  r ← unlink (chars "dd/ff/ff"); check (r =? 0) "unlink dd/ff/ff succeeded!";;
  r ← chdir (chars "dd/ff"); check (r =? 0) "chdir dd/ff succeeded!";;
  r ← chdir (chars "dd/xx"); check (r =? 0) "chdir dd/xx succeeded!";;
  r ← unlink (chars "dd/dd/ffff"); check (negb (r =? 0)) "unlink dd/dd/ff failed";;
  r ← unlink (chars "dd/ff"); check (negb (r =? 0)) "unlink dd/ff failed";;
  r ← unlink (chars "dd"); check (r =? 0) "unlink non-empty dd succeeded!";;
  r ← unlink (chars "dd/dd"); check (r <? 0) "unlink dd/dd failed";;
  r ← unlink (chars "dd"); check (r <? 0) "unlink dd failed".
Definition subdir (buf : list Z) : M ust (list Z) :=
  say "subdir test";;
  buf ← subdir_build buf;
  buf ← subdir_walk buf;
  subdir_errors;;
  say "subdir ok";;
  mret buf.

(** The sizes of bigwrite() are 499, 970, ... below [12 * 512]. *)
Definition bigwrite (buf : list Z) : M ust unit :=
  say "bigwrite test";;
  unlink (chars "bigwrite");;
  for_ (λ k,
    let sz := 499 + 471 * k in
    fd ← open (chars "bigwrite") (Z.lor O_CREATE O_RDWR);
    check (fd <? 0) "cannot create bigwrite";;
    for_ (λ _, cc ← write fd (take (Z.to_nat sz) buf);
               if negb (cc =? sz) then printf 1 (msg "write(%d) ret %d") [AInt sz; AInt cc];; exit else mret tt) 0 2;;
    close fd;;
    unlink (chars "bigwrite");;
    mret tt) 0 12;;
  say "bigwrite ok".

Fixpoint bigfile_writes (fd i : Z) (n : nat) (buf : list Z) : M ust (list Z) :=
  match n with
  | O => mret buf
  | S n =>
      let buf := memset i 600 buf in
      r ← write fd (take 600 buf);
      check (negb (r =? 600)) "write bigfile failed";;
      bigfile_writes fd (i + 1) n buf
  end.
Definition bigfile_read (fd : Z) (st : Z * Z * list Z) : M ust (Z * Z * list Z + Z * list Z) :=
  let '(i, total, buf) := st in
  '(cc, buf) ← read_buf fd 300 buf;
  check (cc <? 0) "read bigfile failed";;
  if cc =? 0 then mret (inr (total, buf)) else
  check (negb (cc =? 300)) "short read bigfile";;
  check (negb (schar (buf !!! 0%nat) =? Z.quot i 2) || negb (schar (buf !!! 299%nat) =? Z.quot i 2)) "read bigfile wrong data";;
  mret (inl (i + 1, total + cc, buf)).
Definition bigfile (buf : list Z) : M ust (list Z) :=
  say "bigfile test";;
  unlink (chars "bigfile");;
  fd ← open (chars "bigfile") (Z.lor O_CREATE O_RDWR);
  (if fd <? 0 then printf 1 (chars "cannot create bigfile") [];; exit else mret tt);;
  buf ← bigfile_writes fd 0 20 buf;
  close fd;;
  fd ← open (chars "bigfile") 0;
  check (fd <? 0) "cannot open bigfile";;
  '(total, buf) ← loop (bigfile_read fd) 32 (0, 0, buf);
  close fd;;
  check (negb (total =? 20 * 600)) "read bigfile wrong total";;
  unlink (chars "bigfile");;
  say "bigfile test ok";;
  mret buf.

Definition fourteen : M ust unit :=
  say "fourteen test";;
  r ← mkdir (chars "12345678901234"); check (negb (r =? 0)) "mkdir 12345678901234 failed";;
  r ← mkdir (chars "12345678901234/123456789012345");
  check (negb (r =? 0)) "mkdir 12345678901234/123456789012345 failed";;
  fd ← open (chars "123456789012345/123456789012345/123456789012345") O_CREATE;
  check (fd <? 0) "create 123456789012345/123456789012345/123456789012345 failed";;
  close fd;;
  fd ← open (chars "12345678901234/12345678901234/12345678901234") 0;
  check (fd <? 0) "open 12345678901234/12345678901234/12345678901234 failed";;
  close fd;;
  r ← mkdir (chars "12345678901234/12345678901234");
  check (r =? 0) "mkdir 12345678901234/12345678901234 succeeded!";;
  r ← mkdir (chars "123456789012345/12345678901234");
  check (r =? 0) "mkdir 12345678901234/123456789012345 succeeded!";;
  say "fourteen ok".

Definition rmdot : M ust unit :=
  say "rmdot test";;
  r ← mkdir (chars "dots"); check (negb (r =? 0)) "mkdir dots failed";;
  r ← chdir (chars "dots"); check (negb (r =? 0)) "chdir dots failed";;
  r ← unlink (chars "."); check (r =? 0) "rm . worked!";;
  r ← unlink (chars ".."); check (r =? 0) "rm .. worked!";;
  r ← chdir (chars "/"); check (negb (r =? 0)) "chdir / failed";;
  r ← unlink (chars "dots/."); check (r =? 0) "unlink dots/. worked!";;
  r ← unlink (chars "dots/.."); check (r =? 0) "unlink dots/.. worked!";;
  r ← unlink (chars "dots"); check (negb (r =? 0)) "unlink dots failed!";;
  say "rmdot ok".

Definition dirfile : M ust unit :=
  say "dir vs file";;
  fd ← open (chars "dirfile") O_CREATE;
  check (fd <? 0) "create dirfile failed";;
  close fd;;
  r ← chdir (chars "dirfile"); check (r =? 0) "chdir dirfile succeeded!";;
  fd ← open (chars "dirfile/xx") 0; check (0 <=? fd) "create dirfile/xx succeeded!";;
  fd ← open (chars "dirfile/xx") O_CREATE; check (0 <=? fd) "create dirfile/xx succeeded!";;
  r ← mkdir (chars "dirfile/xx"); check (r =? 0) "mkdir dirfile/xx succeeded!";;
  r ← unlink (chars "dirfile/xx"); check (r =? 0) "unlink dirfile/xx succeeded!";;
  r ← link (chars "README") (chars "dirfile/xx"); check (r =? 0) "link to dirfile/xx succeeded!";;
  r ← unlink (chars "dirfile"); check (negb (r =? 0)) "unlink dirfile failed!";;
  fd ← open (chars ".") O_RDWR; check (0 <=? fd) "open . for writing succeeded!";;
  fd ← open (chars ".") 0;
  r ← write fd (chars "x"); check (0 <? r) "write . succeeded!";;
  close fd;;
  say "dir vs file OK".

Definition iref : M ust unit :=
  say "empty file name";;
  for_ (λ _,
    r ← mkdir (chars "irefd"); check (negb (r =? 0)) "mkdir irefd failed";;
    r ← chdir (chars "irefd"); check (negb (r =? 0)) "chdir irefd failed";;
    mkdir [];;
    link (chars "README") [];;
    fd ← open [] O_CREATE;
    mwhen (0 <=? fd) (close fd);;
    fd ← open (chars "xx") O_CREATE;
    mwhen (0 <=? fd) (close fd);;
    unlink (chars "xx");;
    mret tt) 0 51;;
  chdir (chars "/");;
  say "empty file name OK".

Fixpoint wait_loop (n : nat) : M ust unit :=
  match n with
  | O => mret tt
  | S n => r ← wait; check (r <? 0) "wait stopped early";; wait_loop n
  end.
Definition forktest : M ust unit :=
  say "fork test";;
  n ← for_while Forktest.fork_body 0 1000;
  check (n =? 1000) "fork claimed to work 1000 times!";;
  wait_loop (Z.to_nat n);;
  r ← wait; check (negb (r =? -1)) "wait got too many";;
  say "fork test OK".

(** [uninit] is an array without initial value, of 10000 bytes. *)
Definition bsstest (uninit : list Z) : M ust unit :=
  say "bss test";;
  check (existsb (λ c, negb (c =? 0)) uninit) "bss test failed";;
  say "bss test ok".

Definition bigarg : list Z := msg "bigargs test: failed" ++ replicate 199 32.
Definition bigargtest : M ust unit :=
  unlink (chars "bigarg-ok");;
  pid ← fork;
  (if pid =? 0 then
     say "bigarg test";;
     exec (chars "echo") (replicate 31 bigarg);;
     say "bigarg test ok";;
     fd ← open (chars "bigarg-ok") O_CREATE;
     close fd;;
     exit
   else check (pid <? 0) "bigargtest: fork failed");;
  wait;;
  fd ← open (chars "bigarg-ok") 0;
  check (fd <? 0) "bigarg test failed!";;
  close fd;;
  unlink (chars "bigarg-ok");;
  mret tt.

(** fsfull(): the name of file [n], the writes to one file, and the files in turn;
    the result is the number of the last one. *)
Definition fsname (n : Z) : list Z := [102; u8 (48 + n / 1000); 48 + n mod 1000 / 100; 48 + n mod 100 / 10; 48 + n mod 10].
Definition fsfull_write (fd : Z) (buf : list Z) (total : Z) : M ust (Z + Z) :=
  cc ← write fd (take 512 buf);
  if cc <? 512 then mret (inr total) else mret (inl (total + cc)).
Definition fsfull_body (buf : list Z) (nfiles : Z) : M ust (Z + Z) :=
  printf 1 (msg "writing %s") [AStr (fsname nfiles)];;
  fd ← open (fsname nfiles) (Z.lor O_CREATE O_RDWR);
  if fd <? 0 then printf 1 (msg "open %s failed") [AStr (fsname nfiles)];; mret (inr nfiles) else
  total ← loop (fsfull_write fd buf) 32 0;
  printf 1 (msg "wrote %d bytes") [AInt total];;
  close fd;;
  if total =? 0 then mret (inr nfiles) else mret (inl (nfiles + 1)).
Fixpoint fsfull_remove (n : nat) : M ust unit :=
  unlink (fsname (Z.of_nat n));;
  match n with O => mret tt | S n => fsfull_remove n end.
Definition fsfull (buf : list Z) : M ust unit :=
  say "fsfull test";;
  nfiles ← loop (fsfull_body buf) 32 0;
  fsfull_remove (Z.to_nat nfiles);;
  say "fsfull test finished".

(** rand(): the new [randstate], which is also the result. *)
Definition rand (randstate : Z) : Z := u32 (randstate * 1664525 + 1013904223).

End Usertests.

(** ** What forktest tells about fork() and wait()

    A kernel with room for [cap] children, [kids] of which are there: fork() makes
    one while there is room, and wait() finds one while more than [base] are there.
    The kernel that is meant has [base = 0]; a positive [base] loses children and a
    negative one invents them. *)
Record tab := Tab { cap : Z; base : Z; kids : Z; told : list Z }.

Definition table (t : tab) (c : call) : Z * list Z * tab :=
  match c with
  | CFork => if kids t <? cap t then (kids t + 1, [], Tab (cap t) (base t) (kids t + 1) (told t)) else (-1, [], t)
  | CWait => if base t <? kids t then (1, [], Tab (cap t) (base t) (kids t - 1) (told t)) else (-1, [], t)
  | CWrite _ data => (Z.of_nat (length data), [], Tab (cap t) (base t) (kids t) (told t ++ data))
  | _ => (0, [], t)
  end.

Section forktest.
Context (c b : Z) (out : list Z).

Lemma table_fork k :
  does table fork (Tab c b k out) (Returned (if k <? c then k + 1 else -1))
    (Tab c b (if k <? c then k + 1 else k) out).
Proof using Type.
  apply (does_syscall table CFork (Tab c b k out) _ [] _); [done|]. cbn. by destruct (k <? c).
Qed.

Lemma table_wait k :
  does table wait (Tab c b k out) (Returned (if b <? k then 1 else -1))
    (Tab c b (if b <? k then k - 1 else k) out).
Proof using Type.
  apply (does_syscall table CWait (Tab c b k out) _ [] _); [done|]. cbn. by destruct (b <? k).
Qed.

Lemma table_printf k fd s :
  does table (Forktest.printf fd s) (Tab c b k out) (Returned tt) (Tab c b k (out ++ s)).
Proof using Type.
  eapply does_bind; [|apply does_ret].
  by apply (does_syscall table (CWrite fd s) (Tab c b k out) _ [] _).
Qed.

(** The first loop forks until there is no room, or [n] times. *)
Lemma table_forks (n : nat) i :
  0 ≤ i ≤ c →
  does table (for_while Forktest.fork_body i n) (Tab c b i out)
    (Returned (Z.min c (i + Z.of_nat n))) (Tab c b (Z.min c (i + Z.of_nat n)) out).
Proof using Type.
  revert i. induction n as [|n IH]; intros i Hi; cbn [for_while].
  { rewrite Z.add_0_r, Z.min_r by lia. apply does_ret. }
  unfold Forktest.fork_body. destruct (Z.ltb_spec i c) as [Hc|Hc].
  - eapply does_bind; [eapply does_bind; [apply table_fork|]|].
    + rewrite (proj2 (Z.ltb_lt i c) Hc), (proj2 (Z.ltb_ge (i + 1) 0)), (proj2 (Z.eqb_neq (i + 1) 0)) by lia.
      apply does_ret.
    + cbn beta iota. replace (i + Z.of_nat (S n)) with (i + 1 + Z.of_nat n) by lia. apply IH. lia.
  - rewrite Z.min_l by lia. replace i with c by lia.
    eapply does_bind; [eapply does_bind; [apply table_fork|]|].
    + rewrite Z.ltb_irrefl. apply does_ret.
    + apply does_ret.
Qed.

(** The second loop waits for each of them. *)
Lemma table_waits (n : nat) k :
  b ≤ k - Z.of_nat n →
  does table (Forktest.wait_loop n) (Tab c b k out) (Returned tt) (Tab c b (k - Z.of_nat n) out).
Proof using Type.
  revert k. induction n as [|n IH]; intros k Hk; cbn [Forktest.wait_loop].
  { replace (k - Z.of_nat 0) with k by lia. apply does_ret. }
  eapply does_bind; [apply table_wait|]. rewrite (proj2 (Z.ltb_lt b k)) by lia. cbn beta iota.
  change (1 <? 0) with false. cbn beta iota.
  replace (k - Z.of_nat (S n)) with (k - 1 - Z.of_nat n) by lia. apply IH. lia.
Qed.

(** When children are lost, it stops. *)
Lemma table_waits_short (n : nat) k :
  k - Z.of_nat n < b → (0 < n)%nat ∨ b ≤ k →
  does table (Forktest.wait_loop n) (Tab c b k out) Exited
    (Tab c b (Z.min k b) (out ++ msg "wait stopped early")).
Proof using Type.
  revert k. induction n as [|n IH]; intros k Hk Hn; cbn [Forktest.wait_loop]; [lia|].
  eapply does_bind; [apply table_wait|]. destruct (Z.ltb_spec b k) as [Hb|Hb].
  - replace (Z.min k b) with (Z.min (k - 1) b) by lia. apply IH; lia.
  - rewrite Z.min_l by lia. change (-1 <? 0) with true. cbn beta iota.
    eapply does_bind; [apply table_printf|apply does_exit].
Qed.

End forktest.

(** What forktest prints, by the kernel it runs on. *)
Definition verdict (c b : Z) : string :=
  if 1000 <=? c then "fork claimed to work N times!"
  else if (0 <? b) && (0 <? c) then "wait stopped early"
  else if b <? 0 then "wait got too many" else "fork test OK".

(** [m] ends, by returning or by leaving the program. *)
Definition ends (m : M ust unit) (w w' : tab) : Prop :=
  does table m w (Returned tt) w' ∨ does table m w Exited w'.

Lemma ends_after {A} (m : M ust A) (k : A → M ust unit) w a w1 w2 :
  does table m w (Returned a) w1 → ends (k a) w1 w2 → ends (m ≫= k) w w2.
Proof. intros H [H'|H']; [left|right]; by eapply does_bind. Qed.

Lemma ends_main w w' : ends Forktest.forktest w w' → does table Forktest.main w Exited w'.
Proof. intros [H|H]; [eapply does_bind; [exact H|apply does_exit]|by apply does_bind_exit]. Qed.

Lemma ends_last c b k out m :
  ends (Forktest.printf 1 (msg m);; exit) (Tab c b k out) (Tab c b k (out ++ msg m)).
Proof. right. eapply does_bind; [apply table_printf|apply does_exit]. Qed.

Lemma forktest_full c b out :
  1000 ≤ c →
  ends Forktest.forktest (Tab c b 0 out)
    (Tab c b 1000 ((out ++ msg "fork test") ++ msg "fork claimed to work N times!")).
Proof.
  intros Hc. eapply ends_after; [apply table_printf|]. eapply ends_after; [apply table_forks; lia|].
  replace (Z.min c (0 + Z.of_nat Forktest.N)) with 1000 by (unfold Forktest.N; lia). apply ends_last.
Qed.

Lemma waits_all c b out :
  0 ≤ c → b ≤ 0 ∨ c = 0 →
  does table (Forktest.wait_loop (Z.to_nat c)) (Tab c b c out) (Returned tt) (Tab c b 0 out).
Proof.
  intros Hc [Hb | ->]; [|apply does_ret]. pose proof (table_waits c b out (Z.to_nat c) c) as H.
  replace (c - Z.of_nat (Z.to_nat c)) with 0 in H by lia. by apply H.
Qed.

(** With fewer children than that, what follows the two loops. *)
Lemma forktest_room c b out :
  0 ≤ c < 1000 →
  ∃ k, ends Forktest.forktest (Tab c b 0 out) (Tab c b k ((out ++ msg "fork test") ++ msg (verdict c b))).
Proof.
  intros Hc. unfold verdict. rewrite (proj2 (Z.leb_gt 1000 c)) by lia.
  destruct ((0 <? b) && (0 <? c)) eqn:E; [eexists|exists (if b <? 0 then 0 - 1 else 0)].
  all: eapply ends_after; [apply table_printf|]; eapply ends_after; [apply table_forks; lia|].
  all: rewrite Z.min_l by (unfold Forktest.N; lia); rewrite (proj2 (Z.eqb_neq c (Z.of_nat Forktest.N))) by (unfold Forktest.N; lia).
  - right. apply does_bind_exit, table_waits_short; lia.
  - eapply ends_after; [apply waits_all; [lia|destruct (Z.ltb_spec 0 b), (Z.ltb_spec 0 c); cbn in E; lia || done]|].
    eapply ends_after; [apply table_wait|]. destruct (Z.ltb_spec b 0) as [Hb|Hb]; [apply ends_last|left; apply table_printf].
Qed.

(** Forktest ends on every kernel with room for [cap] children, and
    its last line says which kernel it met: one whose fork() goes on for 1000 children,
    one whose wait() loses a child, one whose wait() finds one too many, or one where
    all is well. *)
Theorem forktest_verdict c b :
  0 ≤ c →
  ∃ k, does table Forktest.main (Tab c b 0 []) Exited (Tab c b k (msg "fork test" ++ msg (verdict c b))).
Proof.
  intros Hc. destruct (Z.le_gt_cases 1000 c) as [H|H].
  - exists 1000. unfold verdict. rewrite (proj2 (Z.leb_le 1000 c) H). apply ends_main, (forktest_full c b [] H).
  - destruct (forktest_room c b []) as [k Hk]; [lia|]. exists k. apply ends_main, Hk.
Qed.

Lemma forktest_verdict_witness :
  ∃ k, does table Forktest.main (Tab 61 0 0 []) Exited (Tab 61 0 k (msg "fork test" ++ msg "fork test OK")).
Proof. apply (forktest_verdict 61 0). lia. Defined.
