(* ===== verification/Shell.v ===== *)
(** * The shell: sh.c

    The parser works on the command line in memory.  A pointer into the line is
    the suffix that starts there ([es] is the empty one), and in a token the
    pointers [q] and [eq] are the lengths of their suffixes, so that
    [es - q] characters follow [q].  A syntax error prints its message and exits;
    here it is a result of its own. *)

From S2P Require Import Prelude CString User Coreutils.
Open Scope kernel_scope.

Definition MAXARGS : nat := 10.

(** ** Commands *)

Record token := Token { q : nat; eq_ : nat }.

Inductive cmd :=
| ExecCmd (argv : list token)
| RedirCmd (c : cmd) (file : token) (mode fd : Z)
| PipeCmd (left right : cmd)
| ListCmd (left right : cmd)
| BackCmd (c : cmd).

(** ** Lexer *)

Definition whitespace : list Z := [32; 9; 13; 10; 11].
Definition symbols : list Z := chars "<|>&;()".
Definition in_set (set : list Z) (c : Z) : bool := match Ulib.strchr set c with Some _ => true | None => false end.

(** [while(s < es && strchr(whitespace, *s)) s++] *)
Fixpoint skip_space (s : list Z) : list Z :=
  match s with
  | c :: s' => if in_set whitespace c then skip_space s' else s
  | [] => []
  end.

(** [while(s < es && !strchr(whitespace, *s) && !strchr(symbols, *s)) s++] *)
Fixpoint skip_word (s : list Z) : list Z :=
  match s with
  | c :: s' => if in_set whitespace c || in_set symbols c then s else skip_word s'
  | [] => []
  end.

(** The kind of the token at [s] (0 at the end, [97] for a word, [43] for [>>],
    else the symbol itself), and its end. *)
Definition lex (s : list Z) : Z * list Z :=
  match s with
  | [] => (0, [])
  | c :: s' =>
      if c =? 0 then (0, s) else
      if in_set (chars "|();&<") c then (c, s') else
      if c =? 62 then
        match s' with
        | d :: s'' => if d =? 62 then (43, s'') else (62, s')
        | [] => (62, [])
        end
      else (97, skip_word s)
  end.

Definition gettoken (s : list Z) : Z * token * list Z :=
  let s := skip_space s in
  let '(ret, e) := lex s in
  (ret, Token (length s) (length e), skip_space e).

Definition peek (s : list Z) (toks : list Z) : bool * list Z :=
  let s := skip_space s in
  (match s with c :: _ => negb (c =? 0) && in_set toks c | [] => false end, s).

(** ** Parser *)

Inductive parsed (A : Type) := POk (a : A) (s : list Z) | PErr (msg : string) | PFuel.
Arguments POk {_} _ _.
Arguments PErr {_} _.
Arguments PFuel {_}.

Definition pbind {A B} (p : parsed A) (k : A → list Z → parsed B) : parsed B :=
  match p with POk a s => k a s | PErr e => PErr e | PFuel => PFuel end.

(** The redirections that follow; [fuel] bounds their number. *)
Fixpoint parseredirs (fuel : nat) (c : cmd) (s : list Z) : parsed cmd :=
  match fuel with
  | O => PFuel
  | S fuel =>
      let '(b, s) := peek s (chars "<>") in
      if negb b then POk c s else
      let '(tok, _, s) := gettoken s in
      let '(tok2, file, s) := gettoken s in
      if negb (tok2 =? 97) then PErr "missing file for redirection" else
      let c := if tok =? 60 then RedirCmd c file O_RDONLY 0
               else if tok =? 62 then RedirCmd c file (Z.lor O_WRONLY O_CREATE) 1
               else if tok =? 43 then RedirCmd c file (Z.lor O_WRONLY O_CREATE) 1
               else c in
      parseredirs fuel c s
  end.

(** The arguments of the command at the bottom of a stack of redirections: the
    pointer [cmd] of parseexec() into the tree [ret]. *)
Fixpoint add_arg (c : cmd) (t : token) : cmd :=
  match c with
  | ExecCmd argv => ExecCmd (argv ++ [t])
  | RedirCmd c f m fd => RedirCmd (add_arg c t) f m fd
  | _ => c
  end.

(** The loop of parseexec(); [argc] arguments so far. *)
Fixpoint parseargs (fuel argc : nat) (ret : cmd) (s : list Z) : parsed cmd :=
  match fuel with
  | O => PFuel
  | S fuel =>
      let '(b, s) := peek s (chars "|)&;") in
      if b then POk ret s else
      let '(tok, t, s) := gettoken s in
      if tok =? 0 then POk ret s else
      if negb (tok =? 97) then PErr "syntax" else
      let ret := add_arg ret t in
      if (MAXARGS <=? S argc)%nat then PErr "too many args" else
      pbind (parseredirs (S (length s)) ret s) (λ ret s, parseargs fuel (S argc) ret s)
  end.

(** [while(peek(ps, es, "&")) ...] *)
Fixpoint parseback (fuel : nat) (c : cmd) (s : list Z) : parsed cmd :=
  match fuel with
  | O => PFuel
  | S fuel =>
      let '(b, s) := peek s (chars "&") in
      if negb b then POk c s else
      let '(_, _, s) := gettoken s in
      parseback fuel (BackCmd c) s
  end.

(** [fuel] bounds the depth of the recursion. *)
Fixpoint parseline (fuel : nat) (s : list Z) : parsed cmd :=
  match fuel with
  | O => PFuel
  | S fuel =>
      pbind (parsepipe fuel s) (λ c s,
      pbind (parseback (S (length s)) c s) (λ c s,
      let '(b, s) := peek s (chars ";") in
      if negb b then POk c s else
      let '(_, _, s) := gettoken s in
      pbind (parseline fuel s) (λ r s, POk (ListCmd c r) s)))
  end
with parsepipe (fuel : nat) (s : list Z) : parsed cmd :=
  match fuel with
  | O => PFuel
  | S fuel =>
      pbind (parseexec fuel s) (λ c s,
      let '(b, s) := peek s (chars "|") in
      if negb b then POk c s else
      let '(_, _, s) := gettoken s in
      pbind (parsepipe fuel s) (λ r s, POk (PipeCmd c r) s))
  end
with parseexec (fuel : nat) (s : list Z) : parsed cmd :=
  match fuel with
  | O => PFuel
  | S fuel =>
      let '(b, s) := peek s (chars "(") in
      if b then parseblock fuel s else
      pbind (parseredirs (S (length s)) (ExecCmd []) s) (λ ret s,
      parseargs (S (length s)) 0 ret s)
  end
with parseblock (fuel : nat) (s : list Z) : parsed cmd :=
  match fuel with
  | O => PFuel
  | S fuel =>
      let '(b, s) := peek s (chars "(") in
      if negb b then PErr "parseblock" else
      let '(_, _, s) := gettoken s in
      pbind (parseline fuel s) (λ c s,
      let '(b, s) := peek s (chars ")") in
      if negb b then PErr "syntax - missing )" else
      let '(_, _, s) := gettoken s in
      parseredirs (S (length s)) c s)
  end.

(** [*eq = 0] in the line [buf]; the byte at [es] already is the terminator. *)
Definition put_nul (buf : list Z) (t : token) : list Z := <[(length buf - eq_ t)%nat := 0]> buf.

Fixpoint nulterminate (c : cmd) (buf : list Z) : list Z :=
  match c with
  | ExecCmd argv => foldl put_nul buf argv
  | RedirCmd c file _ _ => put_nul (nulterminate c buf) file
  | PipeCmd l r => nulterminate r (nulterminate l buf)
  | ListCmd l r => nulterminate r (nulterminate l buf)
  | BackCmd c => nulterminate c buf
  end.

Definition parse_fuel (buf : list Z) : nat := (4 * S (length buf))%nat.

(** The tree, and the line with the words terminated. *)
Definition parsecmd (buf : list Z) : parsed (cmd * list Z) :=
  pbind (parseline (parse_fuel buf) buf) (λ c s,
  let '(_, s) := peek s [] in
  match s with
  | [] => POk (c, nulterminate c buf) []
  | _ => PErr "syntax"
  end).

(** The string a token points to in the terminated line. *)
Definition str_at (buf : list Z) (t : token) : list Z := Gr.c_str (drop (length buf - q t) buf).

(** ** Running commands *)

Definition panic_ {A} (s : list Z) : M ust A := printf 2 (msg "%s") [AStr s];; exit.

Definition fork1 : M ust Z :=
  pid ← syscall CFork;
  if pid =? -1 then panic_ (chars "fork") else mret pid.

(** pipe() returns the two descriptors in the reply. *)
Fixpoint runcmd (buf : list Z) (c : cmd) : M ust unit :=
  match c with
  | ExecCmd argv =>
      match argv with
      | [] => exit
      | t :: _ =>
          exec (str_at buf t) (str_at buf <$> argv);;
          printf 2 (msg "exec %s failed") [AStr (str_at buf t)];;
          exit
      end
  | RedirCmd c file mode fd =>
      syscall (CClose fd);;
      r ← syscall (COpen (str_at buf file) mode);
      if r <? 0 then printf 2 (msg "open %s failed") [AStr (str_at buf file)];; exit else
      runcmd buf c;;
      exit
  | ListCmd l r =>
      pid ← fork1;
      mwhen (pid =? 0) (runcmd buf l);;
      syscall CWait;;
      runcmd buf r;;
      exit
  | PipeCmd l r =>
      v ← syscall CPipe;
      p ← reply;
      if v <? 0 then panic_ (chars "pipe") else
      let p0 := p !!! 0%nat in
      let p1 := p !!! 1%nat in
      pid ← fork1;
      mwhen (pid =? 0)
        (syscall (CClose 1);; syscall (CDup p1);; syscall (CClose p0);; syscall (CClose p1);;
         runcmd buf l);;
      pid ← fork1;
      mwhen (pid =? 0)
        (syscall (CClose 0);; syscall (CDup p0);; syscall (CClose p0);; syscall (CClose p1);;
         runcmd buf r);;
      syscall (CClose p0);;
      syscall (CClose p1);;
      syscall CWait;;
      syscall CWait;;
      exit
  | BackCmd c =>
      pid ← fork1;
      mwhen (pid =? 0) (runcmd buf c);;
      exit
  end.

(** The line, or [None] at the end of the input. *)
Definition getcmd : M ust (option (list Z)) :=
  printf 2 (chars "$ ") [];;
  buf ← Ulib.gets 100;
  let buf := Gr.c_str buf in
  mret (match buf with [] => None | _ => Some buf end).

Definition console_body (_ : unit) : M ust (unit + unit) :=
  fd ← syscall (COpen (chars "console") O_RDWR);
  if negb (0 <=? fd) then mret (inr tt) else
  if 3 <=? fd then syscall (CClose fd);; mret (inr tt) else mret (inl tt).

Definition sh_body (_ : unit) : M ust (unit + unit) :=
  line ← getcmd;
  match line with
  | None => mret (inr tt)
  | Some buf =>
      if bool_decide (take 3 buf = chars "cd ") then
        let buf := take (length buf - 1) buf in
        r ← syscall (CChdir (drop 3 buf));
        mwhen (r <? 0) (printf 2 (msg "cannot cd %s") [AStr (drop 3 buf)]);;
        mret (inl tt)
      else
        pid ← fork1;
        mwhen (pid =? 0)
          (match parsecmd buf with
           | POk (c, buf) _ => runcmd buf c
           | PErr e => panic_ (chars e)
           | PFuel => spin
           end);;
        syscall CWait;;
        mret (inl tt)
  end.

Definition main : M ust unit :=
  loop console_body 62 tt;;
  loop sh_body 62 tt;;
  exit.

(** ** The parser always returns *)

Lemma skip_space_le s : (length (skip_space s) ≤ length s)%nat.
Proof. induction s as [|c s IH]; simpl; [done|]. destruct (in_set whitespace c); simpl; lia. Qed.
Lemma skip_word_le s : (length (skip_word s) ≤ length s)%nat.
Proof. induction s as [|c s IH]; simpl; [done|]. destruct (_ || _); simpl; lia. Qed.
Lemma skip_space_idem s : skip_space (skip_space s) = skip_space s.
Proof. induction s as [|c s IH]; simpl; [done|]. destruct (in_set whitespace c) eqn:E; simpl; [done|by rewrite E]. Qed.

Lemma peek_le s toks b s' : peek s toks = (b, s') → (length s' ≤ length s)%nat.
Proof. unfold peek. intros [= _ <-]. apply skip_space_le. Qed.

Lemma in_set_elem set c : in_set set c = true ↔ c ∈ set.
Proof.
  unfold in_set. pose proof (strchr_spec set c) as H. destruct (Ulib.strchr set c).
  - destruct H as (? & ? & -> & _). set_solver.
  - done.
Qed.
Lemma in_set_false set c : in_set set c = false ↔ c ∉ set.
Proof. rewrite <- in_set_elem. destruct (in_set set c); naive_solver. Qed.

Lemma skip_space_head s c u : skip_space s = c :: u → c ∉ whitespace.
Proof.
  induction s as [|d s IH]; simpl; [done|]. destruct (in_set whitespace d) eqn:E; [done|].
  intros [= <- <-]. by apply in_set_false.
Qed.

(** A token of kind other than 0 is not empty. *)
Lemma lex_lt s : (lex s).1 ≠ 0 → (∀ c u, s = c :: u → c ∉ whitespace) → (length (lex s).2 < length s)%nat.
Proof.
  destruct s as [|c u]; [done|]. cbn [lex length]. intros Hr Hc. specialize (Hc c u eq_refl).
  destruct (c =? 0); [done|]. destruct (in_set (chars "|();&<") c) eqn:E1; [simpl; lia|].
  destruct (Z.eqb_spec c 62) as [->|E2].
  - destruct u as [|d u]; simpl; [lia|]. destruct (d =? 62); simpl; lia.
  - assert (in_set symbols c = false) as Hs.
    { apply in_set_false. apply in_set_false in E1. revert E1. vm_compute. set_solver. }
    cbn [snd skip_word]. rewrite (proj2 (in_set_false _ _) Hc), Hs. cbn. pose proof (skip_word_le u). lia.
Qed.

Lemma lex_le s : (length (lex s).2 ≤ length s)%nat.
Proof.
  destruct s as [|c u]; [done|]. cbn [lex length]. destruct (c =? 0); [simpl; lia|]. destruct (in_set _ c); [simpl; lia|].
  destruct (c =? 62); [|apply (skip_word_le (c :: u))].
  destruct u as [|d u]; simpl; [lia|]. destruct (d =? 62); simpl; lia.
Qed.

Lemma gettoken_le s ret t s' : gettoken s = (ret, t, s') → (length s' ≤ length s)%nat.
Proof.
  unfold gettoken. pose proof (skip_space_le s). pose proof (lex_le (skip_space s)).
  destruct (lex (skip_space s)) as [r e]. intros [= <- <- <-]. pose proof (skip_space_le e). simpl in *. lia.
Qed.

Lemma gettoken_lt s ret t s' : gettoken s = (ret, t, s') → ret ≠ 0 → (length s' < length s)%nat.
Proof.
  unfold gettoken. pose proof (skip_space_le s). pose proof (lex_lt (skip_space s)) as Hlt.
  destruct (lex (skip_space s)) as [r e]. intros [= <- <- <-] Hr. pose proof (skip_space_le e).
  assert (length e < length (skip_space s))%nat; [|lia]. apply Hlt; [done|]. intros c u. apply skip_space_head.
Qed.

(** After a successful peek the next token is one of the symbols asked for. *)
Lemma peek_gettoken s toks s' ret t s'' :
  peek s toks = (true, s') → toks ⊆ symbols → gettoken s' = (ret, t, s'') → ret ≠ 0 ∧ (length s'' < length s')%nat.
Proof.
  unfold peek. intros [= Hb <-] Hsub Hg. assert (ret ≠ 0) as Hr.
  { destruct (skip_space s) as [|c u] eqn:E; [done|]. apply andb_true_iff in Hb as [H0 Hc].
    apply in_set_elem, Hsub in Hc. revert Hg. unfold gettoken. rewrite <- E, skip_space_idem, E. cbn [lex].
    destruct (c =? 0) eqn:Ec; [done|]. destruct (in_set (chars "|();&<") c) eqn:E1.
    - intros [= <- _ _]. lia.
    - destruct (Z.eqb_spec c 62) as [->|Hne].
      + destruct u as [|d u]; [by intros [= <- _ _]|]. destruct (d =? 62); by intros [= <- _ _].
      + by intros [= <- _ _]. }
  split; [done|]. by eapply gettoken_lt.
Qed.

(** The parser returned, with at most [n] characters left. *)
Definition fine {A} (n : nat) (p : parsed A) : Prop :=
  match p with POk _ s => (length s ≤ n)%nat | PErr _ => True | PFuel => False end.

Lemma fine_bind {A B} n m (p : parsed A) (k : A → list Z → parsed B) :
  fine m p → (∀ a s, (length s ≤ m)%nat → fine n (k a s)) → fine n (pbind p k).
Proof. destruct p; simpl; auto. Qed.

Lemma fine_weaken {A} n m (p : parsed A) : fine n p → (n ≤ m)%nat → fine m p.
Proof. destruct p; simpl; [lia|done..]. Qed.

Lemma parseredirs_fine fuel c s : (length s < fuel)%nat → fine (length s) (parseredirs fuel c s).
Proof.
  revert c s. induction fuel as [|fuel IH]; intros c s Hf; [lia|]. cbn [parseredirs].
  destruct (peek s (chars "<>")) as [b s1] eqn:E1. pose proof (peek_le _ _ _ _ E1) as H1.
  destruct b; [|exact H1]. cbn [negb].
  destruct (gettoken s1) as [[tok t1] s2] eqn:E2.
  destruct (peek_gettoken _ _ _ _ _ _ E1 ltac:(vm_compute; set_solver) E2) as [_ H2].
  destruct (gettoken s2) as [[tok2 t2] s3] eqn:E3. pose proof (gettoken_le _ _ _ _ E3) as H3.
  destruct (tok2 =? 97); [|done]. cbn [negb]. eapply fine_weaken; [apply IH; lia|lia].
Qed.

Lemma parseargs_fine fuel argc c s : (length s < fuel)%nat → fine (length s) (parseargs fuel argc c s).
Proof.
  revert argc c s. induction fuel as [|fuel IH]; intros argc c s Hf; [lia|]. cbn [parseargs].
  destruct (peek s (chars "|)&;")) as [b s1] eqn:E1. pose proof (peek_le _ _ _ _ E1) as H1.
  destruct b; [exact H1|]. destruct (gettoken s1) as [[tok t] s2] eqn:E2. pose proof (gettoken_le _ _ _ _ E2) as H2.
  destruct (Z.eqb_spec tok 0) as [->|H0]; [simpl; lia|]. pose proof (gettoken_lt _ _ _ _ E2 H0) as H2'.
  destruct (tok =? 97); [|done]. cbn [negb]. destruct (MAXARGS <=? S argc)%nat; [done|].
  eapply fine_bind; [apply parseredirs_fine; lia|]. intros c' s3 H3. eapply fine_weaken; [apply IH; lia|lia].
Qed.

Lemma parseback_fine fuel c s : (length s < fuel)%nat → fine (length s) (parseback fuel c s).
Proof.
  revert c s. induction fuel as [|fuel IH]; intros c s Hf; [lia|]. cbn [parseback].
  destruct (peek s (chars "&")) as [b s1] eqn:E1. pose proof (peek_le _ _ _ _ E1) as H1.
  destruct b; [|exact H1]. cbn [negb]. destruct (gettoken s1) as [[tok t1] s2] eqn:E2.
  destruct (peek_gettoken _ _ _ _ _ _ E1 ltac:(vm_compute; set_solver) E2) as [_ H2].
  eapply fine_weaken; [apply IH; lia|lia].
Qed.

Lemma parse_fine fuel :
  (∀ s, (4 * length s + 4 ≤ fuel)%nat → fine (length s) (parseline fuel s)) ∧
  (∀ s, (4 * length s + 3 ≤ fuel)%nat → fine (length s) (parsepipe fuel s)) ∧
  (∀ s, (4 * length s + 2 ≤ fuel)%nat → fine (length s) (parseexec fuel s)) ∧
  (∀ s, (4 * length s + 1 ≤ fuel)%nat → fine (length s) (parseblock fuel s)).
Proof.
  induction fuel as [|fuel (IHl & IHp & IHe & IHb)]; [split_and!; intros; lia|]. split_and!; intros s Hf.
  - cbn [parseline]. eapply fine_bind; [apply IHp; lia|]. intros c s1 H1.
    eapply fine_bind; [apply parseback_fine; lia|]. intros c2 s2 H2.
    destruct (peek s2 (chars ";")) as [b s3] eqn:E3. pose proof (peek_le _ _ _ _ E3) as H3.
    destruct b; [|simpl; lia]. cbn [negb]. destruct (gettoken s3) as [[tok t] s4] eqn:E4.
    destruct (peek_gettoken _ _ _ _ _ _ E3 ltac:(vm_compute; set_solver) E4) as [_ H4].
    eapply fine_bind; [apply IHl; lia|]. intros r s5 H5. simpl. lia.
  - cbn [parsepipe]. eapply fine_bind; [apply IHe; lia|]. intros c s1 H1.
    destruct (peek s1 (chars "|")) as [b s3] eqn:E3. pose proof (peek_le _ _ _ _ E3) as H3.
    destruct b; [|simpl; lia]. cbn [negb]. destruct (gettoken s3) as [[tok t] s4] eqn:E4.
    destruct (peek_gettoken _ _ _ _ _ _ E3 ltac:(vm_compute; set_solver) E4) as [_ H4].
    eapply fine_bind; [apply IHp; lia|]. intros r s5 H5. simpl. lia.
  - cbn [parseexec]. destruct (peek s (chars "(")) as [b s1] eqn:E1. pose proof (peek_le _ _ _ _ E1) as H1.
    destruct b; [eapply fine_weaken; [apply IHb; lia|lia]|].
    eapply fine_bind; [apply parseredirs_fine; lia|]. intros c s2 H2.
    eapply fine_weaken; [apply parseargs_fine; lia|lia].
  - cbn [parseblock]. destruct (peek s (chars "(")) as [b s1] eqn:E1. pose proof (peek_le _ _ _ _ E1) as H1.
    destruct b; [|done]. cbn [negb]. destruct (gettoken s1) as [[tok t] s2] eqn:E2.
    destruct (peek_gettoken _ _ _ _ _ _ E1 ltac:(vm_compute; set_solver) E2) as [_ H2].
    eapply fine_bind; [apply IHl; lia|]. intros c s3 H3.
    destruct (peek s3 (chars ")")) as [b s4] eqn:E4. pose proof (peek_le _ _ _ _ E4) as H4.
    destruct b; [|done]. cbn [negb]. destruct (gettoken s4) as [[tok5 t5] s5] eqn:E5.
    destruct (peek_gettoken _ _ _ _ _ _ E4 ltac:(vm_compute; set_solver) E5) as [_ H5].
    eapply fine_weaken; [apply parseredirs_fine; lia|lia].
Qed.

(** C29 [termination]: the parser returns for every command line: it yields a tree
    or reports a syntax error, within a recursion depth of four calls per
    character. *)
Theorem parsecmd_terminates buf : parsecmd buf ≠ PFuel.
Proof.
  unfold parsecmd, parse_fuel. destruct (parse_fine (4 * S (length buf))) as [H _]. specialize (H buf ltac:(lia)).
  destruct (parseline _ buf) as [c s|e|]; [|done|done]. simpl. destruct (skip_space s); done.
Qed.

(** ** Words *)

(** The words of a tree, in the order nulterminate() visits them. *)
Fixpoint tokens (c : cmd) : list token :=
  match c with
  | ExecCmd argv => argv
  | RedirCmd c file _ _ => tokens c ++ [file]
  | PipeCmd l r | ListCmd l r => tokens l ++ tokens r
  | BackCmd c => tokens c
  end.

Definition is_word_char (c : Z) : bool := negb (in_set whitespace c) && negb (in_set symbols c).

(** A token of the line is a maximal run of word characters. *)
Definition tok_ok (buf : list Z) (t : token) : Prop :=
  ∃ pre w post, buf = pre ++ w ++ post ∧ length (w ++ post) = q t ∧ length post = eq_ t ∧ w ≠ [] ∧
    Forall (λ c, is_word_char c = true) w ∧ (∀ c u, post = c :: u → is_word_char c = false).

(** The text between the token's two pointers. *)
Definition text (buf : list Z) (t : token) : list Z := take (q t - eq_ t) (drop (length buf - q t) buf).

Lemma skip_space_suffix s : skip_space s `suffix_of` s.
Proof. induction s as [|c s IH]; simpl; [done|]. destruct (in_set whitespace c); [by apply suffix_cons_r|done]. Qed.

Lemma skip_word_split s :
  ∃ w, s = w ++ skip_word s ∧ Forall (λ c, is_word_char c = true) w ∧
    ∀ c u, skip_word s = c :: u → is_word_char c = false.
Proof.
  induction s as [|c s (w & E & Hw & Hn)]; cbn [skip_word]; [by exists []|].
  destruct (in_set whitespace c || in_set symbols c) eqn:Ec.
  - exists []. split_and!; [done|constructor|]. intros ? ? [= <- <-]. unfold is_word_char. by rewrite <- negb_orb, Ec.
  - exists (c :: w). split_and!; [by rewrite E at 1|constructor; [|done]|done].
    unfold is_word_char. by rewrite <- negb_orb, Ec.
Qed.

Lemma lex_suffix s : (lex s).2 `suffix_of` s.
Proof.
  destruct s as [|c u]; [done|]. cbn [lex]. destruct (c =? 0); [done|].
  destruct (in_set _ c); [by apply suffix_cons_r|]. destruct (c =? 62).
  - destruct u as [|d u]; [by apply suffix_cons_r|]. destruct (d =? 62); cbn [snd]; [|by apply suffix_cons_r].
    by do 2 apply suffix_cons_r.
  - destruct (skip_word_split (c :: u)) as (w & E & _). exists w. exact E.
Qed.

Lemma lex_word s : (lex s).1 = 97 → ∃ c u, s = c :: u ∧ lex s = (97, skip_word s) ∧ in_set symbols c = false.
Proof.
  destruct s as [|c u]; [done|]. cbn [lex]. destruct (c =? 0); [done|].
  destruct (in_set (chars "|();&<") c) eqn:E1.
  { intros [= ->]. exfalso. by vm_compute in E1. }
  destruct (Z.eqb_spec c 62) as [->|E2]; [destruct u as [|d u]; [done|]; by destruct (d =? 62)|].
  intros _. exists c, u. split_and!; [done|done|]. apply in_set_false. apply in_set_false in E1.
  revert E1. vm_compute. set_solver.
Qed.

Lemma gettoken_suffix buf s ret t s' : gettoken s = (ret, t, s') → s `suffix_of` buf → s' `suffix_of` buf.
Proof.
  unfold gettoken. pose proof (lex_suffix (skip_space s)) as Hl. destruct (lex (skip_space s)) as [r e].
  intros [= <- <- <-] Hs. etrans; [apply skip_space_suffix|]. etrans; [exact Hl|]. etrans; [apply skip_space_suffix|done].
Qed.

Lemma peek_suffix buf s toks b s' : peek s toks = (b, s') → s `suffix_of` buf → s' `suffix_of` buf.
Proof. unfold peek. intros [= _ <-] Hs. etrans; [apply skip_space_suffix|done]. Qed.

Lemma gettoken_word buf s t s' : gettoken s = (97, t, s') → s `suffix_of` buf → tok_ok buf t.
Proof.
  unfold gettoken. pose proof (lex_word (skip_space s)) as Hl. destruct (lex (skip_space s)) as [r e] eqn:El.
  intros [= -> <- <-] Hs. destruct (Hl eq_refl) as (c & u & Es & [= ->] & Hc).
  destruct (skip_word_split (skip_space s)) as (w & Ew & Hw & Hn).
  assert (skip_space s `suffix_of` buf) as [pre Epre] by (etrans; [apply skip_space_suffix|done]).
  exists pre, w, (skip_word (skip_space s)). cbn [q eq_]. split_and!; try done; [by rewrite <- Ew|by rewrite <- Ew|].
  intros ->. simpl in Ew. pose proof Hn as Hn'. rewrite <- Ew, Es in Hn'. specialize (Hn' c u eq_refl).
  unfold is_word_char in Hn'. rewrite Hc in Hn'. cbn in Hn'. rewrite andb_true_r in Hn'.
  apply negb_false_iff, in_set_elem in Hn'. by apply skip_space_head in Es.
Qed.

(** What the parser returns: a rest of the line, and a tree of its words. *)
Definition good (buf : list Z) (p : parsed cmd) : Prop :=
  match p with POk c s => s `suffix_of` buf ∧ Forall (tok_ok buf) (tokens c) | _ => True end.

Lemma good_bind buf p k : good buf p →
  (∀ c s, s `suffix_of` buf → Forall (tok_ok buf) (tokens c) → good buf (k c s)) → good buf (pbind p k).
Proof. destruct p; simpl; [intros [? ?]; auto|done..]. Qed.

Section good.
Context (buf : list Z).

Lemma parseredirs_good fuel c s :
  s `suffix_of` buf → Forall (tok_ok buf) (tokens c) → good buf (parseredirs fuel c s).
Proof.
  revert c s. induction fuel as [|fuel IH]; intros c s Hs Hc; [done|]. cbn [parseredirs].
  destruct (peek s (chars "<>")) as [b s1] eqn:E1. pose proof (peek_suffix _ _ _ _ _ E1 Hs) as H1.
  destruct b; [|done]. cbn [negb]. destruct (gettoken s1) as [[tok t1] s2] eqn:E2.
  pose proof (gettoken_suffix _ _ _ _ _ E2 H1) as H2.
  destruct (gettoken s2) as [[tok2 t2] s3] eqn:E3. pose proof (gettoken_suffix _ _ _ _ _ E3 H2) as H3.
  destruct (Z.eqb_spec tok2 97) as [->|]; [|done]. cbn [negb]. apply IH; [done|].
  pose proof (gettoken_word _ _ _ _ E3 H2) as Ht.
  destruct (tok =? 60), (tok =? 62), (tok =? 43); cbn [tokens]; rewrite ?Forall_app; auto.
Qed.

Lemma tokens_add_arg c t : Forall (tok_ok buf) (tokens c) → tok_ok buf t → Forall (tok_ok buf) (tokens (add_arg c t)).
Proof. induction c; cbn [add_arg tokens]; rewrite ?Forall_app; naive_solver. Qed.

Lemma parseargs_good fuel argc c s :
  s `suffix_of` buf → Forall (tok_ok buf) (tokens c) → good buf (parseargs fuel argc c s).
Proof.
  revert argc c s. induction fuel as [|fuel IH]; intros argc c s Hs Hc; [done|]. cbn [parseargs].
  destruct (peek s (chars "|)&;")) as [b s1] eqn:E1. pose proof (peek_suffix _ _ _ _ _ E1 Hs) as H1.
  destruct b; [done|]. destruct (gettoken s1) as [[tok t] s2] eqn:E2. pose proof (gettoken_suffix _ _ _ _ _ E2 H1) as H2.
  destruct (tok =? 0); [done|]. destruct (Z.eqb_spec tok 97) as [->|]; [|done]. cbn [negb].
  destruct (MAXARGS <=? S argc)%nat; [done|].
  apply good_bind; [apply parseredirs_good; [done|]|intros; by apply IH].
  apply tokens_add_arg; [done|]. by eapply gettoken_word.
Qed.

Lemma parseback_good fuel c s :
  s `suffix_of` buf → Forall (tok_ok buf) (tokens c) → good buf (parseback fuel c s).
Proof.
  revert c s. induction fuel as [|fuel IH]; intros c s Hs Hc; [done|]. cbn [parseback].
  destruct (peek s (chars "&")) as [b s1] eqn:E1. pose proof (peek_suffix _ _ _ _ _ E1 Hs) as H1.
  destruct b; [|done]. cbn [negb]. destruct (gettoken s1) as [[tok t1] s2] eqn:E2.
  apply IH; [by eapply gettoken_suffix|done].
Qed.

Lemma parse_good fuel :
  (∀ s, s `suffix_of` buf → good buf (parseline fuel s)) ∧ (∀ s, s `suffix_of` buf → good buf (parsepipe fuel s)) ∧
  (∀ s, s `suffix_of` buf → good buf (parseexec fuel s)) ∧ (∀ s, s `suffix_of` buf → good buf (parseblock fuel s)).
Proof.
  induction fuel as [|fuel (IHl & IHp & IHe & IHb)]; [done|]. split_and!; intros s Hs.
  - cbn [parseline]. apply good_bind; [by apply IHp|]. intros c s1 H1 Hc.
    apply good_bind; [by apply parseback_good|]. intros c2 s2 H2 Hc2.
    destruct (peek s2 (chars ";")) as [b s3] eqn:E3. pose proof (peek_suffix _ _ _ _ _ E3 H2) as H3.
    destruct b; [|done]. cbn [negb]. destruct (gettoken s3) as [[tok t] s4] eqn:E4.
    apply good_bind; [apply IHl; by eapply gettoken_suffix|]. intros r s5 H5 Hr. split; [done|]. by apply Forall_app.
  - cbn [parsepipe]. apply good_bind; [by apply IHe|]. intros c s1 H1 Hc.
    destruct (peek s1 (chars "|")) as [b s3] eqn:E3. pose proof (peek_suffix _ _ _ _ _ E3 H1) as H3.
    destruct b; [|done]. cbn [negb]. destruct (gettoken s3) as [[tok t] s4] eqn:E4.
    apply good_bind; [apply IHp; by eapply gettoken_suffix|]. intros r s5 H5 Hr. split; [done|]. by apply Forall_app.
  - cbn [parseexec]. destruct (peek s (chars "(")) as [b s1] eqn:E1. pose proof (peek_suffix _ _ _ _ _ E1 Hs) as H1.
    destruct b; [by apply IHb|]. apply good_bind; [by apply parseredirs_good|]. intros. by apply parseargs_good.
  - cbn [parseblock]. destruct (peek s (chars "(")) as [b s1] eqn:E1. pose proof (peek_suffix _ _ _ _ _ E1 Hs) as H1.
    destruct b; [|done]. cbn [negb]. destruct (gettoken s1) as [[tok t] s2] eqn:E2.
    apply good_bind; [apply IHl; by eapply gettoken_suffix|]. intros c s3 H3 Hc.
    destruct (peek s3 (chars ")")) as [b s4] eqn:E4. pose proof (peek_suffix _ _ _ _ _ E4 H3) as H4.
    destruct b; [|done]. cbn [negb]. destruct (gettoken s4) as [[tok5 t5] s5] eqn:E5.
    apply parseredirs_good; [by eapply gettoken_suffix|done].
Qed.
End good.

(** ** Terminating the words *)

Lemma nulterminate_tokens c buf : nulterminate c buf = foldl put_nul buf (tokens c).
Proof.
  revert buf. induction c; intros buf; cbn [nulterminate tokens]; rewrite ?foldl_app; cbn [foldl]; by rewrite ?IHc, ?IHc1, ?IHc2.
Qed.

Lemma length_put_nuls ts buf : length (foldl put_nul buf ts) = length buf.
Proof. revert buf. induction ts as [|t ts IH]; intros; simpl; [done|]. rewrite IH. apply length_insert. Qed.

(** The line after the words of [ts] have been terminated. *)
Lemma put_nuls_lookup ts buf i :
  (i < length buf)%nat →
  foldl put_nul buf ts !!! i = if decide (Exists (λ t, (length buf - eq_ t)%nat = i) ts) then 0 else buf !!! i.
Proof.
  revert buf. induction ts as [|t ts IH]; intros buf Hi; cbn [foldl].
  - rewrite decide_False by (intros H; inversion H). done.
  - rewrite IH by (unfold put_nul; by rewrite length_insert). unfold put_nul. rewrite length_insert.
    destruct (decide (Exists _ ts)) as [He|He].
    + rewrite decide_True by (by right). done.
    + destruct (decide ((length buf - eq_ t)%nat = i)) as [<-|Hne].
      * rewrite decide_True by (by left). by apply list_lookup_total_insert_eq.
      * rewrite decide_False by (intros H; inversion H; done). by apply list_lookup_total_insert_ne.
Qed.

Lemma tok_end_not_word buf t c :
  tok_ok buf t → buf !! (length buf - eq_ t)%nat = Some c → is_word_char c = false.
Proof.
  intros (pre & w & post & -> & _ & <- & _ & _ & Hp) Hc.
  assert (length (pre ++ w ++ post) - length post = length (pre ++ w))%nat as E by (rewrite !length_app; lia).
  rewrite E, app_assoc, lookup_app_r, Nat.sub_diag in Hc by lia.
  destruct post as [|d u]; [done|]. injection Hc as <-. by apply (Hp d u).
Qed.

Lemma c_str_stops w rest : 0 ∉ w → (∀ c u, rest = c :: u → c = 0) → Gr.c_str (w ++ rest) = w.
Proof.
  intros Hw Hr. induction w as [|c w IH]; simpl.
  - destruct rest as [|c u]; [done|]. simpl. by rewrite (Hr c u eq_refl).
  - rewrite (proj2 (Z.eqb_neq c 0)) by set_solver. f_equal. apply IH. set_solver.
Qed.

Lemma terminated buf ts t :
  0 ∉ buf → Forall (tok_ok buf) ts → t ∈ ts → str_at (foldl put_nul buf ts) t = text buf t.
Proof.
  intros H0 Hts Ht. assert (tok_ok buf t) as Hok by (by eapply Forall_forall).
  unfold str_at, text. rewrite length_put_nuls.
  destruct Hok as (pre & w & post & Eb & Eq & Ee & _ & Hw & _).
  assert (length buf - q t = length pre)%nat as -> by (rewrite <- Eq, Eb, !length_app; lia).
  assert (q t - eq_ t = length w)%nat as -> by (rewrite <- Eq, <- Ee, length_app; lia).
  rewrite Eb at 2. rewrite drop_app_length, take_app_length.
  assert (∃ rest, drop (length pre) (foldl put_nul buf ts) = w ++ rest ∧ (∀ c u, rest = c :: u → c = 0)) as (rest & -> & Hrest).
  { exists (drop (length pre + length w) (foldl put_nul buf ts)). split.
    - rewrite <- (take_drop (length w) (drop (length pre) _)), drop_drop. f_equal.
      apply list_eq_same_length with (n := length w); [done|rewrite length_take, length_drop, length_put_nuls, Eb, !length_app; lia|].
      intros i x y Hi Hx Hy. rewrite lookup_take_lt, lookup_drop in Hx by done.
      apply list_lookup_total_correct in Hx. rewrite put_nuls_lookup in Hx by (rewrite Eb, !length_app; lia).
      assert (buf !! (length pre + i)%nat = Some y) as Hb.
      { rewrite Eb, lookup_app_r by lia. replace (length pre + i - length pre)%nat with i by lia.
        by rewrite lookup_app_l. }
      rewrite decide_False in Hx; [by rewrite <- Hx; apply list_lookup_total_correct|].
      intros (t' & Ht' & E)%Exists_exists. rewrite <- E in Hb.
      eapply Forall_forall in Hts; [|exact Ht']. pose proof (tok_end_not_word _ _ _ Hts Hb).
      apply list_elem_of_lookup_2 in Hy. rewrite Forall_forall in Hw. apply Hw in Hy. congruence.
    - intros c u Hcu. assert (foldl put_nul buf ts !! (length pre + length w)%nat = Some c) as Hc.
      { rewrite <- (Nat.add_0_r (length pre + length w)), <- lookup_drop, Hcu. done. }
      pose proof (lookup_lt_Some _ _ _ Hc) as Hlt. rewrite length_put_nuls in Hlt.
      apply list_lookup_total_correct in Hc. rewrite put_nuls_lookup in Hc by done.
      rewrite decide_True in Hc; [done|]. apply Exists_exists. exists t. split; [done|].
      rewrite <- Ee, Eb, !length_app. lia. }
  apply c_str_stops; [|done]. rewrite Eb in H0. set_solver.
Qed.

(** The words of a parsed command are the words of the line.  If
    parsecmd() accepts a line, then after nulterminate() has written its NULs into
    the line every argument and file name of the tree is the C string that was
    between the token's two pointers, and that text is a maximal run of
    characters that are neither white space nor symbols: no terminator cuts
    another word short. *)
Theorem parsecmd_words buf c buf' s :
  0 ∉ buf → parsecmd buf = POk (c, buf') s →
  ∀ t, t ∈ tokens c → str_at buf' t = text buf t ∧ tok_ok buf t.
Proof.
  intros H0 Hp t Ht. unfold parsecmd in Hp. destruct (parse_good buf (parse_fuel buf)) as [Hg _].
  specialize (Hg buf ltac:(done)). destruct (parseline _ buf) as [c1 s1|e|]; [|done|done].
  simpl in Hp. destruct (skip_space s1); [|done]. injection Hp as -> <- <-. destruct Hg as [_ Hg].
  split; [|by eapply Forall_forall]. rewrite nulterminate_tokens. by apply terminated.
Qed.

Lemma parsecmd_words_witness :
  ∃ c buf', parsecmd (chars "(a>b;cd)|e") = POk (c, buf') [] ∧
    (text (chars "(a>b;cd)|e") <$> tokens c) = [chars "a"; chars "b"; chars "cd"; chars "e"] ∧
    ∀ t, t ∈ tokens c → str_at buf' t = text (chars "(a>b;cd)|e") t.
Proof.
  assert (∃ c buf', parsecmd (chars "(a>b;cd)|e") = POk (c, buf') [] ∧
    (text (chars "(a>b;cd)|e") <$> tokens c) = [chars "a"; chars "b"; chars "cd"; chars "e"]) as (c & buf' & E & Ht)
    by (eexists _, _; split; vm_compute; reflexivity).
  exists c, buf'. split_and!; [exact E|exact Ht|]. intros t Hin.
  apply (parsecmd_words (chars "(a>b;cd)|e") c buf' []); [|exact E|exact Hin].
  refine (bool_decide_eq_true_1 _ _). vm_compute. reflexivity.
Defined.

(** ** Parsing what was printed *)

(** Commands with their words as strings. *)
Inductive scmd :=
| SExec (argv : list (list Z))
| SRedir (c : scmd) (file : list Z) (out : bool)
| SPipe (left right : scmd)
| SList (left right : scmd)
| SBack (c : scmd).

Definition redir_mode (out : bool) : Z := if out then Z.lor O_WRONLY O_CREATE else O_RDONLY.
Definition redir_fd (out : bool) : Z := if out then 1 else 0.

(** The tree [c] spells the command [a], with the words read by [str]. *)
Fixpoint spells (str : token → list Z) (c : cmd) (a : scmd) : Prop :=
  match c, a with
  | ExecCmd argv, SExec ws => str <$> argv = ws
  | RedirCmd c f m fd, SRedir a w o => spells str c a ∧ str f = w ∧ m = redir_mode o ∧ fd = redir_fd o
  | PipeCmd l r, SPipe a b | ListCmd l r, SList a b => spells str l a ∧ spells str r b
  | BackCmd c, SBack a => spells str c a
  | _, _ => False
  end.

Fixpoint join (ws : list (list Z)) : list Z :=
  match ws with
  | [] => []
  | [w] => w
  | w :: ws => w ++ 32 :: join ws
  end.

Fixpoint unparse (a : scmd) : list Z :=
  match a with
  | SExec ws => join ws
  | SRedir a w o => 40 :: unparse a ++ 41 :: (if o then 62 else 60) :: w
  | SPipe a b => 40 :: unparse a ++ 41 :: 124 :: 40 :: unparse b ++ [41]
  | SList a b => 40 :: unparse a ++ 41 :: 59 :: 40 :: unparse b ++ [41]
  | SBack a => 40 :: unparse a ++ [41; 38]
  end.

Definition word_ok (w : list Z) : Prop := w ≠ [] ∧ Forall (λ c, is_word_char c = true ∧ c ≠ 0) w.

Fixpoint scmd_ok (a : scmd) : Prop :=
  match a with
  | SExec ws => (length ws < MAXARGS)%nat ∧ Forall word_ok ws
  | SRedir a w _ => scmd_ok a ∧ word_ok w
  | SPipe a b | SList a b => scmd_ok a ∧ scmd_ok b
  | SBack a => scmd_ok a
  end.

Lemma spells_ext str str' c a :
  (∀ t, t ∈ tokens c → str t = str' t) → spells str c a → spells str' c a.
Proof.
  revert a. induction c as [argv|c IH f m fd|l IHl r IHr|l IHl r IHr|c IH]; intros [] He Hs; cbn in *; try done.
  - rewrite <- Hs. apply list_fmap_ext. intros i t Hi. symmetry. apply He. by eapply list_elem_of_lookup_2.
  - destruct Hs as (H1 & <- & H3). split_and!; [apply IH; [|done]; set_solver|symmetry; apply He; set_solver|apply H3..].
  - split; [apply IHl; [set_solver|apply Hs]|apply IHr; [set_solver|apply Hs]].
  - split; [apply IHl; [set_solver|apply Hs]|apply IHr; [set_solver|apply Hs]].
  - apply IH; [set_solver|done].
Qed.

(** A token of a suffix reads the same in the whole line. *)
Lemma text_suffix s buf t : s `suffix_of` buf → (q t ≤ length s)%nat → text buf t = text s t.
Proof.
  intros [pre ->] Hq. unfold text. rewrite length_app, drop_app_ge by lia. do 2 f_equal. lia.
Qed.

Lemma tok_ok_le buf t : tok_ok buf t → (q t ≤ length buf)%nat.
Proof. intros (pre & w & post & -> & <- & _). rewrite !length_app. lia. Qed.

Lemma spells_suffix s buf c a :
  s `suffix_of` buf → Forall (tok_ok s) (tokens c) → spells (text s) c a → spells (text buf) c a.
Proof.
  intros Hs Ht. apply spells_ext. intros t Hin. symmetry. apply text_suffix; [done|]. apply tok_ok_le.
  by eapply Forall_forall.
Qed.

(** A suffix that starts with a symbol, or the end. *)
Definition at_symbol (s : list Z) : Prop := match s with [] => True | c :: _ => in_set symbols c = true end.

Lemma symbol_facts c : in_set symbols c = true → in_set whitespace c = false ∧ c ≠ 0 ∧ is_word_char c = false.
Proof.
  intros Hc. assert (Forall (λ c, in_set whitespace c = false ∧ c ≠ 0 ∧ is_word_char c = false) symbols) as H
    by (repeat constructor; done). apply in_set_elem in Hc. by eapply Forall_forall in H.
Qed.

Lemma skip_space_symbol s : at_symbol s → skip_space s = s.
Proof. destruct s as [|c s]; [done|]. intros (H & _)%symbol_facts. cbn [skip_space]. by rewrite H. Qed.

Lemma peek_symbol s toks : at_symbol s → peek s toks = (match s with c :: _ => in_set toks c | [] => false end, s).
Proof.
  intros H. unfold peek. rewrite skip_space_symbol by done. destruct s as [|c s]; [done|].
  apply symbol_facts in H as (_ & H0 & _). by rewrite (proj2 (Z.eqb_neq c 0)) by done.
Qed.

Lemma word_char_facts c : is_word_char c = true → in_set whitespace c = false ∧ in_set symbols c = false.
Proof. unfold is_word_char. rewrite andb_true_iff, !negb_true_iff. done. Qed.

Lemma skip_word_app w s :
  Forall (λ c, is_word_char c = true ∧ c ≠ 0) w → (∀ c u, s = c :: u → is_word_char c = false) → skip_word (w ++ s) = s.
Proof.
  intros Hw Hs. induction Hw as [|c w [Hc _] _ IH]; simpl.
  - destruct s as [|c u]; [done|]. specialize (Hs c u eq_refl). unfold is_word_char in Hs.
    rewrite <- negb_orb in Hs. apply negb_false_iff in Hs. cbn [skip_word]. by rewrite Hs.
  - apply word_char_facts in Hc as [-> ->]. exact IH.
Qed.

(** gettoken() and peek() at a word. *)
Lemma word_head w s : word_ok w → ∃ c u, w ++ s = c :: u ∧ is_word_char c = true ∧ c ≠ 0.
Proof. intros [Hn Hw]. destruct Hw as [|c w [H1 H2] _]; [done|]. simpl. eauto. Qed.

Lemma symbol_subset toks c : toks ⊆ symbols → in_set symbols c = false → in_set toks c = false.
Proof. rewrite !in_set_false. set_solver. Qed.

Lemma peek_word w s toks : word_ok w → toks ⊆ symbols → peek (w ++ s) toks = (false, w ++ s).
Proof.
  intros Hw Ht. destruct (word_head w s Hw) as (c & u & -> & Hc & _). apply word_char_facts in Hc as [H1 H2].
  unfold peek. cbn [skip_space]. rewrite H1. by rewrite (symbol_subset toks), andb_false_r.
Qed.

Lemma gettoken_at_word w s :
  word_ok w → (∀ c u, s = c :: u → is_word_char c = false) →
  gettoken (w ++ s) = (97, Token (length (w ++ s)) (length s), skip_space s).
Proof.
  intros Hw Hs. unfold gettoken.
  assert (skip_space (w ++ s) = w ++ s ∧ lex (w ++ s) = (97, skip_word (w ++ s))) as [-> ->].
  { destruct (word_head w s Hw) as (c & u & -> & Hc & H0). apply word_char_facts in Hc as [H1 H2].
    cbn [skip_space lex]. rewrite H1, (proj2 (Z.eqb_neq c 0)), (symbol_subset (chars "|();&<") c) by (done || (vm_compute; set_solver)).
    split; [done|]. destruct (Z.eqb_spec c 62) as [->|]; [by vm_compute in H2|done]. }
  rewrite skip_word_app by (done || apply Hw). done.
Qed.

Lemma gettoken_symbol c s :
  in_set (chars "|();&<") c = true → gettoken (c :: s) = (c, Token (S (length s)) (length s), skip_space s).
Proof.
  intros Hc. assert (in_set whitespace c = false ∧ c ≠ 0) as [H1 H2].
  { assert (Forall (λ c, in_set whitespace c = false ∧ c ≠ 0) (chars "|();&<")) as H by (repeat constructor; done).
    apply in_set_elem in Hc. by eapply Forall_forall in H. }
  unfold gettoken. cbn [skip_space]. rewrite H1. cbn [lex]. by rewrite (proj2 (Z.eqb_neq c 0)), Hc by done.
Qed.

(** What may follow a command: nothing, or a symbol that ends it. *)
Definition stops (s : list Z) : Prop := match s with [] => True | c :: _ => in_set (chars "|)&;") c = true end.

Lemma stops_symbol s : stops s → at_symbol s.
Proof.
  destruct s as [|c s]; [done|]. unfold stops, at_symbol. rewrite !in_set_elem. revert c.
  assert (chars "|)&;" ⊆ symbols) as H by (vm_compute; set_solver). intros c. apply H.
Qed.

Lemma stops_not s toks : stops s → (∀ c, c ∈ chars "|)&;" → c ∉ toks) → peek s toks = (false, s).
Proof.
  intros Hs Hn. rewrite peek_symbol by (by apply stops_symbol). destruct s as [|c s]; [done|].
  f_equal. apply in_set_false, Hn. by apply in_set_elem.
Qed.

Lemma no_redirs fuel c s : peek s (chars "<>") = (false, s) → parseredirs (S fuel) c s = POk c s.
Proof. intros H. cbn [parseredirs]. by rewrite H. Qed.

Lemma peek_words ws s toks :
  Forall word_ok ws → toks ⊆ symbols → peek s toks = (false, s) → peek (join ws ++ s) toks = (false, join ws ++ s).
Proof.
  intros Hw Ht Hs. destruct Hw as [|w ws Hw _]; [done|]. cbn [join].
  destruct ws; [by apply peek_word|]. rewrite <- app_assoc. by apply peek_word.
Qed.

Definition tail_words (ws : list (list Z)) (s : list Z) : list Z :=
  match ws with [] => s | _ => 32 :: join ws ++ s end.

Lemma join_cons w ws s : join (w :: ws) ++ s = w ++ tail_words ws s.
Proof. destruct ws; [done|]. cbn [join tail_words]. by rewrite <- app_assoc. Qed.

Lemma skip_tail_words ws s :
  Forall word_ok ws → at_symbol s → skip_space (tail_words ws s) = join ws ++ s.
Proof.
  intros Hw Hs. destruct Hw as [|w ws Hw Hws]; [by apply skip_space_symbol|]. cbn [tail_words].
  rewrite join_cons. destruct (word_head w (tail_words ws s) Hw) as (c & u & E & Hc & _).
  apply word_char_facts in Hc as [H1 _]. rewrite E. cbn [skip_space]. rewrite H1. done.
Qed.

Lemma tail_words_end ws s c u : at_symbol s → tail_words ws s = c :: u → is_word_char c = false.
Proof.
  intros Hs E. destruct ws; simpl in E; [|injection E as <- _; done]. subst s. by apply symbol_facts in Hs as (_ & _ & ?).
Qed.

Lemma text_word w s : text (w ++ s) (Token (length (w ++ s)) (length s)) = w.
Proof.
  unfold text. cbn [q eq_]. rewrite Nat.sub_diag, drop_0. rewrite length_app, Nat.add_sub. apply take_app_length.
Qed.

(** The arguments of a simple command. *)
Lemma parseargs_words ws fuel ts s :
  Forall word_ok ws → stops s → (length ws < fuel)%nat → (length ts + length ws < MAXARGS)%nat →
  ∃ us, parseargs fuel (length ts) (ExecCmd ts) (join ws ++ s) = POk (ExecCmd (ts ++ us)) s ∧
    ∀ buf, join ws ++ s `suffix_of` buf → text buf <$> us = ws.
Proof.
  revert fuel ts. induction ws as [|w ws IH]; intros [|fuel] ts Hw Hs Hf Hn; cbn [length] in *; try lia.
  - exists []. rewrite app_nil_r. split; [|done]. cbn [parseargs join app].
    rewrite peek_symbol by (by apply stops_symbol). destruct s as [|c s]; [done|]. unfold stops in Hs. by rewrite Hs.
  - apply Forall_cons in Hw as [Hw Hws]. pose proof (stops_symbol _ Hs) as Hsy.
    assert (length (ts ++ [Token (length (w ++ tail_words ws s)) (length (tail_words ws s))]) = S (length ts)) as El
      by (rewrite length_app; simpl; lia).
    destruct (IH fuel _ Hws Hs ltac:(lia) ltac:(rewrite El; lia)) as (us & Eu & Ht). rewrite El in Eu.
    eexists (_ :: us). rewrite join_cons. split.
    + cbn [parseargs]. rewrite peek_word by (done || (vm_compute; set_solver)).
      rewrite gettoken_at_word by (done || (intros; by eapply tail_words_end)). cbn [Z.eqb Pos.eqb negb add_arg].
      rewrite skip_tail_words by done. rewrite (proj2 (Nat.leb_gt _ _)) by lia.
      rewrite no_redirs; [|apply peek_words; [done|vm_compute; set_solver|apply stops_not; [done|vm_compute; set_solver]]].
      cbn [pbind]. rewrite Eu, <- app_assoc. done.
    + intros buf Hb. rewrite fmap_cons. f_equal.
      * rewrite (text_suffix (w ++ tail_words ws s)) by done. apply text_word.
      * apply Ht. etrans; [|exact Hb]. exists (w ++ match ws with [] => [] | _ => [32] end).
        rewrite <- app_assoc. f_equal. by destruct ws.
Qed.

(** The redirection of a block. *)
Lemma parse_one_redir fuel c w (o : bool) s :
  word_ok w → stops s →
  ∃ f, parseredirs (S (S fuel)) c ((if o then 62 else 60) :: w ++ s) = POk (RedirCmd c f (redir_mode o) (redir_fd o)) s ∧
    ∀ buf, w ++ s `suffix_of` buf → text buf f = w.
Proof.
  intros Hw Hs. pose proof (stops_symbol _ Hs) as Hsy. eexists. split.
  - destruct (word_head w s Hw) as (x & u & E & Hx & _). apply word_char_facts in Hx as [Hx1 Hx2].
    assert (∃ t, gettoken ((if o then 62 else 60) :: w ++ s) = (if o then 62 else 60, t, w ++ s)) as [t Et].
    { assert (skip_space (w ++ s) = w ++ s) as Hsk by (rewrite E; cbn [skip_space]; by rewrite Hx1).
      destruct o; [|eexists; rewrite gettoken_symbol by done; by rewrite Hsk].
      eexists. unfold gettoken. cbn [skip_space]. change (in_set whitespace 62) with false. cbn [lex].
      change (62 =? 0) with false. change (in_set (chars "|();&<") 62) with false. change (62 =? 62) with true. cbv iota.
      rewrite E. destruct (Z.eqb_spec x 62) as [->|]; [by vm_compute in Hx2|]. rewrite <- E, Hsk. reflexivity. }
    cbn [parseredirs]. rewrite peek_symbol by (by destruct o). rewrite Et.
    replace (in_set (chars "<>") (if o then 62 else 60)) with true by (by destruct o). cbn [negb].
    rewrite gettoken_at_word by (done || (intros ? ? ->; by apply symbol_facts in Hsy as (_ & _ & ?))).
    cbn [Z.eqb Pos.eqb negb]. rewrite skip_space_symbol by done.
    destruct o; (rewrite stops_not; [reflexivity|done|vm_compute; set_solver]).
  - intros buf Hb. rewrite (text_suffix (w ++ s)) by done. apply text_word.
Qed.

(** What may follow a line: nothing, or the end of the block. *)
Definition closes (s : list Z) : Prop := match s with [] => True | c :: _ => c = 41 end.

Lemma closes_stops s : closes s → stops s.
Proof. destruct s as [|c s]; [done|]. by intros ->. Qed.

Lemma closes_not s toks : closes s → 41 ∉ toks → peek s toks = (false, s).
Proof.
  intros Hs Hn. rewrite peek_symbol by (by apply stops_symbol, closes_stops). destruct s as [|c s]; [done|].
  cbn in Hs. subst c. f_equal. by apply in_set_false.
Qed.

Lemma line_end fuel s c s' : parsepipe fuel s = POk c s' → closes s' → parseline (S fuel) s = POk c s'.
Proof.
  intros Hp Hc. cbn [parseline]. rewrite Hp. cbn [pbind parseback].
  rewrite closes_not by (done || (vm_compute; set_solver)). cbn [negb pbind].
  by rewrite closes_not by (done || (vm_compute; set_solver)).
Qed.

Lemma pipe_end fuel s c s' : parseexec fuel s = POk c s' → peek s' (chars "|") = (false, s') → parsepipe (S fuel) s = POk c s'.
Proof. intros He Hp. cbn [parsepipe]. rewrite He. cbn [pbind]. by rewrite Hp. Qed.

(** [unparse a] parses back to [a], whatever follows. *)
Definition parses (a : scmd) : Prop := ∀ s fuel,
  closes s → (4 * length (unparse a ++ s) + 4 ≤ fuel)%nat →
  ∃ c, parseline fuel (unparse a ++ s) = POk c s ∧
    ∀ buf, unparse a ++ s `suffix_of` buf → spells (text buf) c a.

Lemma skip_space_unparse a s : scmd_ok a → at_symbol s → skip_space (unparse a ++ s) = unparse a ++ s.
Proof.
  destruct a as [ws| | | |]; try done. intros [_ Hw] Hs. cbn [unparse]. destruct Hw as [|w ws Hw _].
  - by apply skip_space_symbol.
  - rewrite join_cons. destruct (word_head w (tail_words ws s) Hw) as (c & u & E & Hc & _).
    apply word_char_facts in Hc as [H1 _]. rewrite E. cbn [skip_space]. by rewrite H1.
Qed.

Lemma parse_group a s fuel :
  scmd_ok a → parses a → at_symbol s → (4 * length (40%Z :: unparse a ++ 41%Z :: s) + 2 ≤ fuel)%nat →
  ∃ c, parseexec fuel (40 :: unparse a ++ 41 :: s) = parseredirs (S (length s)) c s ∧
    ∀ buf, 40 :: unparse a ++ 41 :: s `suffix_of` buf → spells (text buf) c a.
Proof.
  intros Ha Hp Hs Hf. destruct fuel as [|[|fuel]]; [simpl in Hf; lia..|].
  destruct (Hp (41 :: s) fuel) as (c & Ec & Ht); [done|cbn [length] in Hf; lia|].
  exists c. split; [|intros buf Hb; apply Ht; etrans; [|exact Hb]; by apply suffix_cons_r].
  cbn [parseexec parseblock]. rewrite peek_symbol by done. change (in_set (chars "(") 40) with true. cbv iota.
  cbn [parseblock]. rewrite peek_symbol by done. change (in_set (chars "(") 40) with true. cbn [negb].
  rewrite gettoken_symbol by done. rewrite skip_space_unparse by done. rewrite Ec. cbn [pbind].
  rewrite peek_symbol by done. change (in_set (chars ")") 41) with true. cbn [negb].
  rewrite gettoken_symbol by done. by rewrite skip_space_symbol.
Qed.

(** A group that is not redirected. *)
Lemma parse_plain_group a s fuel :
  scmd_ok a → parses a → stops s → (4 * length (40%Z :: unparse a ++ 41%Z :: s) + 2 ≤ fuel)%nat →
  ∃ c, parseexec fuel (40 :: unparse a ++ 41 :: s) = POk c s ∧
    ∀ buf, 40 :: unparse a ++ 41 :: s `suffix_of` buf → spells (text buf) c a.
Proof.
  intros Ha Hp Hs Hf. destruct (parse_group a s fuel) as (c & -> & Ht); [done..|by apply stops_symbol|done|].
  exists c. split; [|done]. apply no_redirs, stops_not; [done|]. vm_compute. set_solver.
Qed.

Lemma parses_exec ws : scmd_ok (SExec ws) → parses (SExec ws).
Proof.
  intros [Hn Hw] s fuel Hs Hf. destruct fuel as [|[|[|fuel]]]; [lia..|]. cbn [unparse] in *.
  pose proof (closes_stops _ Hs) as Hst.
  assert (length ws ≤ length (join ws ++ s))%nat as Hlen.
  { clear -Hw. induction Hw as [|w ws [Hne _] _ IH]; [simpl; lia|]. rewrite join_cons, length_app.
    destruct w as [|x w]; [done|]. destruct ws as [|w2 ws]; [simpl; lia|]. cbn [tail_words length] in *. lia. }
  destruct (parseargs_words ws (S (length (join ws ++ s))) [] s) as (us & Eu & Ht); [done|done|lia|simpl; lia|].
  exists (ExecCmd us). split; [|done]. apply line_end; [|done]. apply pipe_end; [|apply closes_not; [done|vm_compute; set_solver]].
  cbn [parseexec]. rewrite peek_words by (done || (vm_compute; set_solver) || (apply closes_not; [done|vm_compute; set_solver])).
  rewrite no_redirs; [|apply peek_words; [done|vm_compute; set_solver|apply closes_not; [done|vm_compute; set_solver]]].
  exact Eu.
Qed.

(** The second half of a pipe or a list. *)
Lemma suffix_after (x y : Z) (pre s buf : list Z) : x :: pre ++ y :: s `suffix_of` buf → s `suffix_of` buf.
Proof. intros [u ->]. exists (u ++ x :: pre ++ [y]). rewrite <- app_assoc. simpl. by rewrite <- app_assoc. Qed.

Lemma parses_unparse a : scmd_ok a → parses a.
Proof.
  induction a as [ws|a IH w o|a IHa b IHb|a IHa b IHb|a IH]; intros Ha; [by apply parses_exec|..];
    intros s fuel Hs Hf; pose proof (closes_stops _ Hs) as Hst; destruct fuel as [|[|fuel]]; try (simpl in Hf; lia);
    cbn [unparse] in *; rewrite ?app_comm_cons, <- ?app_assoc in *; cbn [app] in *; rewrite <- ?app_assoc in *; cbn [app] in *;
    cbn [length] in Hf; rewrite ?length_app in Hf; cbn [length] in Hf; rewrite ?length_app in Hf; cbn [length] in Hf.
  - destruct Ha as [Ha Hw].
    destruct (parse_group a ((if o then 62 else 60) :: w ++ s) fuel) as (c & Ec & Ht);
      [done|by apply IH|by destruct o|cbn [length]; rewrite ?length_app; cbn [length]; rewrite ?length_app; lia|].
    destruct w as [|x w]; [by destruct Hw|].
    destruct (parse_one_redir (S (length (w ++ s))) c (x :: w) o s Hw Hst) as (f & Ef & Hf').
    exists (RedirCmd c f (redir_mode o) (redir_fd o)). split.
    + apply line_end; [|done]. apply pipe_end; [|apply closes_not; [done|vm_compute; set_solver]].
      rewrite Ec. exact Ef.
    + intros buf Hb. cbn [spells]. split_and!; [by apply Ht| |done..]. apply Hf'. apply suffix_after in Hb.
      etrans; [|exact Hb]. by apply suffix_cons_r.
  - destruct Ha as [Ha Hb].
    destruct (parse_plain_group a (124 :: 40 :: unparse b ++ 41 :: s) fuel) as (c & Ec & Ht);
      [done|by apply IHa|done|cbn [length]; rewrite ?length_app; cbn [length]; rewrite ?length_app; cbn [length]; lia|].
    destruct fuel as [|fuel]; [lia|].
    destruct (parse_plain_group b s fuel) as (d & Ed & Htd);
      [done|by apply IHb|done|cbn [length]; rewrite ?length_app; cbn [length]; lia|].
    exists (PipeCmd c d). split.
    + apply line_end; [|done]. remember (S fuel) as g. cbn [parsepipe]. subst g. rewrite Ec. cbn [pbind]. rewrite peek_symbol by done.
      change (in_set (chars "|") 124) with true. cbn [negb]. rewrite gettoken_symbol by done.
      rewrite skip_space_symbol by done. rewrite (pipe_end _ _ _ _ Ed); [done|].
      apply closes_not; [done|vm_compute; set_solver].
    + intros buf Hbuf. split; [by apply Ht|]. apply Htd. apply suffix_after in Hbuf.
      etrans; [|exact Hbuf]. by apply suffix_cons_r.
  - destruct Ha as [Ha Hb].
    destruct (parse_plain_group a (59 :: 40 :: unparse b ++ 41 :: s) fuel) as (c & Ec & Ht);
      [done|by apply IHa|done|cbn [length]; rewrite ?length_app; cbn [length]; rewrite ?length_app; cbn [length]; lia|].
    destruct fuel as [|fuel]; [lia|].
    destruct (parse_plain_group b s fuel) as (d & Ed & Htd);
      [done|by apply IHb|done|cbn [length]; rewrite ?length_app; cbn [length]; lia|].
    exists (ListCmd c d). split.
    + assert (parseline (S (S fuel)) (40 :: unparse b ++ 41 :: s) = POk d s) as El.
      { apply line_end; [|done]. apply pipe_end; [done|]. apply closes_not; [done|vm_compute; set_solver]. }
      remember (S (S fuel)) as g. cbn [parseline]. subst g. rewrite (pipe_end _ _ _ _ Ec) by (rewrite peek_symbol by done; done).
      cbn [pbind parseback]. rewrite peek_symbol by done. change (in_set (chars "&") 59) with false. cbn [negb pbind].
      rewrite peek_symbol by done. change (in_set (chars ";") 59) with true. cbn [negb].
      rewrite gettoken_symbol by done. rewrite skip_space_symbol by done. by rewrite El.
    + intros buf Hbuf. split; [by apply Ht|]. apply Htd. apply suffix_after in Hbuf.
      etrans; [|exact Hbuf]. by apply suffix_cons_r.
  - destruct (parse_plain_group a (38 :: s) fuel) as (c & Ec & Ht);
      [done|by apply IH|done|cbn [length]; rewrite ?length_app; cbn [length]; lia|].
    exists (BackCmd c). split; [|done].
    remember (S fuel) as g. cbn [parseline]. subst g. rewrite (pipe_end _ _ _ _ Ec) by (rewrite peek_symbol by done; done).
    cbn [pbind length]. cbn [parseback]. rewrite peek_symbol by done. change (in_set (chars "&") 38) with true. cbn [negb].
    rewrite gettoken_symbol by done. rewrite skip_space_symbol by (by apply stops_symbol).
    destruct s as [|x s]; (rewrite closes_not by (done || (vm_compute; set_solver))); cbn [negb pbind];
      by rewrite closes_not by (done || (vm_compute; set_solver)).
Qed.

Lemma unparse_no_nul a : scmd_ok a → 0 ∉ unparse a.
Proof.
  assert (∀ w, word_ok w → 0 ∉ w) as Hword.
  { intros w [_ Hw] H. eapply Forall_forall in Hw; [|exact H]. by destruct Hw. }
  induction a as [ws|a IH w o|a IHa b IHb|a IHa b IHb|a IH]; intros Ha; cbn [unparse].
  - destruct Ha as [_ Hw]. induction Hw as [|w ws Hw Hws IH]; [set_solver|].
    rewrite <- (app_nil_r (join _)), join_cons. apply Hword in Hw.
    destruct ws; cbn [tail_words]; rewrite ?app_nil_r; set_solver.
  - destruct Ha as [Ha Hw]. apply IH in Ha. apply Hword in Hw. destruct o; set_solver.
  - destruct Ha as [Ha Hb]. apply IHa in Ha. apply IHb in Hb. set_solver.
  - destruct Ha as [Ha Hb]. apply IHa in Ha. apply IHb in Hb. set_solver.
  - apply IH in Ha. set_solver.
Qed.

(** C26 [roundtrip]: parsecmd() inverts printing.  For every command built from
    simple commands, redirections, pipes, lists and background commands, the
    line that prints it (operands in parentheses, words separated by spaces)
    is parsed to a tree of the same shape, whose arguments and file names, read
    as C strings from the line after nulterminate(), are the words of the
    command, with the open mode and descriptor of each redirection. *)
Theorem parsecmd_unparse a :
  scmd_ok a →
  ∃ c buf, parsecmd (unparse a) = POk (c, buf) [] ∧ spells (str_at buf) c a.
Proof.
  intros Ha. destruct (parses_unparse a Ha [] (parse_fuel (unparse a))) as (c & Ec & Ht).
  { done. } { rewrite app_nil_r. unfold parse_fuel. lia. }
  rewrite app_nil_r in Ec, Ht. exists c, (nulterminate c (unparse a)). split.
  - unfold parsecmd. by rewrite Ec.
  - eapply spells_ext; [|by apply Ht]. intros t Hin. rewrite nulterminate_tokens. symmetry.
    apply terminated; [by apply unparse_no_nul| |done].
    destruct (parse_good (unparse a) (parse_fuel (unparse a))) as [Hg _]. specialize (Hg (unparse a) ltac:(done)).
    rewrite Ec in Hg. apply Hg.
Qed.

Lemma parsecmd_unparse_witness :
  ∃ c buf, parsecmd (chars "((cat x)|(wc -l))>out") = POk (c, buf) [] ∧
    spells (str_at buf) c
      (SRedir (SPipe (SExec [chars "cat"; chars "x"]) (SExec [chars "wc"; chars "-l"])) (chars "out") true).
Proof.
  apply (parsecmd_unparse
    (SRedir (SPipe (SExec [chars "cat"; chars "x"]) (SExec [chars "wc"; chars "-l"])) (chars "out") true)).
  cbn [scmd_ok length]. unfold MAXARGS, word_ok.
  split_and!; repeat constructor; done.
Defined.
