(* ===== verification/Umalloc.v ===== *)
(** * The memory allocator of user programs: umalloc.c

    Kernighan and Ritchie's allocator: a circular list of free blocks in the order
    of their addresses, threaded through the blocks' headers.  A [Header *] is its
    address in the memory of the process, and a header is two words, the pointer
    and the size in units of 8 bytes.  The address of the static header [base] is
    the linker's, hence a parameter; sbrk() moves the end of the process's memory
    as sys_sbrk(), growproc() and allocuvm() do, and [pages] says whether the
    kernel finds the pages for a growth. *)

From stdpp Require Import sorting.
From S2P Require Import Prelude CString Machine Proc Kalloc Vm.
Open Scope kernel_scope.

Record heap := Heap { hmem : mem; freep : Z; brk : Z }.
Definition set_hmem (v : mem) (s : heap) : heap := Heap v (freep s) (brk s).
Definition set_freep (v : Z) (s : heap) : heap := Heap (hmem s) v (brk s).
Definition set_brk (v : Z) (s : heap) : heap := Heap (hmem s) (freep s) v.

(** [p->s.ptr] is at [p], [p->s.size] at [p + 4]. *)
Definition ld (a : Z) : M heap Z := gets (λ s, load32 (hmem s) a).
Definition st (a v : Z) : M heap unit := modify (λ s, set_hmem (store32 a v (hmem s)) s).

Section umalloc.
Context (base : Z) (pages : Z → Z → bool).

(** growproc(): the new size, or 0 for failure; deallocuvm() is in the second
    branch. *)
Definition grown (sz n : Z) : Z :=
  let new := sz +u n in
  if 0 <? n then
    if KERNBASE <=? new then 0 else if new <? sz then sz else if pages sz new then new else 0
  else if n <? 0 then (if sz <=? new then sz else new) else sz.

(** The new pages are cleared. *)
Definition zeroed (sz new : Z) (m : mem) : mem := λ a, if (PGROUNDUP sz <=? a) && (a <? PGROUNDUP new) then 0 else m a.

Definition sbrk (n : Z) : M heap Z :=
  sz ← gets brk;
  let new := grown sz n in
  if (negb (n =? 0)) && (new =? 0) then mret (2 ^ 32 - 1) else
  modify (λ s, set_brk new (set_hmem (zeroed sz new (hmem s)) s));;
  mret sz.

(** The loop that finds the place of [bp]. *)
Definition free_body (bp p : Z) : M heap (Z + Z) :=
  n ← ld p;
  if (p <? bp) && (bp <? n) then mret (inr p)
  else if (n <=? p) && ((p <? bp) || (bp <? n)) then mret (inr p)
  else mret (inl n).

(** Joining the block with the next free one, and with the previous one. *)
Definition join_next (bp p : Z) : M heap unit :=
  bs ← ld (bp + 4);
  pn ← ld p;
  if bp +u 8 * bs =? pn then
    ns ← ld (pn + 4);
    st (bp + 4) (bs +u ns);;
    nn ← ld pn;
    st bp nn
  else st bp pn.

Definition join_prev (bp p : Z) : M heap unit :=
  ps ← ld (p + 4);
  if p +u 8 * ps =? bp then
    bs ← ld (bp + 4);
    st (p + 4) (ps +u bs);;
    bn ← ld bp;
    st p bn
  else st p bp.

Definition free (ap : Z) : M heap unit :=
  let bp := ap -u 8 in
  fp ← gets freep;
  p ← loop (free_body bp) 31 fp;
  join_next bp p;;
  join_prev bp p;;
  modify (set_freep p).

Definition morecore (nu : Z) : M heap Z :=
  let nu := if nu <? 4096 then 4096 else nu in
  p ← sbrk (s32 (nu * 8));
  if p =? 2 ^ 32 - 1 then mret 0 else
  st (p + 4) nu;;
  free (p +u 8);;
  gets freep.

(** One iteration of malloc()'s loop, at [p] after [prevp]. *)
Definition malloc_body (nunits : Z) (st0 : Z * Z) : M heap (Z * Z + Z) :=
  let '(prevp, p) := st0 in
  sz ← ld (p + 4);
  if nunits <=? sz then
    p ← (if sz =? nunits then n ← ld p; st prevp n;; mret p
         else
           st (p + 4) (sz -u nunits);;
           let p := p +u 8 * (sz -u nunits) in
           st (p + 4) nunits;;
           mret p);
    modify (set_freep prevp);;
    mret (inr (p +u 8))
  else
    fp ← gets freep;
    if p =? fp then
      p ← morecore nunits;
      if p =? 0 then mret (inr 0) else n ← ld p; mret (inl (p, n))
    else n ← ld p; mret (inl (p, n)).

Definition units (nbytes : Z) : Z := (nbytes +u 7) / 8 + 1.

Definition malloc (nbytes : Z) : M heap Z :=
  let nunits := units nbytes in
  fp ← gets freep;
  prevp ← (if fp =? 0 then st base base;; modify (set_freep base);; st (base + 4) 0;; mret base else mret fp);
  p ← ld prevp;
  loop (malloc_body nunits) 31 (prevp, p).

End umalloc.

(** ** The free list *)

(** The nodes of the list with their sizes, linked through memory; [e] is what
    the last one points to. *)
Definition head (l : list (Z * Z)) (e : Z) : Z := match l with [] => e | x :: _ => x.1 end.
Fixpoint seg (m : mem) (l : list (Z * Z)) (e : Z) : Prop :=
  match l with
  | [] => True
  | x :: l => load32 m x.1 = head l e ∧ load32 m (x.1 + 4) = x.2 ∧ seg m l e
  end.

Lemma links_app m l1 l2 e : seg m (l1 ++ l2) e ↔ seg m l1 (head l2 e) ∧ seg m l2 e.
Proof.
  induction l1 as [|x l1 IH]; cbn [app seg]; [tauto|]. rewrite IH.
  assert (head (l1 ++ l2) e = head l1 (head l2 e)) as -> by by destruct l1. tauto.
Qed.

Section heap.
Context (base : Z).

Definition aligned (a : Z) : Prop := 0 ≤ a < 2 ^ 32 ∧ a mod 4 = 0.

(** A block below [b], above the static header. *)
Definition fits (b : Z) (x : Z * Z) : Prop := aligned x.1 ∧ base + 8 ≤ x.1 ∧ 1 ≤ x.2 ∧ x.1 + 8 * x.2 ≤ b.
Definition apart (x y : Z * Z) : Prop := x.1 + 8 * x.2 ≤ y.1 ∨ y.1 + 8 * y.2 ≤ x.1.
Definition before (x y : Z * Z) : Prop := x.1 + 8 * x.2 < y.1.

(** The free blocks are [(base, 0) :: F] and the blocks in use are [A]. *)
Record heap_ok (F : list (Z * Z)) (A : gset (Z * Z)) (s : heap) : Prop := {
  hk_base : 0 < base ∧ aligned base;
  hk_brk : base + 8 ≤ brk s < KERNBASE ∧ aligned (brk s);
  hk_ring : seg (hmem s) ((base, 0) :: F) base;
  hk_freep : ∃ n, (freep s, n) ∈ (base, 0) :: F;
  hk_sorted : StronglySorted before ((base, 0) :: F);
  hk_free x : x ∈ F → fits (brk s) x;
  hk_alloc x : x ∈ A → fits (brk s) x ∧ load32 (hmem s) (x.1 + 4) = x.2;
  hk_apart x y : x ∈ F → y ∈ A → apart x y;
  hk_excl x y : x ∈ A → y ∈ A → x ≠ y → apart x y;
}.

Lemma ldst a b v m : aligned a → aligned b → load32 (store32 a v m) b = if decide (b = a) then u32 v else load32 m b.
Proof.
  intros [Ha Ha'] [Hb Hb']. case_decide as E; [subst; apply load32_store32|]. by apply load32_store32_ne.
Qed.

Lemma aligned_size a : aligned a → a < 2 ^ 31 → aligned (a + 4).
Proof. unfold aligned. intros. split; [lia|]. dmlia. Qed.

Lemma aligned_ne a b : aligned a → aligned b → a ≠ b → a + 4 ≤ b ∨ b + 4 ≤ a.
Proof. unfold aligned. intros. dmlia. Qed.

Lemma links_frame m m' l e :
  (∀ x, x ∈ l → load32 m' x.1 = load32 m x.1 ∧ load32 m' (x.1 + 4) = load32 m (x.1 + 4)) → seg m l e → seg m' l e.
Proof.
  induction l as [|x l IH]; [done|]. intros H (H1 & H2 & H3). destruct (H x) as [E1 E2]; [by left|].
  split_and!; [congruence|congruence|]. apply IH; [|done]. intros y Hy. apply H. by right.
Qed.

Lemma sorted_around l1 x l2 :
  StronglySorted before (l1 ++ x :: l2) → (∀ y, y ∈ l1 ++ x :: l2 → 0 ≤ y.2) →
  (∀ y, y ∈ l1 → y.1 + 8 * y.2 < x.1) ∧ (∀ y, y ∈ l2 → x.1 + 8 * x.2 < y.1) ∧ (∀ y, y ∈ l1 → y.1 < x.1) ∧ (∀ y, y ∈ l2 → x.1 < y.1).
Proof.
  intros (H1 & _ & H2)%StronglySorted_app Hp. apply StronglySorted_inv in H2 as [_ H2]. rewrite Forall_forall in H2.
  assert (0 ≤ x.2) by (apply Hp, elem_of_app; right; by left).
  split_and!; intros y Hy; [apply H1; [done|by left]|by apply H2|..].
  - specialize (H1 y x Hy ltac:(by left)). specialize (Hp y ltac:(apply elem_of_app; by left)). unfold before in *. lia.
  - specialize (H2 y Hy). unfold before in *. lia.
Qed.

(** *** Where the block at [bp] goes: after [p], the last node below it *)

Section find.
Context (s : heap) (bp : Z) (F1 F2 : list (Z * Z)) (p : Z * Z).
Context (Hs : seg (hmem s) (F1 ++ p :: F2) base) (Hh : head (F1 ++ p :: F2) base = base).
Context (Hsort : StronglySorted before (F1 ++ p :: F2)) (Hpos : ∀ x, x ∈ F1 ++ p :: F2 → 0 ≤ x.2).
Context (Hp : p.1 < bp) (Hn : ∀ x, x ∈ F2 → bp < x.1) (Hb : base ≤ p.1).

Lemma walk_below G0 G k : F1 = G0 ++ G → iter (free_body bp) (length G + k) (head (G ++ [p]) base) s = iter (free_body bp) k p.1 s.
Proof using All.
  revert G0. induction G as [|x G IH]; intros G0 E; [done|]. cbn [app head length Nat.add].
  rewrite <- (IH (G0 ++ [x])) by by rewrite <- app_assoc.
  destruct (sorted_around _ _ _ Hsort Hpos) as (_ & _ & Hlt & _).
  assert (F1 ++ p :: F2 = G0 ++ x :: (G ++ p :: F2)) as E2 by by rewrite E, <- app_assoc.
  rewrite E2 in Hs, Hsort, Hpos. destruct (sorted_around _ _ _ Hsort Hpos) as (_ & _ & _ & Hgt).
  apply links_app in Hs as [_ (Hn1 & _ & _)].
  assert (head (G ++ p :: F2) base = head (G ++ [p]) base) as E' by by destruct G. rewrite E' in Hn1.
  assert (x.1 < head (G ++ [p]) base ≤ p.1) as Hr.
  { destruct G as [|y G]; cbn [head app].
    - split; [apply Hgt; by left|lia].
    - split; [apply Hgt; by left|]. apply Z.lt_le_incl, Hlt. rewrite E. apply elem_of_app. right. right. by left. }
  apply iter_next. unfold free_body, ld. mred. rewrite Hn1.
  assert (bp <? head (G ++ [p]) base = false) as -> by lia. assert (head (G ++ [p]) base <=? x.1 = false) as -> by lia.
  rewrite andb_false_r. done.
Qed.

Lemma walk_above G0 G k : F2 = G0 ++ G → iter (free_body bp) (length G + k) (head G base) s = iter (free_body bp) k base s.
Proof using All.
  revert G0. induction G as [|x G IH]; intros G0 E; [done|]. cbn [head length Nat.add].
  rewrite <- (IH (G0 ++ [x])) by by rewrite <- app_assoc.
  assert (F1 ++ p :: F2 = (F1 ++ p :: G0) ++ x :: G) as E2 by (rewrite E, <- app_assoc; done).
  rewrite E2 in Hs, Hsort, Hpos. destruct (sorted_around _ _ _ Hsort Hpos) as (_ & _ & _ & Hgt).
  apply links_app in Hs as [_ (Hn1 & _ & _)].
  assert (bp < x.1) by (apply Hn; rewrite E; apply elem_of_app; right; by left).
  assert (head G base ≤ x.1 → head G base = base) as Hl.
  { destruct G as [|y G]; [done|]. cbn [head]. intros ?. specialize (Hgt y ltac:(by left)). lia. }
  apply iter_next. unfold free_body, ld. mred. rewrite Hn1.
  assert (x.1 <? bp = false) as -> by lia. cbn [andb orb].
  destruct (Z.leb_spec (head G base) x.1) as [Hle|]; [|done]. rewrite (Hl Hle). assert (bp <? base = false) as -> by lia. done.
Qed.

Lemma free_exit k : iter (free_body bp) (S k) p.1 s = Ok (inr p.1) s.
Proof using All.
  apply links_app in Hs as [_ (Hn1 & _ & _)]. apply iter_exit. unfold free_body, ld. mred. rewrite Hn1.
  assert (p.1 <? bp = true) as -> by lia. cbn [andb orb]. destruct F2 as [|y F2']; cbn [head].
  - assert (base <=? p.1 = true) as -> by lia. destruct (bp <? base); done.
  - assert (bp <? y.1 = true) as ->; [|done]. apply Z.ltb_lt, Hn. by left.
Qed.

Lemma free_find n : (freep s, n) ∈ F1 ++ p :: F2 → Z.of_nat (length (F1 ++ p :: F2)) < 2 ^ 31 → loop (free_body bp) 31 (freep s) s = Ok p.1 s.
Proof using All.
  intros Hf Hl. apply (loop_iter _ 31 (S (length F2 + length F1))); [|rewrite length_app in Hl; cbn [length] in Hl; lia].
  assert (∀ k, iter (free_body bp) (length F1 + k) base s = iter (free_body bp) k p.1 s) as Hbase.
  { intros k. rewrite <- (walk_below [] F1 k eq_refl). f_equal. rewrite <- Hh at 1. by destruct F1. }
  apply elem_of_app in Hf as [Hf|Hf]; [|apply elem_of_cons in Hf as [Hf|Hf]].
  - apply list_elem_of_split in Hf as (G0 & G & E).
    assert (S (length F2 + length F1) = length ((freep s, n) :: G) + S (length F2 + length G0))%nat as ->
      by (rewrite E, length_app; cbn [length]; lia).
    pose proof (walk_below G0 _ (S (length F2 + length G0)) E) as H. cbn [head app] in H. etrans; [exact H|]. apply free_exit.
  - assert (freep s = p.1) as -> by by rewrite <- Hf. apply free_exit.
  - apply list_elem_of_split in Hf as (G0 & G & E).
    assert (S (length F2 + length F1) = length ((freep s, n) :: G) + (length F1 + S (length G0)))%nat as ->
      by (rewrite E, length_app; cbn [length]; lia).
    pose proof (walk_above G0 _ (length F1 + S (length G0)) E) as H. cbn [head] in H. etrans; [exact H|].
    rewrite Hbase. apply free_exit.
Qed.
End find.

Lemma place l bp :
  head l 0 < bp → l ≠ [] → StronglySorted before l → (∀ x, x ∈ l → 0 ≤ x.2 ∧ x.1 ≠ bp) →
  ∃ F1 p F2, l = F1 ++ p :: F2 ∧ p.1 < bp ∧ ∀ x, x ∈ F2 → bp < x.1.
Proof.
  induction l as [|x l IH]; [done|]. cbn [head]. intros Hx _ Hs Ha.
  destruct l as [|y l]; [exists [], x, []; split_and!; [done..|]; by intros ? ?%not_elem_of_nil|].
  destruct (decide (y.1 < bp)) as [Hy|Hy].
  - destruct IH as (F1 & p & F2 & E & H); [done|done|by apply StronglySorted_inv in Hs as [? _]|intros z Hz; apply Ha; by right|].
    exists (x :: F1), p, F2. rewrite E. done.
  - exists [], x, (y :: l). split_and!; [done..|]. intros z Hz. apply StronglySorted_inv in Hs as [Hs _].
    assert (y.1 ≤ z.1); [|assert (z.1 ≠ bp) by (apply Ha; by right); destruct (Ha y) as [? ?]; [right; by left|lia]].
    apply elem_of_cons in Hz as [->|Hz]; [lia|]. destruct (sorted_around [] y l Hs) as (_ & _ & _ & H).
    { intros u Hu. apply Ha. by right. }
    specialize (H z Hz). lia.
Qed.

(** *** Memory that changes only in some places *)

Definition keeps (P : Z → Prop) (m m' : mem) : Prop := ∀ x, is_u32 x → ¬ P x → m' x = m x.
Definition header (a x : Z) : Prop := a ≤ x < a + 8.

Lemma keeps_refl P m : keeps P m m.
Proof. done. Qed.

Lemma keeps_trans P m1 m2 m3 : keeps P m1 m2 → keeps P m2 m3 → keeps P m1 m3.
Proof. intros H1 H2 x Hx Hp. by rewrite H2, H1. Qed.

Lemma keeps_weaken (P Q : Z → Prop) m m' : (∀ x, P x → Q x) → keeps P m m' → keeps Q m m'.
Proof. intros H H1 x Hx Hq. apply H1; auto. Qed.

Lemma keeps_load P m m' a : keeps P m m' → aligned a → (∀ x, a ≤ x < a + 4 → ¬ P x) → load32 m' a = load32 m a.
Proof.
  intros H [Ha Ha4] Hp. apply load32_ext. intros i Hi. unfold load8. rewrite u32_id by (unfold is_u32; dmlia).
  apply H; [unfold is_u32; dmlia|]. apply Hp. lia.
Qed.

Lemma keeps_store P a v m : aligned a → (∀ x, a ≤ x < a + 4 → P x) → keeps P m (store32 a v m).
Proof.
  intros [Ha Ha4] Hp x Hx Hn. unfold store32, store8.
  assert (∀ i, 0 ≤ i < 4 → x =? u32 (a + i) = false) as Hne.
  { intros i Hi. rewrite u32_id by (unfold is_u32; dmlia). apply Z.eqb_neq. intros ->. apply Hn, Hp. lia. }
  rewrite !Hne by lia. specialize (Hne 0 ltac:(lia)). rewrite Z.add_0_r in Hne. by rewrite Hne.
Qed.

Lemma run_ld a s : ld a s = Ok (load32 (hmem s) a) s.
Proof. done. Qed.
Lemma run_st a v s : st a v s = Ok tt (set_hmem (store32 a v (hmem s)) s).
Proof. done. Qed.

Ltac hstep := first [rewrite (bind_ok _ _ _ _ _ (run_ld _ _)) | rewrite (bind_ok _ _ _ _ _ (run_st _ _ _)) | rewrite run_st]; cbn [hmem set_hmem].

(** A block that may be given back: below [2 ^ 31]. *)
Definition low (x : Z * Z) : Prop := aligned x.1 ∧ 0 < x.1 ∧ 0 ≤ x.2 ∧ x.1 + 8 * Z.max 1 x.2 ≤ 2 ^ 31.

Lemma low_aligned x : low x → aligned x.1 ∧ aligned (x.1 + 4) ∧ is_u32 x.1 ∧ is_u32 x.2 ∧ u32 (8 * x.2) = 8 * x.2.
Proof.
  intros (H1 & H2 & H3 & H4). split_and!; [done|apply aligned_size; [done|lia]|unfold is_u32; lia|unfold is_u32; lia|].
  apply u32_id. unfold is_u32. lia.
Qed.

Lemma join_next_run s b p F2 :
  low b → low p → Forall low F2 → (∀ x, x ∈ F2 → b.1 + 8 * b.2 ≤ x.1) → 1 ≤ b.2 → aligned base → base < b.1 →
  load32 (hmem s) (b.1 + 4) = b.2 → seg (hmem s) (p :: F2) base →
  (∀ q F, F2 = q :: F → b.1 + 8 * b.2 = q.1 → b.1 + 8 * (b.2 + q.2) ≤ 2 ^ 31) →
  ∃ b' rest m', join_next b.1 p.1 s = Ok tt (set_hmem m' s) ∧ keeps (header b.1) (hmem s) m' ∧
    b'.1 = b.1 ∧ load32 m' b.1 = head rest base ∧ load32 m' (b.1 + 4) = b'.2 ∧
    ((b' = b ∧ rest = F2 ∧ b.1 + 8 * b.2 ≠ head F2 base) ∨ (∃ q, F2 = q :: rest ∧ q.1 = b.1 + 8 * b.2 ∧ b' = (b.1, b.2 + q.2))).
Proof.
  intros Hb Hp HF Hord Hb1 Hbase Hbb Ebs (Epn & _ & Hs) Hmax.
  destruct (low_aligned _ Hb) as (Ab & Ab4 & Ub & Ub2 & U8). destruct Hb as (_ & _ & _ & Hb31).
  unfold join_next. rewrite (bind_ok _ _ _ _ _ (run_ld _ _)), (bind_ok _ _ _ _ _ (run_ld _ _)), Ebs, Epn.
  rewrite (u32_id (b.1 + 8 * b.2)) by (unfold is_u32 in *; lia). destruct (Z.eqb_spec (b.1 + 8 * b.2) (head F2 base)) as [E|E].
  - destruct F2 as [|q rest]; [cbn [head] in E; lia|]. cbn [head] in E. destruct Hs as (Eqn & Eqs & _).
    apply Forall_cons in HF as [Hq HF]. destruct (low_aligned _ Hq) as (Aq & Aq4 & Uq & Uq2 & _).
    specialize (Hmax q rest eq_refl E).
    cbn [head]. repeat hstep. rewrite Eqs, (ldst (b.1 + 4) q.1), decide_False, Eqn by (done || unfold is_u32 in *; lia).
    rewrite (u32_id (b.2 + q.2)) by (unfold is_u32 in *; lia).
    exists (b.1, b.2 + q.2), rest. eexists. split_and!; [reflexivity| |done|..].
    + eapply keeps_trans; apply keeps_store; (done || unfold header; lia).
    + rewrite ldst, decide_True by done. apply u32_id. destruct rest as [|r rest]; [apply Hbase|]. cbn [head].
      apply Forall_cons in HF as [Hr _]. by apply low_aligned.
    + rewrite ldst, decide_False, ldst, decide_True by (done || lia). apply (u32_id (b.2 + q.2)). unfold is_u32 in *. lia.
    + right. by exists q.
  - hstep. exists b, F2. eexists. split_and!; [reflexivity| |done|..].
    + apply keeps_store; (done || unfold header; lia).
    + rewrite ldst, decide_True by done. apply u32_id. destruct F2 as [|r rest]; [apply Hbase|]. cbn [head].
      apply Forall_cons in HF as [Hr _]. by apply low_aligned.
    + rewrite ldst, decide_False by (done || lia). done.
    + by left.
Qed.

Lemma join_prev_run s b p F1 rest :
  low b → low p → Forall low F1 → Forall low rest → aligned base → p.1 + 8 * Z.max 1 p.2 ≤ b.1 →
  (∀ x, x ∈ F1 → x.1 + 8 ≤ p.1) → (∀ x, x ∈ rest → p.1 + 8 ≤ x.1) →
  load32 (hmem s) b.1 = head rest base → load32 (hmem s) (b.1 + 4) = b.2 → load32 (hmem s) (p.1 + 4) = p.2 →
  seg (hmem s) F1 p.1 → seg (hmem s) rest base →
  ∃ F' m', join_prev b.1 p.1 s = Ok tt (set_hmem m' s) ∧ keeps (header p.1) (hmem s) m' ∧ seg m' F' base ∧
    ((p.1 + 8 * p.2 = b.1 ∧ F' = F1 ++ (p.1, p.2 + b.2) :: rest) ∨ (p.1 + 8 * p.2 < b.1 ∧ F' = F1 ++ p :: b :: rest)).
Proof.
  intros Hb Hp HF1 HF2 Hbase Hord Hlo Hhi Eb Ebs Eps Hs1 Hs2.
  destruct (low_aligned _ Hb) as (Ab & Ab4 & Ub & Ub2 & _). destruct (low_aligned _ Hp) as (Ap & Ap4 & Up & Up2 & _).
  destruct Hb as (_ & _ & Hb0 & Hb31). destruct Hp as (_ & _ & Hp0 & Hp31).
  assert (∀ m' l, keeps (header p.1) (hmem s) m' → Forall low l → (∀ x, x ∈ l → x.1 + 8 ≤ p.1 ∨ p.1 + 8 ≤ x.1) →
    ∀ e, seg (hmem s) l e → seg m' l e) as Hfr.
  { intros m' l Hk Hl Hd e. apply links_frame. intros x Hx. rewrite Forall_forall in Hl.
    destruct (low_aligned _ (Hl x Hx)) as (? & ? & _). specialize (Hd x Hx).
    split; (eapply keeps_load; [done|done|unfold header; lia]). }
  unfold join_prev. hstep. rewrite Eps, (u32_id (p.1 + 8 * p.2)) by (unfold is_u32 in *; lia).
  destruct (Z.eqb_spec (p.1 + 8 * p.2) b.1) as [E|E].
  - repeat hstep. rewrite Ebs, (ldst (p.1 + 4) b.1), decide_False, Eb by (done || lia).
    rewrite (u32_id (p.2 + b.2)) by (unfold is_u32 in *; lia).
    exists (F1 ++ (p.1, p.2 + b.2) :: rest). eexists. split_and!; [reflexivity| | |by left].
    + eapply keeps_trans; apply keeps_store; (done || unfold header; lia).
    + set (m' := store32 _ _ _). assert (keeps (header p.1) (hmem s) m') as Hk.
      { eapply keeps_trans; apply keeps_store; (done || unfold header; lia). }
      apply links_app. split; [apply (Hfr m' F1 Hk); auto|]. cbn [seg fst snd]. split_and!; [| |apply (Hfr m' rest Hk); auto].
      * subst m'. rewrite ldst, decide_True by done. apply u32_id. destruct rest as [|r rest]; [apply Hbase|]. cbn [head].
        apply Forall_cons in HF2 as [Hr _]. by apply low_aligned.
      * subst m'. rewrite ldst, decide_False, ldst, decide_True by (done || lia). apply u32_id. unfold is_u32 in *. lia.
  - hstep. exists (F1 ++ p :: b :: rest). eexists. split_and!; [reflexivity| | |right; split; [lia|done]].
    + apply keeps_store; (done || unfold header; lia).
    + set (m' := store32 _ _ _). assert (keeps (header p.1) (hmem s) m') as Hk by (apply keeps_store; (done || unfold header; lia)).
      apply links_app. split; [apply (Hfr m' F1 Hk); auto|]. cbn [seg head]. split_and!; [| | | |apply (Hfr m' rest Hk); auto].
      * subst m'. rewrite ldst, decide_True by done. by apply u32_id.
      * subst m'. rewrite ldst, decide_False by (done || lia). done.
      * rewrite <- Eb. eapply keeps_load; [done|done|unfold header; lia].
      * rewrite <- Ebs. eapply keeps_load; [done|done|unfold header; lia].
Qed.

Lemma fits_low b x : b ≤ 2 ^ 31 → 0 < base → fits b x → low x.
Proof. intros Hb Hbase (H1 & H2 & H3 & H4). split_and!; [done|lia|lia|lia]. Qed.

Lemma sorted_length B lo F :
  lo ≤ B → StronglySorted before F → (∀ x, x ∈ F → lo ≤ x.1 ∧ 1 ≤ x.2 ∧ x.1 + 8 * x.2 ≤ B) → lo + 8 * Z.of_nat (length F) ≤ B.
Proof.
  revert lo. induction F as [|x F IH]; intros lo Hlo Hs Hf; cbn [length]; [lia|]. apply StronglySorted_inv in Hs as [Hs Hx].
  destruct (Hf x) as (H1 & H2 & H3); [by left|]. assert (x.1 + 8 * x.2 + 8 * Z.of_nat (length F) ≤ B); [|lia].
  apply IH; [lia|done|]. intros y Hy. rewrite Forall_forall in Hx. specialize (Hx y Hy). unfold before in Hx.
  destruct (Hf y) as (? & ? & ?); [by right|]. lia.
Qed.

Lemma strict_above B F :
  StronglySorted before F → (∀ x, x ∈ F → 0 ≤ x.2 ∧ B ≤ x.1) → B ≠ head F base → ∀ x, x ∈ F → B < x.1.
Proof.
  destruct F as [|y F]; [by intros _ _ _ x ?%not_elem_of_nil|]. cbn [head]. intros Hs H Hne x Hx.
  assert (B < y.1) by (destruct (H y) as [? ?]; [by left|lia]).
  apply elem_of_cons in Hx as [->|Hx]; [done|]. apply StronglySorted_inv in Hs as [_ Hy]. rewrite Forall_forall in Hy.
  specialize (Hy x Hx). unfold before in Hy. destruct (H y) as [? _]; [by left|]. lia.
Qed.

(** The list after the block [b] has been put between [p] and [F2], joined with its
    neighbours where they touch. *)
Inductive inserted (F1 : list (Z * Z)) (p b : Z * Z) : list (Z * Z) → list (Z * Z) → Prop :=
| ins_alone F2 : p.1 + 8 * p.2 < b.1 → (∀ x, x ∈ F2 → b.1 + 8 * b.2 < x.1) → inserted F1 p b F2 (F1 ++ p :: b :: F2)
| ins_next q F2 : p.1 + 8 * p.2 < b.1 → b.1 + 8 * b.2 = q.1 → inserted F1 p b (q :: F2) (F1 ++ p :: (b.1, b.2 + q.2) :: F2)
| ins_prev F2 : p.1 + 8 * p.2 = b.1 → (∀ x, x ∈ F2 → b.1 + 8 * b.2 < x.1) → inserted F1 p b F2 (F1 ++ (p.1, p.2 + b.2) :: F2)
| ins_both q F2 : p.1 + 8 * p.2 = b.1 → b.1 + 8 * b.2 = q.1 → inserted F1 p b (q :: F2) (F1 ++ (p.1, p.2 + (b.2 + q.2)) :: F2).

Lemma inserted_sorted F1 p b F2 F' :
  inserted F1 p b F2 F' → StronglySorted before (F1 ++ p :: F2) → (∀ x, x ∈ F1 ++ p :: F2 → 0 ≤ x.2) → 0 ≤ b.2 → StronglySorted before F'.
Proof.
  intros Hi Hs Hp Hb. pose proof (sorted_around _ _ _ Hs Hp) as (H1 & H2 & H3 & H4).
  apply StronglySorted_app in Hs as (_ & Hs1 & Hs2). apply StronglySorted_inv in Hs2 as [Hs2 _].
  assert (0 ≤ p.2) by (apply Hp, elem_of_app; right; by left).
  assert (∀ L, (∀ y, y ∈ L → p.1 ≤ y.1) → StronglySorted before L → StronglySorted before (F1 ++ L)) as Happ.
  { intros L HL HsL. apply StronglySorted_app. split_and!; [|done..]. intros x y Hx Hy. specialize (H1 x Hx). specialize (HL y Hy).
    unfold before. lia. }
  assert (∀ q F, F2 = q :: F → StronglySorted before F ∧ 0 ≤ q.2 ∧ ∀ x, x ∈ F → q.1 + 8 * q.2 < x.1) as Hq.
  { intros q F ->. apply StronglySorted_inv in Hs2 as [? Hq]. rewrite Forall_forall in Hq.
    split_and!; [done|apply Hp, elem_of_app; right; right; by left|exact Hq]. }
  destruct Hi as [F2 Hpb Hbx|q F2 Hpb Hbq|F2 Hpb Hbx|q F2 Hpb Hbq]; apply Happ; try destruct (Hq q F2 eq_refl) as (Hs3 & Hq0 & Hqx);
    try (intros y Hy; repeat (apply elem_of_cons in Hy as [->|Hy]); cbn [fst]; try lia);
    try (apply Z.lt_le_incl, H4; by right || done);
    repeat apply SSorted_cons; try done; apply Forall_forall; intros y Hy; repeat (apply elem_of_cons in Hy as [->|Hy]);
    unfold before; cbn [fst snd]; try lia;
    try (specialize (Hbx y Hy)); try (specialize (Hqx y Hy)); try (specialize (H2 y Hy)); try lia.
Qed.

(** Every node of the new list is an old one, [b], or the join of neighbours. *)
Lemma inserted_nodes (P : Z * Z → Prop) F1 p b F2 F' :
  inserted F1 p b F2 F' → (∀ x, x ∈ F1 ++ p :: F2 → P x) → P b →
  (∀ x y, P x → P y → x.1 + 8 * x.2 = y.1 → P (x.1, x.2 + y.2)) → ∀ y, y ∈ F' → P y.
Proof.
  intros Hi HP Hb Hj. assert (∀ x, x ∈ F1 → P x) as H1 by (intros; apply HP, elem_of_app; by left).
  assert (P p) as Hp by (apply HP, elem_of_app; right; by left).
  assert (∀ x, x ∈ F2 → P x) as H2 by (intros; apply HP, elem_of_app; right; by right).
  destruct Hi as [F2 Hpb Hbx|q F2 Hpb Hbq|F2 Hpb Hbx|q F2 Hpb Hbq]; intros y Hy;
    (apply elem_of_app in Hy as [Hy|Hy]; [by apply H1|]); repeat (apply elem_of_cons in Hy as [->|Hy]); try done; try (apply H2; by right || done).
  - apply Hj; [done|apply H2; by left|done].
  - by apply Hj.
  - apply (Hj p (b.1, b.2 + q.2)); [done| |done]. apply Hj; [done|apply H2; by left|done].
Qed.

Definition total (F : list (Z * Z)) : Z := foldr (λ x n, x.2 + n) 0 F.

Lemma total_app F G : total (F ++ G) = total F + total G.
Proof. induction F as [|x F IH]; cbn [app total foldr] in *; [done|]. unfold total in *. cbn [foldr]. lia. Qed.

Lemma inserted_total F1 p b F2 F' : inserted F1 p b F2 F' → total F' = total (F1 ++ p :: F2) + b.2.
Proof. destruct 1; rewrite !total_app; cbn [total foldr snd]; unfold total; lia. Qed.

Lemma inserted_big F1 p b F2 F' :
  inserted F1 p b F2 F' → (∀ x, x ∈ F1 ++ p :: F2 → 0 ≤ x.2) → ∃ y, y ∈ F' ∧ b.2 ≤ y.2.
Proof.
  intros Hi Hp. assert (0 ≤ p.2) by (apply Hp, elem_of_app; right; by left).
  assert (∀ q F, F2 = q :: F → 0 ≤ q.2) as Hq by (intros q F ->; apply Hp, elem_of_app; right; right; by left).
  destruct Hi as [F2|q F2|F2|q F2]; try pose proof (Hq q F2 eq_refl).
  - exists b. split; [apply elem_of_app; right; right; by left|lia].
  - exists (b.1, b.2 + q.2). split; [apply elem_of_app; right; right; by left|cbn [snd]; lia].
  - exists (p.1, p.2 + b.2). split; [apply elem_of_app; right; by left|cbn [snd]; lia].
  - exists (p.1, p.2 + (b.2 + q.2)). split; [apply elem_of_app; right; by left|cbn [snd]; lia].
Qed.

Lemma inserted_prev F1 p b F2 F' : inserted F1 p b F2 F' → ∃ n, (p.1, n) ∈ F'.
Proof. destruct p. destruct 1; eexists; apply elem_of_app; right; by left. Qed.

(** free() puts the block in its place. *)
Lemma free_places F1 p F2 s b n :
  aligned base → base ≤ p.1 → head (F1 ++ p :: F2) base = base → (freep s, n) ∈ F1 ++ p :: F2 →
  StronglySorted before (F1 ++ p :: F2) → Forall low (F1 ++ p :: F2) → low b → 1 ≤ b.2 →
  p.1 + 8 * Z.max 1 p.2 ≤ b.1 → (∀ x, x ∈ F1 → x.1 + 8 ≤ p.1) → (∀ x, x ∈ F2 → b.1 + 8 * b.2 ≤ x.1) →
  seg (hmem s) (F1 ++ p :: F2) base → load32 (hmem s) (b.1 + 4) = b.2 → Z.of_nat (length (F1 ++ p :: F2)) < 2 ^ 31 →
  ∃ F' m', free (b.1 + 8) s = Ok tt (set_freep p.1 (set_hmem m' s)) ∧ inserted F1 p b F2 F' ∧ seg m' F' base ∧
    keeps (λ x, header b.1 x ∨ header p.1 x) (hmem s) m'.
Proof.
  intros Hba Hbp Hhead Hfp Hsort Hlow Hb Hb1 Hpb HF1 HF2 Hseg Hbs Hlen.
  assert (∀ x, x ∈ F1 ++ p :: F2 → 0 ≤ x.2) as Hpos by (intros x Hx; rewrite Forall_forall in Hlow; apply (Hlow x Hx)).
  destruct (low_aligned _ Hb) as (Ab & Ab4 & Ub & Ub2 & _).
  unfold free. rewrite u32_id, Z.add_simpl_r by (destruct Hb as (_ & ? & _ & ?); unfold is_u32; lia).
  rewrite run_bind_gets.
  assert (loop (free_body b.1) 31 (freep s) s = Ok p.1 s) as E1.
  { apply (free_find s b.1 F1 F2 p) with (n := n); try done; [lia|]. intros x Hx. specialize (HF2 x Hx). lia. }
  mstep E1. apply Forall_app in Hlow as [Hl1 Hl2]. apply Forall_cons in Hl2 as [Hp Hl2].
  apply links_app in Hseg as [Hseg1 Hseg2].
  destruct (join_next_run s b p F2) as (b' & rest & m1 & E2 & Hk1 & Eb' & El1 & El2 & Hcase); try done.
  { lia. }
  { intros q F -> Eq. apply Forall_cons in Hl2 as [(_ & _ & ? & ?) _]. lia. }
  mstep E2.
  assert (low b' ∧ Forall low rest ∧ (∀ x, x ∈ rest → x ∈ F2)) as (Hlb' & Hlr & Hrest).
  { destruct Hcase as [(-> & -> & _)|(q & -> & Eq & ->)]; [done|]. apply Forall_cons in Hl2 as [(Hq1 & Hq2 & Hq3 & Hq4) ?].
    destruct Hb as (? & ? & ? & ?). split_and!; [split_and!; cbn [fst snd]; (done || lia)|done|]. intros x Hx. by right. }
  assert (∀ l e, Forall low l → (∀ x, x ∈ l → x.1 + 8 ≤ b.1 ∨ b.1 + 8 ≤ x.1) → seg (hmem s) l e → seg m1 l e) as Hfr.
  { intros l e Hl Hd. apply links_frame. intros x Hx. rewrite Forall_forall in Hl.
    destruct (low_aligned _ (Hl x Hx)) as (? & ? & _). specialize (Hd x Hx).
    split; (eapply keeps_load; [done|done|unfold header; lia]). }
  destruct (join_prev_run (set_hmem m1 s) b' p F1 rest) as (F' & m2 & E3 & Hk2 & Hs' & Hcase'); cbn [hmem set_hmem]; rewrite ?Eb'; try done.
  { intros x Hx. specialize (HF2 x (Hrest x Hx)). lia. }
  { destruct (Hfr [p] (head F2 base)) as (_ & ? & _); [by apply Forall_singleton|intros x ->%list_elem_of_singleton; lia|destruct Hseg2 as (? & ? & _); done|done]. }
  { apply Hfr; [done|intros x Hx; specialize (HF1 x Hx); lia|done]. }
  { apply Hfr; [done|intros x Hx; specialize (HF2 x (Hrest x Hx)); lia|].
    destruct Hseg2 as (_ & _ & Hseg2). destruct Hcase as [(_ & -> & _)|(q & -> & _)]; [done|by destruct Hseg2 as (_ & _ & ?)]. }
  cbn [hmem set_hmem] in *. rewrite Eb' in *. mstep E3. rewrite run_modify. exists F', m2.
  split_and!; [done| |done|].
  - destruct Hcase as [(-> & -> & Hne)|(q & -> & Eq & ->)].
    + assert (∀ x, x ∈ F2 → b.1 + 8 * b.2 < x.1) as Hst.
      { apply strict_above; [|intros x Hx; split; [apply Hpos, elem_of_app; right; by right|by apply HF2]|done].
        apply StronglySorted_app in Hsort as (_ & _ & Hsort). by apply StronglySorted_inv in Hsort as [? _]. }
      destruct Hcase' as [[? ->]|[? ->]]; by constructor.
    + destruct Hcase' as [[? ->]|[? ->]]; by constructor.
  - apply (keeps_trans _ _ m1); [eapply keeps_weaken; [|exact Hk1]|eapply keeps_weaken; [|exact Hk2]]; auto.
Qed.

Lemma heap_low F A s : heap_ok F A s → Forall low ((base, 0) :: F).
Proof.
  intros H. destruct (hk_base _ _ _ H) as [Hb0 Hb]. destruct (hk_brk _ _ _ H) as [Hk _]. unfold KERNBASE in Hk. apply Forall_cons. split.
  - split_and!; cbn [fst snd]; [done|done|lia|lia].
  - apply Forall_forall. intros x Hx. apply (fits_low (brk s)); [lia|done|by apply (hk_free _ _ _ H)].
Qed.

Lemma heap_length F A s : heap_ok F A s → 8 + 8 * Z.of_nat (length F) < 2 ^ 31.
Proof.
  intros H. destruct (hk_base _ _ _ H) as [Hb0 Hb]. destruct (hk_brk _ _ _ H) as [Hk _]. unfold KERNBASE in Hk.
  pose proof (hk_sorted _ _ _ H) as Hs. apply StronglySorted_inv in Hs as [Hs _].
  pose proof (sorted_length (brk s) (base + 8) F) as Hl. assert (base + 8 + 8 * Z.of_nat (length F) ≤ brk s); [|lia].
  apply Hl; [lia|done|]. intros x Hx. destruct (hk_free _ _ _ H x Hx) as (_ & ? & ? & ?). lia.
Qed.

(** Addresses that hold neither a free block's header nor that of [b]. *)
Definition headers (F : list (Z * Z)) (x : Z) : Prop := ∃ y, y ∈ (base, 0) :: F ∧ header y.1 x.

(** The block [b] goes after [p]. *)
Record placed (F : list (Z * Z)) (b : Z * Z) (F1 : list (Z * Z)) (p : Z * Z) (F2 : list (Z * Z)) : Prop := {
  pl_list : (base, 0) :: F = F1 ++ p :: F2;
  pl_below : ∀ x, x ∈ F1 → x.1 + 8 ≤ p.1;
  pl_pos : (p = (base, 0) ∧ F1 = [] ∧ F = F2) ∨ (∃ F0, F1 = (base, 0) :: F0 ∧ F = F0 ++ p :: F2);
  pl_prev : p.1 + 8 * Z.max 1 p.2 ≤ b.1;
  pl_next : ∀ x, x ∈ F2 → b.1 + 8 * b.2 ≤ x.1;
  pl_base : base ≤ p.1;
}.

Lemma free_place F A s b :
  heap_ok F A s → fits (brk s) b → (∀ x, x ∈ F → apart x b) → ∃ F1 p F2, placed F b F1 p F2.
Proof.
  intros H Hb HFb. pose proof (heap_low F A s H) as Hlow.
  destruct (hk_base _ _ _ H) as [Hb0 Hba]. pose proof (hk_sorted _ _ _ H) as Hsort.
  assert (∀ x, x ∈ (base, 0) :: F → 0 ≤ x.2 ∧ x.1 ≠ b.1) as Hne.
  { intros x Hx. rewrite Forall_forall in Hlow. split; [apply (Hlow x Hx)|]. apply elem_of_cons in Hx as [->|Hx].
    - destruct Hb as (_ & ? & _). cbn [fst]. lia.
    - destruct (hk_free _ _ _ H x Hx) as (_ & _ & ? & _). destruct Hb as (_ & _ & ? & _).
      destruct (HFb x Hx); lia. }
  destruct (place ((base, 0) :: F) b.1) as (F1 & p & F2 & E & Hp & HF2); [destruct Hb as (_ & ? & _); cbn [head fst]; lia|done|done|done|].
  exists F1, p, F2.
  assert (∀ x, x ∈ F1 → x.1 + 8 ≤ p.1) as HF1.
  { destruct F1 as [|x0 F1]; [by intros x ?%not_elem_of_nil|]. injection E as <- EF. intros x Hx.
    assert (p ∈ F) as HpF by (rewrite EF; apply elem_of_app; right; by left).
    apply elem_of_cons in Hx as [->|Hx]; [by destruct (hk_free _ _ _ H p HpF) as (_ & ? & _)|].
    destruct (hk_free _ _ _ H x) as (_ & _ & ? & _); [rewrite EF; apply elem_of_app; by left|].
    apply StronglySorted_inv in Hsort as [Hsort _]. rewrite EF in Hsort. apply StronglySorted_app in Hsort as (Hx' & _ & _).
    specialize (Hx' x p Hx ltac:(by left)). unfold before in Hx'. lia. }
  assert ((p = (base, 0) ∧ F1 = [] ∧ F = F2) ∨ (∃ F0, F1 = (base, 0) :: F0 ∧ F = F0 ++ p :: F2)) as Hpos.
  { destruct F1 as [|x0 F1]; injection E as <- EF; [by left|right; by exists F1]. }
  assert (p.1 + 8 * Z.max 1 p.2 ≤ b.1) as Hpb.
  { destruct Hpos as [(-> & _)|(F0 & _ & EF)]; [destruct Hb as (_ & ? & _); cbn [fst snd]; lia|].
    assert (p ∈ F) as HpF by (rewrite EF; apply elem_of_app; right; by left).
    destruct (HFb p HpF); destruct (hk_free _ _ _ H p HpF) as (_ & _ & ? & _); destruct Hb as (_ & _ & ? & _); lia. }
  assert (∀ x, x ∈ F2 → x ∈ F) as HF2F.
  { intros x Hx. destruct Hpos as [(_ & _ & ->)|(F0 & _ & ->)]; [done|]. apply elem_of_app. right. by right. }
  assert (∀ x, x ∈ F2 → b.1 + 8 * b.2 ≤ x.1) as HF2b.
  { intros x Hx. specialize (HF2 x Hx). destruct (hk_free _ _ _ H x (HF2F x Hx)) as (_ & _ & ? & _). destruct (HFb x (HF2F x Hx)); lia. }
  assert (base ≤ p.1) as Hbp.
  { destruct Hpos as [(-> & _)|(F0 & -> & _)]; [done|]. specialize (HF1 (base, 0) ltac:(by left)). cbn [fst] in HF1. lia. }
  done.
Qed.

Lemma inserted_base F b F1 p F2 F' : placed F b F1 p F2 → inserted F1 p b F2 F' → ∃ F0, F' = (base, 0) :: F0.
Proof.
  intros Hp Hi. destruct (pl_pos _ _ _ _ _ Hp) as [(-> & -> & _)|(F0 & -> & _)]; [|destruct Hi; by eexists].
  pose proof (pl_prev _ _ _ _ _ Hp) as H. cbn [fst snd] in H. inversion Hi as [? H1|? ? H1|? H1|? ? H1]; cbn [fst snd app] in *; try lia; by eexists.
Qed.

Lemma inserted_heap F A s b F1 p F2 F' m' :
  heap_ok F A s → fits (brk s) b → (∀ y, y ∈ A → apart b y) → placed F b F1 p F2 →
  inserted F1 p b F2 ((base, 0) :: F') → seg m' ((base, 0) :: F') base → keeps (λ x, header b.1 x ∨ header p.1 x) (hmem s) m' →
  heap_ok F' A (set_freep p.1 (set_hmem m' s)).
Proof.
  intros H Hb HbA Hp Hi Hs Hk. pose proof (heap_low F A s H) as Hlow. destruct (hk_base _ _ _ H) as [Hb0 Hba].
  assert (StronglySorted before ((base, 0) :: F')) as Hsort.
  { apply (inserted_sorted _ _ _ _ _ Hi); rewrite <- ?(pl_list _ _ _ _ _ Hp); [apply H| |destruct Hb as (_ & _ & ? & _); lia].
    intros x Hx. rewrite Forall_forall in Hlow. by apply Hlow. }
  assert (∀ x, x ∈ F' → base < x.1) as Hgt.
  { intros x Hx. apply StronglySorted_inv in Hsort as [_ Hx']. rewrite Forall_forall in Hx'. specialize (Hx' x Hx).
    unfold before in Hx'. cbn [fst snd] in Hx'. lia. }
  (* every node but [base] is a fitting block, away from the blocks in use *)
  assert (∀ y, y ∈ (base, 0) :: F' → y = (base, 0) ∨ (fits (brk s) y ∧ ∀ a, a ∈ A → apart y a)) as Hnodes.
  { apply (inserted_nodes _ _ _ _ _ _ Hi).
    - rewrite <- (pl_list _ _ _ _ _ Hp). intros x [->|Hx]%elem_of_cons; [by left|right]. split; [by apply (hk_free _ _ _ H)|].
      intros a Ha. by apply (hk_apart _ _ _ H).
    - by right.
    - intros x y [->|[(Hx1 & Hx2 & Hx3 & Hx4) Hxa]] [->|[(Hy1 & Hy2 & Hy3 & Hy4) Hya]] E; cbn [fst snd] in E; [by left|lia|lia|right].
      split; [split_and!; cbn [fst snd]; (done || lia)|]. intros a Ha. specialize (Hxa a Ha). specialize (Hya a Ha).
      destruct (hk_alloc _ _ _ H a Ha) as [(_ & _ & ? & _) _]. unfold apart in *. cbn [fst snd]. lia. }
  assert (∀ x, x ∈ F' → fits (brk s) x ∧ ∀ a, a ∈ A → apart x a) as HF'.
  { intros x Hx. destruct (Hnodes x) as [->|?]; [by right| |done]. specialize (Hgt _ Hx). cbn [fst] in Hgt. lia. }
  split; cbn [hmem freep brk set_freep set_hmem]; try done; try apply H.
  - by eapply inserted_prev.
  - intros x Hx. by apply HF'.
  - intros a Ha. destruct (hk_alloc _ _ _ H a Ha) as [Hfa Ea]. split; [done|]. rewrite <- Ea.
    destruct (low_aligned a) as (_ & Ha4 & _).
    { apply (fits_low (brk s)); [destruct (hk_brk _ _ _ H) as [Hk' _]; unfold KERNBASE in Hk'; lia|done|done]. }
    apply (keeps_load _ _ _ _ Hk Ha4). intros x Hx [Hh|Hh]; unfold header in Hh.
    + specialize (HbA a Ha). destruct Hb as (_ & _ & ? & _). destruct Hfa as (_ & _ & ? & _). unfold apart in HbA. lia.
    + assert (p = (base, 0) ∨ p ∈ F) as [->|HpF].
      { destruct (pl_pos _ _ _ _ _ Hp) as [(-> & _)|(F0 & _ & ->)]; [by left|right]. apply elem_of_app. right. by left. }
      * destruct Hfa as (_ & ? & _). cbn [fst] in Hh. lia.
      * destruct (hk_apart _ _ _ H p a HpF Ha); destruct (hk_free _ _ _ H p HpF) as (_ & _ & ? & _); destruct Hfa as (_ & _ & ? & _); lia.
  - intros x a Hx Ha. by apply HF'.
Qed.

Lemma free_run F A s b :
  heap_ok F A s → fits (brk s) b → (∀ x, x ∈ F → apart x b) → (∀ y, y ∈ A → apart b y) → load32 (hmem s) (b.1 + 4) = b.2 →
  ∃ F' s', free (b.1 + 8) s = Ok tt s' ∧ heap_ok F' A s' ∧ brk s' = brk s ∧ total F' = total F + b.2 ∧
    (∃ y, y ∈ F' ∧ b.2 ≤ y.2) ∧ keeps (λ x, header b.1 x ∨ headers F x) (hmem s) (hmem s').
Proof.
  intros H Hb HFb HbA Ebs. pose proof (heap_low F A s H) as Hlow. pose proof (heap_length F A s H) as Hlen.
  destruct (free_place F A s b H Hb HFb) as (F1 & p & F2 & Hp). pose proof (pl_list _ _ _ _ _ Hp) as E.
  destruct (hk_freep _ _ _ H) as [n Hfp]. pose proof (hk_ring _ _ _ H) as Hring. pose proof (hk_sorted _ _ _ H) as Hsort.
  destruct (hk_base _ _ _ H) as [Hb0 Hba]. destruct (hk_brk _ _ _ H) as [Hbk _]. unfold KERNBASE in Hbk.
  assert (head (F1 ++ p :: F2) base = base) as Hhead by by rewrite <- E.
  assert (p ∈ (base, 0) :: F) as Hpin by (rewrite E; apply elem_of_app; right; by left).
  assert (∀ x, x ∈ F1 ++ p :: F2 → 0 ≤ x.2) as Hpos by (rewrite <- E; rewrite Forall_forall in Hlow; intros x Hx; apply (Hlow x Hx)).
  assert (1 ≤ b.2) as Hb1 by (by destruct Hb as (_ & _ & ? & _)).
  rewrite E in Hlow, Hsort, Hfp, Hring.
  destruct (free_places F1 p F2 s b n) as (F' & m' & Ef & Hi & Hs' & Hk'); try done; try apply Hp.
  { apply (fits_low (brk s)); [lia|done|done]. }
  { rewrite <- E. cbn [length]. lia. }
  destruct (inserted_base _ _ _ _ _ _ Hp Hi) as [F0 ->]. exists F0. eexists. split; [exact Ef|]. split_and!.
  - by eapply inserted_heap.
  - done.
  - pose proof (inserted_total _ _ _ _ _ Hi) as Ht. rewrite <- E in Ht. unfold total in *. cbn [foldr snd] in Ht. lia.
  - destruct (inserted_big _ _ _ _ _ Hi Hpos) as (y & [->|Hy]%elem_of_cons & Hby); [cbn [snd] in Hby; lia|by exists y].
  - eapply keeps_weaken; [|exact Hk']. intros x [Hx|Hx]; [by left|right]. by exists p.
Qed.

(** ** malloc *)

(** The address before a position in the list. *)
Fixpoint lasta (y : Z) (l : list (Z * Z)) : Z := match l with [] => y | x :: l => lasta x.1 l end.

Lemma lasta_app y l1 l2 : lasta y (l1 ++ l2) = lasta (lasta y l1) l2.
Proof. revert y. induction l1 as [|x l1 IH]; intros y; [done|]. apply IH. Qed.

Lemma lasta_any y y' l : l ≠ [] → lasta y l = lasta y' l.
Proof. by destruct l. Qed.

Section scan.
Context (pages : Z → Z → bool) (N : Z) (s : heap) (L : list (Z * Z)) (HL : seg (hmem s) L base) (Hh : head L base = base).
Context (Hsort : StronglySorted before L) (Hpos : ∀ x, x ∈ L → 0 ≤ x.2).
Notation body := (malloc_body pages N).

Lemma scan X P Q y :
  L = P ++ X ++ Q → (∀ x, x ∈ X → x.1 ≠ freep s) →
  (∃ X1 x X2, X = X1 ++ x :: X2 ∧ N ≤ x.2 ∧
     ∀ k, iter body (length X1 + k) (y, head (X ++ Q) base) s = iter body k (lasta y X1, x.1) s) ∨
  ((∀ x, x ∈ X → x.2 < N) ∧ ∀ k, iter body (length X + k) (y, head (X ++ Q) base) s = iter body k (lasta y X, head Q base) s).
Proof using HL.
  revert P y. induction X as [|x X IH]; intros P y E Hne.
  { right. split; [|done]. by intros x ?%not_elem_of_nil. }
  destruct (decide (N ≤ x.2)) as [Hx|Hx]; [left; by exists [], x, X|].
  assert (load32 (hmem s) x.1 = head (X ++ Q) base ∧ load32 (hmem s) (x.1 + 4) = x.2) as [E1 E2].
  { rewrite E in HL. apply links_app in HL as [_ (? & ? & _)]. done. }
  assert (body (y, x.1) s = Ok (inl (x.1, head (X ++ Q) base)) s) as Hstep.
  { unfold malloc_body. hstep. rewrite E2. assert (N <=? x.2 = false) as -> by lia. rewrite run_bind_gets.
    rewrite (proj2 (Z.eqb_neq _ _)) by (apply Hne; by left). hstep. by rewrite E1. }
  destruct (IH (P ++ [x]) x.1) as [(X1 & x' & X2 & -> & Hx' & Hk)|[Hall Hk]].
  { by rewrite <- app_assoc. }
  { intros x' Hx'. apply Hne. by right. }
  - left. exists (x :: X1), x', X2. split_and!; [done..|]. intros k. cbn [length Nat.add lasta]. rewrite <- Hk.
    cbn [app head] in *. by apply iter_next.
  - right. split; [intros x' [->|Hx']%elem_of_cons; [lia|by apply Hall]|]. intros k. cbn [length Nat.add lasta]. rewrite <- Hk.
    cbn [app head] in *. by apply iter_next.
Qed.

(** One turn around the list, from the node after [freep] to [freep]. *)
Lemma turn n :
  (freep s, n) ∈ L → head L base = base → (∃ F, L = (base, 0) :: F) → 1 ≤ N →
  ∃ c, (c < length L)%nat ∧
    ((∃ H x T, L = H ++ x :: T ∧ H ≠ [] ∧ N ≤ x.2 ∧
        ∀ k, iter body (c + k) (freep s, load32 (hmem s) (freep s)) s = iter body k (lasta 0 H, x.1) s) ∨
     ((∀ x, x ∈ L → x.2 < N) ∧ ∃ y, ∀ k, iter body (c + k) (freep s, load32 (hmem s) (freep s)) s = iter body k (y, freep s) s)).
Proof using All.
  intros Hfp Hhead [F EF] HN. apply list_elem_of_split in Hfp as (G1 & G2 & E).
  assert (load32 (hmem s) (freep s) = head G2 base) as Efp.
  { rewrite E in HL. by apply links_app in HL as [_ (? & _)]. }
  rewrite E in Hsort, Hpos. destruct (sorted_around _ _ _ Hsort Hpos) as (_ & _ & Hlt & Hgt). cbn [fst] in Hlt, Hgt.
  rewrite Efp, E, length_app. cbn [length].
  destruct (scan G2 (G1 ++ [(freep s, n)]) [] (freep s)) as [(X1 & x & X2 & EX & Hx & Hk)|[Hall Hk]].
  { rewrite app_nil_r, <- app_assoc. done. }
  { intros x Hx. specialize (Hgt x Hx). lia. }
  { exists (length X1). split; [rewrite EX, length_app; cbn [length]; lia|]. left. exists (G1 ++ (freep s, n) :: X1), x, X2.
    split_and!; [by rewrite EX, <- app_assoc|by destruct G1|done|]. intros k. rewrite app_nil_r in Hk. rewrite Hk.
    by rewrite lasta_app. }
  rewrite app_nil_r in Hk. cbn [head] in Hk.
  destruct (scan G1 [] ((freep s, n) :: G2) (lasta (freep s) G2)) as [(X1 & x & X2 & EX & Hx & Hk2)|[Hall2 Hk2]].
  { done. }
  { intros x Hx. specialize (Hlt x Hx). lia. }
  all: rewrite <- E, Hhead in Hk2.
  - exists (length G2 + length X1)%nat. split; [rewrite EX, length_app; cbn [length]; lia|]. left. exists X1, x, (X2 ++ (freep s, n) :: G2).
    assert (X1 ≠ []) as HX1. { intros ->. rewrite E, EX in EF. injection EF as -> _. cbn [snd] in Hx. lia. }
    split_and!; [by rewrite EX, <- app_assoc|done|done|]. intros k. rewrite <- Nat.add_assoc, Hk, Hk2.
    by rewrite (lasta_any _ 0) by done.
  - destruct (decide (N ≤ n)) as [Hn|Hn].
    + exists (length G2 + length G1)%nat. split; [lia|]. left. exists G1, (freep s, n), G2.
      assert (G1 ≠ []) as HG1. { intros ->. rewrite E in EF. injection EF as _ -> _. lia. }
      split_and!; [done..|]. intros k. rewrite <- Nat.add_assoc, Hk, Hk2. cbn [head fst]. by rewrite (lasta_any _ 0) by done.
    + exists (length G2 + length G1)%nat. split; [lia|]. right. split.
      * intros x [Hx|[->|Hx]%elem_of_cons]%elem_of_app; [by apply Hall2|cbn [snd]; lia|by apply Hall].
      * eexists. intros k. rewrite <- Nat.add_assoc, Hk, Hk2. done.
Qed.
End scan.

(** The list without [N] units of the block [x]: the block itself, or its end. *)
Definition taken (N : Z) (x : Z * Z) : list (Z * Z) := if decide (x.2 = N) then [] else [(x.1, x.2 - N)].
Definition cut (N : Z) (x : Z * Z) : Z * Z := (x.1 + 8 * (x.2 - N), N).

(** The memory after it, for the node [y] before [x]. *)
Definition cut_mem (N : Z) (y : Z) (x : Z * Z) (m : mem) : mem :=
  if decide (x.2 = N) then store32 y (load32 m x.1) m
  else store32 ((cut N x).1 + 4) N (store32 (x.1 + 4) (x.2 - N) m).

Lemma take_run pages N y x s :
  low x → 1 ≤ N ≤ x.2 → load32 (hmem s) (x.1 + 4) = x.2 →
  malloc_body pages N (y, x.1) s = Ok (inr ((cut N x).1 + 8)) (set_freep y (set_hmem (cut_mem N y x (hmem s)) s)).
Proof.
  intros Hx HN Ex. destruct (low_aligned _ Hx) as (_ & _ & Ux & Ux2 & _). destruct Hx as (_ & ? & ? & ?).
  unfold malloc_body, cut_mem, cut. cbn [fst]. hstep. rewrite Ex. assert (N <=? x.2 = true) as -> by lia.
  destruct (Z.eqb_spec x.2 N) as [E|E].
  - rewrite decide_True by done. repeat (mred; hstep). mred. rewrite E, Z.sub_diag, Z.mul_0_r, Z.add_0_r.
    rewrite u32_id by (unfold is_u32; lia). done.
  - rewrite decide_False by done. mred. hstep. rewrite (u32_id (x.2 - N)) by (unfold is_u32 in *; lia).
    rewrite (u32_id (x.1 + 8 * (x.2 - N))) by (unfold is_u32 in *; lia). mred. hstep. mred.
    rewrite u32_id by (unfold is_u32 in *; lia). done.
Qed.

(** The headers of the list lie apart. *)
Lemma nodes_apart F A s P x Q :
  heap_ok F A s → (base, 0) :: F = P ++ x :: Q → (∀ y, y ∈ P → y.1 + 8 ≤ x.1) ∧ (∀ y, y ∈ Q → x.1 + 8 * Z.max 1 x.2 ≤ y.1).
Proof.
  intros H E. pose proof (hk_sorted _ _ _ H) as Hs. rewrite E in Hs. apply StronglySorted_app in Hs as (H1 & _ & H2).
  apply StronglySorted_inv in H2 as [_ H2]. rewrite Forall_forall in H2.
  assert (∀ y z, y ∈ (base, 0) :: F → z ∈ F → before y z → y.1 + 8 * Z.max 1 y.2 ≤ z.1) as Hb.
  { intros y z [->|Hy]%elem_of_cons Hz Hb; destruct (hk_free _ _ _ H z Hz) as (_ & ? & _); [cbn [fst snd]; lia|].
    destruct (hk_free _ _ _ H y Hy) as (_ & _ & ? & _). unfold before in Hb. lia. }
  assert (∀ y P' Q', (base, 0) :: F = P' ++ y :: Q' → P' ≠ [] → y ∈ F) as Hin.
  { intros y [|? P'] Q' E' ?; [done|]. injection E' as _ ->. apply elem_of_app. right. by left. }
  split; intros y Hy.
  - assert (x ∈ F) as Hx by (apply (Hin x P Q E); by destruct P; [apply not_elem_of_nil in Hy|]).
    assert (y ∈ (base, 0) :: F) as Hy' by (rewrite E; apply elem_of_app; by left).
    specialize (Hb y x Hy' Hx (H1 y x Hy ltac:(by left))). lia.
  - apply Hb; [rewrite E; apply elem_of_app; right; by left| |by apply H2].
    apply list_elem_of_split in Hy as (Q1 & Q2 & EQ). apply (Hin y (P ++ x :: Q1) Q2); [by rewrite E, EQ, <- app_assoc|by destruct P].
Qed.

(** Memory that changes only at the header [a] leaves other nodes as they are. *)
Lemma links_keeps (P : Z → Prop) m m' l e :
  keeps P m m' → Forall low l → (∀ x a, x ∈ l → header x.1 a → ¬ P a) → seg m l e → seg m' l e.
Proof.
  intros Hk Hl Hd. apply links_frame. intros x Hx. rewrite Forall_forall in Hl. destruct (low_aligned _ (Hl x Hx)) as (? & ? & _).
  split; (eapply keeps_load; [done|done|]; intros a Ha; apply (Hd x a Hx); unfold header; lia).
Qed.

Lemma cut_keeps N y x m :
  low x → aligned y → 1 ≤ N ≤ x.2 → keeps (λ a, header y a ∨ header x.1 a ∨ header (cut N x).1 a) m (cut_mem N y x m).
Proof.
  intros Hx Hy HN. destruct (low_aligned _ Hx) as (Ax & Ax4 & _). destruct Hx as (_ & ? & ? & ?). unfold cut_mem. case_decide.
  - apply keeps_store; [done|]. unfold header. lia.
  - eapply keeps_trans; apply keeps_store; try done; [unfold header; lia| |unfold header, cut; cbn [fst]; lia].
    unfold cut. cbn [fst]. destruct Ax4 as [? ?]. unfold aligned. split; [lia|]. dmlia.
Qed.

Lemma cut_seg F A s H x T N :
  heap_ok F A s → (base, 0) :: F = H ++ x :: T → H ≠ [] → 1 ≤ N ≤ x.2 →
  seg (cut_mem N (lasta 0 H) x (hmem s)) (H ++ taken N x ++ T) base.
Proof.
  intros Hk E HH HN. destruct (exists_last HH) as (H0 & z & ->). rewrite lasta_app. cbn [lasta].
  pose proof (heap_low _ _ _ Hk) as Hlow. pose proof (hk_ring _ _ _ Hk) as Hs.
  destruct (nodes_apart _ _ _ _ _ _ Hk E) as [Hx1 Hx2].
  assert ((base, 0) :: F = H0 ++ z :: x :: T) as E' by by rewrite E, <- app_assoc.
  destruct (nodes_apart _ _ _ _ _ _ Hk E') as [Hz1 Hz2].
  rewrite E in Hlow, Hs. rewrite <- app_assoc in Hlow, Hs. cbn [app] in Hlow, Hs.
  apply Forall_app in Hlow as [L0 Hlow]. apply Forall_cons in Hlow as [Lz Hlow]. apply Forall_cons in Hlow as [Lx LT].
  apply links_app in Hs as [S0 (Sz1 & Sz2 & Sx1 & Sx2 & ST)]. cbn [head] in S0, Sz1.
  destruct (low_aligned _ Lz) as (Az & Az4 & _). destruct (low_aligned _ Lx) as (Ax & Ax4 & Ux & Ux2 & _).
  specialize (Hz2 x ltac:(by left)) as Hzx. pose proof (cut_keeps N z.1 x (hmem s) Lx Az HN) as Hkeep.
  assert (∀ a, header (cut N x).1 a → x.1 ≤ a < x.1 + 8 * x.2) as Hcut by (intros a; unfold header, cut; cbn [fst]; lia).
  rewrite <- app_assoc. apply links_app. split.
  { cbn [app head]. apply (links_keeps _ _ _ _ _ Hkeep L0); [|done]. intros u a Hu Ha. specialize (Hz1 u Hu).
    intros [Hb|[Hb|Hb]]; [..|apply Hcut in Hb]; unfold header in *; lia. }
  assert (seg (cut_mem N z.1 x (hmem s)) T base) as ST'.
  { apply (links_keeps _ _ _ _ _ Hkeep LT); [|done]. intros u a Hu Ha. specialize (Hx2 u Hu).
    intros [Hb|[Hb|Hb]]; [..|apply Hcut in Hb]; unfold header in *; lia. }
  unfold taken, cut_mem in *. destruct (decide (x.2 = N)) as [EN|EN]; cbn [app seg head].
  - split_and!; [| |done].
    + rewrite ldst, decide_True, Sx1 by done. apply u32_id. destruct T as [|u T]; [apply (hk_base _ _ _ Hk)|].
      apply Forall_cons in LT as [Lu _]. by apply low_aligned.
    + rewrite ldst, decide_False by (done || lia). done.
  - assert (aligned ((cut N x).1 + 4)) as Ac.
    { unfold cut. cbn [fst]. destruct Lx as (_ & ? & ? & ?). destruct Ax4. split; [lia|]. dmlia. }
    assert (x.1 + 8 ≤ (cut N x).1) by (unfold cut; cbn [fst]; lia).
    split_and!; [| | | |done]; cbn [fst snd]; rewrite !ldst by done.
    + rewrite !decide_False by lia. done.
    + rewrite !decide_False by lia. done.
    + rewrite !decide_False by lia. done.
    + rewrite decide_False, decide_True by lia. apply u32_id. unfold is_u32 in *. lia.
Qed.

Lemma cut_sorted H x T N :
  StronglySorted before (H ++ x :: T) → (∀ y, y ∈ H ++ x :: T → 0 ≤ y.2) → 1 ≤ N ≤ x.2 → StronglySorted before (H ++ taken N x ++ T).
Proof.
  intros Hs Hp HN. pose proof (sorted_around _ _ _ Hs Hp) as (H1 & H2 & _).
  apply StronglySorted_app in Hs as (Ha & Hs1 & Hs2). apply StronglySorted_inv in Hs2 as [Hs2 _].
  apply StronglySorted_app. split_and!; [|done|].
  - intros y z Hy Hz. apply elem_of_app in Hz as [Hz|Hz]; [|apply Ha; [done|by right]].
    unfold taken in Hz. case_decide; [by apply not_elem_of_nil in Hz|]. apply list_elem_of_singleton in Hz as ->.
    specialize (H1 y Hy). unfold before. cbn [fst]. lia.
  - unfold taken. case_decide; [done|]. apply SSorted_cons; [done|]. apply Forall_forall. intros y Hy. specialize (H2 y Hy).
    unfold before. cbn [fst snd]. lia.
Qed.

Lemma cut_inside N x : 1 ≤ N ≤ x.2 → x.1 ≤ (cut N x).1 ∧ (cut N x).1 + 8 * N = x.1 + 8 * x.2 ∧ ∀ y, y ∈ taken N x → y.1 = x.1 ∧ y.1 + 8 * y.2 = (cut N x).1 ∧ 1 ≤ y.2.
Proof.
  intros HN. unfold cut, taken. cbn [fst]. split_and!; [lia|lia|]. intros y. case_decide; [by intros ?%not_elem_of_nil|].
  intros ->%list_elem_of_singleton. cbn [fst snd]. lia.
Qed.

(** The blocks after the cut: the new one, and the rest of the list. *)
Lemma take_blocks F A s H0 x T N :
  heap_ok F A s → F = H0 ++ x :: T → 1 ≤ N ≤ x.2 →
  fits (brk s) (cut N x) ∧ cut N x ∉ A ∧ (∀ a, a ∈ A → apart (cut N x) a) ∧
  ∀ z, z ∈ H0 ++ taken N x ++ T → fits (brk s) z ∧ apart z (cut N x) ∧ ∀ a, a ∈ A → apart z a.
Proof.
  intros H EF HN. destruct (cut_inside N x HN) as (Hc1 & Hc2 & Htk). assert ((cut N x).2 = N) as Hc3 by done.
  assert (x ∈ F) as Hx by (rewrite EF; apply elem_of_app; right; by left).
  destruct (hk_free _ _ _ H x Hx) as (Ax & Hxb & Hx1 & Hxk). destruct (hk_brk _ _ _ H) as [Hbk _]. unfold KERNBASE in Hbk.
  assert (∀ a, a ∈ A → apart (cut N x) a ∧ 1 ≤ a.2) as HA.
  { intros a Ha. destruct (hk_alloc _ _ _ H a Ha) as [(_ & _ & ? & _) _]. destruct (hk_apart _ _ _ H x a Hx Ha); unfold apart; lia. }
  split_and!.
  - split_and!; [|lia..]. unfold cut. destruct Ax. cbn [fst]. split; [lia|dmlia].
  - intros Ha. destruct (HA _ Ha) as [Hap _]. unfold apart in Hap. lia.
  - intros a Ha. by apply HA.
  - pose proof (hk_sorted _ _ _ H) as Hs. apply StronglySorted_inv in Hs as [Hs _]. rewrite EF in Hs.
    apply sorted_around in Hs as (Hlt & Hgt & _); [|rewrite <- EF; intros z Hz; destruct (hk_free _ _ _ H z Hz) as (_ & _ & ? & _); lia].
    intros z [Hz|[Hz|Hz]%elem_of_app]%elem_of_app.
    + assert (z ∈ F) by (rewrite EF; apply elem_of_app; by left).
      split_and!; [by apply (hk_free _ _ _ H)|left; specialize (Hlt z Hz); lia|intros a Ha; by apply (hk_apart _ _ _ H)].
    + destruct (Htk z Hz) as (E1 & E2 & E3). split_and!; [split_and!; rewrite ?E1; (done || lia)|left; lia|].
      intros a Ha. destruct (hk_apart _ _ _ H x a Hx Ha); [left|right]; lia.
    + assert (z ∈ F) by (rewrite EF; apply elem_of_app; right; by right).
      split_and!; [by apply (hk_free _ _ _ H)|right; specialize (Hgt z Hz); lia|intros a Ha; by apply (hk_apart _ _ _ H)].
Qed.

(** The node before [x]. *)
Lemma lasta_node F A s H0 x T :
  heap_ok F A s → F = H0 ++ x :: T → ∃ n, (lasta base H0, n) ∈ (base, 0) :: H0 ∧ aligned (lasta base H0) ∧ lasta base H0 + 8 ≤ x.1 ∧
    ∀ a, a ∈ A → lasta base H0 + 8 ≤ a.1 ∨ a.1 + 8 * a.2 ≤ lasta base H0.
Proof.
  intros H EF. assert (∃ n, (lasta base H0, n) ∈ (base, 0) :: H0) as [n Hy].
  { clear. destruct H0 as [|z H0] using rev_ind; [exists 0; by left|]. rewrite lasta_app. cbn [lasta]. exists z.2.
    destruct z. right. apply elem_of_app. right. by left. }
  exists n. assert ((base, 0) :: F = ((base, 0) :: H0) ++ x :: T) as E by by rewrite EF.
  destruct (nodes_apart _ _ _ _ _ _ H E) as [Hlo _]. pose proof (heap_low _ _ _ H) as Hlow. rewrite E, Forall_forall in Hlow.
  split_and!; [done|apply (Hlow (_, n)), elem_of_app; by left|by apply (Hlo (_, n))|].
  intros a Ha. destruct (hk_alloc _ _ _ H a Ha) as [(_ & ? & ? & _) _]. apply elem_of_cons in Hy as [[= -> _]|Hy]; [by left|].
  assert ((lasta base H0, n) ∈ F) as HF by (rewrite EF; apply elem_of_app; by left).
  destruct (hk_free _ _ _ H _ HF) as (_ & _ & ? & _). destruct (hk_apart _ _ _ H _ a HF Ha); cbn [fst snd] in *; lia.
Qed.

Lemma take_heap F A s H0 x T N :
  heap_ok F A s → F = H0 ++ x :: T → 1 ≤ N ≤ x.2 →
  let y := lasta base H0 in
  heap_ok (H0 ++ taken N x ++ T) ({[cut N x]} ∪ A) (set_freep y (set_hmem (cut_mem N y x (hmem s)) s)).
Proof.
  intros H EF HN y. destruct (take_blocks _ _ _ _ _ _ _ H EF HN) as (Hcf & Hcn & Hca & Hz).
  destruct (lasta_node _ _ _ _ _ _ H EF) as (n & Hy & Ay & Hyx & HyA). fold y in Hy, Ay, Hyx, HyA.
  assert ((base, 0) :: F = ((base, 0) :: H0) ++ x :: T) as E by by rewrite EF.
  assert (x ∈ F) as Hx by (rewrite EF; apply elem_of_app; right; by left).
  destruct (hk_base _ _ _ H) as [Hb0 Hba]. destruct (hk_brk _ _ _ H) as [Hbk _]. unfold KERNBASE in Hbk.
  assert (∀ z, fits (brk s) z → low z) as Hfl by (intros z; apply fits_low; (lia || done)).
  assert (low x) as Lx by by apply Hfl, (hk_free _ _ _ H).
  destruct (low_aligned _ Lx) as (Ax & Ax4 & _).
  pose proof (heap_low _ _ _ H) as Hlow. pose proof (hk_sorted _ _ _ H) as Hsort. rewrite E in Hlow, Hsort. rewrite Forall_forall in Hlow.
  split; cbn [hmem freep brk set_freep set_hmem]; try apply H.
  - exact (cut_seg F A s ((base, 0) :: H0) x T N H E ltac:(done) HN).
  - exists n. apply elem_of_cons in Hy as [Hy|Hy]; [rewrite Hy; by left|right]. apply elem_of_app. by left.
  - apply (cut_sorted ((base, 0) :: H0)); [done| |done]. intros z Hz'. by apply Hlow.
  - intros z Hz'. by apply Hz.
  - intros a [->%elem_of_singleton|Ha]%elem_of_union.
    + split; [done|]. unfold cut_mem. case_decide as EN.
      * assert ((cut N x).1 = x.1) as -> by (unfold cut; cbn [fst]; lia). rewrite ldst, decide_False by (done || lia).
        rewrite <- EN. pose proof (hk_ring _ _ _ H) as Hr. rewrite E in Hr. by apply links_app in Hr as [_ (_ & ? & _)].
      * rewrite load32_store32. apply u32_id. destruct Hcf as (_ & ? & ? & ?). unfold cut in *. cbn [fst snd] in *. unfold is_u32. lia.
    + destruct (hk_alloc _ _ _ H a Ha) as [Hfa Ea]. split; [done|]. rewrite <- Ea. destruct (low_aligned _ (Hfl a Hfa)) as (_ & Aa & _).
      apply (keeps_load _ _ _ _ (cut_keeps N y x (hmem s) Lx Ay HN) Aa). destruct Hfa as (_ & _ & ? & _). destruct Hcf as (_ & _ & ? & _).
      specialize (HyA a Ha). specialize (Hca a Ha). pose proof (hk_apart _ _ _ H x a Hx Ha) as Hxa. unfold header, apart in *. lia.
  - intros z a Hz' Ha. destruct (Hz z Hz') as (_ & ? & ?). apply elem_of_union in Ha as [->%elem_of_singleton|Ha]; auto.
  - intros a a' [->%elem_of_singleton|Ha]%elem_of_union [->%elem_of_singleton|Ha']%elem_of_union Hne; [done|by apply Hca| |by apply (hk_excl _ _ _ H)].
    destruct (Hca a Ha); [by right|by left].
Qed.

(** The contents of the blocks in use. *)
Definition same_use (A : gset (Z * Z)) (s s' : heap) : Prop :=
  ∀ a x, a ∈ A → a.1 ≤ x < a.1 + 8 * a.2 → hmem s' x = hmem s x.

Lemma headers_away F A s a x : heap_ok F A s → a ∈ A → a.1 ≤ x < a.1 + 8 * a.2 → ¬ headers F x.
Proof.
  intros H Ha Hx (y & Hy & Hh). destruct (hk_alloc _ _ _ H a Ha) as [(_ & ? & _) _]. unfold header in Hh.
  apply elem_of_cons in Hy as [->|Hy]; [cbn [fst] in Hh; lia|].
  destruct (hk_free _ _ _ H y Hy) as (_ & _ & ? & _). destruct (hk_apart _ _ _ H y a Hy Ha); lia.
Qed.

Lemma keeps_use F A s s' P :
  heap_ok F A s → keeps P (hmem s) (hmem s') → (∀ a x, a ∈ A → a.1 ≤ x < a.1 + 8 * a.2 → ¬ P x) → same_use A s s'.
Proof.
  intros H Hk HP a x Ha Hx. apply Hk; [|by eapply HP].
  destruct (hk_alloc _ _ _ H a Ha) as [([? _] & _ & ? & ?) _]. destruct (hk_brk _ _ _ H) as [Hb _]. unfold KERNBASE in Hb. unfold is_u32. lia.
Qed.

(** A larger process, with the memory below the old end as it was. *)
Lemma heap_grow F A s m b :
  heap_ok F A s → keeps (λ x, brk s ≤ x) (hmem s) m → brk s ≤ b < KERNBASE → aligned b → heap_ok F A (set_brk b (set_hmem m s)).
Proof.
  intros H Hk Hb Hal. pose proof (heap_low _ _ _ H) as Hlow. destruct (hk_brk _ _ _ H) as [Hbk _].
  assert (∀ x, fits (brk s) x → fits b x) as Hf by (intros x (? & ? & ? & ?); split_and!; (done || lia)).
  split; cbn [hmem freep brk set_brk set_hmem]; try apply H.
  - split; [lia|done].
  - apply (links_keeps _ _ _ _ _ Hk Hlow); [|apply H]. intros x a Hx Ha. unfold header in Ha.
    apply elem_of_cons in Hx as [->|Hx]; [cbn [fst] in Ha; lia|]. destruct (hk_free _ _ _ H x Hx) as (_ & _ & ? & ?). lia.
  - intros x Hx. by apply Hf, (hk_free _ _ _ H).
  - intros a Ha. destruct (hk_alloc _ _ _ H a Ha) as [Hfa Ea]. split; [by apply Hf|]. rewrite <- Ea.
    destruct (hk_base _ _ _ H) as [Hb0 _]. unfold KERNBASE in *.
    destruct (low_aligned a) as (_ & Aa & _); [apply (fits_low (brk s)); (lia || done)|].
    apply (keeps_load _ _ _ _ Hk Aa). destruct Hfa as (_ & _ & ? & ?). lia.
Qed.

(** The kernel refuses to extend the process for [N] units. *)
Definition refused (pages : Z → Z → bool) (s : heap) (N : Z) : Prop :=
  let new := brk s + 8 * Z.max N 4096 in KERNBASE ≤ new ∨ pages (brk s) new = false.

Lemma morecore_run pages F A s N :
  heap_ok F A s → 1 ≤ N → 8 * N < 2 ^ 31 →
  (morecore pages N s = Ok 0 s ∧ refused pages s N) ∨
  ∃ F' s', morecore pages N s = Ok (freep s') s' ∧ heap_ok F' A s' ∧ same_use A s s' ∧ ∃ y, y ∈ F' ∧ N ≤ y.2.
Proof.
  intros H HN HN8. unfold morecore. set (nu := if N <? 4096 then 4096 else N).
  assert (N ≤ nu ∧ 8 ≤ nu * 8 < 2 ^ 31) as [Hnu1 Hnu2] by (unfold nu; destruct (Z.ltb_spec N 4096); lia).
  assert (8 * Z.max N 4096 = nu * 8) as Emax by (unfold nu; destruct (Z.ltb_spec N 4096); lia).
  unfold refused. rewrite Emax.
  destruct (hk_brk _ _ _ H) as [Hb Hba]. destruct (hk_base _ _ _ H) as [Hb0 _]. unfold KERNBASE in Hb.
  unfold sbrk. mred. rewrite s32_id by (unfold is_s32; lia). unfold grown.
  rewrite (u32_id (brk s + nu * 8)) by (unfold is_u32; lia).
  assert (0 <? nu * 8 = true) as -> by lia. assert (nu * 8 =? 0 = false) as -> by lia. cbn [negb andb].
  destruct (Z.leb_spec KERNBASE (brk s + nu * 8)) as [Hk|Hk]; [left; split; [done|by left]|]. unfold KERNBASE in Hk.
  assert (brk s + nu * 8 <? brk s = false) as -> by lia.
  destruct (pages (brk s) (brk s + nu * 8)); [|left; split; [done|by right]].
  assert (brk s + nu * 8 =? 0 = false) as -> by lia. mred. assert (brk s =? 2 ^ 32 - 1 = false) as -> by lia.
  set (m := zeroed _ _ _). right. hstep.
  assert (keeps (λ x, brk s ≤ x) (hmem s) (store32 (brk s + 4) nu m)) as Hkm.
  { apply (keeps_trans _ _ m); [|apply keeps_store; [apply aligned_size; [done|lia]|lia]]. intros x Hx Hlt. unfold m, zeroed.
    destruct (pgroundup_spec (brk s)) as [? _]; [lia|lia|]. assert (PGROUNDUP (brk s) <=? x = false) as -> by lia. done. }
  set (s1 := set_hmem _ _). set (b := (brk s, nu)).
  assert (heap_ok F A s1) as H1.
  { apply (heap_grow F A s (store32 (brk s + 4) nu m) (brk s + nu * 8) H Hkm); [unfold KERNBASE; lia|]. destruct Hba. split; [lia|dmlia]. }
  rewrite u32_id by (unfold is_u32; lia).
  destruct (free_run F A s1 b H1) as (F' & s2 & E & H2 & _ & _ & (y & Hy & Hby) & Hk2).
  - subst b s1. split_and!; cbn [fst snd brk set_brk set_hmem]; (done || lia).
  - intros x Hx. left. destruct (hk_free _ _ _ H x Hx) as (_ & _ & _ & ?). subst b. cbn [fst]. lia.
  - intros a Ha. right. destruct (hk_alloc _ _ _ H a Ha) as [(_ & _ & _ & ?) _]. subst b. cbn [fst]. lia.
  - subst b s1. cbn [fst snd hmem set_brk set_hmem]. rewrite load32_store32. apply u32_id. unfold is_u32. lia.
  - subst b. cbn [fst snd] in *. mstep E. exists F', s2. split_and!; [done|done| |exists y; split; [done|lia]].
    intros a x Ha Hx. destruct (hk_alloc _ _ _ H a Ha) as [([? _] & _ & _ & ?) _].
    assert (is_u32 x) by (unfold is_u32; lia). rewrite <- (Hkm x) by (done || lia). apply Hk2; [done|].
    intros [Hh|Hh]; [unfold header in Hh; lia|by eapply (headers_away F A s)].
Qed.

Section run.
Context (pages : Z → Z → bool) (N : Z) (HN : 1 ≤ N) (HN8 : 8 * N < 2 ^ 31).
Notation body := (malloc_body pages N).

(** A new block of [N] units, whose contents start at [r]. *)
Definition allocated (A : gset (Z * Z)) (s : heap) (r : Z) (s' : heap) : Prop :=
  (∃ F', heap_ok F' ({[(r - 8, N)]} ∪ A) s') ∧ (r - 8, N) ∉ A ∧ same_use A s s'.

Lemma turn_run F A s :
  heap_ok F A s → ∃ c, (c ≤ length F)%nat ∧
    ((∃ r s', iter body (c + 1) (freep s, load32 (hmem s) (freep s)) s = Ok (inr r) s' ∧ allocated A s r s') ∨
     ((∀ x, x ∈ F → x.2 < N) ∧ load32 (hmem s) (freep s + 4) < N ∧
        ∃ y, ∀ k, iter body (c + k) (freep s, load32 (hmem s) (freep s)) s = iter body k (y, freep s) s)).
Proof using HN.
  intros H. pose proof (heap_low _ _ _ H) as Hlow. rewrite Forall_forall in Hlow. destruct (hk_freep _ _ _ H) as [n Hfp].
  destruct (turn pages N s ((base, 0) :: F)) with (n := n) as (c & Hc & [(H0 & x & T & E & HH & Hx & Hk)|(Hall & y & Hk)]); try done; try apply H.
  { intros x Hx. apply (Hlow x Hx). }
  { by exists F. }
  - exists c. cbn [length] in Hc. split; [lia|]. left. destruct H0 as [|z H0]; [done|]. injection E as <- EF. cbn [lasta fst] in Hk.
    assert (x ∈ (base, 0) :: F) as HxL by (right; rewrite EF; apply elem_of_app; right; by left).
    assert (load32 (hmem s) (x.1 + 4) = x.2) as Ex.
    { pose proof (hk_ring _ _ _ H) as Hr. rewrite EF in Hr. change ((base, 0) :: H0 ++ x :: T) with (((base, 0) :: H0) ++ x :: T) in Hr.
      by apply links_app in Hr as [_ (_ & ? & _)]. }
    pose proof (take_run pages N (lasta base H0) x s (Hlow x HxL) (conj HN Hx) Ex) as Et.
    exists ((cut N x).1 + 8). eexists. split; [rewrite Hk; by apply iter_exit|].
    destruct (take_blocks _ _ _ _ _ _ _ H EF (conj HN Hx)) as (Hcf & Hcn & Hca & _).
    assert (((cut N x).1 + 8 - 8, N) = cut N x) as Ec by (rewrite Z.add_simpl_r; by destruct x).
    split; [exists (H0 ++ taken N x ++ T); rewrite Ec; exact (take_heap F A s H0 x T N H EF (conj HN Hx))|]. split; [by rewrite Ec|].
    destruct (lasta_node _ _ _ _ _ _ H EF) as (n' & _ & Ay & _ & HyA). assert (x ∈ F) as HxF by (rewrite EF; apply elem_of_app; right; by left).
    eapply (keeps_use F A s); [done|exact (cut_keeps N (lasta base H0) x (hmem s) (Hlow x HxL) Ay (conj HN Hx))|].
    intros a u Ha Hu. specialize (HyA a Ha). specialize (Hca a Ha). pose proof (hk_apart _ _ _ H x a HxF Ha) as Hxa.
    destruct Hcf as (_ & _ & ? & _). unfold header, apart in *. lia.
  - exists c. cbn [length] in Hc. split; [lia|]. right. split_and!; [intros x Hx; apply Hall; by right| |by exists y].
    apply list_elem_of_split in Hfp as (P & Q & E). pose proof (hk_ring _ _ _ H) as Hr. rewrite E in Hr.
    apply links_app in Hr as [_ (_ & Er & _)]. cbn [fst snd] in Er. rewrite Er. apply (Hall (freep s, n)). rewrite E. apply elem_of_app. right. by left.
Qed.

Lemma malloc_loop F A s :
  heap_ok F A s → ∃ r s', loop body 31 (freep s, load32 (hmem s) (freep s)) s = Ok r s' ∧
    ((r = 0 ∧ s' = s ∧ refused pages s N ∧ ∀ x, x ∈ F → x.2 < N) ∨ allocated A s r s').
Proof using HN HN8.
  intros H. destruct (turn_run F A s H) as (c & Hc & [(r & s' & E & Ha)|(Hall & Hfp & y & Hk)]).
  { exists r, s'. split; [|by right]. eapply loop_iter; [exact E|]. pose proof (heap_length _ _ _ H). change (2 ^ Z.of_nat 31) with (2 ^ 31). lia. }
  assert (N <=? load32 (hmem s) (freep s + 4) = false) as Hlt by lia. pose proof (heap_length _ _ _ H) as Hl.
  destruct (morecore_run pages F A s N H HN HN8) as [[Em Hr]|(F' & s1 & Em & H1 & Hu & z & Hz & HzN)].
  - exists 0, s. split; [|by left]. eapply loop_iter with (n := (c + 1)%nat); [|change (2 ^ Z.of_nat 31) with (2 ^ 31); lia].
    rewrite Hk. apply iter_exit. unfold malloc_body. hstep. rewrite Hlt. mred. rewrite Z.eqb_refl. mstep Em. done.
  - destruct (turn_run F' A s1 H1) as (c' & Hc' & [(r & s' & E & Ha)|(Hall' & _)]).
    2: { specialize (Hall' z Hz). lia. }
    exists r, s'. split.
    + pose proof (heap_length _ _ _ H1). eapply loop_iter with (n := (c + S (c' + 1))%nat); [|change (2 ^ Z.of_nat 31) with (2 ^ 31); lia].
      rewrite Hk, <- E. apply iter_next. unfold malloc_body. hstep. rewrite Hlt. mred. rewrite Z.eqb_refl. mstep Em.
      destruct (hk_freep _ _ _ H1) as [n Hin]. pose proof (heap_low _ _ _ H1) as Hlow. rewrite Forall_forall in Hlow.
      destruct (Hlow _ Hin) as (_ & ? & _). cbn [fst] in *. assert (freep s1 =? 0 = false) as -> by lia. by hstep.
    + right. destruct Ha as (HF & Hn & Hs). split_and!; [done..|]. intros a x Ha Hx. rewrite (Hs a x) by done. by apply (Hu a x).
Qed.
End run.

(** The heap of a process with the blocks [A] in use: before the first malloc(),
    or with some list of free blocks. *)
Definition heap_inv (A : gset (Z * Z)) (s : heap) : Prop :=
  (freep s = 0 ∧ A = ∅ ∧ (0 < base ∧ aligned base) ∧ base + 8 ≤ brk s < KERNBASE ∧ aligned (brk s)) ∨ ∃ F, heap_ok F A s.

Lemma units_spec n : 0 ≤ n ≤ 2 ^ 31 - 24 → 1 ≤ units n ∧ 8 * units n < 2 ^ 31 ∧ n ≤ 8 * (units n - 1) < n + 8.
Proof. intros Hn. unfold units. rewrite u32_id by (unfold is_u32; lia). dmlia. Qed.

(** The first malloc() makes the list of the static header alone. *)
Lemma first_heap s :
  0 < base ∧ aligned base → base + 8 ≤ brk s < KERNBASE → aligned (brk s) →
  heap_ok [] ∅ (set_hmem (store32 (base + 4) 0 (store32 base base (hmem s))) (set_freep base s)).
Proof.
  intros [Hb0 Hb] Hk Hka. assert (aligned (base + 4)) as Hb4 by (apply aligned_size; [done|unfold KERNBASE in Hk; lia]).
  split; cbn [hmem freep brk set_hmem set_freep]; try done; try set_solver.
  - cbn [seg head fst snd]. rewrite !ldst by done. rewrite decide_False, !decide_True by lia. split_and!; [by apply u32_id; destruct Hb|done|done].
  - repeat constructor.
Qed.

Lemma malloc_run pages A s n :
  heap_inv A s → 0 ≤ n ≤ 2 ^ 31 - 24 →
  ∃ r s', malloc base pages n s = Ok r s' ∧
    ((r = 0 ∧ refused pages s (units n) ∧ heap_inv A s' ∧ same_use A s s') ∨
     ((r - 8, units n) ∉ A ∧ heap_inv ({[(r - 8, units n)]} ∪ A) s' ∧ same_use A s s')).
Proof.
  intros H Hn. destruct (units_spec n Hn) as (Hu1 & Hu8 & _). unfold malloc. mred.
  assert (∃ F s1, (if freep s =? 0 then st base base;; modify (set_freep base);; st (base + 4) 0;; mret base else mret (freep s)) s = Ok (freep s1) s1 ∧
    heap_ok F A s1 ∧ same_use A s s1 ∧ brk s1 = brk s) as (F & s1 & E & H1 & Hs1 & Eb).
  { destruct H as [(Ef & -> & Hb & Hk & Hka)|[F H]].
    - rewrite Ef. cbn [Z.eqb]. exists []. eexists. split; [|split_and!; [by apply first_heap|done|done]]. repeat (mred; hstep). by mred.
    - destruct (hk_freep _ _ _ H) as [k Hin]. pose proof (heap_low _ _ _ H) as Hlow. rewrite Forall_forall in Hlow.
      destruct (Hlow _ Hin) as (_ & ? & _). cbn [fst] in *. exists F, s. assert (freep s =? 0 = false) as -> by lia. done. }
  mstep E. hstep. destruct (malloc_loop pages (units n) Hu1 Hu8 F A s1 H1) as (r & s' & El & Hr). exists r, s'. split; [done|].
  assert (∀ s2, same_use A s1 s2 → same_use A s s2) as Htr by (intros s2 Hs2 a x Ha Hx; by rewrite (Hs2 a x), (Hs1 a x)).
  destruct Hr as [(-> & -> & Hr & _)|([F' HF'] & Hnew & Hs')]; [left|right]; split_and!; try done; auto; [|right; eauto|right; eauto].
  unfold refused in *. by rewrite Eb in Hr.
Qed.

Lemma free_inv A s a N :
  heap_inv A s → (a, N) ∈ A →
  ∃ s', free (a + 8) s = Ok tt s' ∧ heap_inv (A ∖ {[(a, N)]}) s' ∧ same_use (A ∖ {[(a, N)]}) s s'.
Proof.
  intros [(_ & -> & _)|[F H]] Ha; [set_solver|]. destruct (hk_alloc _ _ _ H _ Ha) as [Hf Es].
  assert (heap_ok F (A ∖ {[(a, N)]}) s) as H'.
  { destruct H. split; try done; intros; [apply hk_alloc0|apply hk_apart0|apply hk_excl0]; set_solver. }
  assert (∀ y, y ∈ A ∖ {[(a, N)]} → apart (a, N) y) as Hap by (intros y Hy; apply (hk_excl _ _ _ H); set_solver).
  destruct (free_run F (A ∖ {[(a, N)]}) s (a, N) H') as (F' & s' & E & H2 & _ & _ & _ & Hk); try done.
  { intros x Hx. by apply (hk_apart _ _ _ H). }
  exists s'. split_and!; [done|right; by exists F'|]. eapply (keeps_use F); [done|done|]. intros y x Hy Hx [Hh|Hh].
  - specialize (Hap y Hy). destruct Hf as (_ & _ & ? & _). unfold header, apart in *. cbn [fst snd] in *. lia.
  - by eapply (headers_away F _ s y x H').
Qed.
End heap.

Section inv.
Context (base : Z).

Lemma inv_apart A s x y : heap_inv base A s → x ∈ A → y ∈ A → x ≠ y → apart x y.
Proof. intros [(_ & -> & _)|[F H]] Hx Hy Hne; [set_solver|]. by apply (hk_excl _ _ _ _ H). Qed.

Lemma inv_fits A s x : heap_inv base A s → x ∈ A → fits base (brk s) x.
Proof. intros [(_ & -> & _)|[F H]] Hx; [set_solver|]. by apply (hk_alloc _ _ _ _ H). Qed.
End inv.

(** C8 [safety]: malloc() hands out memory that nobody uses.  For a request of less
    than 2 GB it returns; either it returns 0, because the kernel refused to extend
    the process, or a block of at least [n] bytes inside the process's memory that
    overlaps neither the static header nor any block in use.  The contents of the
    blocks in use do not change. *)
Theorem malloc_exclusive base pages A s n :
  heap_inv base A s → 0 ≤ n ≤ 2 ^ 31 - 24 →
  ∃ r s', malloc base pages n s = Ok r s' ∧ same_use A s s' ∧
    ((r = 0 ∧ refused pages s (units n) ∧ heap_inv base A s') ∨
     (heap_inv base ({[(r - 8, units n)]} ∪ A) s' ∧ n ≤ 8 * (units n - 1) < n + 8 ∧ base + 8 ≤ r - 8 ∧ r + n ≤ brk s' ∧
      ∀ a, a ∈ A → apart (r - 8, units n) a)).
Proof.
  intros H Hn. destruct (units_spec n Hn) as (_ & _ & Hu). destruct (malloc_run base pages A s n H Hn) as (r & s' & E & Hr).
  exists r, s'. split; [done|]. destruct Hr as [(-> & ? & ? & ?)|(Hnew & Hi & Hs)]; [split; [done|by left]|]. split; [done|right].
  destruct (inv_fits base _ _ (r - 8, units n) Hi) as (_ & H1 & _ & H2); [set_solver|]. cbn [fst snd] in *.
  split_and!; [done|lia|lia|lia|lia|]. intros a Ha. apply (inv_apart base _ _ _ _ Hi); set_solver.
Qed.

(** A process of two pages, with the static header in the first. *)
Definition heap0 : heap := Heap (λ _, 0) 0 8192.

Lemma heap0_inv : heap_inv 4000 ∅ heap0.
Proof. left. unfold aligned. cbn. repeat split; lia. Qed.

Lemma malloc_exclusive_witness : ∃ s', malloc 4000 (λ _ _, true) 100 heap0 = Ok 40856 s' ∧ heap_inv 4000 {[(40848, 14)]} s'.
Proof.
  destruct (malloc_exclusive 4000 (λ _ _, true) ∅ heap0 100 heap0_inv ltac:(lia)) as (r & s' & E & _ & Hr).
  assert (match malloc 4000 (λ _ _, true) 100 heap0 with Ok r _ => r | _ => 0 end = 40856) as Er by (vm_compute; reflexivity).
  rewrite E in Er. subst r. exists s'. split; [exact E|]. destruct Hr as [[Hz _]|[Hi _]]; [discriminate Hz|].
  change (40856 - 8) with 40848 in Hi. change (units 100) with 14 in Hi. rewrite (right_id_L ∅ (∪)) in Hi. exact Hi.
Defined.



(** A request close to 4 GB wraps: it is served with a block that has room for no
    byte at all. *)
Lemma malloc_wraps n : 2 ^ 32 - 7 ≤ n < 2 ^ 32 → units n = 1.
Proof. intros Hn. unfold units. assert (u32 (n + 7) = n + 7 - 2 ^ 32) as -> by (unfold u32; dmlia). dmlia. Qed.
