(* ===== verification/Threads.v ===== *)
(** * Threads: thread_lib.h and prog3.c

    prog3 passes a frisbee around threads made by clone().  The threads share the
    program's globals and run in any interleaving; a step of a thread reads or
    writes shared memory at most once, so that [output++] is two steps.  The
    thread number [i] is the [arg] of its worker(); [n] is [numofthread] and [P] is
    [passnum], which only main() sets, before the first thread exists.  The lock
    is the word that [lock] points to. *)

From S2P Require Import Prelude.
Open Scope kernel_scope.

(** What worker() prints: the two halves of a line, and its first and last words. *)
Inductive event := Hello (i : Z) | Pass (k i : Z) | Next (w : Z) | Bye (i : Z).

(** Where a thread is in worker(); a local variable holds what an increment has
    read. *)
Inductive pc :=
| Start | Head | Again | Acquire | Check | Read | Write (t : Z) | Say | ReadW | WriteW (t : Z) | Wrap | Zero | SayNext | Release | Sleep
| End | Gone.

Record pst := Pst { output : Z; workpid : Z; locked : Z; events : list event; threads : list (option pc) }.
Definition set_output (v : Z) (s : pst) : pst := Pst v (workpid s) (locked s) (events s) (threads s).
Definition set_workpid (v : Z) (s : pst) : pst := Pst (output s) v (locked s) (events s) (threads s).
Definition set_locked (v : Z) (s : pst) : pst := Pst (output s) (workpid s) v (events s) (threads s).
Definition say (e : event) (s : pst) : pst := Pst (output s) (workpid s) (locked s) (events s ++ [e]) (threads s).
Definition goto (i : nat) (q : pc) (s : pst) : pst := Pst (output s) (workpid s) (locked s) (events s) (<[i := Some q]> (threads s)).

(** ** thread_lib.h *)

Definition lock_init (s : pst) : pst := set_locked 0 s.
(** xchg() of the lock word: the old value, and the state with the new one. *)
Definition xchg (v : Z) (s : pst) : Z * pst := (locked s, set_locked v s).
(** One turn of lock_acquire()'s loop. *)
Definition lock_acquire (i : nat) (s : pst) : pst :=
  let '(old, s) := xchg 1 s in if negb (old =? 0) then goto i Acquire s else goto i Check s.
Definition lock_release (s : pst) : pst := (xchg 0 s).2.

Section prog3.
Context (n : nat) (P : Z).

(** The next step of thread [i], which is at [q]. *)
Definition worker (i : nat) (q : pc) (s : pst) : option pst :=
  let pidnum := Z.of_nat i in
  match q with
  | Start => Some (goto i Head (say (Hello pidnum) s))
  | Head => Some (goto i (if output s <? P then Again else End) s)
  | Again => Some (goto i (if output s =? P then End else Acquire) s)
  | Acquire => Some (lock_acquire i s)
  | Check => Some (goto i (if pidnum =? workpid s then Read else Release) s)
  | Read => Some (goto i (Write (output s)) s)
  | Write t => Some (goto i Say (set_output (t +i 1) s))
  | Say => Some (goto i ReadW (say (Pass (output s) pidnum) s))
  | ReadW => Some (goto i (WriteW (workpid s)) s)
  | WriteW t => Some (goto i Wrap (set_workpid (t +i 1) s))
  | Wrap => Some (goto i (if workpid s =? Z.of_nat n then Zero else SayNext) s)
  | Zero => Some (goto i SayNext (set_workpid 0 s))
  | SayNext => Some (goto i Release (say (Next (workpid s)) s))
  | Release => Some (goto i Sleep (lock_release s))
  | Sleep => Some (goto i Head s)
  | End => Some (goto i Gone (say (Bye pidnum) s))
  | Gone => None
  end.

(** main() makes the threads in turn; clone() may fail. *)
Definition create (ok : bool) (s : pst) : option pst :=
  if bool_decide (length (threads s) < n)%nat then
    Some (Pst (output s) (workpid s) (locked s) (events s) (threads s ++ [if ok then Some Start else None]))
  else None.

Definition start : pst := lock_init (Pst 0 0 0 [] []).

Inductive step (s s' : pst) : Prop :=
| step_main ok : create ok s = Some s' → step s s'
| step_thread i q : threads s !! i = Some (Some q) → worker i q s = Some s' → step s s'.
End prog3.

(** ** The passes go around *)

Section proofs.
Context (n : nat) (P : Z) (Hn : (0 < n)%nat) (HP : 0 < P) (Hmax : P + Z.of_nat n < 2 ^ 31).

(** The lines printed by the first [k] passes. *)
Fixpoint rounds (k : nat) : list event :=
  match k with
  | O => []
  | S k => rounds k ++ [Pass (Z.of_nat (S k)) (Z.of_nat k mod Z.of_nat n); Next (Z.of_nat (S k) mod Z.of_nat n)]
  end.
Definition passes (l : list event) : list event := List.filter (λ e, match e with Pass _ _ | Next _ => true | _ => false end) l.

(** The threads that hold the lock, and those that have seen [output < P] and not
    yet counted their pass. *)
Definition critical (q : option pc) : bool :=
  match q with
  | Some (Check | Read | Write _ | Say | ReadW | WriteW _ | Wrap | Zero | SayNext | Release) => true
  | _ => false
  end.
Definition eager (q : option pc) : bool :=
  match q with Some (Again | Acquire | Check | Read | Write _) => true | _ => false end.
Definition count (f : option pc → bool) (l : list (option pc)) : nat := length (List.filter f l).

(** What the holder of the lock has done of pass [k + 1]. *)
Definition phase (k : nat) (o w : Z) (l : list event) (i : nat) (q : option pc) : Prop :=
  let me := Z.of_nat i = Z.of_nat k mod Z.of_nat n in
  match q with
  | Some Read => me ∧ o = Z.of_nat k ∧ w = Z.of_nat i ∧ l = rounds k
  | Some (Write t) => me ∧ o = Z.of_nat k ∧ t = o ∧ w = Z.of_nat i ∧ l = rounds k
  | Some Say => me ∧ o = Z.of_nat (S k) ∧ w = Z.of_nat i ∧ l = rounds k
  | Some ReadW => me ∧ o = Z.of_nat (S k) ∧ w = Z.of_nat i ∧ l = rounds k ++ [Pass o (Z.of_nat i)]
  | Some (WriteW t) => me ∧ o = Z.of_nat (S k) ∧ t = Z.of_nat i ∧ w = t ∧ l = rounds k ++ [Pass o (Z.of_nat i)]
  | Some Wrap => me ∧ o = Z.of_nat (S k) ∧ w = Z.of_nat i + 1 ∧ l = rounds k ++ [Pass o (Z.of_nat i)]
  | Some Zero => me ∧ o = Z.of_nat (S k) ∧ w = Z.of_nat i + 1 ∧ w = Z.of_nat n ∧ l = rounds k ++ [Pass o (Z.of_nat i)]
  | Some SayNext => me ∧ o = Z.of_nat (S k) ∧ w = Z.of_nat (S k) mod Z.of_nat n ∧ l = rounds k ++ [Pass o (Z.of_nat i)]
  | _ => o = Z.of_nat k ∧ w = Z.of_nat k mod Z.of_nat n ∧ l = rounds k
  end.

Definition at_phase (k : nat) (s : pst) (i : nat) (q : option pc) : Prop := phase k (output s) (workpid s) (passes (events s)) i q.

Definition lock_ok (s : pst) : Prop := ∃ k,
  (locked s = 0 ∧ at_phase k s O None ∧ ∀ i q, threads s !! i = Some q → critical q = false) ∨
  (∃ i q, locked s = 1 ∧ threads s !! i = Some q ∧ critical q = true ∧ at_phase k s i q ∧
     ∀ j q', j ≠ i → threads s !! j = Some q' → critical q' = false).

Record inv (s : pst) : Prop := {
  iv_threads : (length (threads s) ≤ n)%nat;
  iv_lock : lock_ok s;
  iv_bound : 0 ≤ output s ∧ (P ≤ output s → output s + Z.of_nat (count eager (threads s)) ≤ P + Z.of_nat n - 1);
}.

Lemma count_insert f l i q q0 :
  l !! i = Some q0 → Z.of_nat (count f (<[i := q]> l)) = Z.of_nat (count f l) - Z.b2z (f q0) + Z.b2z (f q).
Proof.
  unfold count. revert i. induction l as [|x l IH]; intros [|i] Hi; try done.
  - injection Hi as ->. cbn. destruct (f q), (f q0); cbn [length Z.b2z]; lia.
  - specialize (IH i Hi). change (<[S i := q]> (x :: l)) with (x :: <[i := q]> l). cbn [List.filter]. destruct (f x); cbn [length]; lia.
Qed.

Lemma count_le f l : (count f l ≤ length l)%nat.
Proof. unfold count. induction l as [|x l IH]; cbn [List.filter length]; [done|]. destruct (f x); cbn [length]; lia. Qed.

Lemma passes_app l e : passes (l ++ [e]) = passes l ++ passes [e].
Proof. apply List.filter_app. Qed.

Lemma start_inv : inv start.
Proof.
  split; cbn.
  - lia.
  - exists O. left. split; [done|]. split; [|done]. unfold at_phase. cbn. split_and!; [done|by rewrite Z.mod_0_l by lia|done].
  - lia.
Qed.

Lemma next_turn k : (if Z.of_nat k mod Z.of_nat n + 1 =? Z.of_nat n then 0 else Z.of_nat k mod Z.of_nat n + 1) = Z.succ (Z.of_nat k) mod Z.of_nat n.
Proof using Hn.
  pose proof (Z.mod_pos_bound (Z.of_nat k) (Z.of_nat n)) as Hr. unfold Z.succ. rewrite <- Z.add_mod_idemp_l by lia.
  destruct (Z.eqb_spec (Z.of_nat k mod Z.of_nat n + 1) (Z.of_nat n)) as [E|E].
  - rewrite E, Z.mod_same; [done|lia].
  - rewrite (Z.mod_small (_ + 1)); [done|lia].
Qed.

(** The parts of the state that the lock protects. *)
Definition same (s s' : pst) : Prop :=
  output s' = output s ∧ workpid s' = workpid s ∧ passes (events s') = passes (events s).

Lemma same_phase s s' k i q : same s s' → at_phase k s i q → at_phase k s' i q.
Proof. intros (E1 & E2 & E3). unfold at_phase. by rewrite E1, E2, E3. Qed.

(** A thread outside the critical section moves. *)
Lemma move_outside s s' i q q' :
  threads s' = <[i := q']> (threads s) → lock_ok s → threads s !! i = Some q → critical q = false → critical q' = false →
  same s s' → locked s' = locked s → lock_ok s'.
Proof.
  intros Et [k Hk] Hi Hq Hq' Hs El. exists k. rewrite El, Et. destruct Hk as [(H0 & Hp & Hall)|(h & qh & H1 & Hh & Hc & Hp & Hoth)].
  - left. split_and!; [done|by eapply same_phase|]. intros j qj [(-> & -> & _)|[_ Hj]]%list_lookup_insert_Some; [done|by eapply Hall].
  - right. assert (i ≠ h) by (intros ->; congruence). exists h, qh. rewrite list_lookup_insert_ne by done.
    split_and!; [done..|by eapply same_phase|]. intros j qj Hj [(-> & -> & _)|[_ Hj']]%list_lookup_insert_Some; [done|by eapply Hoth].
Qed.

(** The thread in the critical section. *)
Lemma holder s i q :
  lock_ok s → threads s !! i = Some q → critical q = true →
  ∃ k, locked s = 1 ∧ at_phase k s i q ∧ ∀ j q', j ≠ i → threads s !! j = Some q' → critical q' = false.
Proof.
  intros [k [(_ & _ & Hall)|(h & qh & H1 & Hh & Hc & Hp & Hoth)]] Hi Hq; [by rewrite (Hall i q Hi) in Hq|].
  destruct (decide (i = h)) as [->|Hne]; [|by rewrite (Hoth i q Hne Hi) in Hq]. exists k. by simplify_eq.
Qed.

Lemma others_insert (l : list (option pc)) i q' :
  (∀ j q, j ≠ i → l !! j = Some q → critical q = false) → ∀ j q, j ≠ i → <[i := q']> l !! j = Some q → critical q = false.
Proof. intros H j q Hj. rewrite list_lookup_insert_ne by done. by apply H. Qed.

(** It moves within the critical section, or leaves it. *)
Lemma move_inside s s' i q q' :
  threads s' = <[i := q']> (threads s) → lock_ok s → threads s !! i = Some q → critical q = true → critical q' = true → locked s' = locked s →
  (∀ k, at_phase k s i q → ∃ k', at_phase k' s' i q') → lock_ok s'.
Proof.
  intros Et Hl Hi Hq Hq' El Hp. destruct (holder s i q Hl Hi Hq) as (k & H1 & Hk & Hoth). destruct (Hp k Hk) as [k' Hk'].
  exists k'. right. exists i, q'. rewrite El, Et. split_and!; [done| |done|done|by apply others_insert].
  apply list_lookup_insert_eq. by eapply lookup_lt_Some.
Qed.

Lemma worker_lock s s' i q :
  inv s → threads s !! i = Some (Some q) → worker n P i q s = Some s' → lock_ok s'.
Proof.
  intros Hs Hi E. pose proof (iv_lock _ Hs) as Hl. pose proof (iv_bound _ Hs) as [Ho Hb].
  assert (i < n)%nat as Hin by (apply lookup_lt_Some in Hi; pose proof (iv_threads _ Hs); lia).
  destruct q; cbn [worker] in E; try discriminate E; injection E as <-.
  - eapply (move_outside s); try done. unfold same. cbn [say goto output workpid events]. by rewrite passes_app, app_nil_r.
  - destruct (output s <? P); by eapply (move_outside s).
  - destruct (output s =? P); by eapply (move_outside s).
  - unfold lock_acquire, xchg. destruct (Z.eqb_spec (locked s) 0) as [E|E]; cbn [negb].
    + destruct Hl as [k [(_ & Hp & Hall)|(h & qh & H1 & _)]]; [|lia]. exists k. right. exists i, (Some Check).
      cbn [goto set_locked threads locked]. split_and!; [done| |done|exact Hp|].
      * apply list_lookup_insert_eq. by eapply lookup_lt_Some.
      * apply others_insert. intros j q' _. apply Hall.
    + assert (locked s = 1) as E1 by (destruct Hl as [k [(? & _)|(? & ? & ? & _)]]; [lia|done]).
      by eapply (move_outside s).
  - destruct (Z.eqb_spec (Z.of_nat i) (workpid s)) as [E|E]; eapply (move_inside s); try done; intros k (E1 & E2 & E3); exists k;
      unfold at_phase, phase; cbn [goto output workpid events]; split_and!; (done || congruence).
  - eapply (move_inside s); try done. intros k (E0 & E1 & E2 & E3). exists k. unfold at_phase, phase. cbn [goto output workpid events]. done.
  - eapply (move_inside s); try done. intros k (E0 & E1 & E2 & E3 & E4). exists k. unfold at_phase, phase. cbn [goto set_output output workpid events].
    assert (0 < Z.of_nat (count eager (threads s))) as Hc.
    { pose proof (count_insert eager (threads s) i None _ Hi) as Hc. cbn [eager Z.b2z] in Hc. lia. }
    subst t. rewrite s32_id by (unfold is_s32; destruct (decide (P ≤ output s)); lia). split_and!; [done|lia|done|done].
  - eapply (move_inside s); try done. intros k (E0 & E1 & E2 & E3). exists k. unfold at_phase, phase. cbn [goto say output workpid events].
    rewrite passes_app, E3. done.
  - eapply (move_inside s); try done. intros k (E0 & E1 & E2 & E3). exists k. unfold at_phase, phase. cbn [goto output workpid events]. done.
  - eapply (move_inside s); try done. intros k (E0 & E1 & E2 & E3 & E4). exists k. unfold at_phase, phase. cbn [goto set_workpid output workpid events].
    subst t. rewrite s32_id by (unfold is_s32; lia). done.
  - destruct (Z.eqb_spec (workpid s) (Z.of_nat n)) as [E|E]; eapply (move_inside s); try done; intros k (E0 & E1 & E2 & E3); exists k;
      unfold at_phase, phase; cbn [goto output workpid events]; split_and!; try done.
    pose proof (next_turn k) as Ht. rewrite <- E0, <- E2, (proj2 (Z.eqb_neq _ _) E) in Ht. by rewrite Nat2Z.inj_succ.
  - eapply (move_inside s); try done. intros k (E0 & E1 & E2 & E3 & E4). exists k. unfold at_phase, phase. cbn [goto set_workpid output workpid events].
    split_and!; try done. pose proof (next_turn k) as Ht. rewrite <- E0, <- E2, E3, Z.eqb_refl in Ht. by rewrite Nat2Z.inj_succ.
  - eapply (move_inside s); try done. intros k (E0 & E1 & E2 & E3). exists (S k). unfold at_phase, phase. cbn [goto say output workpid events].
    rewrite passes_app, E3. split_and!; [done|done|]. cbn [rounds]. rewrite <- app_assoc, E1, E2, E0. done.
  - destruct (holder s i _ Hl Hi eq_refl) as (k & H1 & Hp & Hoth). exists k. left. cbn [goto lock_release xchg set_locked snd threads locked].
    split_and!; [done|exact Hp|]. intros j q [(_ & <- & _)|[Hj Hjq]]%list_lookup_insert_Some; [done|]. by apply (Hoth j).
  - by eapply (move_outside s).
  - eapply (move_outside s); try done. unfold same. cbn [say goto output workpid events]. by rewrite passes_app, app_nil_r.
Qed.

(** Only counting a pass changes [output]; a thread becomes eager only before the
    last pass. *)
Lemma worker_bound s s' i q :
  inv s → threads s !! i = Some (Some q) → worker n P i q s = Some s' →
  (length (threads s') = length (threads s)) ∧
  0 ≤ output s' ∧ (P ≤ output s' → output s' + Z.of_nat (count eager (threads s')) ≤ P + Z.of_nat n - 1).
Proof.
  intros Hs Hi E. destruct (iv_bound _ Hs) as [Ho Hb]. pose proof (iv_threads _ Hs) as Hlen.
  pose proof (count_le eager (threads s)) as Hle.
  destruct q; cbn [worker] in E; try discriminate E; injection E as <-; unfold lock_acquire, lock_release, xchg;
    repeat match goal with |- context [if ?b then _ else _] => let H := fresh "H" in destruct b eqn:H end;
    cbn [goto say set_output set_workpid set_locked snd threads output];
    rewrite length_insert, (count_insert eager (threads s) i _ _ Hi); cbn [eager Z.b2z]; try (split_and!; [done|lia|lia]).
  destruct (holder s i _ (iv_lock _ Hs) Hi eq_refl) as (k & _ & (_ & _ & -> & _) & _).
  assert (0 < Z.of_nat (count eager (threads s))) as Hc.
  { pose proof (count_insert eager (threads s) i None _ Hi) as Hc. cbn [eager Z.b2z] in Hc. lia. }
  rewrite s32_id by (unfold is_s32; destruct (decide (P ≤ output s)); lia). split_and!; [done|lia|]. intros _.
  destruct (decide (P ≤ output s)); lia.
Qed.

Lemma count_app f l x : count f (l ++ [x]) = (count f l + count f [x])%nat.
Proof. unfold count. by rewrite List.filter_app, length_app. Qed.

Lemma step_inv s s' : inv s → step n P s s' → inv s'.
Proof.
  intros Hs [ok E|i q Hi E].
  - unfold create in E. case_bool_decide as Hlt; [|done]. injection E as <-. destruct Hs as [Hl [k Hk] [Ho Hb]].
    assert (∀ (b : bool) i q, (threads s ++ [if b then Some Start else None]) !! i = Some q → threads s !! i = Some q ∨ critical q = false) as Hnew.
    { intros b i q [?|[_ E]]%lookup_app_Some; [by left|right]. apply list_lookup_singleton_Some in E as [_ <-]. by destruct b. }
    split; cbn [threads output].
    + rewrite length_app. cbn [length]. lia.
    + exists k. cbn [threads locked]. destruct Hk as [(H0 & Hp & Hall)|(h & qh & H1 & Hh & Hc & Hp & Hoth)].
      * left. split_and!; [done|exact Hp|]. intros i q [Hi|Hi]%Hnew; [by eapply Hall|done].
      * right. exists h, qh. split_and!; [done|by apply lookup_app_l_Some|done|exact Hp|]. intros j q Hj [Hq|Hq]%Hnew; [by eapply Hoth|done].
    + rewrite count_app. assert (count eager [if ok then Some Start else None] = O) as -> by by destruct ok. split; [done|]. intros HPo. specialize (Hb HPo). lia.
  - destruct (worker_bound s s' i q Hs Hi E) as (El & H1 & H2). split; [rewrite El; apply Hs|by eapply worker_lock|done].
Qed.

Lemma phase_passes k o w l i q :
  phase k o w l i q → (l = rounds k ∨ l = rounds k ++ [Pass (Z.of_nat (S k)) (Z.of_nat k mod Z.of_nat n)]) ∧ Z.of_nat k ≤ o ≤ Z.of_nat (S k).
Proof.
  unfold phase. destruct q as [[]|]; intros H; repeat match goal with H : _ ∧ _ |- _ => destruct H end;
    (split; [first [left; congruence | right; congruence]|lia]).
Qed.

Lemma reach_inv s : rtc (step n P) start s → inv s.
Proof. apply (rtc_invariant (step n P) inv); [intros x y; apply step_inv|apply start_inv]. Qed.
End proofs.

(** C17 [invariant]: the frisbee goes around.  In every interleaving of the threads
    at most one is in the critical section, the lines printed so far are those of
    passes 1, 2, 3, ... in turn, where thread [k mod n] makes pass [k + 1] (the last
    line possibly half printed), and the number of passes exceeds [passnum] by
    less than the number of threads. *)
Theorem frisbee_rounds n P s :
  (0 < n)%nat → 0 < P → P + Z.of_nat n < 2 ^ 31 → rtc (step n P) start s →
  (∀ i j q q', threads s !! i = Some q → threads s !! j = Some q' → critical q = true → critical q' = true → i = j) ∧
  (∃ k l, rounds n (S k) = passes (events s) ++ l ∧ (length l = 1%nat ∨ length l = 2%nat) ∧ Z.of_nat k ≤ output s ≤ Z.of_nat k + 1) ∧
  0 ≤ output s < P + Z.of_nat n.
Proof.
  intros Hn HP Hmax Hr. destruct (reach_inv n P Hn HP Hmax s Hr) as [Hl Hk [Ho Hb]]. split_and!.
  - intros i j q q' Hi Hj Hq Hq'. destruct (holder n s i q Hk Hi Hq) as (k & _ & _ & Hoth).
    destruct (decide (j = i)) as [->|Hne]; [done|]. by rewrite (Hoth j q' Hne Hj) in Hq'.
  - destruct Hk as [k Hk]. exists k.
    assert (∃ i q, at_phase n k s i q) as (i & q & Hp) by (destruct Hk as [(_ & Hp & _)|(i & q & _ & _ & _ & Hp & _)]; eauto).
    eapply phase_passes in Hp as [Hl' Ho']; try done.
    destruct Hl' as [->| ->]; cbn [rounds].
    + eexists. split; [done|]. split; [by right|lia].
    + exists [Next (Z.of_nat (S k) mod Z.of_nat n)]. rewrite <- app_assoc. split; [done|]. split; [by left|lia].
  - done.
  - destruct (decide (P ≤ output s)) as [H|]; [specialize (Hb H)|]; lia.
Qed.

(** *** A schedule: main()'s steps and those of threads *)
Fixpoint schedule (n : nat) (P : Z) (l : list (option nat)) (s : pst) : option pst :=
  match l with
  | [] => Some s
  | None :: l => s ← create n true s; schedule n P l s
  | Some i :: l => q ← threads s !! i; q ← q; s ← worker n P i q s; schedule n P l s
  end.

Lemma schedule_steps n P l s s' : schedule n P l s = Some s' → rtc (step n P) s s'.
Proof.
  revert s. induction l as [|[i|] l IH]; intros s E; cbn [schedule] in E.
  - by injection E as ->.
  - apply bind_Some in E as ([q|] & Hq & E); [|done]. cbn in E. apply bind_Some in E as (s1 & E1 & E).
    eapply rtc_l; [by eapply step_thread|by apply IH].
  - apply bind_Some in E as (s1 & E1 & E). eapply rtc_l; [by eapply step_main|by apply IH].
Qed.

(** Two threads and one pass to make: both see that it has not been made, and the
    second one makes another. *)
Definition race : list (option nat) :=
  [None; None] ++ replicate 3 (Some 0%nat) ++ replicate 3 (Some 1%nat) ++ replicate 10 (Some 0%nat) ++ replicate 11 (Some 1%nat).
Definition race_end : pst := default start (schedule 2 1 race start).

Lemma race_steps : rtc (step 2 1) start race_end.
Proof. apply (schedule_steps 2 1 race). vm_compute. reflexivity. Qed.

Lemma frisbee_overshoots : output race_end = 2 ∧ passes (events race_end) = rounds 2 2.
Proof. vm_compute. split; reflexivity. Qed.

Lemma frisbee_rounds_witness : 0 ≤ output race_end < 1 + 2 ∧ output race_end = 2.
Proof.
  split; [|reflexivity]. destruct (frisbee_rounds 2 1 race_end) as (_ & _ & H); [lia|lia|lia|exact race_steps|exact H].
Defined.
