(* ===== verification/ThreadLib.v ===== *)
(** * The queue lock and the sequence lock of thread_lib.c

    thread_lib.c holds two more locks besides the spin lock of thread_lib.h: an
    array-based queue lock, and a sequence lock for readers that take turns.
    Threads that use them share the file's globals and the array [flag], and run in
    any interleaving; a step reads or writes shared memory at most once.  A thread
    that has taken an array lock releases it and starts again. *)

From S2P Require Import Prelude.
Open Scope kernel_scope.

(** The globals, the lock words of the two locks, and [flag]. *)
Record tst := Tst { num : Z; SEQ : Z; WORKNUM : Z; DATA : Z; alocked : Z; slocked : Z; flag : list Z }.
Definition set_num (v : Z) (s : tst) : tst := Tst v (SEQ s) (WORKNUM s) (DATA s) (alocked s) (slocked s) (flag s).
Definition set_SEQ (v : Z) (s : tst) : tst := Tst (num s) v (WORKNUM s) (DATA s) (alocked s) (slocked s) (flag s).
Definition set_WORKNUM (v : Z) (s : tst) : tst := Tst (num s) (SEQ s) v (DATA s) (alocked s) (slocked s) (flag s).
Definition set_DATA (v : Z) (s : tst) : tst := Tst (num s) (SEQ s) (WORKNUM s) v (alocked s) (slocked s) (flag s).
Definition set_alocked (v : Z) (s : tst) : tst := Tst (num s) (SEQ s) (WORKNUM s) (DATA s) v (slocked s) (flag s).
Definition set_slocked (v : Z) (s : tst) : tst := Tst (num s) (SEQ s) (WORKNUM s) (DATA s) (alocked s) v (flag s).
Definition set_flag (v : list Z) (s : tst) : tst := Tst (num s) (SEQ s) (WORKNUM s) (DATA s) (alocked s) (slocked s) v.

Definition array_lock_init (s : tst) : tst := set_flag (<[0%nat := 1]> (replicate 600 0)) (set_alocked 0 s).
Definition seqlock_init (s : tst) : tst := set_slocked 0 s.

(** Where a thread is: in the array lock with identity [id], whose ticket is [k]; in
    reader() with number [p]; or in seqlock_writer(). *)
Inductive pc :=
| ATake (id : Z) | ANum (id : Z) | ANumW (id t : Z) | ATest (id : Z) | ADec (id : Z) | ADecW (id t : Z) | ATicket (id : Z) | ASpin (id k : Z)
| AHold (id k : Z) | AFlag (id k : Z) | ANext (id k : Z) | AFailed (id : Z)
| RSeq (p : Z) | RData (p sq : Z) | RSeq1 (p sq r : Z) | RTurn (p sq r sq1 : Z) | RCheck (p sq r sq1 : Z)
| RInc (r : Z) | RIncW (r t : Z) | RWork (r : Z) | RWorkW (r t : Z) | RWrap (r : Z) | RZero (r : Z) | RDone (r : Z)
| WTake | WData | WDataW (t : Z) | WSeq | WSeqW (t : Z) | WDone.

Definition array_lock_acquire (q : pc) (s : tst) : option (pc * tst) :=
  match q with
  | ATake id => Some (if alocked s =? 0 then ANum id else ATake id, set_alocked 1 s)
  | ANum id => Some (ANumW id (num s), s)
  | ANumW id t => Some (ATest id, set_num (t +i 1) s)
  | ATest id => Some (if negb (Z.rem (num s -i 1) 20 =? id) then ADec id else ATicket id, s)
  | ADec id => Some (ADecW id (num s), s)
  | ADecW id t => Some (AFailed id, set_num (t -i 1) s)
  | ATicket id => Some (ASpin id (Z.rem (num s -i 1) 20), s)
  | ASpin id k => Some (if flag s !!! Z.to_nat k =? 0 then ASpin id k else AHold id k, s)
  | _ => None
  end.

Definition array_lock_release (q : pc) (s : tst) : option (pc * tst) :=
  match q with
  | AHold id k => Some (AFlag id k, set_alocked 0 s)
  | AFlag id k => Some (ANext id k, set_flag (<[Z.to_nat k := 0]> (flag s)) s)
  | ANext id k => Some (ATake id, set_flag (<[Z.to_nat (k +i 1) := 1]> (flag s)) s)
  | _ => None
  end.

Definition reader (q : pc) (s : tst) : option (pc * tst) :=
  match q with
  | RSeq p => Some (RData p (SEQ s), s)
  | RData p sq => Some (RSeq1 p sq (DATA s), s)
  | RSeq1 p sq r => Some (RTurn p sq r (SEQ s), s)
  | RTurn p sq r sq1 => Some (if negb (WORKNUM s =? p) then RSeq p else if Z.rem sq1 2 =? 0 then RCheck p sq r sq1 else RSeq p, s)
  | RCheck p sq r sq1 => Some (if (sq1 =? SEQ s) && (sq =? sq1) then RInc r else RSeq p, s)
  | RInc r => Some (RIncW r (SEQ s), s)
  | RIncW r t => Some (RWork r, set_SEQ (t +i 1) s)
  | RWork r => Some (RWorkW r (WORKNUM s), s)
  | RWorkW r t => Some (RWrap r, set_WORKNUM (t +i 1) s)
  | RWrap r => Some (if WORKNUM s =? 20 then RZero r else RDone r, s)
  | RZero r => Some (RDone r, set_WORKNUM 0 s)
  | _ => None
  end.

Definition seqlock_writer (q : pc) (s : tst) : option (pc * tst) :=
  match q with
  | WTake => Some (if slocked s =? 0 then WData else WTake, set_slocked 1 s)
  | WData => Some (WDataW (DATA s), s)
  | WDataW t => Some (WSeq, set_DATA (t +i 1) s)
  | WSeq => Some (WSeqW (SEQ s), s)
  | WSeqW t => Some (WDone, set_SEQ (t +i 1) s)
  | _ => None
  end.

(** A thread makes a step; the initial values are those of the globals. *)
Inductive step : list pc * tst → list pc * tst → Prop :=
| step_thread l s i q q' s' :
    l !! i = Some q →
    array_lock_acquire q s = Some (q', s') ∨ array_lock_release q s = Some (q', s') ∨
    reader q s = Some (q', s') ∨ seqlock_writer q s = Some (q', s') →
    step (l, s) (<[i := q']> l, s').
Definition globals : tst := seqlock_init (array_lock_init (Tst 0 1 0 0 0 0 (replicate 600 0))).
Definition starting (q : pc) : bool := match q with ATake _ | RSeq _ | WTake => true | _ => false end.

(** ** Who has a lock *)
Section proofs.
Implicit Types (l : list pc) (s : tst).

(** The threads between taking the lock and giving it back, a thread whose
    acquire failed included; and the writers that have taken theirs. *)
Definition inside (q : pc) : bool :=
  match q with
  | ANum _ | ANumW _ _ | ATest _ | ADec _ | ADecW _ _ | ATicket _ | ASpin _ _ | AHold _ _ | AFailed _ => true
  | _ => false
  end.
Definition wrote (q : pc) : bool := match q with WData | WDataW _ | WSeq | WSeqW _ | WDone => true | _ => false end.

(** One lock: free and nobody has it, or taken by one thread. *)
Definition one (f : pc → bool) (lk : Z) l : Prop :=
  (lk = 0 ∧ ∀ j q, l !! j = Some q → f q = false) ∨
  (lk = 1 ∧ ∃ i q, l !! i = Some q ∧ f q = true ∧ ∀ j q', j ≠ i → l !! j = Some q' → f q' = false).

Lemma one_move f lk l i q q' : one f lk l → l !! i = Some q → f q' = f q → one f lk (<[i := q']> l).
Proof.
  intros [(-> & H)|(-> & h & qh & Hh & Hf & Ho)] Hi E.
  - left. split; [done|]. intros j qj [(<- & <- & _)|[_ Hj]]%list_lookup_insert_Some; [rewrite E|]; by eapply H.
  - right. split; [done|]. destruct (decide (i = h)) as [->|Hne].
    + simplify_eq. exists h, q'. rewrite list_lookup_insert_eq by (by eapply lookup_lt_Some). rewrite E. split_and!; [done..|].
      intros j qj Hj. rewrite list_lookup_insert_ne by done. by apply Ho.
    + exists h, qh. rewrite list_lookup_insert_ne by done. split_and!; [done..|].
      intros j qj Hj [(<- & <- & _)|[_ Hj']]%list_lookup_insert_Some; [rewrite E; by eapply Ho|by eapply Ho].
Qed.

Lemma one_take f l i q q' : one f 0 l → l !! i = Some q → f q' = true → one f 1 (<[i := q']> l).
Proof.
  intros [(_ & H)|(E & _)] Hi E'; [|done]. right. split; [done|]. exists i, q'.
  rewrite list_lookup_insert_eq by (by eapply lookup_lt_Some). split_and!; [done..|].
  intros j qj Hj. rewrite list_lookup_insert_ne by done. by apply H.
Qed.

Lemma one_give f lk l i q q' : one f lk l → l !! i = Some q → f q = true → f q' = false → one f 0 (<[i := q']> l).
Proof.
  intros [(_ & H)|(_ & h & qh & Hh & Hf & Ho)] Hi E E'; [by rewrite (H i q Hi) in E|]. left. split; [done|].
  destruct (decide (i = h)) as [->|Hne]; [|by rewrite (Ho i q Hne Hi) in E].
  intros j qj [(<- & <- & _)|[Hj Hj']]%list_lookup_insert_Some; [done|]. by apply (Ho j); [congruence|].
Qed.

Definition written (q : pc) : bool := match q with WSeq | WSeqW _ | WDone => true | _ => false end.
Definition data_ok l s : Prop :=
  (slocked s = 0 → DATA s = 0) ∧
  ∀ i q, l !! i = Some q → wrote q = true → DATA s = Z.b2z (written q) ∧ match q with WDataW t => t = 0 | _ => True end.

Record inv (x : list pc * tst) : Prop := {
  iv_array : one inside (alocked x.2) x.1;
  iv_seq : one wrote (slocked x.2) x.1;
  iv_data : data_ok x.1 x.2;
}.

Lemma data_move l s s' i q q' :
  data_ok l s → l !! i = Some q → DATA s' = DATA s → slocked s' = slocked s → wrote q' = wrote q → written q' = written q →
  match q' with WDataW _ => False | _ => True end → data_ok (<[i := q']> l) s'.
Proof.
  intros [H0 H] Hi ED ES Ew Ew' Hq. split; [by rewrite ES, ED|]. rewrite ED.
  intros j qj [(<- & <- & _)|[_ Hj]]%list_lookup_insert_Some Hw; [|by eapply H].
  rewrite Ew' . rewrite Ew in Hw. destruct (H i q Hi Hw) as [E _]. split; [done|]. by destruct q'.
Qed.

Lemma tl_start_inv l : forallb starting l = true → inv (l, globals).
Proof.
  intros Hl. rewrite forallb_forall in Hl.
  assert (∀ j q, l !! j = Some q → starting q = true) as Hs by (intros j q Hj; apply Hl, list_elem_of_In; by eapply list_elem_of_lookup_2).
  split; cbn [fst snd].
  - left. split; [done|]. intros j q Hj. specialize (Hs j q Hj). by destruct q.
  - left. split; [done|]. intros j q Hj. specialize (Hs j q Hj). by destruct q.
  - split; [done|]. intros j q Hj Hw. specialize (Hs j q Hj). by destruct q.
Qed.

(** A step that leaves the locks and DATA alone, of a thread that stays inside or
    outside. *)
Lemma plain_inv l s s' i q q' :
  inv (l, s) → l !! i = Some q → alocked s' = alocked s → slocked s' = slocked s → DATA s' = DATA s →
  inside q' = inside q → wrote q' = wrote q → written q' = written q → match q' with WDataW _ => False | _ => True end →
  inv (<[i := q']> l, s').
Proof.
  intros [Ha Hs Hd] Hi Ea Es Ed Hin Hw Hw' Hq. cbn [fst snd] in *. split; cbn [fst snd].
  - rewrite Ea. by eapply one_move.
  - rewrite Es. by eapply one_move.
  - by eapply data_move.
Qed.

Lemma acquire_inv l s i q q' s' :
  inv (l, s) → l !! i = Some q → array_lock_acquire q s = Some (q', s') → inv (<[i := q']> l, s').
Proof.
  intros Hv Hi E. destruct q; cbn [array_lock_acquire] in E; try discriminate E; injection E as <- <-.
  - destruct (Z.eqb_spec (alocked s) 0) as [E0|E0].
    + destruct Hv as [Ha Hs Hd]. cbn [fst snd] in *. split; cbn [fst snd].
      * rewrite E0 in Ha. by eapply one_take.
      * by eapply one_move.
      * by eapply data_move.
    + eapply plain_inv; try done. destruct Hv as [[[? _]|[? _]] _ _]; cbn [fst snd set_alocked alocked] in *; congruence.
  - by eapply plain_inv.
  - by eapply plain_inv.
  - destruct (negb _); by eapply plain_inv.
  - by eapply plain_inv.
  - by eapply plain_inv.
  - by eapply plain_inv.
  - destruct (_ =? 0); by eapply plain_inv.
Qed.

Lemma release_inv l s i q q' s' :
  inv (l, s) → l !! i = Some q → array_lock_release q s = Some (q', s') → inv (<[i := q']> l, s').
Proof.
  intros Hv Hi E. destruct q; cbn [array_lock_release] in E; try discriminate E; injection E as <- <-; try by eapply plain_inv.
  destruct Hv as [Ha Hs Hd]. cbn [fst snd] in *. split; cbn [fst snd]; [by eapply one_give|by eapply one_move|by eapply data_move].
Qed.

Lemma reader_inv l s i q q' s' : inv (l, s) → l !! i = Some q → reader q s = Some (q', s') → inv (<[i := q']> l, s').
Proof.
  intros Hv Hi E. destruct q; cbn [reader] in E; try discriminate E; injection E as <- <-;
    repeat match goal with |- context [if ?b then _ else _] => destruct b end; by eapply plain_inv.
Qed.

(** The writer that has the sequence lock is the only one. *)
Lemma writer_alone l s i q : inv (l, s) → l !! i = Some q → wrote q = true → ∀ j q', j ≠ i → l !! j = Some q' → wrote q' = false.
Proof.
  intros [_ [(_ & H)|(_ & h & qh & Hh & Hf & Ho)] _] Hi Hw j q' Hj Hq'; cbn [fst snd] in *; [by eapply H|].
  destruct (decide (i = h)) as [->|Hne]; [by eapply Ho|]. by rewrite (Ho i q Hne Hi) in Hw.
Qed.

Lemma writer_inv l s i q q' s' : inv (l, s) → l !! i = Some q → seqlock_writer q s = Some (q', s') → inv (<[i := q']> l, s').
Proof.
  intros Hv Hi E. destruct q; cbn [seqlock_writer] in E; try discriminate E; injection E as <- <-; try by eapply plain_inv.
  - destruct (Z.eqb_spec (slocked s) 0) as [E0|E0].
    + destruct Hv as [Ha Hs [Hd0 Hd]]. cbn [fst snd] in *. split; cbn [fst snd].
      * by eapply one_move.
      * rewrite E0 in Hs. by eapply one_take.
      * split; [done|]. intros j qj [(<- & <- & _)|[_ Hj]]%list_lookup_insert_Some Hw; [split; [exact (Hd0 E0)|done]|by eapply Hd].
    + eapply plain_inv; try done. destruct Hv as [_ [[? _]|[? _]] _]; cbn [fst snd set_slocked slocked] in *; congruence.
  - destruct Hv as [Ha Hs [Hd0 Hd]]. cbn [fst snd] in *. split; cbn [fst snd]; [by eapply one_move..|].
    split; [done|]. intros j qj [(<- & <- & _)|[_ Hj]]%list_lookup_insert_Some Hw; [by destruct (Hd i _ Hi eq_refl) as [E _]; split|by eapply Hd].
  - pose proof (writer_alone l s i _ Hv Hi eq_refl) as Hal. destruct Hv as [Ha Hs [Hd0 Hd]]. cbn [fst snd] in *.
    destruct (Hd i _ Hi eq_refl) as [_ ->]. split; cbn [fst snd]; [by eapply one_move..|]. split.
    + intros E0. exfalso. destruct Hs as [(_ & H)|(E1 & _)]; [by specialize (H i _ Hi)|]. cbn [set_DATA slocked] in E0. congruence.
    + intros j qj [(<- & <- & _)|[Hj Hjq]]%list_lookup_insert_Some Hw; [done|]. by rewrite (Hal j qj) in Hw by congruence.
Qed.

Lemma tl_reach_inv l x : forallb starting l = true → rtc step (l, globals) x → inv x.
Proof.
  intros Hl. apply (rtc_invariant step inv); [|by apply tl_start_inv].
  intros x1 y1 Hv Hst. revert Hv. destruct Hst as [l1 s1 i q q' s' Hi [E|[E|[E|E]]]]; intros Hv; [by eapply acquire_inv|by eapply release_inv|by eapply reader_inv|by eapply writer_inv].
Qed.

(** The queue lock is lost by a failed acquire: a thread whose turn it is not gives up
    without giving the lock back, and from then on no other thread gets it. *)
Theorem array_lock_lost l0 l s l' s' i id :
  forallb starting l0 = true → rtc step (l0, globals) (l, s) → l !! i = Some (AFailed id) → rtc step (l, s) (l', s') →
  alocked s' = 1 ∧ ∀ j q, j ≠ i → l' !! j = Some q → inside q = false.
Proof.
  intros Hl Hr Hi Hr'.
  assert (l' !! i = Some (AFailed id)) as Hi'.
  { revert Hi. change l with (l, s).1. change l' with (l', s').1. clear Hr. induction Hr' as [|x y z [l1 s1 j q q' s2 Hj Hst] _ IH]; [done|].
    intros Hi. apply IH. cbn [fst] in *. rewrite list_lookup_insert_ne; [done|]. intros ->. rewrite Hi in Hj. injection Hj as <-.
    by destruct Hst as [E|[E|[E|E]]]. }
  pose proof (tl_reach_inv l0 (l', s') Hl (transitivity Hr Hr')) as [[(_ & H)|(E1 & h & qh & Hh & Hf & Ho)] _ _]; cbn [fst snd] in *.
  - by specialize (H i _ Hi').
  - split; [done|]. destruct (decide (i = h)) as [->|Hne]; [exact Ho|]. by specialize (Ho i _ Hne Hi').
Qed.

(** The sequence lock admits one writer: nobody gives it back, and whatever the
    threads do, DATA is written at most once. *)
Theorem seqlock_writes_once l0 l s : forallb starting l0 = true → rtc step (l0, globals) (l, s) → 0 ≤ DATA s ≤ 1.
Proof.
  intros Hl Hr. destruct (tl_reach_inv l0 _ Hl Hr) as [_ [(E & _)|(_ & i & q & Hi & Hw & _)] [H0 H]]; cbn [fst snd] in *.
  - rewrite H0 by done. lia.
  - destruct (H i q Hi Hw) as [-> _]. destruct (written q); cbn; lia.
Qed.
End proofs.

(** Thread 3 asks for the queue lock first and fails, which leaves it locked. *)
Lemma array_lock_first_fails :
  rtc step ([ATake 3; ATake 0], globals) ([AFailed 3; ATake 0], set_alocked 1 globals).
Proof.
  do 6 (eapply rtc_l; [eapply (step_thread _ _ 0%nat); [reflexivity|left; reflexivity]|]). apply rtc_refl.
Qed.

(** Thread 0, whose turn it would be, waits in vain. *)
Lemma array_lock_lost_witness :
  rtc step ([AFailed 3; ATake 0], set_alocked 1 globals) ([AFailed 3; ATake 0], set_alocked 1 globals) ∧
  ∀ j q, j ≠ 0%nat → [AFailed 3; ATake 0] !! j = Some q → inside q = false.
Proof.
  assert (rtc step ([AFailed 3; ATake 0], set_alocked 1 globals) ([AFailed 3; ATake 0], set_alocked 1 globals)) as H.
  { eapply rtc_l; [eapply (step_thread _ _ 1%nat); [reflexivity|left; reflexivity]|apply rtc_refl]. }
  split; [exact H|].
  apply (array_lock_lost [ATake 3; ATake 0] [AFailed 3; ATake 0] (set_alocked 1 globals) _ _ 0%nat 3 eq_refl
    array_lock_first_fails eq_refl H).
Defined.
