(* ===== verification/Ring.v ===== *)
(** * Ring buffers

    pipe.c and console.c keep bytes in an array indexed modulo its size with
    counters that only grow, and wrap as [uint]s.  The sizes divide [2 ^ 32], so
    the wrap-around does not disturb the slots. *)

From S2P Require Import Prelude.
Open Scope kernel_scope.

Section ring.
Context (size : nat).

(** [buf[n % size]] *)
Definition slot (n : Z) : nat := Z.to_nat (n mod Z.of_nat size).

(** The [n] bytes from counter [r] on. *)
Definition contents (buf : list Z) (r : Z) (n : nat) : list Z :=
  (λ k, buf !!! slot (r + Z.of_nat k)) <$> seq 0 n.

Context (Hdiv : (Z.of_nat size | 2 ^ 32)).

Lemma size_pos : 0 < Z.of_nat size.
Proof using Hdiv. destruct Hdiv as [k Hk]. destruct size; [simpl in Hk; lia|lia]. Qed.

Lemma slot_lt n : (slot n < size)%nat.
Proof using Hdiv.
  unfold slot. pose proof size_pos. pose proof (Z.mod_pos_bound n (Z.of_nat size) ltac:(lia)). lia.
Qed.

Lemma ring_slot_u32 n : slot (u32 n) = slot n.
Proof using Hdiv.
  unfold slot, u32. f_equal. destruct Hdiv as [k Hk]. pose proof size_pos.
  rewrite Hk. symmetry. apply Znumtheory.Zmod_div_mod; [lia|nia|]. by exists k.
Qed.

Lemma ring_slot_ne r j k :
  (j < size)%nat → (k < size)%nat → j ≠ k → slot (r + Z.of_nat j) ≠ slot (r + Z.of_nat k).
Proof using Hdiv.
  intros Hj Hk Hne E. pose proof size_pos as Hp. unfold slot in E.
  pose proof (Z.mod_pos_bound (r + Z.of_nat j) (Z.of_nat size) ltac:(lia)).
  pose proof (Z.mod_pos_bound (r + Z.of_nat k) (Z.of_nat size) ltac:(lia)).
  apply Z2Nat.inj in E; [|lia..].
  pose proof (Z.div_mod (r + Z.of_nat j) (Z.of_nat size) ltac:(lia)).
  pose proof (Z.div_mod (r + Z.of_nat k) (Z.of_nat size) ltac:(lia)).
  set (a := (r + Z.of_nat j) / _) in *. set (b := (r + Z.of_nat k) / _) in *.
  assert (Z.of_nat j - Z.of_nat k = Z.of_nat size * (a - b)) as Ed by lia.
  destruct (Z.eq_dec a b) as [->|]; [lia|]. nia.
Qed.

Lemma length_contents buf r n : length (contents buf r n) = n.
Proof using. unfold contents. by rewrite length_fmap, length_seq. Qed.

Lemma contents_lookup buf r n k :
  (k < n)%nat → contents buf r n !! k = Some (buf !!! slot (r + Z.of_nat k)).
Proof using. intros Hk. unfold contents. rewrite list_lookup_fmap, lookup_seq_lt by done. done. Qed.

Lemma contents_u32 buf r n : contents buf (u32 r) n = contents buf r n.
Proof using Hdiv.
  unfold contents. apply list_fmap_ext. intros _ k _. f_equal.
  rewrite <- ring_slot_u32, <- (ring_slot_u32 (r + _)). f_equal. unfold u32. by rewrite Z.add_mod_idemp_l by lia.
Qed.

(** Adding at the end. *)
Lemma contents_snoc buf r n :
  contents buf r (S n) = contents buf r n ++ [buf !!! slot (r + Z.of_nat n)].
Proof using. unfold contents. by rewrite seq_S, fmap_app. Qed.

Lemma contents_insert buf r n x :
  (n < size)%nat → contents (<[slot (r + Z.of_nat n) := x]> buf) r n = contents buf r n.
Proof using Hdiv.
  intros Hn. unfold contents. apply list_fmap_ext. intros i k [-> Hk]%lookup_seq.
  apply list_lookup_total_insert_ne. apply ring_slot_ne; lia.
Qed.

Lemma contents_push buf r n x :
  length buf = size → (n < size)%nat →
  contents (<[slot (r + Z.of_nat n) := x]> buf) r (S n) = contents buf r n ++ [x].
Proof using Hdiv.
  intros Hl Hn. rewrite contents_snoc, contents_insert by done. do 2 f_equal.
  apply list_lookup_total_insert_eq. rewrite Hl. apply slot_lt.
Qed.

(** Taking from the front. *)
Lemma contents_pop buf r n : contents buf r (S n) = buf !!! slot r :: contents buf (r + 1) n.
Proof using.
  unfold contents. cbn [seq fmap list_fmap]. rewrite Z.add_0_r. f_equal. rewrite <- (fmap_S_seq 0 n), <- list_fmap_compose.
  apply list_fmap_ext. intros _ k _. simpl. do 2 f_equal. lia.
Qed.

(** Splitting at a counter. *)
Lemma contents_app buf r n m : contents buf r (n + m) = contents buf r n ++ contents buf (r + Z.of_nat n) m.
Proof using.
  revert r. induction n as [|n IH]; intros r; [by rewrite Z.add_0_r|].
  rewrite Nat.add_succ_l, !contents_pop, IH. simpl. do 3 f_equal. lia.
Qed.
(** Counters at most the size apart are equal only if they are. *)
Lemma counter_eq r a b :
  Z.of_nat size < 2 ^ 32 → (a ≤ size)%nat → (b ≤ size)%nat →
  (u32 (r + Z.of_nat a) =? u32 (r + Z.of_nat b)) = (a =? b)%nat.
Proof using.
  intros Hs Ha Hb. destruct (Nat.eqb_spec a b) as [->|Hne]; [apply Z.eqb_refl|]. apply Z.eqb_neq.
  unfold u32. intros E. pose proof (Z.div_mod (r + Z.of_nat a) (2 ^ 32)). pose proof (Z.div_mod (r + Z.of_nat b) (2 ^ 32)).
  assert (Z.of_nat a - Z.of_nat b = 2 ^ 32 * ((r + Z.of_nat a) / 2 ^ 32 - (r + Z.of_nat b) / 2 ^ 32)) as Ed by lia.
  set (k := (r + Z.of_nat a) / 2 ^ 32 - (r + Z.of_nat b) / 2 ^ 32) in *. destruct (Z.eq_dec k 0); lia.
Qed.
End ring.

Lemma u32_add_u32 a b : u32 (u32 a + b) = u32 (a + b).
Proof. unfold u32. by rewrite Z.add_mod_idemp_l by lia. Qed.
Lemma u32_sub_u32 a b : u32 (u32 a - b) = u32 (a - b).
Proof. unfold u32. by rewrite Zminus_mod_idemp_l. Qed.
