(* ===== verification/Kbd.v ===== *)
(** * The keyboard: kbd.h and kbdgetc() of kbd.c

    The controller's queue of scan codes is part of the state: the status port
    says whether it is empty, the data port takes its first byte. *)

From S2P Require Import Prelude.
Open Scope kernel_scope.

Definition NO : Z := 0.
Definition SHIFT : Z := Z.shiftl 1 0.
Definition CTL : Z := Z.shiftl 1 1.
Definition ALT : Z := Z.shiftl 1 2.
Definition CAPSLOCK : Z := Z.shiftl 1 3.
Definition NUMLOCK : Z := Z.shiftl 1 4.
Definition SCROLLLOCK : Z := Z.shiftl 1 5.
Definition E0ESC : Z := Z.shiftl 1 6.

Definition KEY_HOME : Z := 0xE0.
Definition KEY_END : Z := 0xE1.
Definition KEY_UP : Z := 0xE2.
Definition KEY_DN : Z := 0xE3.
Definition KEY_LF : Z := 0xE4.
Definition KEY_RT : Z := 0xE5.
Definition KEY_PGUP : Z := 0xE6.
Definition KEY_PGDN : Z := 0xE7.
Definition KEY_INS : Z := 0xE8.
Definition KEY_DEL : Z := 0xE9.

(** Control-[x], as a byte. *)
Definition C (x : Z) : Z := u8 (x - 64).

(** A table of 256 bytes: the listed ones, the designated ones, zero elsewhere. *)
Definition table (l : list Z) (des : list (Z * Z)) : list Z :=
  foldl (λ t p, <[Z.to_nat p.1 := p.2]> t) (l ++ replicate (256 - length l) 0) des.

Definition shiftcode : list Z :=
  table [] [(0x1D, CTL); (0x2A, SHIFT); (0x36, SHIFT); (0x38, ALT); (0x9D, CTL); (0xB8, ALT)].
Definition togglecode : list Z := table [] [(0x3A, CAPSLOCK); (0x45, NUMLOCK); (0x46, SCROLLLOCK)].

(** The characters of the keys, alone, with shift and with control. *)
Definition normalmap : list Z := table [
   NO; 27; 49; 50; 51; 52; 53; 54;
   55; 56; 57; 48; 45; 61; 8; 9;
   113; 119; 101; 114; 116; 121; 117; 105;
   111; 112; 91; 93; 10; NO; 97; 115;
   100; 102; 103; 104; 106; 107; 108; 59;
   39; 96; NO; 92; 122; 120; 99; 118;
   98; 110; 109; 44; 46; 47; NO; 42;
   NO; 32; NO; NO; NO; NO; NO; NO;
   NO; NO; NO; NO; NO; NO; NO; 55;
   56; 57; 45; 52; 53; 54; 43; 49;
   50; 51; 48; 46; NO; NO; NO; NO] [
   (0x9c, 10); (0xb5, 47); (0xc8, KEY_UP); (0xd0, KEY_DN); (0xc9, KEY_PGUP); (0xd1, KEY_PGDN);
   (0xcb, KEY_LF); (0xcd, KEY_RT); (0x97, KEY_HOME); (0xcf, KEY_END); (0xd2, KEY_INS); (0xd3, KEY_DEL)].
Definition shiftmap : list Z := table [
   NO; 27; 33; 64; 35; 36; 37; 94;
   38; 42; 40; 41; 95; 43; 8; 9;
   81; 87; 69; 82; 84; 89; 85; 73;
   79; 80; 123; 125; 10; NO; 65; 83;
   68; 70; 71; 72; 74; 75; 76; 58;
   34; 126; NO; 124; 90; 88; 67; 86;
   66; 78; 77; 60; 62; 63; NO; 42;
   NO; 32; NO; NO; NO; NO; NO; NO;
   NO; NO; NO; NO; NO; NO; NO; 55;
   56; 57; 45; 52; 53; 54; 43; 49;
   50; 51; 48; 46; NO; NO; NO; NO] [
   (0x9c, 10); (0xb5, 47); (0xc8, KEY_UP); (0xd0, KEY_DN); (0xc9, KEY_PGUP); (0xd1, KEY_PGDN);
   (0xcb, KEY_LF); (0xcd, KEY_RT); (0x97, KEY_HOME); (0xcf, KEY_END); (0xd2, KEY_INS); (0xd3, KEY_DEL)].
Definition ctlmap : list Z := table [
   NO; NO; NO; NO; NO; NO; NO; NO;
   NO; NO; NO; NO; NO; NO; NO; NO;
   (C 81); (C 87); (C 69); (C 82); (C 84); (C 89); (C 85); (C 73);
   (C 79); (C 80); NO; NO; 13; NO; (C 65); (C 83);
   (C 68); (C 70); (C 71); (C 72); (C 74); (C 75); (C 76); NO;
   NO; NO; NO; (C 92); (C 90); (C 88); (C 67); (C 86);
   (C 66); (C 78); (C 77); NO; NO; (C 47); NO; NO] [
   (0x9c, 13); (0xb5, (C 47)); (0xc8, KEY_UP); (0xd0, KEY_DN); (0xc9, KEY_PGUP); (0xd1, KEY_PGDN);
   (0xcb, KEY_LF); (0xcd, KEY_RT); (0x97, KEY_HOME); (0xcf, KEY_END); (0xd2, KEY_INS); (0xd3, KEY_DEL)].

Record kbd := Kbd { shift : Z; keys : list Z }.
Definition set_shift (v : Z) (k : kbd) : kbd := Kbd v (keys k).
Definition set_keys (v : list Z) (k : kbd) : kbd := Kbd (shift k) v.

(** The code of a key that is pressed, with the state of the modifiers. *)
Definition keycode (shift data : Z) : Z :=
  let c := ([normalmap; shiftmap; ctlmap; ctlmap] !!! Z.to_nat (Z.land shift (Z.lor CTL SHIFT))) !!! Z.to_nat data in
  if negb (Z.land shift CAPSLOCK =? 0) then
    if (97 <=? c) && (c <=? 122) then c +u (65 - 97)
    else if (65 <=? c) && (c <=? 90) then c +u (97 - 65) else c
  else c.

Definition kbdgetc : M kbd Z :=
  k ← get;
  match keys k with
  | [] => mret (-1)
  | data :: rest =>
      modify (set_keys rest);;
      if data =? 0xE0 then
        modify (λ k, set_shift (Z.lor (shift k) E0ESC) k);;
        mret 0
      else if negb (Z.land data 0x80 =? 0) then
        let data := if negb (Z.land (shift k) E0ESC =? 0) then data else Z.land data 0x7F in
        modify (λ k, set_shift (Z.land (shift k) (Z.lnot (Z.lor (shiftcode !!! Z.to_nat data) E0ESC))) k);;
        mret 0
      else
        data ← (if negb (Z.land (shift k) E0ESC =? 0) then
                  modify (λ k, set_shift (Z.land (shift k) (Z.lnot E0ESC)) k);;
                  mret (Z.lor data 0x80)
                else mret data);
        modify (λ k, set_shift (Z.lor (shift k) (shiftcode !!! Z.to_nat data)) k);;
        modify (λ k, set_shift (Z.lxor (shift k) (togglecode !!! Z.to_nat data)) k);;
        k ← get;
        mret (keycode (shift k) data)
  end.

(** ** Behaviour *)

(** [n] calls of kbdgetc(), and what they return. *)
Fixpoint getcs (n : nat) : M kbd (list Z) :=
  match n with
  | O => mret []
  | S n => c ← kbdgetc; cs ← getcs n; mret (c :: cs)
  end.

(** The scan codes of pressing and releasing key [d], or the extended key [d]. *)
Definition press_release (esc : bool) (d : Z) : list Z :=
  (if esc then [0xE0] else []) ++ [d] ++ (if esc then [0xE0] else []) ++ [Z.lor d 0x80].

(** The index of a key in the tables. *)
Definition key_index (esc : bool) (d : Z) : Z := if esc then Z.lor d 0x80 else d.

(** What pressing and releasing a key returns. *)
Definition key_result (esc : bool) (sh d : Z) : list Z :=
  let i := key_index esc d in
  let sh' := Z.lxor (Z.lor sh (shiftcode !!! Z.to_nat i)) (togglecode !!! Z.to_nat i) in
  (if esc then [0] else []) ++ [keycode sh' i] ++ (if esc then [0] else []) ++ [0].

(** Bytes still queued do not matter. *)
Lemma kbdgetc_queue sh data l rest c sh' :
  kbdgetc (Kbd sh (data :: l)) = Ok c (Kbd sh' l) → kbdgetc (Kbd sh (data :: l ++ rest)) = Ok c (Kbd sh' (l ++ rest)).
Proof.
  unfold kbdgetc. mred. cbn [keys shift]. destruct (data =? 0xE0); [by intros [= <- <-]|].
  destruct (negb (Z.land data 0x80 =? 0)); [by intros [= <- <-]|].
  destruct (negb (Z.land sh E0ESC =? 0)); by intros [= <- <-].
Qed.

Lemma getcs_queue n sh l rest cs sh' :
  length l = n → getcs n (Kbd sh l) = Ok cs (Kbd sh' []) → getcs n (Kbd sh (l ++ rest)) = Ok cs (Kbd sh' rest).
Proof.
  revert sh l cs. induction n as [|n IH]; intros sh [|data l] cs Hl; try done; [by intros [= <- <-]|].
  injection Hl as Hl. cbn [getcs app]. intros H. minv H.
  assert (∃ sh1, s = Kbd sh1 l) as [sh1 ->].
  { revert E. unfold kbdgetc. mred. cbn [keys shift]. destruct (data =? 0xE0); [intros [= _ <-]; by eexists|].
    destruct (negb (Z.land data 0x80 =? 0)); [intros [= _ <-]; by eexists|].
    destruct (negb (Z.land sh E0ESC =? 0)); intros [= _ <-]; by eexists. }
  minv H. assert (s = Kbd sh' []) as -> by (by injection H). injection H as <-.
  rewrite (bind_ok _ _ _ _ _ (kbdgetc_queue _ _ _ rest _ _ E)), (bind_ok _ _ _ _ _ (IH _ _ _ Hl E0)). done.
Qed.

(** All keys in all states of the modifiers. *)
Definition key_ok (esc : bool) (sh d : Z) : bool :=
  let i := key_index esc d in
  negb (Z.land sh (shiftcode !!! Z.to_nat i) =? 0) || (d =? 0x60) ||
  match getcs (length (press_release esc d)) (Kbd sh (press_release esc d)) with
  | Ok cs (Kbd sh' []) => bool_decide (cs = key_result esc sh d) && (sh' =? Z.lxor sh (togglecode !!! Z.to_nat i))
  | _ => false
  end.

Lemma keys_ok : forallb (λ esc, forallb (λ sh, forallb (key_ok esc sh) (seqZ 0 128)) (seqZ 0 64)) [false; true] = true.
Proof. vm_compute. reflexivity. Qed.

(** A key that is pressed and released gives its character once.
    Whatever locks and modifiers are on, and for plain keys as for extended ones
    (prefixed with 0xE0), the scan codes of pressing and releasing a key whose
    modifier is not already held give its code from the table the modifiers
    select, with the case of letters swapped under CAPSLOCK, and otherwise 0; the
    modifiers are as before, except that a lock key has toggled its lock.  The
    one exception is key 0x60, whose release code is the escape 0xE0. *)
Theorem kbd_press_release esc sh d rest :
  0 ≤ d < 128 → d ≠ 0x60 → 0 ≤ sh < 64 → Z.land sh (shiftcode !!! Z.to_nat (key_index esc d)) = 0 →
  getcs (length (press_release esc d)) (Kbd sh (press_release esc d ++ rest)) =
  Ok (key_result esc sh d) (Kbd (Z.lxor sh (togglecode !!! Z.to_nat (key_index esc d))) rest).
Proof.
  intros Hd Hne Hsh Hmod. apply getcs_queue; [done|].
  pose proof keys_ok as H. rewrite forallb_forall in H. specialize (H esc ltac:(destruct esc; simpl; auto)).
  rewrite forallb_forall in H. specialize (H sh ltac:(apply list_elem_of_In, elem_of_seqZ; lia)).
  rewrite forallb_forall in H. specialize (H d ltac:(apply list_elem_of_In, elem_of_seqZ; lia)).
  unfold key_ok in H. rewrite Hmod, (proj2 (Z.eqb_neq d 0x60)) in H by done. cbn [Z.eqb negb orb] in H.
  destruct (getcs _ _) as [cs [sh' [|]]| | |]; try done. apply andb_true_iff in H as [H1 H2].
  apply bool_decide_eq_true_1 in H1. apply Z.eqb_eq in H2. by subst.
Qed.

Lemma kbd_press_release_witness :
  getcs 2 (Kbd 9 [0x1E; 0x9E]) = Ok [97; 0] (Kbd 9 []).
Proof. apply (kbd_press_release false 9 0x1E []); [lia|lia|lia|reflexivity]. Defined.
