(* ===== verification/Console.v ===== *)
(** * The console: console.c, uart.c

    The serial port keeps what it has sent in [serial] and its pending input in
    [serialq]; the CGA controller keeps the cursor in [crtpos], and the text
    screen is the memory at [crt].  uartputc()'s wait for the transmitter is left
    out: it is bounded and its outcome ignored.

    consoleread() and consolewrite() unlock and relock the device's inode, which
    belongs to fs.c: they take these operations as arguments. *)

From S2P Require Import Prelude Machine Proc CString Kalloc Sleeplock Bio Log Ring Kbd.
Open Scope kernel_scope.

Definition INPUT_BUF : nat := 128.
Definition BACKSPACE : Z := 0x100.
Definition crt : Z := P2V 0xb8000.

(** [input]: the ring of typed characters, with its read, write and edit
    indices. *)
Record inputbuf := Input { ibuf : list Z; ir : Z; iw : Z; ie : Z }.
Definition set_ibuf (v : list Z) (x : inputbuf) : inputbuf := Input v (ir x) (iw x) (ie x).
Definition set_ir (v : Z) (x : inputbuf) : inputbuf := Input (ibuf x) v (iw x) (ie x).
Definition set_iw (v : Z) (x : inputbuf) : inputbuf := Input (ibuf x) (ir x) v (ie x).
Definition set_ie (v : Z) (x : inputbuf) : inputbuf := Input (ibuf x) (ir x) (iw x) v.

Record cst := Cst {
  cl : lst; panicked : Z; locking : Z; crtpos : Z; uart : Z; serial : list Z; serialq : list Z; kb : kbd;
  input : inputbuf
}.
Definition set_cl (v : lst) (s : cst) : cst :=
  Cst v (panicked s) (locking s) (crtpos s) (uart s) (serial s) (serialq s) (kb s) (input s).
Definition set_locking (v : Z) (s : cst) : cst :=
  Cst (cl s) (panicked s) v (crtpos s) (uart s) (serial s) (serialq s) (kb s) (input s).
Definition set_crtpos (v : Z) (s : cst) : cst :=
  Cst (cl s) (panicked s) (locking s) v (uart s) (serial s) (serialq s) (kb s) (input s).
Definition set_uart (v : Z) (s : cst) : cst :=
  Cst (cl s) (panicked s) (locking s) (crtpos s) v (serial s) (serialq s) (kb s) (input s).
Definition set_serial (v : list Z) (s : cst) : cst :=
  Cst (cl s) (panicked s) (locking s) (crtpos s) (uart s) v (serialq s) (kb s) (input s).
Definition set_serialq (v : list Z) (s : cst) : cst :=
  Cst (cl s) (panicked s) (locking s) (crtpos s) (uart s) (serial s) v (kb s) (input s).
Definition set_kb (v : kbd) (s : cst) : cst :=
  Cst (cl s) (panicked s) (locking s) (crtpos s) (uart s) (serial s) (serialq s) v (input s).
Definition set_input (v : inputbuf) (s : cst) : cst :=
  Cst (cl s) (panicked s) (locking s) (crtpos s) (uart s) (serial s) (serialq s) (kb s) v.

#[global] Instance lens_lst S `{Lens S cst} : Lens S lst.
Proof.
  refine {| view s := cl (view s); upd k s := upd (set_cl k (view s)) s |}.
  - intros. by rewrite view_upd.
  - intros s. assert (∀ x, set_cl (cl x) x = x) as -> by (by intros []). apply upd_view.
  - intros. by rewrite view_upd, upd_upd.
Defined.

Module Cons.

(** ** Output *)

Definition uartputc (c : Z) : M cst unit :=
  s ← get;
  mwhen (negb (uart s =? 0)) (modify (λ s, set_serial (serial s ++ [u8 c]) s)).

Definition store16 (a v : Z) (m : mem) : mem := store8 (a + 1) (Z.shiftr v 8) (store8 a v m).

(** The three parts of cgaputc(): writing the character, scrolling up, and moving
    the cursor. *)
Definition cga_advance (c pos : Z) : M cst Z :=
  if c =? 10 then mret (pos + (80 - Z.rem pos 80))
  else if c =? BACKSPACE then mret (if 0 <? pos then pos - 1 else pos)
  else mod_mem (store16 (crt + 2 * pos) (Z.lor (Z.land c 0xff) 0x0700));; mret (pos + 1).

Definition cga_scroll (pos : Z) : M cst Z :=
  if 24 <=? Z.quot pos 80 then
    mod_mem (memmove crt (crt + 2 * 80) (2 * 23 * 80));;
    let pos := pos - 80 in
    mod_mem (memset (crt + 2 * pos) 0 (2 * (24 * 80 - pos)));;
    mret pos
  else mret pos.

Definition cgaputc (c : Z) : M cst unit :=
  pos ← gets crtpos;
  pos ← cga_advance c pos;
  if (pos <? 0) || (25 * 80 <? pos) then panic "pos under/overflow" else
  pos ← cga_scroll pos;
  modify (set_crtpos (Z.lor (Z.shiftl (u8 (Z.shiftr pos 8)) 8) (u8 pos)));;
  mod_mem (store16 (crt + 2 * pos) (Z.lor 32 0x0700)).

(** A CPU that prints after a panic elsewhere stops for ever. *)
Definition consputc (c : Z) : M cst unit :=
  s ← get;
  if negb (panicked s =? 0) then spin else
  (if c =? BACKSPACE then uartputc 8;; uartputc 32;; uartputc 8 else uartputc c);;
  cgaputc c.

Fixpoint put_all (l : list Z) : M cst unit :=
  match l with [] => mret tt | c :: l => consputc c;; put_all l end.

Definition digits : list Z := chars "0123456789abcdef".

Fixpoint digits_loop (fuel : nat) (x base : Z) : list Z :=
  match fuel with
  | O => []
  | S fuel => digits !!! Z.to_nat (x mod base) :: (if x / base =? 0 then [] else digits_loop fuel (x / base) base)
  end.

(** A 32-bit value has at most 32 digits in any base. *)
Definition printint (xx base : Z) (sign : bool) : M cst unit :=
  let neg := sign && (xx <? 0) in
  let x := if neg then u32 (- xx) else u32 xx in
  put_all (reverse (digits_loop 32 x base ++ (if neg then [45] else []))).

(** The words after the format: a number, or a pointer to a string. *)
Inductive carg := CInt (w : Z) | CStr (s : list Z) | CNull.

(** A conversion without an argument of its kind is undefined behaviour. *)
Fixpoint cprintf_loop (fmt : list Z) (argp : list carg) : M cst unit :=
  match fmt with
  | [] => mret tt
  | c :: fmt =>
      if negb (c =? 37) then consputc c;; cprintf_loop fmt argp else
      match fmt with
      | [] => mret tt
      | c :: fmt =>
          if c =? 100 then
            match argp with
            | CInt w :: argp => printint (s32 w) 10 true;; cprintf_loop fmt argp
            | _ => panic "undefined"
            end
          else if (c =? 120) || (c =? 112) then
            match argp with
            | CInt w :: argp => printint (s32 w) 16 false;; cprintf_loop fmt argp
            | _ => panic "undefined"
            end
          else if c =? 115 then
            match argp with
            | CStr s :: argp => put_all s;; cprintf_loop fmt argp
            | CNull :: argp => put_all (chars "(null)");; cprintf_loop fmt argp
            | _ => panic "undefined"
            end
          else if c =? 37 then consputc 37;; cprintf_loop fmt argp
          else consputc 37;; consputc c;; cprintf_loop fmt argp
      end
  end.

(** [None] is a null format. *)
Definition cprintf (fmt : option (list Z)) (argp : list carg) : M cst unit :=
  locking ← gets locking;
  mwhen (negb (locking =? 0)) (acquire LCons);;
  match fmt with
  | None => panic "null fmt"
  | Some fmt =>
      cprintf_loop fmt argp;;
      mwhen (negb (locking =? 0)) (release LCons)
  end.

(** uartinit(), on what the port's line status register reads; 0xFF: no port. *)
Fixpoint uart_puts (l : list Z) : M cst unit :=
  match l with [] => mret tt | c :: l => uartputc c;; uart_puts l end.
Definition uartinit (status : Z) : M cst unit :=
  if status =? 0xFF then mret tt else
  modify (set_uart 1);;
  uart_puts (chars "xv6..." ++ [10]).

(** ** Input *)

Definition get_input : M cst inputbuf := gets input.
Definition mod_input (f : inputbuf → inputbuf) : M cst unit := modify (λ s, set_input (f (input s)) s).

Definition uartgetc : M cst Z :=
  s ← get;
  if uart s =? 0 then mret (-1) else
  match serialq s with
  | [] => mret (-1)
  | c :: q => modify (set_serialq q);; mret c
  end.

Definition kbd_getc : M cst Z := zoom kb (λ k s, set_kb k s) kbdgetc.

(** Control-U. *)
Definition kill_line_body (_ : unit) : M cst (unit + unit) :=
  x ← get_input;
  if negb (ie x =? iw x) && negb (ibuf x !!! slot INPUT_BUF (ie x -u 1) =? 10) then
    mod_input (set_ie (ie x -u 1));;
    consputc BACKSPACE;;
    mret (inl tt)
  else mret (inr tt).

(** The switch of consoleintr(), on the character [c]; the result is true when a
    process listing is asked for. *)
Definition console_char (c : Z) : M cst bool :=
  if c =? C 80 then mret true
  else if c =? C 85 then loop kill_line_body 32 tt;; mret false
  else if (c =? C 72) || (c =? 0x7f) then
    x ← get_input;
    mwhen (negb (ie x =? iw x))
      (mod_input (set_ie (ie x -u 1));;
       consputc BACKSPACE);;
    mret false
  else
    x ← get_input;
    mwhen (negb (c =? 0) && (ie x -u ir x <? Z.of_nat INPUT_BUF))
      (let c := if c =? 13 then 10 else c in
       mod_input (set_ibuf (<[slot INPUT_BUF (ie x) := u8 c]> (ibuf x)));;
       mod_input (set_ie (ie x +u 1));;
       consputc c;;
       x ← get_input;
       mwhen ((c =? 10) || (c =? C 68) || (ie x =? ir x +u Z.of_nat INPUT_BUF))
         (mod_input (set_iw (ie x));;
          wakeup ChInput));;
    mret false.

Definition consoleintr_body (getc : M cst Z) (doprocdump : bool) : M cst (bool + bool) :=
  c ← getc;
  if c <? 0 then mret (inr doprocdump) else
  d ← console_char c;
  mret (inl (doprocdump || d)).

(** *** The process listing of Control-P: procdump() of proc.c, getcallerpcs() of
    spinlock.c *)

(** Following the chain of saved frame pointers from [ebp]. *)
Fixpoint getcallerpcs_loop (m : mem) (ebp : Z) (n : nat) : list Z :=
  match n with
  | O => []
  | S n' =>
      if (ebp =? 0) || (ebp <? KERNBASE) || (ebp =? 0xffffffff) then replicate n 0
      else load32 m (ebp +u 4) :: getcallerpcs_loop m (load32 m ebp) n'
  end.
Definition getcallerpcs (m : mem) (v : Z) : list Z := getcallerpcs_loop m (v -u 8) 10.

Definition state_name (st : procstate) : list Z :=
  chars (match st with
         | UNUSED => "unused"
         | EMBRYO => "embryo"
         | SLEEPING => "sleep "
         | RUNNABLE => "runble"
         | RUNNING => "run   "
         | ZOMBIE => "zombie"
         end).

Fixpoint print_pcs (pc : list Z) : M cst unit :=
  match pc with
  | [] => mret tt
  | w :: pc => if w =? 0 then mret tt else cprintf (Some (chars " %p")) [CInt w];; print_pcs pc
  end.

Fixpoint procdump_loop (i n : nat) : M cst unit :=
  match n with
  | O => mret tt
  | S n =>
      p ← get_proc i;
      mwhen (negb (bool_decide (state p = UNUSED)))
        (cprintf (Some (chars "%d %s %s tickets:%d count:%d "))
           [CInt (pid p); CStr (state_name (state p)); CStr (cstring (name p)); CInt (tickets p); CInt (execution_count p)];;
         mwhen (bool_decide (state p = SLEEPING))
           (m ← gets (λ s, kmem (view s));
            print_pcs (getcallerpcs m (c_ebp (context p) +u 8)));;
         cprintf (Some [10]) []);;
      procdump_loop (S i) n
  end.
Definition procdump : M cst unit := procdump_loop 0 NPROC.

Definition consoleintr (getc : M cst Z) : M cst unit :=
  acquire LCons;;
  doprocdump ← loop (consoleintr_body getc) 32 false;
  release LCons;;
  mwhen doprocdump procdump.

Definition kbdintr : M cst unit := consoleintr kbd_getc.
Definition uartintr : M cst unit := consoleintr uartgetc.

(** [for(...) if(input.r != input.w) ...]: waiting for input; false when the
    process has been killed. *)
Definition wait_input_body (_ : unit) : M cst (unit + bool) :=
  x ← get_input;
  if negb (ir x =? iw x) then mret (inr true) else
  i ← myproc_some;
  p ← get_proc i;
  if negb (killed p =? 0) then mret (inr false) else
  sleep ChInput (Some LCons);;
  mret (inl tt).

(** The loop of consoleread(), with [n] bytes to go and [dst] read; it ends with
    [None] when the process has been killed. *)
Definition consoleread_body (target : Z) (st : Z * list Z) : M cst (Z * list Z + option Z * list Z) :=
  let '(n, dst) := st in
  if negb (0 <? n) then mret (inr (Some n, dst)) else
  b ← loop wait_input_body 32 tt;
  if negb b then mret (inr (None, dst)) else
  x ← get_input;
  let c := ibuf x !!! slot INPUT_BUF (ir x) in
  mod_input (set_ir (ir x +u 1));;
  if c =? C 68 then
    mwhen (u32 n <? target) (mod_input (λ x, set_ir (ir x -u 1) x));;
    mret (inr (Some n, dst))
  else if c =? 10 then mret (inr (Some (n - 1), dst ++ [c]))
  else mret (inl (n - 1, dst ++ [c])).

End Cons.

Section lifted.
Context {S : Type} `{Lens S cst}.

Definition consputc (c : Z) : M S unit := lift (Cons.consputc c).
Definition cprintf (fmt : list Z) (argp : list Cons.carg) : M S unit := lift (Cons.cprintf (Some fmt) argp).

(** The result of consoleread(), and the bytes stored at [dst]. *)
Definition consoleread (iunlock ilock : M S unit) (n : Z) : M S (Z * list Z) :=
  iunlock;;
  acquire LCons;;
  r ← lift (loop (Cons.consoleread_body (u32 n)) 32 (n, []));
  match r with
  | (None, dst) => release LCons;; ilock;; mret (-1, dst)
  | (Some n', dst) => release LCons;; ilock;; mret (s32 (u32 n - n'), dst)
  end.

Fixpoint consolewrite_loop (buf : list Z) : M S unit :=
  match buf with [] => mret tt | c :: buf => consputc (Z.land c 0xff);; consolewrite_loop buf end.

Definition consolewrite (iunlock ilock : M S unit) (buf : list Z) : M S Z :=
  iunlock;;
  acquire LCons;;
  consolewrite_loop buf;;
  release LCons;;
  ilock;;
  mret (Z.of_nat (length buf)).
End lifted.

(** ** The screen

    The text screen has 25 rows of 80 cells; the cursor stays above the last row.
    Its behaviour as a terminal: cells by position, and the cursor. *)

Definition cell (m : mem) (k : Z) : Z := m (crt + 2 * k) + m (crt + 2 * k + 1) * 2 ^ 8.
Definition blank : Z := Z.lor 32 0x0700.

Definition cell_upd (k v : Z) (f : Z → Z) : Z → Z := λ j, if j =? k then v else f j.

Definition term_advance (c : Z) (t : (Z → Z) * Z) : (Z → Z) * Z :=
  if c =? 10 then (t.1, t.2 + (80 - t.2 mod 80))
  else if c =? BACKSPACE then (t.1, if 0 <? t.2 then t.2 - 1 else t.2)
  else (cell_upd t.2 (Z.lor (Z.land c 0xff) 0x0700) t.1, t.2 + 1).

Definition term_scroll (t : (Z → Z) * Z) : (Z → Z) * Z :=
  if t.2 <? 24 * 80 then t
  else (λ k, if k <? 23 * 80 then t.1 (k + 80) else if k <? 24 * 80 then 0 else t.1 k, t.2 - 80).

Definition term_put (c : Z) (t : (Z → Z) * Z) : (Z → Z) * Z :=
  let t := term_scroll (term_advance c t) in
  (cell_upd t.2 blank t.1, t.2).

Definition mem_of (s : cst) : mem := kmem (view s).
Definition set_mem (m : mem) (s : cst) : cst := upd (set_kmem m (view s)) s.
Definition on_screen (s : cst) : Prop := 0 ≤ crtpos s < 24 * 80.

Lemma mod_mem_c f s : mod_mem f s = Ok tt (set_mem (f (mem_of s)) s).
Proof. exact (lift_ok (Kmem.mod_mem f) s tt _ eq_refl). Qed.

Lemma crt_val : crt = 0x800b8000.
Proof. reflexivity. Qed.

Lemma cell_store16 k p v m :
  0 ≤ k < 2 ^ 15 → 0 ≤ p < 2 ^ 15 → 0 ≤ v < 2 ^ 16 →
  cell (Cons.store16 (crt + 2 * p) v m) k = cell_upd p v (cell m) k.
Proof.
  intros Hk Hp Hv. unfold cell, cell_upd, Cons.store16. rewrite crt_val.
  rewrite !store8_in by (unfold is_u32; lia). rewrite Z.shiftr_div_pow2 by lia. unfold u8.
  assert (v mod 2 ^ 8 + v / 2 ^ 8 mod 2 ^ 8 * 2 ^ 8 = v) by dmlia. mem_case; subst; lia.
Qed.

Lemma store16_bytes a v m : bytes_ok m → bytes_ok (Cons.store16 a v m).
Proof.
  intros Hm x. unfold Cons.store16, store8. destruct (x =? _); [apply u8_range|].
  destruct (x =? _); [apply u8_range|apply Hm].
Qed.

Lemma fill_bytes d n f m : bytes_ok m → (∀ a, is_u8 (f a)) → bytes_ok (fill d n f m).
Proof. intros Hm Hf a. unfold fill. destruct (_ && _); auto. Qed.

(** The scrolled screen. *)
Definition scroll_mem (pos : Z) (m : mem) : mem :=
  memset (crt + 2 * pos) 0 (2 * (24 * 80 - pos)) (memmove crt (crt + 2 * 80) (2 * 23 * 80) m).

Lemma scroll_cells m k :
  bytes_ok m → 0 ≤ k < 2000 →
  cell (scroll_mem 1840 m) k = (if k <? 23 * 80 then cell m (k + 80) else if k <? 24 * 80 then 0 else cell m k).
Proof.
  intros Hm Hk. unfold cell, scroll_mem. rewrite crt_val. rewrite !memset_bytes by (unfold in_space; lia).
  unfold fill. rewrite !memmove_bytes by (done || unfold in_space; lia). unfold fill. change (u8 0) with 0. mem_case.
  all: f_equal; [f_equal; lia|f_equal; f_equal; lia].
Qed.

Lemma scroll_bytes m : bytes_ok m → bytes_ok (scroll_mem 1840 m).
Proof.
  intros Hm a. unfold scroll_mem. rewrite memset_bytes by (unfold in_space; rewrite crt_val; lia).
  unfold fill. destruct (_ && _); [apply u8_range|]. rewrite memmove_bytes by (done || unfold in_space; rewrite crt_val; lia).
  unfold fill. destruct (_ && _); apply Hm.
Qed.

Lemma char_word c : 0 ≤ Z.lor (Z.land c 0xff) 0x0700 < 2 ^ 16.
Proof.
  split; [apply Z.lor_nonneg; split; [apply Z.land_nonneg; right; lia|lia]|].
  assert (Z.land c 0xff = c mod 2 ^ 8) as -> by (change 0xff with (Z.ones 8); by rewrite Z.land_ones by lia).
  pose proof (Z.mod_pos_bound c (2 ^ 8) ltac:(lia)) as H. set (x := c mod 2 ^ 8) in *. clearbody x.
  apply Z.log2_lt_cancel. rewrite Z.log2_lor by lia. change (Z.log2 (2 ^ 16)) with 16. change (Z.log2 0x700) with 10.
  destruct (Z.eq_dec x 0) as [->|]; [simpl; lia|]. assert (Z.log2 x < 8) by (apply Z.log2_lt_pow2; lia). lia.
Qed.

(** The cursor register keeps a position of the screen. *)
Lemma crtpos_id pos : 0 ≤ pos < 2 ^ 16 → Z.lor (Z.shiftl (u8 (Z.shiftr pos 8)) 8) (u8 pos) = pos.
Proof.
  intros Hp. rewrite Z.shiftr_div_pow2 by lia. unfold u8. rewrite (Z.mod_small (pos / 2 ^ 8)) by dmlia.
  pose proof (Z.add_lor_land (Z.shiftl (pos / 2 ^ 8) 8) (pos mod 2 ^ 8)) as E.
  assert (Z.land (Z.shiftl (pos / 2 ^ 8) 8) (pos mod 2 ^ 8) = 0) as E0.
  { apply Z.bits_inj'. intros i Hi. rewrite Z.land_spec, Z.bits_0. destruct (Z.ltb_spec i 8).
    - by rewrite Z.shiftl_spec_low by lia.
    - rewrite (Z.mod_pow2_bits_high pos) by lia. apply andb_false_r. }
  rewrite E0, Z.shiftl_mul_pow2 in E by lia. rewrite Z.shiftl_mul_pow2 by lia.
  pose proof (Z.div_mod pos (2 ^ 8)). lia.
Qed.

Definition terminal (s : cst) : (Z → Z) * Z := (cell (mem_of s), crtpos s).
Definition output (m : mem) (p : Z) (s : cst) : cst := set_crtpos p (set_mem m s).

(** [t] shows on the screen [m] with the cursor at [p]. *)
Definition shows (t : (Z → Z) * Z) (m : mem) (p : Z) : Prop :=
  p = t.2 ∧ ∀ k, 0 ≤ k < 2000 → cell m k = t.1 k.

Lemma set_mem_id s : set_mem (mem_of s) s = s.
Proof. by destruct s as [[[[[] ?] ? ? ?] ?] ? ? ? ? ? ? ? ?]. Qed.

Lemma advance_run c s :
  on_screen s → bytes_ok (mem_of s) →
  ∃ m p, Cons.cga_advance c (crtpos s) s = Ok p (set_mem m s) ∧ 0 ≤ p ≤ 24 * 80 ∧ bytes_ok m ∧
    shows (term_advance c (terminal s)) m p.
Proof.
  intros Hs Hm. unfold on_screen in Hs. unfold Cons.cga_advance, term_advance. cbn [fst snd terminal].
  destruct (c =? 10); [|destruct (c =? BACKSPACE)].
  - exists (mem_of s), (crtpos s + (80 - crtpos s mod 80)). rewrite set_mem_id, Z.rem_mod_nonneg by lia.
    split_and!; [done|dmlia..|done|done].
  - exists (mem_of s), (if 0 <? crtpos s then crtpos s - 1 else crtpos s). rewrite set_mem_id.
    split_and!; [done|destruct (Z.ltb_spec 0 (crtpos s)); lia..|done|done].
  - eexists _, _. rewrite (bind_ok _ _ _ _ _ (mod_mem_c _ s)). split_and!; [done|lia..|by apply store16_bytes|split; [done|]].
    intros k Hk. apply cell_store16; [lia..|apply char_word].
Qed.

Lemma set_mem_set_mem m m' s : set_mem m (set_mem m' s) = set_mem m s.
Proof. done. Qed.

Lemma scroll_run p m t s :
  0 ≤ p ≤ 24 * 80 → bytes_ok m → shows t m p →
  ∃ m' p', Cons.cga_scroll p (set_mem m s) = Ok p' (set_mem m' s) ∧ 0 ≤ p' < 24 * 80 ∧ bytes_ok m' ∧
    shows (term_scroll t) m' p'.
Proof.
  intros Hp Hm [Ep Ht]. unfold Cons.cga_scroll, term_scroll. rewrite Z.quot_div_nonneg by lia. rewrite <- Ep.
  destruct (Z.ltb_spec p (24 * 80)) as [Hlt|Hge].
  - rewrite (proj2 (Z.leb_gt _ _)) by (apply Z.div_lt_upper_bound; lia). exists m, p. split_and!; [done|lia..|done|done].
  - assert (p = 24 * 80) as -> by lia. change (24 <=? 24 * 80 / 80) with true. cbv iota.
    rewrite (bind_ok _ _ _ _ _ (mod_mem_c _ _)). cbv zeta. rewrite (bind_ok _ _ _ _ _ (mod_mem_c _ _)).
    exists (scroll_mem 1840 m), 1840. split_and!; [done|lia..|by apply scroll_bytes|split; [done|]].
    intros k Hk. rewrite scroll_cells by done. cbn [fst]. mem_case; auto with lia.
Qed.

Lemma cgaputc_run c s :
  on_screen s → bytes_ok (mem_of s) →
  ∃ m p, Cons.cgaputc c s = Ok tt (output m p s) ∧ 0 ≤ p < 24 * 80 ∧ bytes_ok m ∧ shows (term_put c (terminal s)) m p.
Proof.
  intros Hs Hm. destruct (advance_run c s Hs Hm) as (m1 & p1 & E1 & Hp1 & Hm1 & Ht1).
  destruct (scroll_run p1 m1 _ s Hp1 Hm1 Ht1) as (m2 & p2 & E2 & Hp2 & Hm2 & Ht2 & Hc2).
  exists (Cons.store16 (crt + 2 * p2) blank m2), p2. unfold Cons.cgaputc. mred. mstep E1.
  rewrite (proj2 (Z.ltb_ge p1 0)), (proj2 (Z.ltb_ge (25 * 80) p1)) by lia. cbn [orb]. mstep E2. mred.
  rewrite mod_mem_c, crtpos_id by lia. split_and!; [done|lia..|by apply store16_bytes|split; [done|]].
  intros k Hk. rewrite cell_store16 by (unfold blank; (lia || (vm_compute; split; [discriminate|reflexivity]))).
  change (cell_upd p2 blank (cell m2) k =
    cell_upd (term_scroll (term_advance c (terminal s))).2 blank (term_scroll (term_advance c (terminal s))).1 k).
  unfold cell_upd. rewrite <- Ht2, Hc2 by done. done.
Qed.

(** What a character sends to the serial port. *)
Definition sends (s : cst) (c : Z) : list Z :=
  if uart s =? 0 then [] else if c =? BACKSPACE then [8; 32; 8] else [u8 c].

(** The state after output: screen memory, cursor and serial port. *)
Definition printed (m : mem) (p : Z) (o : list Z) (s : cst) : cst := set_serial o (output m p s).

(** Printing is possible: no panic, and the cursor on the screen. *)
Record can_print (s : cst) : Prop := {
  cp_panicked : panicked s = 0;
  cp_screen : on_screen s;
  cp_bytes : bytes_ok (mem_of s);
}.

Lemma uartputc_run c s :
  Cons.uartputc c s = Ok tt (set_serial (serial s ++ (if uart s =? 0 then [] else [u8 c])) s).
Proof.
  unfold Cons.uartputc. mred. destruct (uart s =? 0); cbn [negb]; mred; [|done].
  rewrite app_nil_r. by destruct s.
Qed.

Lemma consputc_run c s :
  can_print s →
  ∃ m p, Cons.consputc c s = Ok tt (printed m p (serial s ++ sends s c) s) ∧
    can_print (printed m p (serial s ++ sends s c) s) ∧ shows (term_put c (terminal s)) m p.
Proof.
  intros [Hp Hs Hm]. unfold Cons.consputc. mred. rewrite Hp. cbn [Z.eqb negb].
  assert ((if c =? BACKSPACE then Cons.uartputc 8;; Cons.uartputc 32;; Cons.uartputc 8 else Cons.uartputc c) s =
    Ok tt (set_serial (serial s ++ sends s c) s)) as E.
  { unfold sends. destruct (c =? BACKSPACE).
    - rewrite (bind_ok _ _ _ _ _ (uartputc_run 8 s)), (bind_ok _ _ _ _ _ (uartputc_run 32 _)), (uartputc_run 8).
      cbn [uart serial set_serial]. destruct (uart s =? 0); rewrite <- ?app_assoc; done.
    - apply uartputc_run. }
  rewrite (bind_ok _ _ _ _ _ E).
  destruct (cgaputc_run c (set_serial (serial s ++ sends s c) s)) as (m & p & E' & Hp' & Hm' & Ht); [done..|].
  exists m, p. split_and!; [exact E'|by split|exact Ht].
Qed.

(** Cells off the screen do not matter. *)
Definition same_screen (t t' : (Z → Z) * Z) : Prop := t.2 = t'.2 ∧ ∀ k, 0 ≤ k < 2000 → t.1 k = t'.1 k.

#[global] Instance same_screen_equiv : Equivalence same_screen.
Proof.
  split; [done|intros t t' [H1 H2]; split; [done|intros; symmetry; auto]|].
  intros t t' t'' [H1 H2] [H3 H4]. split; [congruence|]. intros k Hk. rewrite H2 by done. auto.
Qed.

#[global] Instance term_put_proper c : Proper (same_screen ==> same_screen) (term_put c).
Proof.
  intros [f p] [g p'] [E H]. cbn in E. subst p'. cbn in H.
  assert (same_screen (term_advance c (f, p)) (term_advance c (g, p))) as [E1 H1].
  { unfold term_advance. destruct (c =? 10); [done|]. destruct (c =? BACKSPACE); [done|]. split; [done|].
    intros k Hk. unfold cell_upd. cbn. destruct (k =? p); [done|auto]. }
  assert (same_screen (term_scroll (term_advance c (f, p))) (term_scroll (term_advance c (g, p)))) as [E2 H2].
  { unfold term_scroll. rewrite <- E1. destruct (_ <? 24 * 80); [by split|]. split; [done|]. intros k Hk. cbn [fst].
    mem_case; apply H1; lia. }
  split; [exact E2|]. intros k Hk. unfold term_put, cell_upd. cbn [fst]. rewrite E2. destruct (k =? _); [done|auto].
Qed.

Definition term_puts (l : list Z) (t : (Z → Z) * Z) : (Z → Z) * Z := foldl (λ t c, term_put c t) t l.

#[global] Instance term_puts_proper l : Proper (same_screen ==> same_screen) (term_puts l).
Proof.
  unfold term_puts. induction l as [|c l IH]; intros t t' H; [exact H|]. cbn [foldl]. apply IH. by rewrite H.
Qed.

Lemma put_all_run l s :
  can_print s →
  ∃ m p o, Cons.put_all l s = Ok tt (printed m p o s) ∧ can_print (printed m p o s) ∧
    same_screen (terminal (printed m p o s)) (term_puts l (terminal s)) ∧ o = serial s ++ concat (sends s <$> l).
Proof.
  revert s. induction l as [|c l IH]; intros s Hs.
  - exists (mem_of s), (crtpos s), (serial s). assert (printed (mem_of s) (crtpos s) (serial s) s = s) as ->.
    { unfold printed, output. rewrite set_mem_id. by destruct s. }
    split_and!; [done|done|done|by rewrite app_nil_r].
  - destruct (consputc_run c s Hs) as (m & p & E & Hs1 & Hp & Ht). cbn [Cons.put_all]. mstep E.
    destruct (IH _ Hs1) as (m' & p' & o' & E' & Hs' & Hsc & Ho). exists m', p', o'. split_and!; [exact E'|exact Hs'| |].
    + etrans; [exact Hsc|]. apply (term_puts_proper l). split; [exact Hp|exact Ht].
    + rewrite Ho. cbn [fmap list_fmap concat serial printed set_serial]. by rewrite <- app_assoc.
Qed.

(** C22 [refinement]: printing on the console refines a terminal.  If the kernel has
    not panicked and the cursor is on the screen, then putting characters on the
    console returns, with the cursor on the screen again and the 2000 cells of the
    text memory those of an abstract terminal that has received the characters:
    newline and backspace move the cursor, other characters fill the cell at the
    cursor, and a cursor that leaves row 23 scrolls every row up by one and clears
    the new last row.  The serial port has been sent the same characters, and
    nothing else of the kernel has changed. *)
Theorem console_terminal l s :
  can_print s →
  ∃ m p o, Cons.put_all l s = Ok tt (printed m p o s) ∧ can_print (printed m p o s) ∧
    same_screen (terminal (printed m p o s)) (term_puts l (terminal s)) ∧ o = serial s ++ concat (sends s <$> l).
Proof. apply put_all_run. Qed.

(** *** Formatted output *)

Lemma put_all_app l1 l2 s : Cons.put_all (l1 ++ l2) s = (Cons.put_all l1;; Cons.put_all l2) s.
Proof.
  revert s. induction l1 as [|c l1 IH]; intros s; [done|].
  cbn [app Cons.put_all]. rewrite bind_assoc. apply bind_ext. intros [] s'. apply IH.
Qed.

(** The characters a format and its arguments stand for; [None] when an argument
    is missing or of the wrong kind. *)
Definition int_chars (xx base : Z) (sign : bool) : list Z :=
  let neg := sign && (xx <? 0) in
  reverse (Cons.digits_loop 32 (if neg then u32 (- xx) else u32 xx) base ++ (if neg then [45] else [])).

Fixpoint format (fmt : list Z) (argp : list Cons.carg) : option (list Z) :=
  match fmt with
  | [] => Some []
  | c :: fmt =>
      if negb (c =? 37) then cons c <$> format fmt argp else
      match fmt with
      | [] => Some []
      | c :: fmt =>
          if c =? 100 then
            match argp with Cons.CInt w :: argp => app (int_chars (s32 w) 10 true) <$> format fmt argp | _ => None end
          else if (c =? 120) || (c =? 112) then
            match argp with Cons.CInt w :: argp => app (int_chars (s32 w) 16 false) <$> format fmt argp | _ => None end
          else if c =? 115 then
            match argp with
            | Cons.CStr s :: argp => app s <$> format fmt argp
            | Cons.CNull :: argp => app (chars "(null)") <$> format fmt argp
            | _ => None
            end
          else if c =? 37 then cons 37 <$> format fmt argp
          else (λ l, 37 :: c :: l) <$> format fmt argp
      end
  end.

Lemma put_then l l' (m : M cst unit) s :
  (∀ s, m s = Cons.put_all l' s) → (Cons.put_all l;; m) s = Cons.put_all (l ++ l') s.
Proof. intros H. rewrite put_all_app. apply bind_ext. intros [] s'. apply H. Qed.

Lemma cprintf_loop_put fmt argp l s : format fmt argp = Some l → Cons.cprintf_loop fmt argp s = Cons.put_all l s.
Proof.
  remember (length fmt) as n eqn:En. revert fmt argp l s En. induction n as [n IH] using lt_wf_ind.
  intros fmt argp l s ->. destruct fmt as [|c fmt]; cbn [format Cons.cprintf_loop]; [by intros [= <-]|].
  destruct (c =? 37); cbn [negb].
  2: { intros (l' & Hf & ->)%fmap_Some. cbn [Cons.put_all]. apply bind_ext. intros [] s'. eapply IH; [|done..]. simpl. lia. }
  destruct fmt as [|d fmt]; [by intros [= <-]|].
  assert (∀ argp l s, format fmt argp = Some l → Cons.cprintf_loop fmt argp s = Cons.put_all l s) as IH'
    by (intros; eapply IH; [|done..]; simpl; lia).
  repeat case_match; intros H'; try discriminate H';
    try (apply fmap_Some in H' as (l' & ? & ->);
      first [ apply put_then; intros; by apply IH' | apply bind_ext; intros [] s' ]).
  - by apply IH'.
  - apply bind_ext. intros [] s''. by apply IH'.
Qed.

Lemma printed_upd m p o (h : hart) s : printed m p o (upd h s) = upd h (printed m p o s).
Proof. destruct s as [[[[[[] ? ? ? ? ?] ?] ? ? ?] ?] ? ? ? ? ? ? ? ?]. vm_compute. reflexivity. Qed.

(** cprintf() with arguments that fit its format prints, and changes nothing but
    the screen and the serial port. *)
Lemma cprintf_run c fmt argp l s :
  format fmt argp = Some l → can_print s → balanced c (view s) → is_free LCons (view s) →
  ∃ m p o, Cons.cprintf (Some fmt) argp s = Ok tt (printed m p o s) ∧ can_print (printed m p o s).
Proof.
  intros Hl Hp Hb Hf. unfold Cons.cprintf. mred. destruct (locking s =? 0); cbn [negb].
  - rewrite run_when_false. mred. destruct (put_all_run l s Hp) as (m & p & o & E & Hp' & _).
    exists m, p, o. rewrite <- (cprintf_loop_put _ _ _ _ Hl) in E. mstep E. done.
  - destruct (put_all_run l (upd (acq c LCons (view s)) s)) as (m & p & o & E & Hp' & _).
    { destruct Hp as [? ? ?]. by split. }
    exists m, p, o. rewrite <- (cprintf_loop_put _ _ _ _ Hl) in E. rewrite run_when_true.
    destruct (locked_section c LCons (printed m p o) s) as [E1 E2]; [exact Hb|exact Hf|exact (printed_upd m p o)|].
    mstep E1. mstep E. split; [exact E2|]. destruct Hp' as [? ? ?]. by split.
Qed.

(** ** The line editor

    The input ring holds the lines that are [ready] to be read, and the [line]
    that is being typed. *)

Record ring_rel (x : inputbuf) (ready line : list Z) : Prop := {
  rr_len : length (ibuf x) = INPUT_BUF;
  rr_r : is_u32 (ir x);
  rr_w : iw x = u32 (ir x + Z.of_nat (length ready));
  rr_e : ie x = u32 (ir x + Z.of_nat (length ready + length line));
  rr_fit : (length ready + length line ≤ INPUT_BUF)%nat;
  rr_bytes : contents INPUT_BUF (ibuf x) (ir x) (length ready + length line) = ready ++ line;
}.

(** A ring whose unfinished line has no newline. *)
Definition editing (x : inputbuf) (st : list Z * list Z) : Prop := ring_rel x st.1 st.2 ∧ 10 ∉ st.2.

Definition edit (c : Z) (st : list Z * list Z) : list Z * list Z :=
  let '(ready, line) := st in
  if c =? C 80 then st
  else if c =? C 85 then (ready, [])
  else if (c =? C 72) || (c =? 0x7f) then (ready, take (length line - 1) line)
  else if (c =? 0) || (INPUT_BUF <=? length ready + length line)%nat then st
  else
    let c := if c =? 13 then 10 else c in
    let line := line ++ [u8 c] in
    if (c =? 10) || (c =? C 68) || (length ready + length line =? INPUT_BUF)%nat then (ready ++ line, [])
    else (ready, line).

Lemma input_buf_div : (Z.of_nat INPUT_BUF | 2 ^ 32).
Proof. exists (2 ^ 25). reflexivity. Qed.

Section ring_rel.
Context (x : inputbuf) (ready line : list Z) (Hr : ring_rel x ready line).

Lemma edit_empty : (ie x =? iw x) = bool_decide (line = []).
Proof using Hr.
  destruct Hr as [_ _ -> -> Hf _]. rewrite (counter_eq INPUT_BUF) by (done || lia).
  destruct line as [|y l]; simpl; [rewrite Nat.add_0_r; by rewrite Nat.eqb_refl|].
  destruct (Nat.eqb_spec (length ready + S (length l)) (length ready)); [lia|done].
Qed.

Lemma edit_room : (ie x -u ir x <? Z.of_nat INPUT_BUF) = negb (INPUT_BUF <=? length ready + length line)%nat.
Proof using Hr.
  destruct Hr as [_ _ _ -> Hf _]. rewrite u32_sub_u32. replace (_ + _ - _) with (Z.of_nat (length ready + length line)) by lia.
  unfold INPUT_BUF in *. rewrite u32_id by (unfold is_u32; lia).
  destruct (Nat.leb_spec 128 (length ready + length line)); simpl; [apply Z.ltb_ge|apply Z.ltb_lt]; lia.
Qed.

Lemma edit_full : (ie x =? ir x +u Z.of_nat INPUT_BUF) = (length ready + length line =? INPUT_BUF)%nat.
Proof using Hr. destruct Hr as [_ _ _ -> Hf _]. by rewrite (counter_eq INPUT_BUF) by (done || lia). Qed.

Lemma edit_push b :
  (length ready + length line < INPUT_BUF)%nat →
  ring_rel (set_ie (ie x +u 1) (set_ibuf (<[slot INPUT_BUF (ie x) := b]> (ibuf x)) x)) ready (line ++ [b]).
Proof using Hr.
  intros Hlt. destruct Hr as [H1 H2 H3 H4 H5 H6]. split; cbn [ibuf ir iw ie set_ie set_ibuf]; rewrite ?length_app; cbn [length].
  - by rewrite length_insert.
  - done.
  - done.
  - rewrite H4, u32_add_u32. f_equal. lia.
  - lia.
  - rewrite H4, ring_slot_u32 by apply input_buf_div. replace (length ready + (length line + 1))%nat with (S (length ready + length line)) by lia.
    rewrite contents_push by (done || apply input_buf_div). by rewrite H6, app_assoc.
Qed.

Lemma edit_commit : ring_rel (set_iw (ie x) x) (ready ++ line) [].
Proof using Hr.
  destruct Hr as [H1 H2 H3 H4 H5 H6]. split; cbn [ibuf ir iw ie set_iw]; rewrite ?length_app, ?app_nil_r; cbn [length]; rewrite ?Nat.add_0_r; done.
Qed.

Lemma edit_drop : line ≠ [] → ring_rel (set_ie (ie x -u 1) x) ready (take (length line - 1) line).
Proof using Hr.
  intros Hne. destruct Hr as [H1 H2 H3 H4 H5 H6]. assert (0 < length line)%nat by (destruct line; [done|simpl; lia]).
  split; cbn [ibuf ir iw ie set_ie]; rewrite ?length_take, ?Nat.min_l by lia; try done.
  - rewrite H4, u32_sub_u32. f_equal. lia.
  - lia.
  - replace (length ready + length line)%nat with ((length ready + (length line - 1)) + 1)%nat in H6 by lia.
    rewrite contents_app in H6. apply (f_equal (take (length ready + (length line - 1)))) in H6.
    rewrite take_app_length' in H6 by (by rewrite length_contents). rewrite H6, take_app. f_equal; [|f_equal; lia].
    apply take_ge. lia.
Qed.

Lemma edit_last : line ≠ [] → ibuf x !!! slot INPUT_BUF (ie x -u 1) ∈ line.
Proof using Hr.
  intros Hne. destruct Hr as [H1 H2 H3 H4 H5 H6]. assert (0 < length line)%nat by (destruct line; [done|simpl; lia]).
  rewrite H4, u32_sub_u32, ring_slot_u32 by apply input_buf_div.
  apply list_elem_of_lookup. exists (length line - 1)%nat.
  assert ((ready ++ line) !! (length ready + (length line - 1))%nat = line !! (length line - 1)%nat) as <-.
  { rewrite lookup_app_r by lia. f_equal. lia. }
  rewrite <- H6, contents_lookup by lia. do 3 f_equal. lia.
Qed.
End ring_rel.

(** The console is used on CPU [c], with the table lock free. *)
Record cons_env (c : nat) (s : cst) : Prop := {
  ce_balanced : balanced c (view s);
  ce_ptable : is_free LPtable (view s);
  ce_print : can_print s;
}.

(** What handling a character leaves alone. *)
Record cons_same (s s' : cst) : Prop := {
  cs_hart : (view s' : hart) = view s;
  cs_uart : uart s' = uart s;
  cs_serialq : serialq s' = serialq s;
  cs_kb : kb s' = kb s;
}.

Definition procs (s : cst) : list proc := ptable (view s).

Lemma cons_same_trans s1 s2 s3 : cons_same s1 s2 → cons_same s2 s3 → cons_same s1 s3.
Proof. intros [? ? ? ?] [? ? ? ?]. split; congruence. Qed.

Lemma wakeup_c c ch s :
  cons_env c s → wakeup ch s = Ok tt (upd (set_ptable (Core.wake ch <$> procs s) (view s)) s).
Proof. intros [Hb Hf _]. apply lift_ok. by apply (wakeup_core c). Qed.

(** Echoing a character. *)
Lemma echo_run c ch s :
  cons_env c s →
  ∃ s', Cons.consputc ch s = Ok tt s' ∧ cons_env c s' ∧ cons_same s s' ∧ input s' = input s ∧ procs s' = procs s.
Proof.
  intros [Hb Hf Hp]. destruct (consputc_run ch s Hp) as (m & p & E & Hp' & _).
  eexists. split; [exact E|]. split_and!; [by split|by split|done|done].
Qed.

Lemma mod_input_env c f s : cons_env c s → cons_env c (set_input (f (input s)) s).
Proof. intros [Hb Hf [? ? ?]]. split; [done|done|by split]. Qed.

Lemma kill_line_run c ready line s n :
  cons_env c s → editing (input s) (ready, line) → (length line < n)%nat →
  ∃ s', iter Cons.kill_line_body n tt s = Ok (inr tt) s' ∧ cons_env c s' ∧ cons_same s s' ∧
    editing (input s') (ready, []) ∧ procs s' = procs s.
Proof.
  revert line s. induction n as [|n IH]; intros line s He [Hr Hnl] Hn; [lia|]. cbn [fst snd] in Hr, Hnl.
  assert (Cons.kill_line_body tt s = (if bool_decide (line = []) then Ok (inr tt) s else
    (Cons.mod_input (set_ie (ie (input s) -u 1));; Cons.consputc BACKSPACE;; mret (inl tt)) s)) as Eb.
  { unfold Cons.kill_line_body, Cons.get_input. mred. rewrite (edit_empty _ _ _ Hr).
    destruct (bool_decide (line = [])) eqn:El; [done|]. apply bool_decide_eq_false in El.
    rewrite (proj2 (Z.eqb_neq _ 10)); [done|]. intros E. apply Hnl. rewrite <- E. by eapply edit_last. }
  destruct (bool_decide (line = [])) eqn:El.
  - apply bool_decide_eq_true in El. subst line. exists s. split; [by apply iter_exit|]. by split_and!.
  - apply bool_decide_eq_false in El. unfold Cons.mod_input in Eb. mred_in Eb.
    destruct (echo_run c BACKSPACE (set_input (set_ie (ie (input s) -u 1) (input s)) s)) as (s1 & E1 & He1 & Hs1 & Hi1 & Hp1);
      [by apply mod_input_env|].
    rewrite (bind_ok _ _ _ _ _ E1) in Eb.
    destruct (IH (take (length line - 1) line) s1) as (s' & E' & He' & Hs' & Hed' & Hp').
    + done.
    + rewrite Hi1. split; [by apply edit_drop|]. cbn. intros H. apply Hnl. rewrite <- (take_drop (length line - 1) line). apply elem_of_app. by left.
    + rewrite length_take. destruct line; [done|simpl in *; lia].
    + exists s'. rewrite (iter_next _ _ _ _ _ _ Eb). split_and!; [done|done| |done|rewrite Hp'; exact Hp1].
      eapply cons_same_trans; [|exact Hs']. destruct Hs1. by split.
Qed.

(** The processes after a step of the editor: the readers are woken up when it
    makes characters ready. *)
Definition woken (st st' : list Z * list Z) (l : list proc) : list proc :=
  if bool_decide (st.1 = st'.1) then l else Core.wake ChInput <$> l.

Lemma insert_run c ch ready line s :
  cons_env c s → editing (input s) (ready, line) → (length ready + length line < INPUT_BUF)%nat →
  let c' := if ch =? 13 then 10 else ch in
  let full := (c' =? 10) || (c' =? C 68) || (length ready + length (line ++ [u8 c']) =? INPUT_BUF)%nat in
  ∃ s', (Cons.mod_input (set_ibuf (<[slot INPUT_BUF (ie (input s)) := u8 c']> (ibuf (input s))));;
         Cons.mod_input (set_ie (ie (input s) +u 1));;
         Cons.consputc c';;
         x ← Cons.get_input;
         mwhen ((c' =? 10) || (c' =? C 68) || (ie x =? ir x +u Z.of_nat INPUT_BUF))
           (Cons.mod_input (set_iw (ie x));; wakeup ChInput)) s = Ok tt s' ∧
    cons_env c s' ∧ cons_same s s' ∧
    ring_rel (input s') (if full then ready ++ line ++ [u8 c'] else ready) (if full then [] else line ++ [u8 c']) ∧
    procs s' = (if full then Core.wake ChInput <$> procs s else procs s).
Proof.
  intros He [Hr Hnl] Hlt c' full. cbn [fst snd] in *. pose proof (edit_push _ _ _ Hr (u8 c') Hlt) as Hr1.
  unfold Cons.mod_input, Cons.get_input. mred. cbn [input set_input].
  set (s1 := set_input _ (set_input _ s)).
  assert (cons_env c s1) as He1 by (destruct He as [? ? [? ? ?]]; split; [done|done|by split]).
  destruct (echo_run c c' s1 He1) as (s2 & E2 & He2 & Hs2 & Hi2 & Hp2). mstep E2. mred.
  rewrite Hi2. change (input s1) with (set_ie (ie (input s) +u 1) (set_ibuf (<[slot INPUT_BUF (ie (input s)) := u8 c']> (ibuf (input s))) (input s))).
  rewrite (edit_full _ _ _ Hr1). fold full. destruct full; mred.
  - eexists. set (s3 := set_input _ s2).
    assert (cons_env c s3) as He3 by (destruct He2 as [? ? [? ? ?]]; split; [done|done|by split]).
    split; [exact (wakeup_c c ChInput s3 He3)|]. split_and!.
    + destruct He3 as [? ? [? ? ?]]. split; [done|done|by split].
    + destruct Hs2. by split.
    + cbn. rewrite Hi2. by apply (edit_commit _ _ _ Hr1).
    + change (Core.wake ChInput <$> procs s2 = Core.wake ChInput <$> procs s). by rewrite Hp2.
  - exists s2. split_and!; [done|done|destruct Hs2; by split|by rewrite Hi2|done].
Qed.

Lemma console_char_run c ch st s :
  cons_env c s → is_u8 ch → editing (input s) st →
  ∃ b s', Cons.console_char ch s = Ok b s' ∧ cons_env c s' ∧ cons_same s s' ∧ editing (input s') (edit ch st) ∧
    procs s' = woken st (edit ch st) (procs s).
Proof.
  destruct st as [ready line]. intros He Hch Hed. pose proof Hed as [Hr Hnl]. cbn [fst snd] in *. unfold Cons.console_char, edit.
  destruct (ch =? C 80).
  { exists true, s. unfold woken. cbn [fst]. rewrite bool_decide_true by done. split_and!; [done|done|by split|done|done]. }
  destruct (ch =? C 85).
  { destruct (kill_line_run c ready line s (2 ^ 8) He Hed) as (s' & E & He' & Hs' & Hed' & Hp').
    { pose proof (rr_fit _ _ _ Hr). unfold INPUT_BUF in *. change (2 ^ 8)%nat with 256%nat. lia. }
    exists false, s'. assert (loop Cons.kill_line_body 32 tt s = Ok tt s') as El.
    { eapply loop_iter; [exact E|]. vm_compute. discriminate. }
    mstep El. unfold woken. cbn [fst]. rewrite bool_decide_true by done. split_and!; done || apply Hed'. }
  destruct ((ch =? C 72) || (ch =? 0x7f)).
  { unfold Cons.get_input. mred. rewrite (edit_empty _ _ _ Hr). destruct (bool_decide (line = [])) eqn:El.
    - apply bool_decide_eq_true in El. subst line. cbn [negb]. mred. exists false, s. unfold woken. cbn [fst].
      rewrite bool_decide_true by done. split_and!; [done|done|by split|done|done].
    - apply bool_decide_eq_false in El. cbn [negb]. unfold Cons.mod_input. mred.
      destruct (echo_run c BACKSPACE (set_input (set_ie (ie (input s) -u 1) (input s)) s)) as (s1 & E1 & He1 & Hs1 & Hi1 & Hp1);
        [by apply mod_input_env|].
      mstep E1. exists false, s1. unfold woken. cbn [fst]. rewrite bool_decide_true by done.
      split_and!; [done|done|destruct Hs1; by split| |done]. rewrite Hi1. split; [by apply edit_drop|].
      cbn. intros H. apply Hnl. rewrite <- (take_drop (length line - 1) line). apply elem_of_app. by left. }
  unfold Cons.get_input. mred. rewrite (edit_room _ _ _ Hr).
  destruct (Z.eqb_spec ch 0) as [->|H0]; cbn [negb andb orb].
  { mred. exists false, s. unfold woken. cbn [fst]. rewrite bool_decide_true by done. split_and!; [done|done|by split|done|done]. }
  destruct (Nat.leb_spec INPUT_BUF (length ready + length line)) as [Hfull|Hroom]; cbn [negb].
  { mred. exists false, s. unfold woken. cbn [fst]. rewrite bool_decide_true by done. split_and!; [done|done|by split|done|done]. }
  destruct (insert_run c ch ready line s He Hed Hroom) as (s' & E & He' & Hs' & Hr' & Hp').
  rewrite run_when_true, (bind_ok _ _ _ _ _ E). exists false, s'. split_and!; [done|done|done|split|].
  all: set (c' := if ch =? 13 then 10 else ch) in *. all: cbv zeta; destruct (_ || _ || _)%bool eqn:Ef; cbn [fst snd]; try done.
  - apply not_elem_of_nil.
  - apply orb_false_iff in Ef as [[Ef _]%orb_false_iff _]. intros [H|H%list_elem_of_singleton]%elem_of_app; [done|].
    revert Ef. rewrite H, Z.eqb_neq. unfold c' in *. destruct (ch =? 13); [done|]. rewrite u8_id by done. done.
  - unfold woken. cbn [fst]. rewrite bool_decide_false; [done|]. intros Ea. apply (f_equal length) in Ea.
    rewrite !length_app in Ea. simpl in Ea. lia.
  - unfold woken. cbn [fst]. by rewrite bool_decide_true.
Qed.

(** A listing is asked for by Control-P only. *)
Lemma console_char_dump ch s b s' : Cons.console_char ch s = Ok b s' → b = (ch =? C 80).
Proof.
  unfold Cons.console_char. destruct (ch =? C 80); [by intros [= <-]|].
  destruct (ch =? C 85); [intros E; minv E; by injection E as <-|].
  destruct (_ || _); intros E; minv E; minv E; by injection E as <-.
Qed.

(** The loop of consoleintr() over the characters waiting at the serial port. *)
Lemma uart_loop_run c l st s d :
  cons_env c s → Forall is_u8 l → editing (input s) st → uart s ≠ 0 → serialq s = l →
  ∃ s', iter (Cons.consoleintr_body Cons.uartgetc) (S (length l)) d s = Ok (inr (d || bool_decide (C 80 ∈ l))%bool) s' ∧ cons_env c s' ∧
    (view s' : hart) = view s ∧ serialq s' = [] ∧ editing (input s') (foldl (λ st c, edit c st) st l).
Proof.
  revert st s d. induction l as [|ch l IH]; intros st s d He Hl Hed Hu Hq.
  - exists s. split; [|done]. rewrite orb_false_r. apply iter_exit. unfold Cons.consoleintr_body, Cons.uartgetc. mred.
    rewrite (proj2 (Z.eqb_neq _ _) Hu), Hq. by mred.
  - apply Forall_cons in Hl as [Hch Hl]. set (s1 := set_serialq l s).
    assert (cons_env c s1) as He1 by (destruct He as [? ? [? ? ?]]; split; [done|done|by split]).
    destruct (console_char_run c ch st s1 He1 Hch Hed) as (b & s2 & E2 & He2 & Hs2 & Hed2 & _).
    pose proof (console_char_dump _ _ _ _ E2) as Hb.
    assert (Cons.consoleintr_body Cons.uartgetc d s = Ok (inl (d || b)) s2) as Eb.
    { unfold Cons.consoleintr_body, Cons.uartgetc. mred. rewrite (proj2 (Z.eqb_neq _ _) Hu), Hq. mred.
      rewrite (proj2 (Z.ltb_ge ch 0)) by (destruct Hch; lia). by mstep E2. }
    cbn [length]. rewrite (iter_next _ _ _ _ _ _ Eb).
    destruct Hs2 as [H1 H2 H3 H4].
    destruct (IH (edit ch st) s2 (d || b)%bool He2 Hl Hed2) as (s' & E' & He' & Hh' & Hq' & Hed'); [by rewrite H2|done|].
    exists s'. split_and!; [|done|by rewrite Hh', H1|done|done].
    rewrite E', <- orb_assoc. do 4 f_equal. rewrite Hb. destruct (Z.eqb_spec ch (C 80)) as [->|Hne]; cbn [orb].
    + symmetry. apply bool_decide_eq_true. by left.
    + apply bool_decide_ext. rewrite elem_of_cons. naive_solver.
Qed.

(** C21 [refinement]: typing at the console refines a line editor.  When bytes are
    waiting at the serial port, uartintr() returns with the port empty and the
    hardware state as before; the ring then holds what an editor with the lines
    that are ready and the line being typed makes of them: Control-U deletes the
    line, backspace its last character, a carriage return is a newline, a newline
    or Control-D or a full ring makes the line ready, and characters that find the
    ring full are dropped.  The ring's 32-bit counters may wrap around.  No process
    listing is asked for. *)
Theorem uartintr_edits c s st :
  balanced c (view s) → is_free LCons (view s) → is_free LPtable (view s) → can_print s →
  uart s ≠ 0 → Forall is_u8 (serialq s) → C 80 ∉ serialq s → Z.of_nat (length (serialq s)) < 2 ^ 32 →
  editing (input s) st →
  ∃ s', Cons.uartintr s = Ok tt s' ∧ serialq s' = [] ∧ (view s' : hart) = view s ∧
    editing (input s') (foldl (λ st c, edit c st) st (serialq s)).
Proof.
  intros Hb Hfc Hfp Hp Hu Hl Hdump Hn Hed. unfold Cons.uartintr, Cons.consoleintr.
  mstep (acquire_ok c LCons s Hb Hfc). set (s1 := upd _ s).
  assert (cons_env c s1) as He1.
  { destruct Hp as [? ? ?]. split; [by apply acq_balanced|by apply is_free_acq|by split]. }
  destruct (uart_loop_run c (serialq s) st s1 false He1 Hl Hed Hu eq_refl) as (s2 & E2 & He2 & Hh2 & Hq2 & Hed2).
  assert (loop (Cons.consoleintr_body Cons.uartgetc) 32 false s1 = Ok false s2) as El.
  { rewrite bool_decide_false in E2 by done. eapply loop_iter; [exact E2|]. change (Z.of_nat 32) with 32. lia. }
  mstep El. assert (release LCons s2 = Ok tt (upd (view s : hart) s2)) as Er by (by apply (release_ok c LCons)). mstep Er.
  eexists. split; [done|]. split_and!; [done|done|done].
Qed.

(** *** Reading a line *)

(** What a read of [n] bytes takes from the characters that are ready: up to and
    including a newline; a Control-D ends it and is kept for the next read unless
    it comes first.  [None]: the read has to wait. *)
Fixpoint take_line (first : bool) (n : nat) (ready : list Z) : option (list Z * list Z) :=
  match n, ready with
  | O, _ => Some ([], ready)
  | S n, [] => None
  | S n, c :: rest =>
      if c =? C 68 then Some ([], if first then rest else ready)
      else if c =? 10 then Some ([c], rest)
      else '(l, rest) ← take_line false n rest; Some (c :: l, rest)
  end.

Lemma ring_pop x b ready line :
  ring_rel x (b :: ready) line →
  ibuf x !!! slot INPUT_BUF (ir x) = b ∧ ring_rel (set_ir (ir x +u 1) x) ready line.
Proof.
  intros [H1 H2 H3 H4 H5 H6]. cbn [length] in *. rewrite Nat.add_succ_l, contents_pop in H6. injection H6 as Hb H6.
  split; [done|]. split; cbn [ibuf ir iw ie set_ir]; try done.
  - apply u32_range.
  - rewrite H3, u32_add_u32. f_equal. lia.
  - rewrite H4, u32_add_u32. f_equal. lia.
  - lia.
  - rewrite contents_u32 by apply input_buf_div. done.
Qed.

Lemma input_ready x b ready line : ring_rel x (b :: ready) line → (ir x =? iw x) = false.
Proof.
  intros [_ H2 -> _ Hf _]. apply Z.eqb_neq. unfold is_u32, u32, INPUT_BUF in *. cbn [length] in *. intros E.
  pose proof (Z.div_mod (ir x + Z.of_nat (S (length ready))) (2 ^ 32)). dmlia.
Qed.

Lemma wait_ready b ready line s :
  ring_rel (input s) (b :: ready) line → loop Cons.wait_input_body 32 tt s = Ok true s.
Proof.
  intros Hr. eapply (loop_iter _ 32 1); [|vm_compute; discriminate]. apply iter_exit.
  unfold Cons.wait_input_body, Cons.get_input. mred. by rewrite (input_ready _ _ _ _ Hr).
Qed.

(** The loop of consoleread(); [dst] holds the bytes read so far. *)
Lemma read_loop_run target n dst ready line l rest s :
  ring_rel (input s) ready line → target = u32 (Z.of_nat n + Z.of_nat (length dst)) → Z.of_nat n + Z.of_nat (length dst) < 2 ^ 31 →
  take_line (bool_decide (dst = [])) n ready = Some (l, rest) →
  ∃ x, iter (Cons.consoleread_body target) (S n) (Z.of_nat n, dst) s =
    Ok (inr (Some (Z.of_nat n - Z.of_nat (length l)), dst ++ l)) (set_input x s) ∧ ring_rel x rest line.
Proof.
  revert dst ready l s. induction n as [|n IH]; intros dst ready l s Hr Ht Hlt Htl.
  { injection Htl as <- <-. exists (input s). rewrite app_nil_r. split; [|done]. apply iter_exit. by destruct s. }
  destruct ready as [|b ready]; [done|]. destruct (ring_pop _ _ _ _ Hr) as [Hb Hr'].
  set (x1 := set_ir (ir (input s) +u 1) (input s)) in *.
  assert (Cons.consoleread_body target (Z.of_nat (S n), dst) s =
    (if b =? C 68 then mwhen (u32 (Z.of_nat (S n)) <? target) (Cons.mod_input (λ x, set_ir (ir x -u 1) x));; mret (inr (Some (Z.of_nat (S n)), dst))
     else if b =? 10 then mret (inr (Some (Z.of_nat (S n) - 1), dst ++ [b])) else mret (inl (Z.of_nat (S n) - 1, dst ++ [b])))
    (set_input x1 s)) as Eb.
  { unfold Cons.consoleread_body, Cons.get_input. cbv beta iota zeta. rewrite (proj2 (Z.ltb_lt 0 _)) by lia. cbn [negb].
    rewrite (bind_ok _ _ _ _ _ (wait_ready _ _ _ _ Hr)). cbn [negb]. mred. rewrite Hb. unfold Cons.mod_input at 1. by mred. }
  cbn [take_line] in Htl. destruct (b =? C 68) eqn:Ed; [|destruct (b =? 10) eqn:En].
  - injection Htl as <- <-. rewrite app_nil_r. cbn [length]. rewrite Z.sub_0_r.
    destruct (bool_decide (dst = [])) eqn:Ef.
    + apply bool_decide_eq_true in Ef. subst dst. exists x1. split; [|done]. apply iter_exit. rewrite Eb.
      cbn [length] in Ht. rewrite Z.add_0_r in Ht. rewrite Ht, Z.ltb_irrefl. by mred.
    + apply bool_decide_eq_false in Ef. exists (input s). split; [|done]. apply iter_exit. rewrite Eb.
      assert (0 < length dst)%nat by (destruct dst; [done|simpl; lia]).
      rewrite Ht, !u32_id, (proj2 (Z.ltb_lt _ _)) by (unfold is_u32; lia). unfold Cons.mod_input. mred.
      assert (ir x1 -u 1 = ir (input s)) as Er.
      { unfold x1. cbn [ir set_ir]. rewrite u32_sub_u32, Z.add_simpl_r. apply u32_id, Hr. }
      cbn [input set_input]. rewrite Er. destruct s as [? ? ? ? ? ? ? ? []]. done.
  - injection Htl as <- <-. exists x1. split; [|done]. apply iter_exit. rewrite Eb. done.
  - destruct (take_line false n ready) as [[l' rest']|] eqn:Et; [|done]. injection Htl as <- <-.
    destruct (IH (dst ++ [b]) ready l' (set_input x1 s)) as (x & E & Hx).
    + done.
    + rewrite Ht, length_app. f_equal. simpl. lia.
    + rewrite length_app. simpl. lia.
    + rewrite bool_decide_false; [done|]. by destruct dst.
    + exists x. split; [|done]. replace (Z.of_nat (S n) - 1) with (Z.of_nat n) in Eb by lia.
      rewrite (iter_next _ _ _ _ _ _ Eb), E. rewrite <- app_assoc. do 4 f_equal. cbn [length]. lia.
Qed.

Lemma take_line_le f n ready l rest : take_line f n ready = Some (l, rest) → (length l ≤ n)%nat.
Proof.
  revert f ready l. induction n as [|n IH]; intros f [|b ready] l Ht; cbn in Ht; try done.
  - by injection Ht as <- _.
  - by injection Ht as <- _.
  - destruct (b =? C 68); [injection Ht as <- _; simpl; lia|]. destruct (b =? 10); [injection Ht as <- _; simpl; lia|].
    destruct (take_line false n ready) as [[l' r']|] eqn:E; [|done]. injection Ht as <- <-. apply IH in E. simpl. lia.
Qed.

(** Consoleread() delivers typed lines.  When enough characters
    are ready, a read of [n] bytes returns at once the characters up to the first
    newline, or [n] of them, or those before a Control-D, which is left in the ring
    if any characters were delivered and so makes the next read return 0; it
    returns their number and consumes exactly these characters. *)
Theorem consoleread_line c s iunlock ilock s0 n ready line l rest :
  iunlock s = Ok tt s0 → balanced c (view s0) → is_free LCons (view s0) → Z.of_nat n < 2 ^ 31 →
  editing (input s0) (ready, line) → take_line true n ready = Some (l, rest) →
  ∃ x, consoleread iunlock ilock (Z.of_nat n) s = (ilock;; mret (Z.of_nat (length l), l)) (set_input x s0) ∧
    editing x (rest, line).
Proof.
  intros Eu Hb Hf Hn [Hr Hnl] Ht. cbn [fst snd] in *. unfold consoleread. mstep Eu.
  mstep (acquire_ok c LCons s0 Hb Hf). set (s1 := upd _ s0).
  destruct (read_loop_run (u32 (Z.of_nat n)) n [] ready line l rest s1) as (x & E & Hx).
  - done.
  - cbn [length]. by rewrite Z.add_0_r.
  - cbn [length]. lia.
  - done.
  - exists x. split; [|by split].
    assert (lift (loop (Cons.consoleread_body (u32 (Z.of_nat n))) 32 (Z.of_nat n, [])) s1 =
      Ok (Some (Z.of_nat n - Z.of_nat (length l)), l) (set_input x s1)) as El.
    { refine (lift_ok (S := cst) (T := cst) _ s1 _ (set_input x s1) _). eapply loop_iter; [exact E|]. change (Z.of_nat 32) with 32. lia. }
    mstep El. assert ((view (set_input x s1) : hart) = acq c LCons (view s0)) as Ev by done.
    rewrite (bind_ok _ _ _ _ _ (release_ok c LCons (view s0) (set_input x s1) Ev Hb Hf)).
    pose proof (take_line_le _ _ _ _ _ Ht) as Hle.
    rewrite u32_id by (unfold is_u32; lia). replace (Z.of_nat n - (Z.of_nat n - Z.of_nat (length l))) with (Z.of_nat (length l)) by lia.
    rewrite s32_id by (unfold is_s32; lia). do 2 f_equal.
    unfold s1. by destruct s0 as [[[[[[] ? ? ? ? ?] ?] ? ? ?] ?] ? ? ? ? ? ? ? ?].
Qed.

(** Characters waiting at the serial port, with the counters about to wrap. *)
Definition cst0 : cst :=
  Cst (Lst bst_blank (log lst0)) 0 1 1919 1 [] (chars "hx" ++ [8; 105; 13]) (Kbd 0 []) (Input (replicate 128 0) (2 ^ 32 - 2) (2 ^ 32 - 2) (2 ^ 32 - 2)).

Lemma cst0_print : can_print cst0.
Proof.
  split; [done|unfold on_screen; cbn; lia|]. intros a. change (is_u8 (store32 0x80400000 0x80401000 (λ _, 0) a)).
  unfold store32, store8. repeat (destruct (a =? _); [apply u8_range|]). by split.
Qed.

Lemma console_terminal_witness :
  ∃ m p o, Cons.put_all (chars "ok") cst0 = Ok tt (printed m p o cst0) ∧ o = chars "ok" ∧ p = 1841.
Proof.
  destruct (console_terminal (chars "ok") cst0 cst0_print) as (m & p & o & E & _ & [Hp _] & Ho).
  exists m, p, o. split_and!; [exact E|exact Ho|exact Hp].
Defined.

Lemma cst0_editing : editing (input cst0) ([], []).
Proof. split; [|apply not_elem_of_nil]. split; vm_compute; try reflexivity; [split; [discriminate|reflexivity]|lia]. Qed.

Lemma uartintr_edits_witness :
  ∃ s', Cons.uartintr cst0 = Ok tt s' ∧ serialq s' = [] ∧ editing (input s') (chars "hi" ++ [10], []).
Proof.
  destruct (uartintr_edits 1 cst0 ([], [])) as (s' & E & Hq & _ & Hed).
  - exact hart0_balanced.
  - reflexivity.
  - reflexivity.
  - exact cst0_print.
  - discriminate.
  - repeat constructor; discriminate.
  - refine (bool_decide_eq_false_1 _ _). vm_compute. reflexivity.
  - vm_compute. reflexivity.
  - exact cst0_editing.
  - exists s'. split_and!; [exact E|exact Hq|exact Hed].
Defined.

(** A typed line in the ring. *)
Definition cst1 : cst :=
  set_input (Input (<[0%nat := 10]> (<[127%nat := 105]> (<[126%nat := 104]> (replicate 128 0)))) (2 ^ 32 - 2) 1 1) cst0.

Lemma consoleread_line_witness :
  ∃ x, consoleread (mret tt) (mret tt) 50 cst1 = Ok (3, chars "hi" ++ [10]) (set_input x cst1) ∧ editing x ([], []).
Proof.
  destruct (consoleread_line 1 cst1 (mret tt : M cst unit) (mret tt : M cst unit) cst1 50 (chars "hi" ++ [10]) [] (chars "hi" ++ [10]) []) as (x & E & H).
  - reflexivity.
  - exact hart0_balanced.
  - reflexivity.
  - vm_compute. reflexivity.
  - split; [|apply not_elem_of_nil]. split; vm_compute; try reflexivity; [split; [discriminate|reflexivity]|lia].
  - reflexivity.
  - exists x. split; [exact E|exact H].
Defined.
