(* ===== verification/Apic.v ===== *)
(** * Interrupt controllers and the clock: lapic.c, ioapic.c, picirq.c

    The drivers of the local and the I/O APIC, of the old interrupt controllers and
    of the real-time clock, on any bus.  Delays do nothing in the source either. *)

From S2P Require Import Prelude Machine Proc CString Kalloc Sleeplock Bio Log Kbd Console Io Mp.
Open Scope kernel_scope.

Section apic.
Context {D : Type} `{Bus D}.

(** ** lapic.c *)

Definition ID : Z := 0x0020 / 4.
Definition VER : Z := 0x0030 / 4.
Definition TPR : Z := 0x0080 / 4.
Definition EOI : Z := 0x00B0 / 4.
Definition SVR : Z := 0x00F0 / 4.
Definition ENABLE : Z := 0x00000100.
Definition ESR : Z := 0x0280 / 4.
Definition ICRLO : Z := 0x0300 / 4.
Definition INIT : Z := 0x00000500.
Definition STARTUP : Z := 0x00000600.
Definition DELIVS : Z := 0x00001000.
Definition ASSERT : Z := 0x00004000.
Definition LEVEL : Z := 0x00008000.
Definition BCAST : Z := 0x00080000.
Definition ICRHI : Z := 0x0310 / 4.
Definition TIMER : Z := 0x0320 / 4.
Definition X1 : Z := 0x0000000B.
Definition PERIODIC : Z := 0x00020000.
Definition PCINT : Z := 0x0340 / 4.
Definition LINT0 : Z := 0x0350 / 4.
Definition LINT1 : Z := 0x0360 / 4.
Definition ERROR : Z := 0x0370 / 4.
Definition MASKED : Z := 0x00010000.
Definition TICR : Z := 0x0380 / 4.
Definition TDCR : Z := 0x03E0 / 4.

(** [lapic[index]] *)
Definition lapicr (index : Z) : M (mpst D) Z := l ← gets lapic; mmio_read (l +u 4 * index).
Definition lapicw (index value : Z) : M (mpst D) unit :=
  l ← gets lapic;
  mmio_write (l +u 4 * index) value;;
  lapicr ID;;
  mret tt.

Definition delivs_body (_ : unit) : M (mpst D) (unit + unit) :=
  v ← lapicr ICRLO;
  if negb (Z.land v DELIVS =? 0) then mret (inl tt) else mret (inr tt).

Definition lapicinit : M (mpst D) unit :=
  l ← gets lapic;
  if l =? 0 then mret tt else
  lapicw SVR (Z.lor ENABLE (T_IRQ0 + IRQ_SPURIOUS));;
  lapicw TDCR X1;;
  lapicw TIMER (Z.lor PERIODIC (T_IRQ0 + IRQ_TIMER));;
  lapicw TICR 10000000;;
  lapicw LINT0 MASKED;;
  lapicw LINT1 MASKED;;
  v ← lapicr VER;
  mwhen (4 <=? Z.land (Z.shiftr v 16) 0xFF) (lapicw PCINT MASKED);;
  lapicw ERROR (T_IRQ0 + IRQ_ERROR);;
  lapicw ESR 0;;
  lapicw ESR 0;;
  lapicw EOI 0;;
  lapicw ICRHI 0;;
  lapicw ICRLO (Z.lor (Z.lor BCAST INIT) LEVEL);;
  loop delivs_body 40 tt;;
  lapicw TPR 0.

Definition lapicid : M (mpst D) Z :=
  l ← gets lapic;
  if l =? 0 then mret 0 else
  v ← lapicr ID;
  mret (Z.shiftr v 24).

Definition lapiceoi : M (mpst D) unit :=
  l ← gets lapic;
  mwhen (negb (l =? 0)) (lapicw EOI 0).

Definition microdelay (us : Z) : M (mpst D) unit := mret tt.

Definition CMOS_PORT : Z := 0x70.
Definition CMOS_RETURN : Z := 0x71.

(** A 16-bit word of memory. *)
Definition store16 (a v : Z) : M (mpst D) unit :=
  modify (λ s, Mpst (store8 (a + 1) (Z.shiftr v 8) (store8 a v (mmem s))) (apicids s) (ncpu s) (ioapicid s) (lapic s) (mdev s)).

Fixpoint startup (apicid addr : Z) (n : nat) : M (mpst D) unit :=
  match n with
  | O => mret tt
  | S n =>
      lapicw ICRHI (Z.shiftl apicid 24);;
      lapicw ICRLO (Z.lor STARTUP (Z.shiftr addr 12));;
      microdelay 200;;
      startup apicid addr n
  end.

Definition lapicstartap (apicid addr : Z) : M (mpst D) unit :=
  outb CMOS_PORT 0xF;;
  outb (CMOS_PORT + 1) 0x0A;;
  let wrv := P2V (Z.lor (Z.shiftl 0x40 4) 0x67) in
  store16 wrv 0;;
  store16 (wrv + 2) (Z.shiftr addr 4);;
  lapicw ICRHI (Z.shiftl apicid 24);;
  lapicw ICRLO (Z.lor (Z.lor INIT LEVEL) ASSERT);;
  microdelay 200;;
  lapicw ICRLO (Z.lor INIT LEVEL);;
  microdelay 100;;
  startup apicid addr 2.

(** The real-time clock. *)
Definition CMOS_STATA : Z := 0x0a.
Definition CMOS_STATB : Z := 0x0b.
Definition CMOS_UIP : Z := Z.shiftl 1 7.
Definition SECS : Z := 0x00.
Definition MINS : Z := 0x02.
Definition HOURS : Z := 0x04.
Definition DAY : Z := 0x07.
Definition MONTH : Z := 0x08.
Definition YEAR : Z := 0x09.

Record rtcdate := Rtcdate { second : Z; minute : Z; hour : Z; day : Z; month : Z; year : Z }.
#[global] Instance rtcdate_eq_dec : EqDecision rtcdate.
Proof using Type. solve_decision. Defined.

Definition cmos_read (reg : Z) : M (mpst D) Z :=
  outb CMOS_PORT reg;;
  microdelay 200;;
  inb CMOS_RETURN.

Definition fill_rtcdate : M (mpst D) rtcdate :=
  s ← cmos_read SECS;
  mi ← cmos_read MINS;
  h ← cmos_read HOURS;
  d ← cmos_read DAY;
  mo ← cmos_read MONTH;
  y ← cmos_read YEAR;
  mret (Rtcdate s mi h d mo y).

Definition cmostime_body (_ : unit) : M (mpst D) (unit + rtcdate) :=
  t1 ← fill_rtcdate;
  a ← cmos_read CMOS_STATA;
  if negb (Z.land a CMOS_UIP =? 0) then mret (inl tt) else
  t2 ← fill_rtcdate;
  if bool_decide (t1 = t2) then mret (inr t1) else mret (inl tt).

Definition CONV (x : Z) : Z := Z.shiftr x 4 * 10 + Z.land x 0xf.
Definition convert (t : rtcdate) : rtcdate :=
  Rtcdate (CONV (second t)) (CONV (minute t)) (CONV (hour t)) (CONV (day t)) (CONV (month t)) (CONV (year t)).

Definition cmostime : M (mpst D) rtcdate :=
  sb ← cmos_read CMOS_STATB;
  let bcd := Z.land sb (Z.shiftl 1 2) =? 0 in
  t1 ← loop cmostime_body 40 tt;
  let r := if bcd then convert t1 else t1 in
  mret (Rtcdate (second r) (minute r) (hour r) (day r) (month r) (year r + 2000)).

(** ** picirq.c *)

Definition IO_PIC1 : Z := 0x20.
Definition IO_PIC2 : Z := 0xA0.
Definition picinit : M (mpst D) unit := outb (IO_PIC1 + 1) 0xFF;; outb (IO_PIC2 + 1) 0xFF.

(** ** ioapic.c *)

Definition IOAPIC : Z := 0xFEC00000.
Definition REG_ID : Z := 0x00.
Definition REG_VER : Z := 0x01.
Definition REG_TABLE : Z := 0x10.
Definition INT_DISABLED : Z := 0x00010000.

(** [ioapic->reg] and [ioapic->data] *)
Definition ioapicread (reg : Z) : M (mpst D) Z := mmio_write IOAPIC reg;; mmio_read (IOAPIC + 16).
Definition ioapicwrite (reg data : Z) : M (mpst D) unit := mmio_write IOAPIC reg;; mmio_write (IOAPIC + 16) data.

Fixpoint ioapicinit_loop (i : Z) (n : nat) : M (mpst D) unit :=
  match n with
  | O => mret tt
  | S n =>
      ioapicwrite (REG_TABLE + 2 * i) (Z.lor INT_DISABLED (T_IRQ0 + i));;
      ioapicwrite (REG_TABLE + 2 * i + 1) 0;;
      ioapicinit_loop (i + 1) n
  end.

Definition ioapicenable (irq cpunum : Z) : M (mpst D) unit :=
  ioapicwrite (REG_TABLE + 2 * irq) (T_IRQ0 + irq);;
  ioapicwrite (REG_TABLE + 2 * irq + 1) (Z.shiftl cpunum 24).
End apic.

(** The message of ioapicinit() goes to the console. *)
Definition ioapicinit {S D} `{Bus D} `{!Lens S (mpst D)} `{!Lens S cst} : M S unit :=
  v ← lift (ioapicread REG_VER : M (mpst D) Z);
  let maxintr := Z.land (Z.shiftr v 16) 0xFF in
  v ← lift (ioapicread REG_ID : M (mpst D) Z);
  me ← lift (gets ioapicid : M (mpst D) Z);
  mwhen (negb (Z.shiftr v 24 =? me)) (cprintf (chars "ioapicinit: id isn't equal to ioapicid; not a MP" ++ [10]) []);;
  lift (ioapicinit_loop 0 (Z.to_nat (maxintr + 1)) : M (mpst D) unit).

(** ** Interrupt routing

    The I/O APIC has a register that selects one of its registers, and a window
    onto the selected one. *)
Record ioapic_laws {D} `{Bus D} (sel : D → Z) (regs : D → Z → Z) : Prop := {
  io_select d v : 0 ≤ v < 256 → sel (reg_write IOAPIC v d) = v ∧ ∀ r, regs (reg_write IOAPIC v d) r = regs d r;
  io_write d v : REG_TABLE ≤ sel d → is_u32 v →
    sel (reg_write (IOAPIC + 16) v d) = sel d ∧ ∀ r, regs (reg_write (IOAPIC + 16) v d) r = if decide (r = sel d) then v else regs d r;
  io_read d : (reg_read (IOAPIC + 16) d).1 = regs d (sel d) ∧ is_u32 (regs d (sel d)) ∧ ∀ r, regs (reg_read (IOAPIC + 16) d).2 r = regs d r;
}.

Section routing.
Context {D : Type} `{Bus D} (sel : D → Z) (regs : D → Z → Z) (HL : ioapic_laws sel regs).

(** The state but for its devices. *)
Definition same_but_dev (s s' : mpst D) : Prop := s' = set_mdev (mdev s') s.

Lemma same_but_dev_trans s1 s2 s3 : same_but_dev s1 s2 → same_but_dev s2 s3 → same_but_dev s1 s3.
Proof. unfold same_but_dev. intros E1 E2. rewrite E2, E1. done. Qed.

Lemma ioapicwrite_run reg v s :
  REG_TABLE ≤ reg < 256 → is_u32 v →
  ∃ s', ioapicwrite reg v s = Ok tt s' ∧ same_but_dev s s' ∧ ∀ r, regs (mdev s') r = if decide (r = reg) then v else regs (mdev s) r.
Proof using HL.
  intros Hr Hv. unfold REG_TABLE in Hr. unfold ioapicwrite, mmio_write. mred. rewrite !u32_id by (done || unfold is_u32; lia).
  eexists. split; [done|]. split; [done|]. intros r. cbn [view upd lens_mdev mdev set_mdev].
  destruct (io_select _ _ HL (mdev s) reg) as [E1 E2]; [lia|].
  destruct (io_write _ _ HL (reg_write IOAPIC reg (mdev s)) v) as [_ E4]; [rewrite E1; unfold REG_TABLE; lia|done|].
  rewrite E4, E1, E2. done.
Qed.

Lemma ioapicread_run reg s :
  0 ≤ reg < 256 → ∃ s', ioapicread reg s = Ok (regs (mdev s) reg) s' ∧ same_but_dev s s' ∧ (∀ r, regs (mdev s') r = regs (mdev s) r) ∧ is_u32 (regs (mdev s) reg).
Proof using HL.
  intros Hr. unfold ioapicread, mmio_write, mmio_read. mred. rewrite (u32_id reg) by (unfold is_u32; lia).
  cbn [view upd lens_mdev mdev set_mdev]. destruct (io_select _ _ HL (mdev s) reg) as [E1 E2]; [lia|].
  destruct (io_read _ _ HL (reg_write IOAPIC reg (mdev s))) as (E3 & E4 & E5).
  destruct (reg_read _ _) as [v d]. cbn [fst snd] in *. rewrite E1, E2 in *. subst v. rewrite u32_id by done. eexists. split; [done|].
  split; [done|]. split; [|done]. intros r. cbn [mdev set_mdev]. by rewrite E5, E2.
Qed.

(** An interrupt's pair of registers. *)
Lemma pair_run irq lo hi s :
  0 ≤ irq < 120 → is_u32 lo → is_u32 hi →
  ∃ s', (ioapicwrite (REG_TABLE + 2 * irq) lo;; ioapicwrite (REG_TABLE + 2 * irq + 1) hi) s = Ok tt s' ∧ same_but_dev s s' ∧
    ∀ r, regs (mdev s') r = if decide (r = REG_TABLE + 2 * irq) then lo else if decide (r = REG_TABLE + 2 * irq + 1) then hi else regs (mdev s) r.
Proof using HL.
  intros Hi Hlo Hhi. destruct (ioapicwrite_run (REG_TABLE + 2 * irq) lo s) as (s1 & E1 & S1 & R1); [unfold REG_TABLE; lia|done|].
  destruct (ioapicwrite_run (REG_TABLE + 2 * irq + 1) hi s1) as (s2 & E2 & S2 & R2); [unfold REG_TABLE; lia|done|].
  exists s2. mstep E1. split; [done|]. split; [by eapply same_but_dev_trans|]. intros r. rewrite R2, R1.
  repeat case_decide; (done || lia).
Qed.

Lemma ioapicinit_loop_run n i s :
  0 ≤ i → i + Z.of_nat n ≤ 120 →
  ∃ s', ioapicinit_loop i n s = Ok tt s' ∧ same_but_dev s s' ∧
    (∀ k, i ≤ k < i + Z.of_nat n → regs (mdev s') (REG_TABLE + 2 * k) = Z.lor INT_DISABLED (T_IRQ0 + k) ∧ regs (mdev s') (REG_TABLE + 2 * k + 1) = 0) ∧
    ∀ r, r < REG_TABLE + 2 * i → regs (mdev s') r = regs (mdev s) r.
Proof using HL.
  revert i s. induction n as [|n IH]; intros i s Hi Hn; cbn [ioapicinit_loop].
  { exists s. split; [done|]. split; [by destruct s|]. split; [lia|done]. }
  destruct (pair_run i (Z.lor INT_DISABLED (T_IRQ0 + i)) 0 s) as (s1 & E1 & S1 & R1); [lia| |done|].
  { apply lor_u32; unfold is_u32, INT_DISABLED, T_IRQ0; lia. }
  destruct (IH (i + 1) s1) as (s2 & E2 & S2 & R2 & R2'); [lia|lia|]. exists s2. rewrite <- bind_assoc. mstep E1.
  split; [done|]. split; [by eapply same_but_dev_trans|]. split.
  - intros k Hk. destruct (decide (k = i)) as [->|]; [|apply R2; lia]. rewrite !R2', !R1 by lia.
    rewrite decide_True, decide_False, decide_True by lia. done.
  - intros r Hr. rewrite R2', R1, !decide_False by lia. done.
Qed.

(** The drivers' calls: interrupt lines with their CPUs. *)
Fixpoint enable_all (l : list (Z * Z)) : M (mpst D) unit :=
  match l with [] => mret tt | (irq, cpu) :: l => ioapicenable irq cpu;; enable_all l end.

Lemma enable_all_run l s :
  Forall (λ x, 0 ≤ x.1 < 120 ∧ 0 ≤ x.2 < 256) l → NoDup l.*1 →
  ∃ s', enable_all l s = Ok tt s' ∧ same_but_dev s s' ∧
    (∀ irq cpu, (irq, cpu) ∈ l → regs (mdev s') (REG_TABLE + 2 * irq) = T_IRQ0 + irq ∧ regs (mdev s') (REG_TABLE + 2 * irq + 1) = Z.shiftl cpu 24) ∧
    (∀ k, k ∉ l.*1 → regs (mdev s') (REG_TABLE + 2 * k) = regs (mdev s) (REG_TABLE + 2 * k) ∧
       regs (mdev s') (REG_TABLE + 2 * k + 1) = regs (mdev s) (REG_TABLE + 2 * k + 1)).
Proof using HL.
  intros Hl Hnd. revert s. induction l as [|[irq cpu] l IH]; intros s; cbn [enable_all].
  { exists s. split; [done|]. split; [by destruct s|]. split; [|done]. by intros ? ? ?%not_elem_of_nil. }
  apply Forall_cons in Hl as [[Hi Hc] Hl]. apply NoDup_cons in Hnd as [Hni Hnd]. cbn [fst snd] in *.
  destruct (pair_run irq (T_IRQ0 + irq) (Z.shiftl cpu 24) s) as (s1 & E1 & S1 & R1); [done|unfold is_u32, T_IRQ0; lia| |].
  { unfold is_u32. rewrite Z.shiftl_mul_pow2 by lia. lia. }
  destruct (IH Hl Hnd s1) as (s2 & E2 & S2 & R2 & R2'). exists s2. assert (ioapicenable irq cpu s = Ok tt s1) as E1' by exact E1. mstep E1'.
  split; [done|]. split; [by eapply same_but_dev_trans|]. split.
  - intros irq' cpu' [[= -> ->]|Hin]%elem_of_cons; [|by apply R2]. destruct (R2' irq Hni) as [-> ->]. rewrite !R1.
    rewrite decide_True, decide_False, decide_True by lia. done.
  - intros k Hk. apply not_elem_of_cons in Hk as [Hne Hk]. cbn [fst] in Hne. destruct (R2' k Hk) as [-> ->]. rewrite !R1, !decide_False by lia. done.
Qed.
End routing.


(** A bus with an I/O APIC of 24 lines and a stopped clock: the selected register
    of each, and their registers. *)
Record board := Board { io_sel : Z; io_regs : Z → Z; rtc_sel : Z; rtc_regs : Z → Z }.
#[global] Instance board_bus : Bus board := {|
  port_in p b := ((if p =? CMOS_RETURN then rtc_regs b (rtc_sel b) mod 2 ^ 8 else 0), b);
  port_out p v b := if p =? CMOS_PORT then Board (io_sel b) (io_regs b) v (rtc_regs b) else b;
  port_ins _ n b := (replicate (4 * n) 0, b);
  port_outs _ _ b := b;
  reg_read a b := (io_regs b (io_sel b) mod 2 ^ 32, b);
  reg_write a v b :=
    if a =? IOAPIC then Board v (io_regs b) (rtc_sel b) (rtc_regs b)
    else if a =? IOAPIC + 16 then Board (io_sel b) (λ r, if decide (r = io_sel b) then v else io_regs b r) (rtc_sel b) (rtc_regs b)
    else b;
|}.

#[local] Instance pair_mp {D} : Lens (mpst D * cst) (mpst D).
Proof. refine {| view := fst; upd t s := (t, s.2) |}; [done|by intros []|done]. Defined.
#[local] Instance pair_cst {D} : Lens (mpst D * cst) cst.
Proof. refine {| view := snd; upd t s := (s.1, t) |}; [done|by intros []|done]. Defined.

Lemma board_ioapic : ioapic_laws io_sel (λ b r, io_regs b r mod 2 ^ 32).
Proof.
  split.
  - intros d v Hv. done.
  - intros d v Hs Hv. split; [done|]. intros r. cbn [reg_write board_bus]. change (IOAPIC + 16 =? IOAPIC) with false.
    change (IOAPIC + 16 =? IOAPIC + 16) with true. cbn [io_regs]. case_decide; [by apply u32_id|done].
  - intros d. split; [done|]. split; [apply u32_range|done].
Qed.

Definition board0 : mpst board * cst :=
  (Mpst (λ _, 0) [] 0 1 0 (Board 0 (λ r, if r =? 0 then 0x01000000 else if r =? 1 then 0x00170011 else 0) 0 (λ _, 0)), cst0).


(** ** The time

    A clock that does not move while it is read: port 0x70 selects a register and
    port 0x71 reads it. *)
Record cmos_laws {D} `{Bus D} (sel : D → Z) (regs : D → Z → Z) : Prop := {
  cm_select d v : is_u8 v → sel (port_out CMOS_PORT v d) = v ∧ ∀ r, regs (port_out CMOS_PORT v d) r = regs d r;
  cm_read d : (port_in CMOS_RETURN d).1 = regs d (sel d) ∧ is_u8 (regs d (sel d)) ∧ ∀ r, regs (port_in CMOS_RETURN d).2 r = regs d r;
}.

(** The registers that show date [t], with the year in the century. *)
Definition bcd (x : Z) : Z := x / 10 * 16 + x mod 10.
Definition shows (regs : Z → Z) (t : rtcdate) : Prop :=
  let enc x := if Z.land (regs CMOS_STATB) 4 =? 0 then bcd x else x in
  regs SECS = enc (second t) ∧ regs MINS = enc (minute t) ∧ regs HOURS = enc (hour t) ∧ regs DAY = enc (day t) ∧
  regs MONTH = enc (month t) ∧ regs YEAR = enc (year t - 2000).
Definition date_ok (t : rtcdate) : Prop :=
  0 ≤ second t < 100 ∧ 0 ≤ minute t < 100 ∧ 0 ≤ hour t < 100 ∧ 0 ≤ day t < 100 ∧ 0 ≤ month t < 100 ∧ 2000 ≤ year t < 2100.

Lemma conv_bcd x : 0 ≤ x < 100 → CONV (bcd x) = x.
Proof.
  intros Hx. unfold CONV, bcd. rewrite Z.shiftr_div_pow2 by lia. change 0xf with (Z.ones 4). rewrite Z.land_ones by lia. dmlia.
Qed.

Section clock.
Context {D : Type} `{Bus D} (sel : D → Z) (regs : D → Z → Z) (HL : cmos_laws sel regs).

Lemma cmos_read_run reg s :
  is_u8 reg → ∃ s', cmos_read reg s = Ok (regs (mdev s) reg) s' ∧ same_but_dev s s' ∧ (∀ r, regs (mdev s') r = regs (mdev s) r).
Proof using HL.
  intros Hr. unfold cmos_read, outb, inb, microdelay. mred. rewrite (u8_id reg) by done. cbn [view upd lens_mdev mdev set_mdev].
  destruct (cm_select _ _ HL (mdev s) reg Hr) as [E1 E2]. destruct (cm_read _ _ HL (port_out CMOS_PORT reg (mdev s))) as (E3 & E4 & E5).
  destruct (port_in _ _) as [v d]. cbn [fst snd] in *. rewrite E1, E2 in *. subst v. rewrite u8_id by done. eexists. split; [done|].
  split; [done|]. intros r. cbn [mdev set_mdev]. by rewrite E5, E2.
Qed.

Lemma fill_rtcdate_run s :
  ∃ s', fill_rtcdate s = Ok (Rtcdate (regs (mdev s) SECS) (regs (mdev s) MINS) (regs (mdev s) HOURS) (regs (mdev s) DAY) (regs (mdev s) MONTH) (regs (mdev s) YEAR)) s' ∧
    same_but_dev s s' ∧ (∀ r, regs (mdev s') r = regs (mdev s) r).
Proof using HL.
  unfold fill_rtcdate.
  destruct (cmos_read_run SECS s) as (s1 & E1 & S1 & R1); [done|]. mstep E1.
  destruct (cmos_read_run MINS s1) as (s2 & E2 & S2 & R2); [done|]. mstep E2.
  destruct (cmos_read_run HOURS s2) as (s3 & E3 & S3 & R3); [done|]. mstep E3.
  destruct (cmos_read_run DAY s3) as (s4 & E4 & S4 & R4); [done|]. mstep E4.
  destruct (cmos_read_run MONTH s4) as (s5 & E5 & S5 & R5); [done|]. mstep E5.
  destruct (cmos_read_run YEAR s5) as (s6 & E6 & S6 & R6); [done|]. mstep E6.
  exists s6. rewrite R5, !R4, !R3, !R2, !R1. split; [done|].
  split; [eauto 8 using same_but_dev_trans|]. intros r. by rewrite R6, R5, R4, R3, R2, R1.
Qed.
End clock.


Lemma board_cmos : cmos_laws rtc_sel (λ b r, rtc_regs b r mod 2 ^ 8).
Proof.
  split.
  - intros d v Hv. done.
  - intros d. split; [done|]. split; [apply u8_range|done].
Qed.

(** 23:59:58 on 31 December 2024, in decimal digits. *)
Definition clock0 : mpst board :=
  Mpst (λ _, 0) [] 0 1 0 (Board 0 (λ _, 0) 0 (λ r,
    if r =? SECS then 0x58 else if r =? MINS then 0x59 else if r =? HOURS then 0x23 else if r =? DAY then 0x31
    else if r =? MONTH then 0x12 else if r =? YEAR then 0x24 else 0)).

