(* ===== verification/Ide.v ===== *)
(** * The disk driver: ide.c

    Requests are buffers in a queue linked by [qnext]; the disk works on the first
    one, and its interrupt ends that request and starts the next.  [qnext] of struct
    buf is the array [qnext] here, indexed like [bufs].  The driver is defined on any
    bus; the rest of the development runs on the disk of memide.c, and the theorems
    here show that a request to this driver ends in the state memide.c gives. *)

From S2P Require Import Prelude Machine Proc CString Kalloc Sleeplock Bio Io Mp Log Kbd Console Apic.
Open Scope kernel_scope.

Definition SECTOR_SIZE : Z := 512.
Definition IDE_BSY : Z := 0x80.
Definition IDE_DRDY : Z := 0x40.
Definition IDE_DF : Z := 0x20.
Definition IDE_ERR : Z := 0x01.
Definition IDE_CMD_READ : Z := 0x20.
Definition IDE_CMD_WRITE : Z := 0x30.
Definition IDE_CMD_RDMUL : Z := 0xc4.
Definition IDE_CMD_WRMUL : Z := 0xc5.

(** A pointer to a pointer to a buffer: [&idequeue] or [&b->qnext]. *)
Inductive link := Queue | Qnext (b : nat).

Section ide.
Context {D : Type} `{Bus D}.

Record ist := Ist { ib : bst; imp : mpst D; qnext : list (option nat); idequeue : option nat; havedisk1 : Z }.
Definition set_ib (v : bst) (s : ist) : ist := Ist v (imp s) (qnext s) (idequeue s) (havedisk1 s).
Definition set_imp (v : mpst D) (s : ist) : ist := Ist (ib s) v (qnext s) (idequeue s) (havedisk1 s).
Definition set_qnext (v : list (option nat)) (s : ist) : ist := Ist (ib s) (imp s) v (idequeue s) (havedisk1 s).
Definition set_idequeue (v : option nat) (s : ist) : ist := Ist (ib s) (imp s) (qnext s) v (havedisk1 s).
Definition set_havedisk1 (v : Z) (s : ist) : ist := Ist (ib s) (imp s) (qnext s) (idequeue s) v.

#[global] Instance lens_ib : Lens ist bst.
Proof. refine {| view := ib; upd := set_ib |}; [done|by intros []|done]. Defined.
#[global] Instance lens_imp : Lens ist (mpst D).
Proof. refine {| view := imp; upd := set_imp |}; [done|by intros []|done]. Defined.
#[global] Instance lens_idev : Lens ist D.
Proof.
  refine {| view s := mdev (imp s); upd d s := set_imp (set_mdev d (imp s)) s |}; [done|by intros [? []]|done].
Defined.

Definition load_link (pp : link) : M ist (option nat) :=
  gets (λ s, match pp with Queue => idequeue s | Qnext b => qnext s !!! b end).
Definition store_link (pp : link) (v : option nat) : M ist unit :=
  modify (λ s, match pp with Queue => set_idequeue v s | Qnext b => set_qnext (<[b := v]> (qnext s)) s end).

Definition idewait_body (_ : unit) : M ist (unit + Z) :=
  r ← inb 0x1f7;
  if negb (Z.land r (Z.lor IDE_BSY IDE_DRDY) =? IDE_DRDY) then mret (inl tt) else mret (inr r).
Definition idewait (checkerr : Z) : M ist Z :=
  r ← loop idewait_body 40 tt;
  if negb (checkerr =? 0) && negb (Z.land r (Z.lor IDE_DF IDE_ERR) =? 0) then mret (-1) else mret 0.

Fixpoint find_disk1 (n : nat) : M ist unit :=
  match n with
  | O => mret tt
  | S n => v ← inb 0x1f7; if negb (v =? 0) then modify (set_havedisk1 1) else find_disk1 n
  end.

Definition ideinit : M ist unit :=
  initlock LIde;;
  n ← gets (λ s, ncpu (imp s));
  lift (ioapicenable IRQ_IDE (n - 1));;
  idewait 0;;
  outb 0x1f6 (Z.lor 0xe0 (Z.shiftl 1 4));;
  find_disk1 1000;;
  outb 0x1f6 (Z.lor 0xe0 (Z.shiftl 0 4)).

Definition idestart (b : option nat) : M ist unit :=
  match b with
  | None => panic "idestart"
  | Some b =>
      x ← get_buf b;
      if FSSIZE <=? blockno x then panic "incorrect blockno" else
      let sector_per_block := BSIZE / SECTOR_SIZE in
      let sector := s32 (blockno x * sector_per_block) in
      let read_cmd := if sector_per_block =? 1 then IDE_CMD_READ else IDE_CMD_RDMUL in
      let write_cmd := if sector_per_block =? 1 then IDE_CMD_WRITE else IDE_CMD_WRMUL in
      if 7 <? sector_per_block then panic "idestart" else
      idewait 0;;
      outb 0x3f6 0;;
      outb 0x1f2 sector_per_block;;
      outb 0x1f3 (Z.land sector 0xff);;
      outb 0x1f4 (Z.land (Z.shiftr sector 8) 0xff);;
      outb 0x1f5 (Z.land (Z.shiftr sector 16) 0xff);;
      outb 0x1f6 (Z.lor (Z.lor 0xe0 (Z.shiftl (Z.land (bdev x) 1) 4)) (Z.land (Z.shiftr sector 24) 0x0f));;
      if negb (Z.land (flags x) B_DIRTY =? 0) then
        outb 0x1f7 write_cmd;;
        outsl 0x1f0 (data x)
      else outb 0x1f7 read_cmd
  end.

(** The part of ideintr() on the buffer. *)
Definition ide_complete (b : nat) : M ist unit :=
  x ← get_buf b;
  r ← (if Z.land (flags x) B_DIRTY =? 0 then idewait 1 else mret (-1));
  mwhen (0 <=? r) (l ← insl 0x1f0 (Z.to_nat (BSIZE / 4)); alter_buf b (set_data l));;
  alter_buf b (λ x, set_flags (Z.lor (flags x) B_VALID) x);;
  alter_buf b (λ x, set_flags (Z.land (flags x) (Z.lnot B_DIRTY)) x).

Definition ideintr : M ist unit :=
  acquire LIde;;
  q ← load_link Queue;
  match q with
  | None => release LIde
  | Some b =>
      n ← load_link (Qnext b);
      store_link Queue n;;
      ide_complete b;;
      wakeup (ChBuf b);;
      q ← load_link Queue;
      mwhen (negb (bool_decide (q = None))) (idestart q);;
      release LIde
  end.

Definition append_body (pp : link) : M ist (link + link) :=
  p ← load_link pp;
  match p with Some b => mret (inl (Qnext b)) | None => mret (inr pp) end.

Definition iderw_body (b : nat) (_ : unit) : M ist (unit + unit) :=
  x ← get_buf b;
  if Z.land (flags x) (Z.lor B_VALID B_DIRTY) =? B_VALID then mret (inr tt) else
  sleep (ChBuf b) (Some LIde);;
  mret (inl tt).

Definition iderw (b : nat) : M ist unit :=
  h ← holdingsleep (LBuf b);
  if negb h then panic "iderw: buf not locked" else
  x ← get_buf b;
  if Z.land (flags x) (Z.lor B_VALID B_DIRTY) =? B_VALID then panic "iderw: nothing to do" else
  d1 ← gets havedisk1;
  if negb (bdev x =? 0) && (d1 =? 0) then panic "iderw: ide disk 1 not present" else
  acquire LIde;;
  store_link (Qnext b) None;;
  pp ← loop append_body 10 Queue;
  store_link pp (Some b);;
  q ← load_link Queue;
  mwhen (bool_decide (q = Some b)) (idestart (Some b));;
  loop (iderw_body b) 32 tt;;
  release LIde.
End ide.
Arguments ist : clear implicits.

(** ** The disk

    [dk u n] is sector [n] of disk [u].  A controller that is idle, or works on a
    request, becomes ready; it takes the commands of idestart() as requests, hands
    over the sector of a read, and has stored the sector of a write when it
    interrupts. *)
Inductive request := Rd (u n : Z) | Wr (u n : Z) (l : list Z).
Definition disks : Type := Z → Z → list Z.
Definition put_sector (u n : Z) (l : list Z) (dk : disks) : disks := λ u' n', if (u' =? u) && (n' =? n) then l else dk u' n'.

Section laws.
Context {D : Type} `{Bus D}.

Definition ide_command (u n cmd : Z) (d : D) : D :=
  port_out 0x1f7 cmd
    (port_out 0x1f6 (u8 (Z.lor (Z.lor 0xe0 (Z.shiftl u 4)) (Z.land (Z.shiftr n 24) 0x0f)))
    (port_out 0x1f5 (u8 (Z.land (Z.shiftr n 16) 0xff)) (port_out 0x1f4 (u8 (Z.land (Z.shiftr n 8) 0xff))
    (port_out 0x1f3 (u8 (Z.land n 0xff)) (port_out 0x1f2 1 (port_out 0x3f6 0 d)))))).

Record disk_laws (at_dev : D → option request → disks → Prop) : Prop := {
  dl_ready d dk : at_dev d None dk → ∃ k r d', settles k d r d' ∧ Z.of_nat k < 2 ^ 40 ∧ at_dev d' None dk;
  dl_read d dk u n : at_dev d None dk → 0 ≤ u ≤ 1 → 0 ≤ n < FSSIZE →
    at_dev (ide_command u n IDE_CMD_READ d) (Some (Rd u n)) dk;
  dl_write d dk u n l : at_dev d None dk → 0 ≤ u ≤ 1 → 0 ≤ n < FSSIZE → length l = Z.to_nat BSIZE →
    at_dev (port_outs 0x1f0 l (ide_command u n IDE_CMD_WRITE d)) (Some (Wr u n l)) dk;
  dl_data d dk u n : at_dev d (Some (Rd u n)) dk →
    ∃ k r d1 d2, settles k d r d1 ∧ Z.of_nat k < 2 ^ 40 ∧ Z.land r (Z.lor IDE_DF IDE_ERR) = 0 ∧
      port_ins 0x1f0 (Z.to_nat (BSIZE / 4)) d1 = (dk u n, d2) ∧ at_dev d2 None dk;
  dl_written d dk u n l : at_dev d (Some (Wr u n l)) dk → at_dev d None (put_sector u n l dk);
}.
End laws.

(** A buffer as a request, and what the request does. *)
Definition unit_of (x : buf) : Z := Z.land (bdev x) 1.
Definition request_of (x : buf) : request :=
  if Z.land (flags x) B_DIRTY =? 0 then Rd (unit_of x) (blockno x) else Wr (unit_of x) (blockno x) (data x).
Definition finish (dk : disks) (x : buf) : buf :=
  set_flags (Z.land (Z.lor (flags x) B_VALID) (Z.lnot B_DIRTY))
    (if Z.land (flags x) B_DIRTY =? 0 then set_data (dk (unit_of x) (blockno x)) x else x).
Definition transfer (x : buf) (dk : disks) : disks :=
  if Z.land (flags x) B_DIRTY =? 0 then dk else put_sector (unit_of x) (blockno x) (data x) dk.
Definition synced (x : buf) : Prop := Z.land (flags x) (Z.lor B_VALID B_DIRTY) = B_VALID.
Definition request_ok (x : buf) : Prop := ¬ synced x ∧ 0 ≤ blockno x < FSSIZE ∧ length (data x) = Z.to_nat BSIZE.

Lemma finish_synced dk x : synced (finish dk x).
Proof.
  unfold synced, finish. cbn [flags set_flags]. rewrite <- Z.land_assoc. change (Z.land (Z.lnot B_DIRTY) (Z.lor B_VALID B_DIRTY)) with B_VALID.
  rewrite Z.land_comm. apply Z.bits_inj'. intros n _. rewrite Z.land_spec, Z.lor_spec. by destruct (Z.testbit B_VALID n); rewrite ?orb_true_r.
Qed.

Lemma flags_clean f : Z.land f B_DIRTY = 0 → Z.land (Z.lor f B_VALID) (Z.lnot B_DIRTY) = Z.lor f B_VALID.
Proof.
  intros E. apply Z.bits_inj'. intros n Hn. pose proof (f_equal (λ z, Z.testbit z n) E) as En. cbv beta in En.
  rewrite Z.land_spec, Z.bits_0 in En. rewrite Z.land_spec, Z.lnot_spec, Z.lor_spec by done.
  destruct (Z.testbit B_DIRTY n) eqn:Ed; [|by rewrite andb_true_r]. rewrite andb_true_r in En. rewrite En, andb_false_r.
  symmetry. change B_DIRTY with (2 ^ 2) in Ed. change B_VALID with (2 ^ 1). rewrite Z.pow2_bits_eqb in * by lia. apply Z.eqb_eq in Ed. by subst n.
Qed.
Lemma flags_dirty f : Z.lor (Z.land f (Z.lnot B_DIRTY)) B_VALID = Z.land (Z.lor f B_VALID) (Z.lnot B_DIRTY).
Proof. by rewrite Z.land_lor_distr_l. Qed.

(** The queue: the buffers one meets from [p] on. *)
Fixpoint chain (nx : list (option nat)) (p : option nat) (q : list nat) : Prop :=
  match q with [] => p = None | b :: q => p = Some b ∧ (b < length nx)%nat ∧ chain nx (nx !!! b) q end.

Lemma chain_head nx p q : chain nx p q → p = hd_error q.
Proof. by destruct q as [|b q]; [|intros [-> _]]. Qed.
Lemma chain_insert nx p q b v : chain nx p q → b ∉ q → chain (<[b := v]> nx) p q.
Proof.
  revert p. induction q as [|a q IH]; intros p; [done|]. intros (-> & Ha & Hc) Hb%not_elem_of_cons. cbn.
  rewrite length_insert, list_lookup_total_insert_ne by (destruct Hb; done). destruct Hb. auto.
Qed.

Lemma chain_bound nx p q : chain nx p q → Forall (λ b, b < length nx)%nat q.
Proof. revert p. induction q as [|b q IH]; intros p; [constructor|]. intros (_ & Hb & Hc). constructor; [done|by eapply IH]. Qed.
Lemma chain_short nx p q : chain nx p q → NoDup q → (length q ≤ length nx)%nat.
Proof.
  intros Hc Hn. transitivity (length (seq 0 (length nx))); [|by rewrite length_seq]. apply submseteq_length, NoDup_submseteq; [done|].
  intros b Hb. apply elem_of_seq. assert (b < length nx)%nat; [|lia]. exact (proj1 (Forall_forall _ _) (chain_bound _ _ _ Hc) b Hb).
Qed.

(** Where iderw() appends, and the queue afterwards. *)
Definition last_link (q : list nat) : link := match last q with Some b => Qnext b | None => Queue end.

Lemma chain_append nx p q b :
  chain nx p q → b ∉ q → (b < length nx)%nat → nx !!! b = None → NoDup q →
  chain (match last_link q with Qnext a => <[a := Some b]> nx | Queue => nx end)
    (match last_link q with Queue => Some b | _ => p end) (q ++ [b]).
Proof.
  unfold last_link. revert p. induction q as [|a q IH]; intros p; [cbn; by intros -> _ ? ->|].
  intros (-> & Ha & Hc) [Hne Hb]%not_elem_of_cons Hl Hn [Hna Hnd]%NoDup_cons. specialize (IH _ Hc Hb Hl Hn Hnd).
  destruct q as [|a' q].
  - cbn. rewrite length_insert, list_lookup_total_insert_eq by done. split_and!; try done.
    by rewrite list_lookup_total_insert_ne by congruence.
  - assert (last (a :: a' :: q) = last (a' :: q)) as -> by done.
    destruct (last (a' :: q)) as [z|] eqn:El; [|by apply last_None in El].
    assert (z ≠ a) as Hz. { apply last_Some in El as [l El]. intros ->. apply Hna. rewrite El. set_solver. }
    split; [done|]. rewrite length_insert. split; [done|]. rewrite list_lookup_total_insert_ne by done. exact IH.
Qed.

Section proofs.
Context {D : Type} `{Bus D} (at_dev : D → option request → disks → Prop) (HL : disk_laws at_dev).
Implicit Types (s : ist D) (q : list nat) (dk : disks).

Definition icore s : core := kcore (sk (bs (ib s))).
Definition ihart s : hart := chart (icore s).
Definition put_icore (k : core) s : ist D := set_ib (set_bs (set_score k (bs (ib s))) (ib s)) s.
Definition ibuf s (b : nat) : buf := bufs (ib s) !!! b.
Definition idev s : D := mdev (imp s).
Definition put_idev (d : D) s : ist D := set_imp (set_mdev d (imp s)) s.

Lemma get_ibuf b s : get_buf b s = Ok (ibuf s b) s.
Proof using. by destruct s. Qed.

Lemma alter_ibuf b s f g : f (ibuf s b) = g (ibuf s b) → alter f b (bufs (ib s)) = alter g b (bufs (ib s)).
Proof using.
  intros E. apply list_alter_ext; [|done]. intros x Hx. by rewrite <- (list_lookup_total_correct _ _ _ Hx).
Qed.

Lemma idewait_run k r d' checkerr s :
  settles k (idev s) r d' → Z.of_nat k < 2 ^ 40 →
  idewait checkerr s = Ok (if negb (checkerr =? 0) && negb (Z.land r (Z.lor IDE_DF IDE_ERR) =? 0) then -1 else 0) (put_idev d' s).
Proof using.
  intros Hs Hk. unfold idewait.
  assert (loop idewait_body 40 tt s = Ok r (put_idev d' s)) as E.
  { refine (poll_run idewait_body (λ r, r) k (idev s) r d' s _ Hs Hk eq_refl).
    intros s1 v d1 E. unfold idewait_body, inb, mbind, M_bind. rewrite E. cbn [obind].
    change (Z.lor IDE_BSY IDE_DRDY) with 0xC0. change IDE_DRDY with 0x40. by destruct (_ =? _). }
  rewrite (bind_ok _ _ _ _ _ E). by destruct (_ && _).
Qed.

(** idestart() hands the request to an idle disk. *)
Lemma idestart_run b dk s :
  at_dev (idev s) None dk → request_ok (ibuf s b) →
  ∃ d', idestart (Some b) s = Ok tt (put_idev d' s) ∧ at_dev d' (Some (request_of (ibuf s b))) dk.
Proof using HL.
  intros Hd (_ & Hn & Hl). destruct (dl_ready _ HL _ _ Hd) as (k & r & d1 & Hs & Hk & Hd1).
  assert (0 ≤ unit_of (ibuf s b) ≤ 1) as Hu.
  { unfold unit_of. pose proof (Z.land_ones (bdev (ibuf s b)) 1 ltac:(lia)) as E. change (Z.ones 1) with 1 in E. rewrite E.
    pose proof (Z.mod_pos_bound (bdev (ibuf s b)) (2 ^ 1)). lia. }
  unfold idestart. mstep (get_ibuf b s). set (x := ibuf s b) in *.
  rewrite (proj2 (Z.leb_gt FSSIZE _)) by lia.
  change (BSIZE / SECTOR_SIZE) with 1. rewrite Z.mul_1_r. rewrite s32_id by (unfold is_s32, FSSIZE in *; lia).
  cbn [Z.ltb Z.compare Pos.compare Pos.compare_cont Z.eqb Pos.eqb]. 
  rewrite (bind_ok _ _ _ _ _ (idewait_run _ _ _ 0 s Hs Hk)). unfold outb. mred.
  rewrite !view_upd, !upd_upd. unfold request_of.
  destruct (Z.eqb_spec (Z.land (flags x) B_DIRTY) 0); cbn [negb].
  - eexists. split; [reflexivity|]. exact (dl_read _ HL d1 dk _ _ Hd1 Hu Hn).
  - eexists. split; [reflexivity|]. exact (dl_write _ HL d1 dk _ _ _ Hd1 Hu Hn Hl).
Qed.

(** The driver's invariant: the requests [q] are in the queue, and the disk works on
    the first of them. *)
Record pending q dk s : Prop := {
  pd_chain : chain (qnext s) (idequeue s) q;
  pd_nodup : NoDup q;
  pd_bufs : length (qnext s) = S NBUF ∧ length (bufs (ib s)) = S NBUF;
  pd_ok : Forall (λ b, request_ok (ibuf s b)) q;
  pd_dev : at_dev (idev s) ((λ b, request_of (ibuf s b)) <$> hd_error q) dk;
}.

(** What one interrupt does for request [b]. *)
Definition served (b : nat) dk (t : bst) : bst :=
  set_bufs (alter (finish dk) b (bufs t))
    (set_bs (set_score (set_ptable (Core.wake (ChBuf b) <$> ptable (bcore t)) (bcore t)) (bs t)) t).

(** Between operations: interrupts are consistent, and the locks the driver takes
    are free. *)
Record quiet (c : nat) s : Prop := {
  qt_balanced : balanced c (ihart s);
  qt_ide : is_free LIde (ihart s);
  qt_ptable : is_free LPtable (ihart s);
}.

(** The end of the first request, with the lock held. *)
Lemma complete_run b dk s :
  at_dev (idev s) (Some (request_of (ibuf s b))) dk →
  ∃ d', ide_complete b s = Ok tt (put_idev d' (set_ib (set_bufs (alter (finish dk) b (bufs (ib s))) (ib s)) s)) ∧
    at_dev d' None (transfer (ibuf s b) dk).
Proof using HL.
  intros Hd.
  assert (∀ f (t : ist D), alter_buf b f t = Ok tt (set_ib (set_bufs (alter f b (bufs (ib t))) (ib t)) t)) as Ea by (intros f t; reflexivity).
  unfold ide_complete. mstep (get_ibuf b s).
  unfold request_of in Hd. unfold transfer. destruct (Z.eqb_spec (Z.land (flags (ibuf s b)) B_DIRTY) 0) as [E0|E0].
  - destruct (dl_data _ HL _ _ _ _ Hd) as (k & r & d1 & d2 & Hs & Hk & Hr & Ei & Hd2).
    rewrite (bind_ok _ _ _ _ _ (idewait_run _ _ _ 1 s Hs Hk)). rewrite Hr. cbn [Z.eqb negb andb Z.leb Z.compare]. rewrite run_when_true.
    assert ((l ← insl 0x1f0 (Z.to_nat (BSIZE / 4)); alter_buf b (set_data l)) (put_idev d1 s)
      = Ok tt (put_idev d2 (set_ib (set_bufs (alter (set_data (dk (unit_of (ibuf s b)) (blockno (ibuf s b)))) b (bufs (ib s))) (ib s)) s))) as E1.
    { unfold insl, mbind, M_bind. change (view (put_idev d1 s)) with d1. rewrite Ei. cbn [obind]. by rewrite Ea. }
    rewrite (bind_ok _ _ _ _ _ E1), (bind_ok _ _ _ _ _ (Ea _ _)), Ea. exists d2. split; [|done]. f_equal.
    cbn [bufs ib set_ib put_idev set_imp set_bufs]. rewrite !list_alter_alter_eq.
    rewrite (alter_ibuf b s _ (finish dk)); [done|]. unfold finish. by rewrite E0.
  - mred. change (0 <=? -1) with false. mred. rewrite (bind_ok _ _ _ _ _ (Ea _ _)), Ea. exists (idev s). split; [|by apply (dl_written _ HL)].
    f_equal. cbn [bufs ib set_ib set_bufs]. rewrite list_alter_alter_eq. rewrite (alter_ibuf b s _ (finish dk)); [by destruct s as [? []]|].
    unfold finish. by rewrite (proj2 (Z.eqb_neq _ _) E0).
Qed.

Lemma lift_icore {A} (m : M core A) s a k : m (icore s) = Ok a k → lift m s = Ok a (put_icore k s).
Proof using. exact (lift_ok m s a k). Qed.

Lemma served_other a b dk t : a ≠ b → bufs (served b dk t) !!! a = bufs t !!! a.
Proof using. intros. unfold served. cbn [bufs set_bufs]. by rewrite list_lookup_total_alter_ne. Qed.

(** An interrupt ends the first request and starts the next. *)
Lemma ideintr_run c b q dk s :
  quiet c s → pending (b :: q) dk s →
  ∃ d', let s' := Ist (served b dk (ib s)) (set_mdev d' (imp s)) (qnext s) (hd_error q) (havedisk1 s) in
    ideintr s = Ok tt s' ∧ pending q (transfer (ibuf s b) dk) s'.
Proof using HL.
  intros [Hb Hi Hp] [(Hq & Hlb & Hc) [Hnb Hnd]%NoDup_cons Hl [Hob Hok]%Forall_cons_1 Hd].
  unfold ideintr. set (s1 := put_icore (set_chart (acq c LIde (ihart s)) (icore s)) s).
  assert (acquire LIde s = Ok tt s1) as Ea by exact (acquire_ok c LIde s Hb Hi). mstep Ea.
  unfold load_link, store_link. mred. change (idequeue s1) with (idequeue s). rewrite Hq. mred.
  change (qnext s1) with (qnext s). rewrite (chain_head _ _ _ Hc). set (s2 := set_idequeue (hd_error q) s1).
  destruct (complete_run b dk s2 Hd) as (d1 & Ec & Hd1). change (ibuf s2 b) with (ibuf s b) in Hd1. mstep Ec.
  set (s3 := put_idev d1 _). set (s4 := put_icore (set_ptable (Core.wake (ChBuf b) <$> ptable (icore s3)) (icore s3)) s3).
  assert (wakeup (ChBuf b) s3 = Ok tt s4) as Ew.
  { apply (lift_icore (Core.wakeup _) s3). apply (wakeup_core c); cbn; eauto with kernel. }
  mstep Ew. change (idequeue s4) with (hd_error q). set (t := served b dk (ib s)).
  assert (∀ d, release LIde (put_idev d s4) = Ok tt (Ist t (set_mdev d (imp s)) (qnext s) (hd_error q) (havedisk1 s))) as Er.
  { intros d. rewrite (release_ok c LIde (ihart s)); [|reflexivity|done..]. subst t s4 s3 s2 s1.
    destruct s as [[[[[] ?????] ?] ???] [] ???]. reflexivity. }
  assert (∀ a, a ≠ b → ibuf s4 a = ibuf s a) as Hoth by (intros a Ha; exact (served_other a b dk (ib s) Ha)).
  assert (length (qnext s) = S NBUF ∧ length (bufs t) = S NBUF) as Hl' by (cbn; by rewrite length_alter).
  destruct q as [|a q].
  - cbn [hd_error]. mred. exists d1. split; [exact (Er d1)|]. split; [done|by constructor|exact Hl'|by constructor|exact Hd1].
  - destruct (idestart_run a (transfer (ibuf s b) dk) s4 Hd1) as (d2 & Es & Hd2).
    { rewrite Hoth by (intros ->; apply Hnb; left). by apply Forall_cons_1 in Hok as [? _]. }
    exists d2. split; [mred; mstep Es; exact (Er d2)|]. assert (Forall (λ b, request_ok (ibuf s4 b)) (a :: q)) as Hok4.
    { rewrite Forall_forall in Hok |- *. intros z Hz. rewrite Hoth by (intros ->; by apply Hnb). by apply Hok. }
    split; [by rewrite <- (chain_head _ _ _ Hc)|done|exact Hl'|exact Hok4|].
    exact Hd2.
Qed.

(** Serving the requests in order, and the interrupts that do it. *)
Fixpoint serve_all q (t : bst) dk : bst * disks :=
  match q with [] => (t, dk) | b :: q => serve_all q (served b dk t) (transfer (bufs t !!! b) dk) end.
Fixpoint interrupts (n : nat) : M (ist D) unit := match n with O => mret tt | S n => ideintr;; interrupts n end.

Lemma interrupts_run c q : ∀ dk s,
  quiet c s → pending q dk s →
  ∃ s', interrupts (length q) s = Ok tt s' ∧ ib s' = (serve_all q (ib s) dk).1 ∧ pending [] (serve_all q (ib s) dk).2 s'.
Proof using HL.
  induction q as [|b q IH]; intros dk s Hq Hp; [by exists s|].
  destruct (ideintr_run c b q dk s Hq Hp) as (d & E & Hp'). cbn [length interrupts serve_all]. rewrite (bind_ok _ _ _ _ _ E).
  apply IH; [|exact Hp']. destruct Hq. by split.
Qed.

Lemma serve_other q a : ∀ t dk, a ∉ q → bufs (serve_all q t dk).1 !!! a = bufs t !!! a.
Proof using.
  induction q as [|b q IH]; intros t dk; [done|]. intros [Hne Ha]%not_elem_of_cons. cbn [serve_all].
  rewrite IH by done. by apply served_other.
Qed.
Lemma serve_synced q : ∀ t dk, NoDup q → Forall (λ b, b < length (bufs t))%nat q →
  Forall (λ b, synced (bufs (serve_all q t dk).1 !!! b)) q.
Proof using.
  induction q as [|b q IH]; intros t dk; [constructor|]. intros [Hb Hn]%NoDup_cons [Hl Hls]%Forall_cons_1. cbn [serve_all].
  constructor.
  - rewrite serve_other by done. unfold served. cbn [bufs set_bufs]. rewrite list_lookup_total_alter_eq by done. apply finish_synced.
  - apply IH; [done|]. cbn. by rewrite length_alter.
Qed.
Lemma serve_runnable q j : ∀ t dk p, ptable (bcore t) !! j = Some p → state p = RUNNABLE →
  ∃ p', ptable (bcore (serve_all q t dk).1) !! j = Some p' ∧ state p' = RUNNABLE.
Proof using.
  induction q as [|b q IH]; intros t dk p Hj Hp; [by exists p|]. cbn [serve_all].
  apply (IH _ _ (Core.wake (ChBuf b) p)).
  - cbn. by rewrite list_lookup_fmap, Hj.
  - unfold Core.wake. rewrite bool_decide_eq_false_2 by (intros [? _]; congruence). done.
Qed.
Lemma serve_wakes q j p : ∀ t dk,
  ptable (bcore t) !! j = Some p → state p = SLEEPING → chan p ∈ ChBuf <$> q →
  ∃ p', ptable (bcore (serve_all q t dk).1) !! j = Some p' ∧ state p' = RUNNABLE.
Proof using.
  induction q as [|b q IH]; intros t dk Hj Hs Hc; [by apply elem_of_nil in Hc|]. cbn [serve_all].
  assert (ptable (bcore (served b dk t)) !! j = Some (Core.wake (ChBuf b) p)) as Hw by (cbn; by rewrite list_lookup_fmap, Hj).
  unfold Core.wake in Hw. case_bool_decide as Hd.
  - by eapply serve_runnable.
  - apply IH; [done..|]. apply elem_of_cons in Hc as [Hc|Hc]; [|done]. by destruct Hd.
Qed.

(** C10 [refinement]: interrupts serve the queue in order.  With requests [q] queued,
    as many interrupts end all of them, one after the other, as if each transfer were
    made at once in the order of the queue: every buffer is valid and clean, holding
    the sector of the disk or stored in it, no other buffer has changed, the processes
    that waited for them are runnable, and the driver is idle. *)
Theorem ideintr_fifo c q dk s :
  quiet c s → pending q dk s →
  ∃ s', interrupts (length q) s = Ok tt s' ∧ ib s' = (serve_all q (ib s) dk).1 ∧ pending [] (serve_all q (ib s) dk).2 s' ∧
    Forall (λ b, synced (ibuf s' b)) q ∧ (∀ b, b ∉ q → ibuf s' b = ibuf s b) ∧
    ∀ j p, ptable (icore s) !! j = Some p → state p = SLEEPING → chan p ∈ ChBuf <$> q →
      ∃ p', ptable (icore s') !! j = Some p' ∧ state p' = RUNNABLE.
Proof using HL.
  intros Hq Hp. destruct (interrupts_run c q dk s Hq Hp) as (s' & E & Ei & Hp').
  exists s'. unfold ibuf, icore. rewrite Ei. split; [done|]. split; [done|]. split; [done|]. split; [|split].
  - apply serve_synced; [apply Hp|]. destruct Hp as [Hc _ [Hl1 Hl2] _ _]. rewrite Hl2, <- Hl1. by eapply chain_bound.
  - intros b Hb. by apply serve_other.
  - intros j p. apply serve_wakes.
Qed.

(** ** Making a request *)

Lemma append_iter q : ∀ pp s,
  chain (qnext s) (match pp with Queue => idequeue s | Qnext b => qnext s !!! b end) q →
  iter append_body (S (length q)) pp s = Ok (inr (match last q with Some b => Qnext b | None => pp end)) s.
Proof using.
  induction q as [|b q IH]; intros pp s Hc.
  - apply iter_exit. unfold append_body, load_link. mred. by rewrite Hc.
  - destruct Hc as (Hp & _ & Hc). cbn [length]. rewrite (iter_next _ _ _ _ (Qnext b) s).
    + rewrite (IH (Qnext b) s Hc). destruct q as [|a q]; [done|].
      change (last (b :: a :: q)) with (last (a :: q)). by destruct (last (a :: q)) eqn:E; [|apply last_None in E].
    + unfold append_body, load_link. mred. by rewrite Hp.
Qed.

Lemma lift_iswtch {A} (m : M core A) s k r :
  m (icore s) = Swtch k r →
  ∃ r', lift m s = Swtch (put_icore k s) r' ∧ ∀ s2 a k2, r (icore s2) = Ok a k2 → r' s2 = Ok a (put_icore k2 s2).
Proof using.
  intros E. eexists. split.
  - unfold lift, zoom. change (view s) with (icore s). rewrite E. reflexivity.
  - intros s2 a k2 E2. cbn beta. change (view s2) with (icore s2). by rewrite E2.
Qed.

(** Process [i], on CPU [c] with no lock taken, asks for the buffer [b] it has locked. *)
Record requester (c i b : nat) s : Prop := {
  rq_run : running c i (icore s);
  rq_ncli : ncli (cpus (ihart s) !!! c) = 0;
  rq_lock : is_free (LBuf b) (ihart s);
  rq_held : slocked (slock (LBuf b) (bs (ib s))) ≠ 0 ∧ spid (slock (LBuf b) (bs (ib s))) = pid (ptable (icore s) !!! i);
  rq_index : (b < S NBUF)%nat;
  rq_buf : request_ok (ibuf s b);
  rq_disk : bdev (ibuf s b) = 0 ∨ havedisk1 s ≠ 0;
}.

(** The queue after iderw() has appended [b]. *)
Definition enqueue (b : nat) q s : ist D :=
  let s := set_qnext (<[b := None]> (qnext s)) s in
  match last_link q with Queue => set_idequeue (Some b) s | Qnext a => set_qnext (<[a := Some b]> (qnext s)) s end.

(** Waiting for the request: the process sleeps on the buffer, and returns from the
    loop when it runs again and the request has been served. *)
Lemma wait_run c i b s :
  let h := ihart s in
  ∀ h0, h = acq c LIde h0 → balanced c h0 → is_free LIde h0 → is_free LPtable h0 → curproc c h0 = Some i →
  ncli (cpus h0 !!! c) = 0 → (i < length (ptable (icore s)))%nat → ¬ synced (ibuf s b) →
  ∃ R, loop (iderw_body b) 32 tt s =
      Swtch (put_icore (set_ptable (alter (set_state SLEEPING ∘ set_chan (ChBuf b)) i (ptable (icore s)))
                          (set_chart (acq c LPtable h0) (icore s))) s) R ∧
    ∀ c' h' s2, ihart s2 = acq c' LPtable h' → balanced c' h' → is_free LPtable h' → is_free LIde h' →
      ncli (cpus h' !!! c') = 0 → intena (cpus h0 !!! c) = IF h' → synced (ibuf s2 b) →
      R s2 = Ok tt (put_icore (set_ptable (alter (set_chan ChNull) i (ptable (icore s2))) (set_chart (acq c' LIde h') (icore s2))) s2).
Proof using.
  intros h h0 Hh Hb Hi Hp Hc Hn Hl Hx.
  destruct (lift_iswtch _ s _ _ (sleep_core c i LIde (ChBuf b) h0 (icore s) Hh Hb Hi Hp Hc Hn Hl)) as (r & E & Hr).
  assert (iderw_body b tt s = Swtch (put_icore (set_ptable (alter (set_state SLEEPING ∘ set_chan (ChBuf b)) i (ptable (icore s)))
    (set_chart (acq c LPtable h0) (icore s))) s) (λ s', obind (r s') (λ _, mret (inl tt)))) as Eb.
  { unfold iderw_body. mstep (get_ibuf b s). rewrite (proj2 (Z.eqb_neq _ _) Hx). by rewrite (bind_swtch _ _ _ _ _ E). }
  destruct (loop_wait _ 30 tt _ _ _ Eb) as (R & ER & HR). exists R. split; [exact ER|].
  intros c' h' s2 Hh2 Hb2 Hp2 Hi2 Hn2 Hv Hx2.
  pose proof (Hr s2 _ _ (sleep_resume c' i LIde _ h' (icore s2) Hh2 Hb2 Hp2 Hi2 Hn2 Hv)) as E2.
  apply (HR s2 tt (put_icore (set_ptable (alter (set_chan ChNull) i (ptable (icore s2))) (set_chart (acq c' LIde h') (icore s2))) s2)).
  - by rewrite E2.
  - unfold iderw_body. rewrite (bind_ok _ _ _ _ _ (get_ibuf b _)).
    assert (synced (ibuf (put_icore (set_ptable (alter (set_chan ChNull) i (ptable (icore s2))) (set_chart (acq c' LIde h') (icore s2))) s2) b)) as -> by exact Hx2.
    done.
Qed.

Lemma holding_ist c i b s :
  requester c i b s → holdingsleep (LBuf b) s = Ok true s ∧ holdingsleep (LBuf b) (ib s) = Ok true (ib s).
Proof using.
  intros [Hr _ Hf [Hs Hp] _ _ _]. assert (Sl.holdingsleep (LBuf b) (bs (ib s)) = Ok true (bs (ib s))) as E.
  { rewrite (holdingsleep_spec c i _ (bs (ib s)) Hr Hf), (proj2 (Z.eqb_neq _ _) Hs), Hp. by rewrite Z.eqb_refl. }
  split; by apply lift_ok_same.
Qed.

(** The queue after the append, with the first request started. *)
Lemma enqueue_pending b q dk s :
  pending q dk s → b ∉ q → (b < S NBUF)%nat → request_ok (ibuf s b) →
  ∃ d', mwhen (bool_decide (idequeue (enqueue b q s) = Some b)) (idestart (Some b)) (enqueue b q s)
      = Ok tt (put_idev d' (enqueue b q s)) ∧ pending (q ++ [b]) dk (put_idev d' (enqueue b q s)).
Proof using HL.
  intros [Hc Hn [Hl1 Hl2] Hok Hd] Hb Hlb Hx.
  assert (chain (qnext (enqueue b q s)) (idequeue (enqueue b q s)) (q ++ [b])) as Hc'.
  { pose proof (chain_append (<[b := None]> (qnext s)) (idequeue s) q b) as Ha. unfold enqueue, last_link in *.
    destruct (last q) eqn:El; cbn in Ha |- *;
      (apply Ha; [by apply chain_insert|done|rewrite length_insert; lia|by rewrite list_lookup_total_insert_eq by lia|done]). }
  assert (NoDup (q ++ [b])) as Hn' by (apply NoDup_app; split_and!; [done|set_solver|apply NoDup_singleton]).
  assert (∀ d, ib (put_idev d (enqueue b q s)) = ib s ∧ length (qnext (put_idev d (enqueue b q s))) = S NBUF) as Hib.
  { intros d. unfold enqueue, put_idev. destruct (last_link q); cbn; by rewrite ?length_insert. }
  assert (∀ d, Forall (λ z, request_ok (ibuf (put_idev d (enqueue b q s)) z)) (q ++ [b])) as Hok'.
  { intros d. unfold ibuf. rewrite (proj1 (Hib d)). apply Forall_app. split; [done|by constructor]. }
  destruct q as [|a q].
  - assert (at_dev (idev (enqueue b [] s)) None dk) as Hd' by exact Hd.
    destruct (idestart_run b dk (enqueue b [] s) Hd' Hx) as (d' & E & Hd2). exists d'. split.
    + rewrite bool_decide_eq_true_2 by done. exact E.
    + split; [done..|split; [apply Hib|by rewrite (proj1 (Hib d'))]|apply Hok'|exact Hd2].
  - exists (idev s). assert (put_idev (idev s) (enqueue b (a :: q) s) = enqueue b (a :: q) s) as Eq.
    { unfold enqueue, put_idev, idev. destruct s as [? [] ???]. by destruct (last_link (a :: q)). }
    assert (idequeue (enqueue b (a :: q) s) = Some a) as Eh by (destruct Hc' as [-> _]; done).
    split; [rewrite Eq; rewrite Eh, bool_decide_eq_false_2; [done|]; intros [= ->]; apply Hb; left|].
    split; [by rewrite Eq|done|split; [apply Hib|by rewrite (proj1 (Hib (idev s)))]|apply Hok'|].
    unfold ibuf. rewrite (proj1 (Hib (idev s))). exact Hd.
Qed.

Lemma pending_put_icore q dk k s : pending q dk s → pending q dk (put_icore k s).
Proof using. intros []. by split. Qed.

(** iderw() appends the request and sleeps; it returns when it runs again and the
    request has been served. *)
Lemma iderw_run c i b q dk s :
  quiet c s → requester c i b s → pending q dk s → b ∉ q →
  ∃ d' R, let s1 := put_icore (set_ptable (alter (set_state SLEEPING ∘ set_chan (ChBuf b)) i (ptable (icore s)))
                                 (set_chart (acq c LPtable (ihart s)) (icore s))) (put_idev d' (enqueue b q s)) in
    iderw b s = Swtch s1 R ∧ pending (q ++ [b]) dk s1 ∧
    ∀ c' h' s2, ihart s2 = acq c' LPtable h' → balanced c' h' → is_free LPtable h' → is_free LIde h' →
      ncli (cpus h' !!! c') = 0 → intena (cpus (ihart s) !!! c) = IF h' → synced (ibuf s2 b) →
      R s2 = Ok tt (put_icore (set_ptable (alter (set_chan ChNull) i (ptable (icore s2))) (set_chart h' (icore s2))) s2).
Proof using HL.
  intros [Hb Hi Hp] Hr Hpd Hnb. pose proof Hr as [[_ Hcur Hslot] Hncli _ _ Hidx Hx Hdisk].
  set (s1 := put_icore (set_chart (acq c LIde (ihart s)) (icore s)) s).
  assert (acquire LIde s = Ok tt s1) as Ea by exact (acquire_ok c LIde s Hb Hi).
  destruct (enqueue_pending b q dk s1 (pending_put_icore _ _ _ _ Hpd) Hnb Hidx Hx) as (d' & Es & Hpd').
  set (s2 := put_idev d' (enqueue b q s1)) in *. set (s2' := put_idev d' (enqueue b q s)).
  assert (∀ k, put_icore k s2 = put_icore k s2') as Hput.
  { intros k. subst s2 s2' s1. unfold enqueue. destruct s as [[[[] ?] ???] ????]. by destruct (last_link q). }
  assert (icore s2 = icore s1 ∧ ibuf s2 b = ibuf s b) as [Hk Hb2] by (unfold s2, enqueue; by destruct (last_link q)).
  destruct (wait_run c i b s2 (ihart s)) as (R & ER & HR); try done.
  { unfold ihart at 1. by rewrite Hk. }
  { by rewrite Hk. }
  { rewrite Hb2. apply Hx. }
  exists d'. eexists. split; [|split].
  - unfold iderw. mstep (proj1 (holding_ist c i b s Hr)). cbn [negb]. mstep (get_ibuf b s). destruct Hx as [Hx _]. rewrite (proj2 (Z.eqb_neq _ _) Hx). mred.
    assert (negb (bdev (ibuf s b) =? 0) && (havedisk1 s =? 0) = false) as ->.
    { destruct Hdisk as [-> |Hd]; [done|]. by rewrite (proj2 (Z.eqb_neq _ _) Hd), andb_false_r. }
    mstep Ea. unfold store_link, load_link. mred. set (s0 := set_qnext (<[b := None]> (qnext s1)) s1).
    assert (loop append_body 10 Queue s0 = Ok (last_link q) s0) as El.
    { destruct Hpd as [Hc Hn [Hl _] _ _]. eapply (loop_iter _ 10); [apply append_iter; by apply chain_insert|].
      pose proof (chain_short _ _ _ Hc Hn). change (2 ^ Z.of_nat 10) with 1024. unfold NBUF in *. lia. }
    mstep El. mred.
    change (match last_link q with Queue => set_idequeue (Some b) s0 | Qnext a => set_qnext (<[a := Some b]> (qnext s0)) s0 end) with (enqueue b q s1).
    mstep Es. rewrite (bind_swtch _ _ _ _ _ ER). rewrite Hk, Hput. reflexivity.
  - fold s2'. rewrite <- Hput. by apply pending_put_icore.
  - intros c' h' s3 Hh3 Hb3 Hp3 Hi3 Hn3 Hv Hx3. cbn beta. rewrite (HR c' h' s3 Hh3 Hb3 Hp3 Hi3 Hn3 Hv Hx3). cbn [obind].
    rewrite (release_ok c' LIde h'); [by destruct s3 as [[[[] ?] ???] ????]|reflexivity|done..].
Qed.

(** memide.c's iderw() on the same buffer. *)
Lemma memide_run c i b dk s :
  requester c i b s → bdev (ibuf s b) = 1 → blockno (ibuf s b) < Z.of_nat (length (disk (ib s))) →
  (∀ n, 0 ≤ n < Z.of_nat (length (disk (ib s))) → dk 1 n = disk (ib s) !!! Z.to_nat n) →
  ∃ t, Bc.iderw b (ib s) = Ok tt t ∧ bufs t = alter (finish dk) b (bufs (ib s)) ∧
    ∀ n, 0 ≤ n < Z.of_nat (length (disk t)) → transfer (ibuf s b) dk 1 n = disk t !!! Z.to_nat n.
Proof using.
  intros Hr Hdev Hlen Hdk. destruct (rq_buf _ _ _ _ Hr) as (Hx & Hn & _).
  unfold Bc.iderw, Bc.get_buf, Bc.alter_buf. mstep (proj2 (holding_ist c i b s Hr)). cbn [negb]. mred. fold (ibuf s b).
  rewrite (proj2 (Z.eqb_neq _ _) Hx). mred. rewrite Hdev. cbn [Z.eqb Pos.eqb negb]. mred. rewrite (proj2 (Z.leb_gt _ _) Hlen).
  assert (unit_of (ibuf s b) = 1) as Hu by (unfold unit_of; by rewrite Hdev).
  unfold transfer. destruct (Z.eqb_spec (Z.land (flags (ibuf s b)) B_DIRTY) 0) as [E0|E0]; cbn [negb]; mred.
  - eexists. split; [reflexivity|]. cbn [bufs set_bufs disk]. split; [|exact Hdk].
    rewrite list_alter_alter_eq. apply alter_ibuf. unfold finish. rewrite E0. cbn [Z.eqb flags set_flags set_data compose].
    by rewrite flags_clean, Hu, Hdk by (done || lia).
  - eexists. split; [reflexivity|]. cbn [bufs set_bufs disk set_disk set_writes]. split.
    + rewrite list_alter_alter_eq. apply alter_ibuf. unfold finish. rewrite (proj2 (Z.eqb_neq _ _) E0). cbn [flags set_flags compose].
      by rewrite flags_dirty.
    + intros n Hn'. unfold put_sector. rewrite Hu. rewrite length_insert in Hn'. destruct (Z.eqb_spec n (blockno (ibuf s b))) as [->|Hne]; cbn [andb Z.eqb Pos.eqb].
      * by rewrite list_lookup_total_insert_eq by lia.
      * rewrite list_lookup_total_insert_ne by lia. by apply Hdk.
Qed.

(** The driver's part of a state. *)
Definition same_driver s s' : Prop :=
  bufs (ib s') = bufs (ib s) ∧ imp s' = imp s ∧ qnext s' = qnext s ∧ idequeue s' = idequeue s.

Lemma pending_same q dk s s' : same_driver s s' → pending q dk s → pending q dk s'.
Proof using. intros (Hb & Hm & Hq & Hi) []. split; unfold ibuf, idev in *; rewrite ?Hb, ?Hm, ?Hq, ?Hi; done. Qed.

(** C9 [refinement]: a request to the driver ends as memide.c's does.  On an idle
    disk whose sectors are the blocks of memide.c's disk, iderw() puts the process to
    sleep; whatever other CPUs do to the rest of the kernel, the disk's interrupt makes
    the process runnable again, and when it runs, on any CPU, iderw() returns with the
    buffers, and the disk, exactly as memide.c's iderw() leaves them. *)
Theorem iderw_memide c i b dk s :
  quiet c s → requester c i b s → pending [] dk s →
  bdev (ibuf s b) = 1 → blockno (ibuf s b) < Z.of_nat (length (disk (ib s))) →
  (∀ n, 0 ≤ n < Z.of_nat (length (disk (ib s))) → dk 1 n = disk (ib s) !!! Z.to_nat n) →
  ∃ s1 R t, iderw b s = Swtch s1 R ∧ state (ptable (icore s1) !!! i) = SLEEPING ∧ Bc.iderw b (ib s) = Ok tt t ∧
  ∀ c2 s2, quiet c2 s2 → same_driver s1 s2 → ptable (icore s2) !! i = ptable (icore s1) !! i →
    ∃ s3 dk', ideintr s2 = Ok tt s3 ∧ state (ptable (icore s3) !!! i) = RUNNABLE ∧ pending [] dk' s3 ∧
      (∀ n, 0 ≤ n < Z.of_nat (length (disk t)) → dk' 1 n = disk t !!! Z.to_nat n) ∧
    ∀ c' h' s4, same_driver s3 s4 → ihart s4 = acq c' LPtable h' → balanced c' h' → is_free LPtable h' → is_free LIde h' →
      ncli (cpus h' !!! c') = 0 → intena (cpus (ihart s) !!! c) = IF h' →
      ∃ s5, R s4 = Ok tt s5 ∧ bufs (ib s5) = bufs t ∧ pending [] dk' s5.
Proof using HL.
  intros Hq Hr Hpd Hdev Hlen Hdk.
  destruct (iderw_run c i b [] dk s Hq Hr Hpd) as (d' & R & E & Hpd1 & HR); [by apply not_elem_of_nil|].
  destruct (memide_run c i b dk s Hr Hdev Hlen Hdk) as (t & Et & Hbt & Hdkt). destruct Hr as [[_ _ Hslot] _ _ _ Hidx Hx _].
  set (s1 := put_icore _ _) in *. exists s1, R, t. split; [done|].
  assert (∃ p, ptable (icore s1) !! i = Some p ∧ state p = SLEEPING ∧ chan p = ChBuf b) as (p & Hp & Hps & Hpc).
  { apply lookup_lt_is_Some in Hslot as [p Hp]. exists ((set_state SLEEPING ∘ set_chan (ChBuf b)) p). split; [|done].
    change (alter (set_state SLEEPING ∘ set_chan (ChBuf b)) i (ptable (icore s)) !! i = Some ((set_state SLEEPING ∘ set_chan (ChBuf b)) p)).
    by rewrite list_lookup_alter_eq, Hp. }
  split; [by rewrite (list_lookup_total_correct _ _ _ Hp)|]. split; [done|].
  intros c2 s2 Hq2 Hsame Hpt. pose proof (pending_same _ _ _ _ Hsame Hpd1) as Hpd2.
  destruct (ideintr_run c2 b [] dk s2 Hq2 Hpd2) as (d3 & E3 & Hpd3). set (s3 := Ist _ _ _ _ _) in *.
  assert (ibuf s2 b = ibuf s b) as Hb2 by (unfold ibuf; by rewrite (proj1 Hsame)). rewrite Hb2 in Hpd3.
  exists s3, (transfer (ibuf s b) dk). split; [done|]. split; [|split; [done|split; [done|]]].
  - rewrite Hp in Hpt. assert (ptable (icore s3) !! i = Some (Core.wake (ChBuf b) p)) as Hw.
    { change ((Core.wake (ChBuf b) <$> ptable (icore s2)) !! i = Some (Core.wake (ChBuf b) p)). by rewrite list_lookup_fmap, Hpt. }
    rewrite (list_lookup_total_correct _ _ _ Hw). unfold Core.wake. by rewrite bool_decide_eq_true_2.
  - assert (bufs (ib s3) = bufs t) as Hb3. { rewrite Hbt. cbn. by rewrite (proj1 Hsame). }
    intros c' h' s4 Hs4 Hh Hb4 Hf Hi Hn Hv. eexists. split; [apply (HR c' h'); try done|].
    + unfold ibuf. rewrite (proj1 Hs4), Hb3, Hbt. rewrite list_lookup_total_alter_eq; [apply finish_synced|].
      destruct Hpd as [_ _ [_ ->] _ _]. exact Hidx.
    + split; [cbn; by rewrite (proj1 Hs4)|]. apply pending_put_icore. by apply (pending_same _ _ s3).
Qed.
End proofs.

(** ** A controller

    The registers hold the last values written; a command that follows a write
    stores that write's sector first. *)
Record controller := Controller { ct_regs : Z → Z; ct_req : option request; ct_disk : disks }.
Definition ct_settled (d : controller) : disks :=
  match ct_req d with Some (Wr u n l) => put_sector u n l (ct_disk d) | _ => ct_disk d end.
Definition ct_unit (r : Z → Z) : Z := r 0x1f6 / 16 mod 2.
Definition ct_sector (r : Z → Z) : Z := r 0x1f3 + r 0x1f4 * 2 ^ 8 + r 0x1f5 * 2 ^ 16 + r 0x1f6 mod 16 * 2 ^ 24.
Definition ct_out (p v : Z) (d : controller) : controller :=
  if p =? 0x1f7 then
    let u := ct_unit (ct_regs d) in let n := ct_sector (ct_regs d) in
    Controller (ct_regs d) (Some (if v =? IDE_CMD_READ then Rd u n else Wr u n [])) (ct_settled d)
  else Controller (λ q, if q =? p then v else ct_regs d q) (ct_req d) (ct_disk d).

#[global] Instance controller_bus : Bus controller := {|
  port_in _ d := (0x40, d);
  port_out := ct_out;
  port_ins _ _ d := match ct_req d with Some (Rd u n) => (ct_disk d u n, Controller (ct_regs d) None (ct_disk d)) | _ => ([], d) end;
  port_outs _ l d :=
    match ct_req d with Some (Wr u n _) => Controller (ct_regs d) (Some (Wr u n l)) (ct_disk d) | _ => d end;
  reg_read _ d := (0, d);
  reg_write _ _ d := d;
|}.

Definition ct_at (d : controller) (r : option request) (dk : disks) : Prop :=
  match r with None => (¬ ∃ u n, ct_req d = Some (Rd u n)) ∧ ct_settled d = dk | Some r => ct_req d = Some r ∧ ct_disk d = dk end.

(** The registers that a command for sector [n] of disk [u] leaves. *)
Definition command_regs (u n : Z) (q : Z) : Z :=
  if q =? 0x1f6 then u8 (Z.lor (Z.lor 0xe0 (Z.shiftl u 4)) (Z.land (Z.shiftr n 24) 0x0f))
  else if q =? 0x1f5 then u8 (Z.land (Z.shiftr n 16) 0xff)
  else if q =? 0x1f4 then u8 (Z.land (Z.shiftr n 8) 0xff)
  else if q =? 0x1f3 then u8 (Z.land n 0xff) else 0.

Lemma command_regs_ok u n : 0 ≤ u ≤ 1 → 0 ≤ n < FSSIZE → ct_unit (command_regs u n) = u ∧ ct_sector (command_regs u n) = n.
Proof.
  intros Hu Hn. assert (Forall (λ n, Forall (λ u, ct_unit (command_regs u n) = u ∧ ct_sector (command_regs u n) = n) (seqZ 0 2)) (seqZ 0 FSSIZE)) as Hf.
  { refine (bool_decide_eq_true_1 _ _). vm_compute. reflexivity. }
  assert (n ∈ seqZ 0 FSSIZE ∧ u ∈ seqZ 0 2) as [Hn' Hu'] by (rewrite !elem_of_seqZ; lia).
  exact (proj1 (Forall_forall _ _) (proj1 (Forall_forall _ _) Hf n Hn') u Hu').
Qed.

Lemma ct_out_regs p v d q : p ≠ 0x1f7 → ct_regs (ct_out p v d) q = if q =? p then v else ct_regs d q.
Proof. intros Hp. unfold ct_out. by rewrite (proj2 (Z.eqb_neq _ _) Hp). Qed.
Lemma ct_out_settled p v d : p ≠ 0x1f7 → ct_settled (ct_out p v d) = ct_settled d.
Proof. intros Hp. unfold ct_out. by rewrite (proj2 (Z.eqb_neq _ _) Hp). Qed.
Lemma ct_out_command v d :
  ct_out 0x1f7 v d = Controller (ct_regs d)
    (Some (if v =? IDE_CMD_READ then Rd (ct_unit (ct_regs d)) (ct_sector (ct_regs d)) else Wr (ct_unit (ct_regs d)) (ct_sector (ct_regs d)) []))
    (ct_settled d).
Proof. done. Qed.

Lemma command_run u n cmd d :
  0 ≤ u ≤ 1 → 0 ≤ n < FSSIZE →
  ∃ r, ide_command u n cmd d = Controller r (Some (if cmd =? IDE_CMD_READ then Rd u n else Wr u n [])) (ct_settled d).
Proof.
  intros Hu Hn. destruct (command_regs_ok u n Hu Hn) as [E1 E2]. unfold ide_command. cbn [port_out controller_bus].
  rewrite ct_out_command, !ct_out_settled by done. eexists. unfold ct_unit, ct_sector in *. rewrite !ct_out_regs by done.
  unfold command_regs in E1, E2. cbn [Z.eqb Pos.eqb] in *. rewrite E1, E2. reflexivity.
Qed.

Lemma controller_laws : disk_laws ct_at.
Proof.
  split.
  - intros d dk Hd. exists 0%nat, 0x40, d. split; [by apply (settle_now d 0x40)|done].
  - intros d dk u n [_ Hd] Hu Hn. destruct (command_run u n IDE_CMD_READ d Hu Hn) as [r ->]. done.
  - intros d dk u n l [_ Hd] Hu Hn _. destruct (command_run u n IDE_CMD_WRITE d Hu Hn) as [r ->]. done.
  - intros d dk u n [E <-]. exists 0%nat, 0x40, d. eexists. split; [by apply (settle_now d 0x40)|].
    cbn [port_ins controller_bus]. rewrite E. split; [done|]. split; [done|]. split; [reflexivity|].
    split; [by intros (? & ? & ?)|done].
  - intros d dk u n l [E <-]. unfold ct_at, ct_settled. rewrite E. split; [by intros (? & ? & ?)|done].
Qed.

(** Process 0 has locked buffer 0, of block 40 of disk 1, and buffer 1, to be written
    to block 41; the blocks are full of their numbers. *)
Definition ide_disk (u n : Z) : list Z := replicate (Z.to_nat BSIZE) (u8 n).
Definition ide_bst : bst :=
  let t := bst0 in
  set_disk ((λ n, ide_disk 1 (Z.of_nat n)) <$> seq 0 50)
    (set_bufs (<[0%nat := Buf 0 1 40 1 0 0 (replicate (Z.to_nat BSIZE) 0)]> (<[1%nat := Buf 6 1 41 1 0 0 (replicate (Z.to_nat BSIZE) 7)]> (bufs t)))
      (set_bs (set_slock (LBuf 0) (Sleeplock 1 1) (bs t)) t)).
Definition ide0 : ist controller :=
  Ist ide_bst (Mpst (λ _, 0) (replicate 8 0) 2 0 0 (Controller (λ _, 0) None ide_disk)) (replicate (S NBUF) None) None 1.
#[global] Strategy 100 [ide_bst ide0].

Lemma ide0_quiet m nx p v : quiet 1 (Ist ide_bst m nx p v : ist controller).
Proof.
  split; [|by vm_compute..]. destruct (bi_run _ _ _ _ bst0_inv) as [Hb _ _]. exact Hb.
Qed.
Lemma ide0_ok b : b ∈ [0; 1]%nat → request_ok (bufs ide_bst !!! b).
Proof.
  intros Hb. assert (Forall (λ b, Z.land (flags (bufs ide_bst !!! b)) 6 ≠ 2 ∧ (0 ≤ blockno (bufs ide_bst !!! b) ∧ blockno (bufs ide_bst !!! b) < 1000) ∧
    length (data (bufs ide_bst !!! b)) = 512%nat) [0; 1]%nat) as Hf.
  { refine (bool_decide_eq_true_1 _ _). vm_compute. reflexivity. }
  exact (proj1 (Forall_forall _ _) Hf b Hb).
Qed.

Lemma ide0_requester : requester 1 0 0 ide0.
Proof.
  pose proof (bi_run _ _ _ _ bst0_inv) as Hrun.
  split; [split; apply Hrun|vm_compute; reflexivity|vm_compute; reflexivity|vm_compute; split; [discriminate|reflexivity]
         |unfold NBUF; lia|apply ide0_ok; by left|right; discriminate].
Qed.
Lemma ide0_pending : pending ct_at [] ide_disk ide0.
Proof.
  split; [reflexivity|constructor|split; vm_compute; reflexivity|constructor|].
  split; [intros (? & ? & E); discriminate E|reflexivity].
Qed.
Lemma ide0_agrees n : 0 ≤ n < Z.of_nat (length (disk (ib ide0))) → ide_disk 1 n = disk (ib ide0) !!! Z.to_nat n.
Proof.
  intros Hn. change (length (disk (ib ide0))) with 50%nat in Hn. change (disk (ib ide0)) with ((λ n, ide_disk 1 (Z.of_nat n)) <$> seq 0 50).
  symmetry. apply list_lookup_total_correct. rewrite list_lookup_fmap, lookup_seq_lt by lia. cbn. do 2 f_equal. lia.
Qed.

Lemma iderw_memide_witness :
  ∃ s1 R s2 s3 s4 s5 t, iderw 0 ide0 = Swtch s1 R ∧ ideintr s2 = Ok tt s3 ∧ R s4 = Ok tt s5 ∧
    Bc.iderw 0 (ib ide0) = Ok tt t ∧ bufs (ib s5) = bufs t.
Proof.
  destruct (iderw_memide ct_at controller_laws 1 0 0 ide_disk ide0 (ide0_quiet _ _ _ _) ide0_requester ide0_pending)
    as (s1 & R & t & E1 & _ & Et & H2); [vm_compute; reflexivity|vm_compute; reflexivity|exact ide0_agrees|].
  destruct (ide0_quiet (imp ide0) (qnext ide0) (idequeue ide0) (havedisk1 ide0)) as [Hb Hi Hp].
  destruct (H2 1%nat (put_icore (set_chart (ihart ide0) (icore s1)) s1)) as (s3 & dk' & E3 & _ & _ & _ & H4).
  - split; [exact Hb|exact Hi|exact Hp].
  - split_and!; reflexivity.
  - reflexivity.
  - destruct (H4 1%nat (ihart ide0) (put_icore (set_chart (acq 1 LPtable (ihart ide0)) (icore s3)) s3)) as (s5 & E5 & Eb & _);
      [split_and!; reflexivity|reflexivity|exact Hb|exact Hp|exact Hi|vm_compute; reflexivity|vm_compute; reflexivity|].
    exists s1, R, (put_icore (set_chart (ihart ide0) (icore s1)) s1), s3, (put_icore (set_chart (acq 1 LPtable (ihart ide0)) (icore s3)) s3), s5, t.
    split; [exact E1|]. split; [exact E3|]. split; [exact E5|]. split; [exact Et|exact Eb].
Defined.

(** The disk reads buffer 0, and buffer 1 waits in the queue. *)
Definition ide1 : ist controller :=
  Ist ide_bst (Mpst (λ _, 0) (replicate 8 0) 2 0 0 (Controller (λ _, 0) (Some (Rd 1 40)) ide_disk))
    (<[0%nat := Some 1%nat]> (replicate (S NBUF) None)) (Some 0%nat) 1.

Lemma ide1_pending : pending ct_at [0; 1]%nat ide_disk ide1.
Proof.
  split.
  - split; [reflexivity|]. split; [vm_compute; lia|]. split; [reflexivity|]. split; [vm_compute; lia|]. reflexivity.
  - refine (bool_decide_eq_true_1 _ _); reflexivity.
  - split; vm_compute; reflexivity.
  - constructor; [apply ide0_ok; left|constructor; [apply ide0_ok; right; left|constructor]].
  - split; [vm_compute; reflexivity|reflexivity].
Qed.

Lemma ideintr_fifo_witness :
  ∃ s', interrupts 2 ide1 = Ok tt s' ∧ synced (ibuf s' 0) ∧ synced (ibuf s' 1) ∧ data (ibuf s' 0) = ide_disk 1 40.
Proof.
  destruct (ideintr_fifo ct_at controller_laws 1 [0; 1]%nat ide_disk ide1) as (s' & E & Ei & _ & Hs & _).
  - apply ide0_quiet.
  - exact ide1_pending.
  - exists s'. apply Forall_cons_1 in Hs as [H0 [H1 _]%Forall_cons_1]. split; [exact E|]. split; [exact H0|]. split; [exact H1|].
    unfold ibuf. rewrite Ei. vm_compute. reflexivity.
Defined.
