(* ===== verification/Fs.v ===== *)
(** * The file system: fs.c

    Inodes, files, directories and path names, over the log and the buffer cache.
    A [struct inode *] is the index of its slot in the inode cache.  The structures
    on disk are read from and written to the bytes of their blocks.  Buffers that
    the C code passes by address are lists of bytes: readi() returns what it stores
    at [dst].  A C string is the list of its characters; a character array is the
    list of its bytes. *)

From S2P Require Import Prelude Machine Proc CString Kalloc Sleeplock Bio Log Kbd Console.
Open Scope kernel_scope.

(** ** fs.h, file.h, param.h, stat.h *)

Definition ROOTINO : Z := 1.
Definition ROOTDEV : Z := 1.
Definition NINODE : nat := 50.
Definition NDEV : nat := 10.
Definition CONSOLE : nat := 1.
Definition NDIRECT : nat := 12.
Definition NINDIRECT : nat := 128.
Definition MAXFILE : Z := Z.of_nat NDIRECT + Z.of_nat NINDIRECT.
Definition IPB : Z := 8.
Definition BPB : Z := BSIZE * 8.
Definition DIRSIZ : nat := 14.
Definition DIRENT_SIZE : Z := 16.
Definition T_DIR : Z := 1.
Definition T_FILE : Z := 2.
Definition T_DEV : Z := 3.

Definition IBLOCK (i : Z) (sb : superblock) : Z := u32 (i / IPB + sb_inodestart sb).
Definition BBLOCK (b : Z) (sb : superblock) : Z := u32 (b / BPB + sb_bmapstart sb).

(** struct dinode; in a block, 64 bytes. *)
Record dinode := Dinode { d_type : Z; d_major : Z; d_minor : Z; d_nlink : Z; d_size : Z; d_addrs : list Z }.

Definition get_half (d : block) (k : nat) : Z := s16 (d !!! (2 * k)%nat + d !!! (2 * k + 1)%nat * 2 ^ 8).
Definition set_half (k : nat) (v : Z) (d : block) : block :=
  <[(2 * k + 1)%nat := u8 (Z.shiftr v 8)]> (<[(2 * k)%nat := u8 v]> d).

(** The [k]th inode of a block: its words start at [16 k]. *)
Definition get_dinode (d : block) (k : nat) : dinode :=
  Dinode (get_half d (32 * k)) (get_half d (32 * k + 1)) (get_half d (32 * k + 2)) (get_half d (32 * k + 3))
    (get_word d (16 * k + 2)) ((λ j, get_word d (16 * k + 3 + j)) <$> seq 0 (S NDIRECT)).

Fixpoint set_words (k : nat) (l : list Z) (d : block) : block :=
  match l with [] => d | v :: l => set_words (S k) l (set_word k v d) end.

Definition set_dinode (k : nat) (x : dinode) (d : block) : block :=
  set_words (16 * k + 3) (d_addrs x)
    (set_word (16 * k + 2) (d_size x)
      (set_half (32 * k + 3) (d_nlink x) (set_half (32 * k + 2) (d_minor x)
        (set_half (32 * k + 1) (d_major x) (set_half (32 * k) (d_type x) d))))).

(** In-memory inodes; the sleep lock of slot [i] is [LInode i]. *)
Record inode := Inode {
  idev : Z; inum : Z; iref : Z; valid : Z;
  itype : Z; major : Z; minor : Z; nlink : Z; isize : Z; addrs : list Z
}.
Definition set_idev (v : Z) (x : inode) : inode :=
  Inode v (inum x) (iref x) (valid x) (itype x) (major x) (minor x) (nlink x) (isize x) (addrs x).
Definition set_inum (v : Z) (x : inode) : inode :=
  Inode (idev x) v (iref x) (valid x) (itype x) (major x) (minor x) (nlink x) (isize x) (addrs x).
Definition set_iref (v : Z) (x : inode) : inode :=
  Inode (idev x) (inum x) v (valid x) (itype x) (major x) (minor x) (nlink x) (isize x) (addrs x).
Definition set_valid (v : Z) (x : inode) : inode :=
  Inode (idev x) (inum x) (iref x) v (itype x) (major x) (minor x) (nlink x) (isize x) (addrs x).
Definition set_itype (v : Z) (x : inode) : inode :=
  Inode (idev x) (inum x) (iref x) (valid x) v (major x) (minor x) (nlink x) (isize x) (addrs x).
Definition set_major (v : Z) (x : inode) : inode :=
  Inode (idev x) (inum x) (iref x) (valid x) (itype x) v (minor x) (nlink x) (isize x) (addrs x).
Definition set_minor (v : Z) (x : inode) : inode :=
  Inode (idev x) (inum x) (iref x) (valid x) (itype x) (major x) v (nlink x) (isize x) (addrs x).
Definition set_nlink (v : Z) (x : inode) : inode :=
  Inode (idev x) (inum x) (iref x) (valid x) (itype x) (major x) (minor x) v (isize x) (addrs x).
Definition set_isize (v : Z) (x : inode) : inode :=
  Inode (idev x) (inum x) (iref x) (valid x) (itype x) (major x) (minor x) (nlink x) v (addrs x).
Definition set_addrs (v : list Z) (x : inode) : inode :=
  Inode (idev x) (inum x) (iref x) (valid x) (itype x) (major x) (minor x) (nlink x) (isize x) v.

Definition inode0 : inode := Inode 0 0 0 0 0 0 0 0 0 (replicate (S NDIRECT) 0).
#[global] Instance inode_inhabited : Inhabited inode := populate inode0.

(** The part of an inode that is on disk. *)
Definition to_dinode (x : inode) : dinode :=
  Dinode (itype x) (major x) (minor x) (nlink x) (isize x) (addrs x).
Definition of_dinode (d : dinode) (x : inode) : inode :=
  Inode (idev x) (inum x) (iref x) (valid x) (d_type d) (d_major d) (d_minor d) (d_nlink d) (d_size d) (d_addrs d).

(** The device functions: console.c is the only device. *)
Inductive device := ConsoleDev.

Record fsst := Fsst { fc : cst; sb : superblock; inodes : list inode; devsw : list (option device) }.
Definition set_fc (v : cst) (s : fsst) : fsst := Fsst v (sb s) (inodes s) (devsw s).
Definition set_sb (v : superblock) (s : fsst) : fsst := Fsst (fc s) v (inodes s) (devsw s).
Definition set_inodes (v : list inode) (s : fsst) : fsst := Fsst (fc s) (sb s) v (devsw s).
Definition set_devsw (v : list (option device)) (s : fsst) : fsst := Fsst (fc s) (sb s) (inodes s) v.

#[global] Instance lens_cst S `{Lens S fsst} : Lens S cst.
Proof.
  refine {| view s := fc (view s); upd k s := upd (set_fc k (view s)) s |}.
  - intros. by rewrite view_upd.
  - intros s. assert (∀ x, set_fc (fc x) x = x) as -> by (by intros []). apply upd_view.
  - intros. by rewrite view_upd, upd_upd.
Defined.

(** ** Strings *)

(** strncmp() on strings given by their bytes. *)
Fixpoint strncmp (n : nat) (p q : list Z) : Z :=
  match n with
  | O => 0
  | S n => let a := hd 0 p in let b := hd 0 q in
           if negb (a =? 0) && (a =? b) then strncmp n (tail p) (tail q) else a - b
  end.

(** The [n] bytes strncpy() stores. *)
Fixpoint strncpy (n : nat) (t : list Z) : list Z :=
  match n with
  | O => []
  | S n' => let v := hd 0 t in if v =? 0 then replicate n 0 else v :: strncpy n' (tail t)
  end.

Definition namecmp (s t : list Z) : Z := strncmp DIRSIZ s t.

Fixpoint skip_slashes (path : list Z) : list Z :=
  match path with
  | c :: path' => if c =? 47 then skip_slashes path' else path
  | [] => []
  end.

(** The element at the start of the path, and what follows it. *)
Fixpoint path_elem (path : list Z) : list Z * list Z :=
  match path with
  | c :: path' => if c =? 47 then ([], path) else let '(e, r) := path_elem path' in (c :: e, r)
  | [] => ([], [])
  end.

(** [name] is the array the element is copied to; the rest of the path and the new
    contents of the array. *)
Definition skipelem (path name : list Z) : option (list Z * list Z) :=
  match skip_slashes path with
  | [] => None
  | path =>
      let '(s, path) := path_elem path in
      let len := length s in
      let name := if (DIRSIZ <=? len)%nat then take DIRSIZ s else s ++ 0 :: drop (S len) name in
      Some (skip_slashes path, name)
  end.

Module Fs.

Definition get_inode (ip : nat) : M fsst inode := gets (λ s, inodes s !!! ip).
Definition alter_inode (ip : nat) (f : inode → inode) : M fsst unit :=
  modify (λ s, set_inodes (alter f ip (inodes s)) s).

(** ** Blocks *)

Definition bzero (dev bno : Z) : M fsst unit :=
  bp ← bread dev bno;
  alter_buf bp (set_data (replicate (Z.to_nat BSIZE) 0));;
  log_write bp;;
  brelse bp.

(** The bit of block [bi] of a bitmap block. *)
Definition bit_free (d : block) (bi : nat) : bool :=
  Z.land (d !!! (bi / 8)%nat) (Z.shiftl 1 (Z.of_nat bi mod 8)) =? 0.

(** The first free bit of those from [bi] on, [n] of them. *)
Fixpoint scan_bits (d : block) (bi n : nat) : option nat :=
  match n with
  | O => None
  | S n => if bit_free d bi then Some bi else scan_bits d (S bi) n
  end.

(** One iteration of balloc(), on the bitmap block of blocks [b] onwards. *)
Definition balloc_body (dev b : Z) : M fsst (Z + Z) :=
  s ← get;
  if negb (b <? sb_size (sb s)) then panic "balloc: out of blocks" else
  bp ← bread dev (BBLOCK b (sb s));
  x ← get_buf bp;
  match scan_bits (data x) 0 (Z.to_nat (Z.min BPB (sb_size (sb s) - b))) with
  | Some bi =>
      alter_buf bp (λ x, set_data (<[(bi / 8)%nat := Z.lor (data x !!! (bi / 8)%nat) (Z.shiftl 1 (Z.of_nat bi mod 8))]> (data x)) x);;
      log_write bp;;
      brelse bp;;
      bzero dev (b + Z.of_nat bi);;
      mret (inr (b + Z.of_nat bi))
  | None =>
      brelse bp;;
      mret (inl (b + BPB))
  end.

Definition balloc (dev : Z) : M fsst Z := loop (balloc_body dev) 21 0.

Definition bfree (dev b : Z) : M fsst unit :=
  s ← get;
  bp ← bread dev (BBLOCK b (sb s));
  x ← get_buf bp;
  let bi := Z.to_nat (b mod BPB) in
  if bit_free (data x) bi then panic "freeing free block" else
  alter_buf bp (λ x, set_data (<[(bi / 8)%nat := Z.land (data x !!! (bi / 8)%nat) (Z.lnot (Z.shiftl 1 (Z.of_nat bi mod 8)))]> (data x)) x);;
  log_write bp;;
  brelse bp.

(** ** Inodes *)

Fixpoint iinit_loop (i n : nat) : M fsst unit :=
  match n with O => mret tt | S n => initsleeplock (LInode i);; iinit_loop (S i) n end.

Definition iinit (dev : Z) : M fsst unit :=
  initlock LIcache;;
  iinit_loop 0 NINODE;;
  sb ← readsb dev;
  modify (set_sb sb);;
  cprintf (chars "sb: size %d nblocks %d ninodes %d nlog %d logstart %d inodestart %d bmap start %d" ++ [10])
    (Cons.CInt <$> [sb_size sb; sb_nblocks sb; sb_ninodes sb; sb_nlog sb; sb_logstart sb; sb_inodestart sb; sb_bmapstart sb]).

(** The scan of iget(): the slot that caches the inode, else the first empty one. *)
Fixpoint iget_scan (dev n : Z) (l : list inode) (i : nat) (empty : option nat) : option nat * option nat :=
  match l with
  | [] => (None, empty)
  | x :: l =>
      if (0 <? iref x) && (idev x =? dev) && (inum x =? n) then (Some i, empty)
      else iget_scan dev n l (S i)
             (match empty with None => if iref x =? 0 then Some i else None | Some _ => empty end)
  end.

Definition iget (dev n : Z) : M fsst nat :=
  acquire LIcache;;
  l ← gets inodes;
  match iget_scan dev n l 0 None with
  | (Some ip, _) =>
      alter_inode ip (λ x, set_iref (iref x +i 1) x);;
      release LIcache;;
      mret ip
  | (None, None) => panic "iget: no inodes"
  | (None, Some ip) =>
      alter_inode ip (set_idev dev);;
      alter_inode ip (set_inum n);;
      alter_inode ip (set_iref 1);;
      alter_inode ip (set_valid 0);;
      release LIcache;;
      mret ip
  end.

Definition ialloc_body (dev type : Z) (n : Z) : M fsst (Z + nat) :=
  s ← get;
  if negb (n <? sb_ninodes (sb s)) then panic "ialloc: no inodes" else
  bp ← bread dev (IBLOCK n (sb s));
  x ← get_buf bp;
  let k := Z.to_nat (n mod IPB) in
  if d_type (get_dinode (data x) k) =? 0 then
    alter_buf bp (λ x, set_data (set_dinode k (Dinode type 0 0 0 0 (replicate (S NDIRECT) 0)) (data x)) x);;
    log_write bp;;
    brelse bp;;
    ip ← iget dev n;
    mret (inr ip)
  else
    brelse bp;;
    mret (inl (n + 1)).

Definition ialloc (dev type : Z) : M fsst nat := loop (ialloc_body dev type) 32 1.

Definition iupdate (ip : nat) : M fsst unit :=
  s ← get;
  x ← get_inode ip;
  bp ← bread (idev x) (IBLOCK (inum x) (sb s));
  alter_buf bp (λ b, set_data (set_dinode (Z.to_nat (inum x mod IPB)) (to_dinode x) (data b)) b);;
  log_write bp;;
  brelse bp.

Definition idup (ip : nat) : M fsst nat :=
  acquire LIcache;;
  alter_inode ip (λ x, set_iref (iref x +i 1) x);;
  release LIcache;;
  mret ip.

Definition ilock (ip : nat) : M fsst unit :=
  x ← get_inode ip;
  if iref x <? 1 then panic "ilock" else
  acquiresleep (LInode ip);;
  x ← get_inode ip;
  mwhen (valid x =? 0)
    (s ← get;
     bp ← bread (idev x) (IBLOCK (inum x) (sb s));
     b ← get_buf bp;
     alter_inode ip (of_dinode (get_dinode (data b) (Z.to_nat (inum x mod IPB))));;
     brelse bp;;
     alter_inode ip (set_valid 1);;
     x ← get_inode ip;
     if itype x =? 0 then panic "ilock: no type" else mret tt).

Definition iunlock (ip : nat) : M fsst unit :=
  h ← holdingsleep (LInode ip);
  x ← get_inode ip;
  if negb h || (iref x <? 1) then panic "iunlock" else
  releasesleep (LInode ip).

(** ** Content *)

Definition bmap (ip : nat) (bn : Z) : M fsst Z :=
  x ← get_inode ip;
  if bn <? Z.of_nat NDIRECT then
    let addr := addrs x !!! Z.to_nat bn in
    if addr =? 0 then
      addr ← balloc (idev x);
      alter_inode ip (λ x, set_addrs (<[Z.to_nat bn := addr]> (addrs x)) x);;
      mret addr
    else mret addr
  else
    let bn := bn - Z.of_nat NDIRECT in
    if bn <? Z.of_nat NINDIRECT then
      let addr := addrs x !!! NDIRECT in
      addr ← (if addr =? 0 then
                addr ← balloc (idev x);
                alter_inode ip (λ x, set_addrs (<[NDIRECT := addr]> (addrs x)) x);;
                mret addr
              else mret addr);
      bp ← bread (idev x) addr;
      b ← get_buf bp;
      let addr := get_word (data b) (Z.to_nat bn) in
      addr ← (if addr =? 0 then
                addr ← balloc (idev x);
                alter_buf bp (λ b, set_data (set_word (Z.to_nat bn) addr (data b)) b);;
                log_write bp;;
                mret addr
              else mret addr);
      brelse bp;;
      mret addr
    else panic "bmap: out of range".

(** The loops of itrunc() over the direct blocks and over the indirect block. *)
Fixpoint itrunc_direct (ip : nat) (i n : nat) : M fsst unit :=
  match n with
  | O => mret tt
  | S n =>
      x ← get_inode ip;
      mwhen (negb (addrs x !!! i =? 0))
        (bfree (idev x) (addrs x !!! i);;
         alter_inode ip (λ x, set_addrs (<[i := 0]> (addrs x)) x));;
      itrunc_direct ip (S i) n
  end.

Fixpoint itrunc_indirect (dev : Z) (bp : nat) (j n : nat) : M fsst unit :=
  match n with
  | O => mret tt
  | S n =>
      b ← get_buf bp;
      mwhen (negb (get_word (data b) j =? 0)) (bfree dev (get_word (data b) j));;
      itrunc_indirect dev bp (S j) n
  end.

Definition itrunc (ip : nat) : M fsst unit :=
  itrunc_direct ip 0 NDIRECT;;
  x ← get_inode ip;
  mwhen (negb (addrs x !!! NDIRECT =? 0))
    (bp ← bread (idev x) (addrs x !!! NDIRECT);
     itrunc_indirect (idev x) bp 0 NINDIRECT;;
     brelse bp;;
     bfree (idev x) (addrs x !!! NDIRECT);;
     alter_inode ip (λ x, set_addrs (<[NDIRECT := 0]> (addrs x)) x));;
  alter_inode ip (set_isize 0);;
  iupdate ip.

Definition iput (ip : nat) : M fsst unit :=
  acquiresleep (LInode ip);;
  x ← get_inode ip;
  mwhen (negb (valid x =? 0) && (nlink x =? 0))
    (acquire LIcache;;
     x ← get_inode ip;
     release LIcache;;
     mwhen (iref x =? 1)
       (itrunc ip;;
        alter_inode ip (set_itype 0);;
        iupdate ip;;
        alter_inode ip (set_valid 0)));;
  releasesleep (LInode ip);;
  acquire LIcache;;
  alter_inode ip (λ x, set_iref (iref x -i 1) x);;
  release LIcache.

Definition iunlockput (ip : nat) : M fsst unit := iunlock ip;; iput ip.

(** struct stat: dev, ino, type, nlink, size. *)
Definition stati (ip : nat) : M fsst (Z * Z * Z * Z * Z) :=
  x ← get_inode ip;
  mret (s32 (idev x), inum x, itype x, nlink x, isize x).

(** The device of a major number, if it has one. *)
Definition device_of (x : inode) : M fsst (option device) :=
  s ← get;
  mret (if (major x <? 0) || (Z.of_nat NDEV <=? major x) then None else devsw s !!! Z.to_nat (major x)).

(** One iteration of readi(): [tot] of [n] bytes done, [dst] read. *)
Definition readi_body (ip : nat) (n : Z) (st : Z * Z * list Z) : M fsst (Z * Z * list Z + list Z) :=
  let '(tot, off, dst) := st in
  if negb (tot <? n) then mret (inr dst) else
  x ← get_inode ip;
  addr ← bmap ip (off / BSIZE);
  bp ← bread (idev x) addr;
  b ← get_buf bp;
  let m := Z.min (n - tot) (BSIZE - off mod BSIZE) in
  let bytes := take (Z.to_nat m) (drop (Z.to_nat (off mod BSIZE)) (data b)) in
  brelse bp;;
  mret (inl (tot + m, off +u m, dst ++ bytes)).

(** The result and the bytes stored at [dst]; [off] and [n] are unsigned. *)
Definition readi (ip : nat) (off n : Z) : M fsst (Z * list Z) :=
  x ← get_inode ip;
  if itype x =? T_DEV then
    d ← device_of x;
    match d with
    | None => mret (-1, [])
    | Some ConsoleDev => consoleread (iunlock ip) (ilock ip) (s32 n)
    end
  else
    if (isize x <? off) || (off +u n <? off) then mret (-1, []) else
    let n := if isize x <? off +u n then isize x -u off else n in
    dst ← loop (readi_body ip n) 32 (0, off, []);
    mret (s32 n, dst).

(** Replacing the bytes of [d] from [off] on. *)
Definition overwrite (off : nat) (bytes d : list Z) : list Z := take off d ++ bytes ++ drop (off + length bytes) d.

Definition writei_body (ip : nat) (n : Z) (st : Z * Z * list Z) : M fsst (Z * Z * list Z + Z) :=
  let '(tot, off, src) := st in
  if negb (tot <? n) then mret (inr off) else
  x ← get_inode ip;
  addr ← bmap ip (off / BSIZE);
  bp ← bread (idev x) addr;
  let m := Z.min (n - tot) (BSIZE - off mod BSIZE) in
  alter_buf bp (λ b, set_data (overwrite (Z.to_nat (off mod BSIZE)) (take (Z.to_nat m) src) (data b)) b);;
  log_write bp;;
  brelse bp;;
  mret (inl (tot + m, off +u m, drop (Z.to_nat m) src)).

(** [src] is the [n] bytes to write. *)
Definition writei (ip : nat) (src : list Z) (off : Z) : M fsst Z :=
  let n := Z.of_nat (length src) in
  x ← get_inode ip;
  if itype x =? T_DEV then
    d ← device_of x;
    match d with
    | None => mret (-1)
    | Some ConsoleDev => consolewrite (iunlock ip) (ilock ip) src
    end
  else
    if (isize x <? off) || (off +u n <? off) then mret (-1) else
    if MAXFILE * BSIZE <? off +u n then mret (-1) else
    off ← loop (writei_body ip n) 32 (0, off, src);
    x ← get_inode ip;
    mwhen ((0 <? n) && (isize x <? off))
      (alter_inode ip (set_isize off);;
       iupdate ip);;
    mret (s32 n).

(** ** Directories *)

(** struct dirent: its inode number and name. *)
Definition de_inum (de : list Z) : Z := de !!! 0%nat + de !!! 1%nat * 2 ^ 8.
Definition de_name (de : list Z) : list Z := drop 2 de.
Definition dirent (n : Z) (name : list Z) : list Z := u8 n :: u8 (Z.shiftr n 8) :: name.

Definition dirlookup_body (dp : nat) (name : list Z) (off : Z) : M fsst (Z + option (nat * Z)) :=
  x ← get_inode dp;
  if negb (off <? isize x) then mret (inr None) else
  '(r, de) ← readi dp off DIRENT_SIZE;
  if negb (r =? DIRENT_SIZE) then panic "dirlookup read" else
  if de_inum de =? 0 then mret (inl (off +u DIRENT_SIZE)) else
  if namecmp name (de_name de) =? 0 then
    ip ← iget (idev x) (de_inum de);
    mret (inr (Some (ip, off)))
  else mret (inl (off +u DIRENT_SIZE)).

(** The inode and the offset of its entry. *)
Definition dirlookup (dp : nat) (name : list Z) : M fsst (option (nat * Z)) :=
  x ← get_inode dp;
  if negb (itype x =? T_DIR) then panic "dirlookup not DIR" else
  loop (dirlookup_body dp name) 28 0.

Definition dirlink_body (dp : nat) (off : Z) : M fsst (Z + Z) :=
  x ← get_inode dp;
  if negb (off <? isize x) then mret (inr off) else
  '(r, de) ← readi dp off DIRENT_SIZE;
  if negb (r =? DIRENT_SIZE) then panic "dirlink read" else
  if de_inum de =? 0 then mret (inr off) else mret (inl (off + DIRENT_SIZE)).

Definition dirlink (dp : nat) (name : list Z) (n : Z) : M fsst Z :=
  r ← dirlookup dp name;
  match r with
  | Some (ip, _) => iput ip;; mret (-1)
  | None =>
      off ← loop (dirlink_body dp) 28 0;
      r ← writei dp (dirent n (strncpy DIRSIZ name)) off;
      if negb (r =? DIRENT_SIZE) then panic "dirlink" else mret 0
  end.

(** ** Paths *)

(** A null pointer faults in the kernel. *)
Definition nonnull {A} (o : option A) : M fsst A := match o with Some a => mret a | None => panic "trap" end.

Definition namex_body (parent : bool) (st : nat * list Z * list Z)
    : M fsst (nat * list Z * list Z + option (nat * list Z)) :=
  let '(ip, path, name) := st in
  match skipelem path name with
  | None => if parent then iput ip;; mret (inr None) else mret (inr (Some (ip, name)))
  | Some (path, name) =>
      ilock ip;;
      x ← get_inode ip;
      if negb (itype x =? T_DIR) then iunlockput ip;; mret (inr None) else
      if parent && bool_decide (path = []) then iunlock ip;; mret (inr (Some (ip, name))) else
      r ← dirlookup ip name;
      match r with
      | None => iunlockput ip;; mret (inr None)
      | Some (next, _) => iunlockput ip;; mret (inl (next, path, name))
      end
  end.

(** The inode, and the name array; [None] is a null result. *)
Definition namex (path : list Z) (parent : bool) (name : list Z) : M fsst (option (nat * list Z)) :=
  ip ← (match path with
        | c :: _ => if c =? 47 then iget ROOTDEV ROOTINO else
                    i ← myproc_some; p ← get_proc i; ip ← nonnull (cwd p); idup ip
        | [] => i ← myproc_some; p ← get_proc i; ip ← nonnull (cwd p); idup ip
        end);
  loop (namex_body parent) 32 (ip, path, name).

(** The array [name] of namei() and of nameiparent()'s callers is not initialised;
    its contents beyond the terminator do not matter. *)
Definition namei (path : list Z) : M fsst (option nat) :=
  r ← namex path false (replicate DIRSIZ 0);
  mret (fst <$> r).

Definition nameiparent (path : list Z) : M fsst (option (nat * list Z)) := namex path true (replicate DIRSIZ 0).

(** consoleinit() of console.c. *)
Definition consoleinit : M fsst unit :=
  initlock LCons;;
  modify (λ s, set_devsw (<[CONSOLE := Some ConsoleDev]> (devsw s)) s);;
  modify (λ s, set_fc (set_locking 1 (fc s)) s).

End Fs.

Section lifted.
Context {S : Type} `{Lens S fsst}.

Definition get_inode (ip : nat) : M S inode := lift (Fs.get_inode ip).
Definition alter_inode (ip : nat) (f : inode → inode) : M S unit := lift (Fs.alter_inode ip f).
Definition ialloc (dev type : Z) : M S nat := lift (Fs.ialloc dev type).
Definition iupdate (ip : nat) : M S unit := lift (Fs.iupdate ip).
Definition idup (ip : nat) : M S nat := lift (Fs.idup ip).
Definition ilock (ip : nat) : M S unit := lift (Fs.ilock ip).
Definition iunlock (ip : nat) : M S unit := lift (Fs.iunlock ip).
Definition iput (ip : nat) : M S unit := lift (Fs.iput ip).
Definition iunlockput (ip : nat) : M S unit := lift (Fs.iunlockput ip).
Definition stati (ip : nat) : M S (Z * Z * Z * Z * Z) := lift (Fs.stati ip).
Definition readi (ip : nat) (off n : Z) : M S (Z * list Z) := lift (Fs.readi ip off n).
Definition writei (ip : nat) (src : list Z) (off : Z) : M S Z := lift (Fs.writei ip src off).
Definition dirlookup (dp : nat) (name : list Z) : M S (option (nat * Z)) := lift (Fs.dirlookup dp name).
Definition dirlink (dp : nat) (name : list Z) (n : Z) : M S Z := lift (Fs.dirlink dp name n).
Definition namei (path : list Z) : M S (option nat) := lift (Fs.namei path).
Definition nameiparent (path : list Z) : M S (option (nat * list Z)) := lift (Fs.nameiparent path).
End lifted.
