(* ===== verification/FsSpec.v ===== *)
(** * Behaviour of the file system: names, inodes on disk, block allocation *)

From S2P Require Import Prelude Machine Proc CString Kalloc Sleeplock Bio Log Console Fs.
Open Scope kernel_scope.

(** ** Path names *)

(** The pieces of a path between slashes, and those that are not empty. *)
Fixpoint pieces (path : list Z) : list (list Z) :=
  match path with
  | [] => [[]]
  | c :: path => if c =? 47 then [] :: pieces path
                 else match pieces path with e :: es => (c :: e) :: es | [] => [[c]] end
  end.
Definition elements (path : list Z) : list (list Z) := filter (λ e, e ≠ []) (pieces path).

(** The name in an array of [DIRSIZ] bytes. *)
Fixpoint name_chars (n : nat) (a : list Z) : list Z :=
  match n, a with
  | S n, c :: a => if c =? 0 then [] else c :: name_chars n a
  | _, _ => []
  end.
Definition name_of (a : list Z) : list Z := name_chars DIRSIZ a.

Lemma pieces_cons path : ∃ e es, pieces path = e :: es.
Proof.
  induction path as [|c path (e & es & IH)]; simpl; [by eexists _, _|].
  destruct (c =? 47); [by eexists _, _|]. rewrite IH. by eexists _, _.
Qed.

Lemma elements_skip path : elements (skip_slashes path) = elements path.
Proof.
  induction path as [|c path IH]; [done|]. cbn [skip_slashes]. unfold elements at 2. cbn [pieces].
  destruct (c =? 47) eqn:E; [|by unfold elements; cbn [pieces]; rewrite E].
  rewrite filter_cons_False by naive_solver. exact IH.
Qed.

Lemma skip_slashes_head path : hd 0 (skip_slashes path) ≠ 47.
Proof. induction path as [|c path IH]; [done|]. cbn [skip_slashes]. destruct (Z.eqb_spec c 47); [done|simpl; lia]. Qed.

Lemma skip_slashes_suffix path : skip_slashes path `suffix_of` path.
Proof.
  induction path as [|c path IH]; [done|]. cbn [skip_slashes].
  destruct (c =? 47); [|done]. etrans; [exact IH|]. by apply suffix_cons_r.
Qed.

Lemma path_elem_spec path e r :
  path_elem path = (e, r) →
  path = e ++ r ∧ 47 ∉ e ∧ (∀ c u, r = c :: u → c = 47) ∧
  ∃ es, pieces path = e :: es ∧ filter (λ e, e ≠ []) es = elements r.
Proof.
  revert e r. induction path as [|c path IH]; intros e r; cbn [path_elem pieces].
  - intros [= <- <-]. split_and!; [done|set_solver|done|]. by exists [].
  - destruct (Z.eqb_spec c 47) as [->|Hc].
    + intros [= <- <-]. split_and!; [done|set_solver|naive_solver|]. exists (pieces path). split; [done|].
      unfold elements. cbn [pieces]. rewrite Z.eqb_refl. by rewrite filter_cons_False by naive_solver.
    + destruct (path_elem path) as [e' r'] eqn:E. intros [= <- <-].
      destruct (IH e' r' eq_refl) as (-> & H1 & H2 & es & Ep & Ef). split_and!; [done|set_solver|done|].
      exists es. by rewrite Ep.
Qed.

Lemma name_chars_app n e rest :
  0 ∉ e → (length e ≤ n)%nat → name_chars n (e ++ 0 :: rest) = e.
Proof.
  revert n. induction e as [|c e IH]; intros [|n] H0 Hn; simpl in *; try done; try lia.
  rewrite (proj2 (Z.eqb_neq c 0)) by set_solver. f_equal. apply IH; [set_solver|lia].
Qed.

Lemma name_chars_full n e : 0 ∉ e → (n ≤ length e)%nat → name_chars n e = take n e.
Proof.
  revert e. induction n as [|n IH]; intros [|c e] H0 Hn; simpl in *; try done.
  rewrite (proj2 (Z.eqb_neq c 0)) by set_solver. f_equal. apply IH; [set_solver|lia].
Qed.

Lemma skipelem_run path name e es :
  0 ∉ path → length name = DIRSIZ → elements path = e :: es →
  ∃ path' name', skipelem path name = Some (path', name') ∧ elements path' = es ∧ 0 ∉ path' ∧
    length name' = DIRSIZ ∧ name_of name' = take DIRSIZ e ∧ (path' = [] ↔ es = []).
Proof.
  intros H0 Hn He. unfold skipelem. rewrite <- elements_skip in He.
  pose proof (skip_slashes_head path) as Hhd. pose proof (skip_slashes_suffix path) as [pre Hsuf].
  assert (0 ∉ skip_slashes path) as H0' by (rewrite Hsuf in H0; set_solver).
  destruct (skip_slashes path) as [|c q] eqn:Eq; [done|]. clear Hsuf.
  destruct (path_elem (c :: q)) as [e' r] eqn:Ep. destruct (path_elem_spec _ _ _ Ep) as (Ecq & H47 & Hr & es' & Epc & Ees).
  assert (e' ≠ []) as Hne.
  { intros ->. simpl in Ecq. destruct r as [|d r]; [done|]. injection Ecq as -> ->. cbn in Hhd. by rewrite (Hr d r eq_refl) in Hhd. }
  unfold elements in He. rewrite Epc, filter_cons_True in He by done. injection He as <- <-.
  assert (0 ∉ e' ∧ 0 ∉ r) as [He0 Hr0] by (rewrite Ecq in H0'; set_solver).
  eexists _, _. split; [reflexivity|]. split_and!.
  - by rewrite elements_skip, <- Ees.
  - pose proof (skip_slashes_suffix r) as [pre' Hs]. rewrite Hs in Hr0. set_solver.
  - destruct (Nat.leb_spec DIRSIZ (length e')).
    + rewrite length_take. lia.
    + rewrite length_app. cbn [length]. rewrite length_drop, Hn. unfold DIRSIZ in *. lia.
  - unfold name_of. destruct (Nat.leb_spec DIRSIZ (length e')) as [Hl|Hl].
    + rewrite name_chars_full; [by rewrite take_take, Nat.min_id| |rewrite length_take; lia].
      intros Hin. apply He0. rewrite <- (take_drop DIRSIZ e'). apply elem_of_app. by left.
    + rewrite name_chars_app by (done || lia). symmetry. apply take_ge. lia.
  - rewrite Ees, <- (elements_skip r). split; [by intros ->|]. intros Hes.
    pose proof (skip_slashes_head r) as Hh. destruct (skip_slashes r) as [|d u] eqn:Er; [done|]. exfalso.
    cbn in Hh. unfold elements in Hes. cbn [pieces] in Hes. rewrite (proj2 (Z.eqb_neq d 47)) in Hes by done.
    destruct (pieces_cons u) as (x & xs & Ex). rewrite Ex, filter_cons_True in Hes by done. done.
Qed.

Lemma skipelem_end path name : elements path = [] → skipelem path name = None.
Proof.
  intros He. unfold skipelem. rewrite <- elements_skip in He. pose proof (skip_slashes_head path) as Hh.
  destruct (skip_slashes path) as [|c q]; [done|]. exfalso. cbn in Hh. unfold elements in He. cbn [pieces] in He.
  rewrite (proj2 (Z.eqb_neq c 47)) in He by done. destruct (pieces_cons q) as (x & xs & Ex).
  by rewrite Ex, filter_cons_True in He.
Qed.

(** The names namex() looks up, in order: repeated skipelem(). *)
Fixpoint walk_names (fuel : nat) (path name : list Z) : list (list Z) :=
  match fuel with
  | O => []
  | S fuel => match skipelem path name with
              | None => []
              | Some (path, name) => name_of name :: walk_names fuel path name
              end
  end.

(** C23 [functional]: skipelem() walks the elements of a path.  Repeated until it
    returns 0, as namex() does, it yields the non-empty pieces of the path between
    slashes, in order, each cut to the 14 characters a directory entry can hold,
    however many slashes there are, at the start, between and at the end; and the
    rest it returns is empty exactly when the element was the last one, which is
    how nameiparent() recognises it. *)
Theorem skipelem_elements path name :
  0 ∉ path → length name = DIRSIZ →
  walk_names (S (length (elements path))) path name = take DIRSIZ <$> elements path ∧
  ∀ path' name', skipelem path name = Some (path', name') → (path' = [] ↔ length (elements path) = 1%nat).
Proof.
  intros H0 Hn. split.
  - remember (elements path) as es eqn:Ees. symmetry in Ees. revert path name Ees H0 Hn.
    induction es as [|e es IH]; intros path name Ees H0 Hn; cbn [length walk_names].
    + by rewrite skipelem_end.
    + destruct (skipelem_run path name e es H0 Hn Ees) as (path' & name' & -> & H1 & H2 & H3 & H4 & _).
      rewrite fmap_cons, H4. f_equal. by apply IH.
  - intros path' name' E. destruct (elements path) as [|e es] eqn:Ees.
    { by rewrite skipelem_end in E. }
    destruct (skipelem_run path name e es H0 Hn Ees) as (p & n & E' & _ & _ & _ & _ & Hlast).
    rewrite E in E'. injection E' as <- <-. rewrite Hlast. destruct es; simpl; naive_solver lia.
Qed.

Lemma skipelem_elements_witness :
  walk_names 3 (chars "///usr//a_very_long_file_name/") (replicate DIRSIZ 0) = [chars "usr"; chars "a_very_long_fi"].
Proof.
  apply (skipelem_elements (chars "///usr//a_very_long_file_name/") (replicate DIRSIZ 0)); [|reflexivity].
  refine (bool_decide_eq_true_1 _ _). vm_compute. reflexivity.
Defined.

(** Names are compared as names. *)
Lemma strncmp_names n a b : (strncmp n a b =? 0) = bool_decide (name_chars n a = name_chars n b).
Proof.
  revert a b. induction n as [|n IH]; intros a b; [by rewrite bool_decide_true|]. cbn [strncmp name_chars].
  destruct a as [|x a], b as [|y b]; cbn [hd tail].
  - by rewrite bool_decide_true.
  - cbn. destruct (Z.eqb_spec y 0) as [->|]; [by rewrite bool_decide_true|]. rewrite bool_decide_false by done. apply Z.eqb_neq. lia.
  - destruct (Z.eqb_spec x 0) as [->|Hx]; cbn [negb andb]; [by rewrite bool_decide_true|].
    rewrite bool_decide_false by done. apply Z.eqb_neq. lia.
  - destruct (Z.eqb_spec x 0) as [->|Hx]; cbn [negb andb].
    + destruct (Z.eqb_spec y 0) as [->|]; [by rewrite bool_decide_true|]. rewrite bool_decide_false by done. apply Z.eqb_neq. lia.
    + destruct (Z.eqb_spec x y) as [->|Hxy].
      * rewrite IH, (proj2 (Z.eqb_neq y 0)) by done. apply bool_decide_ext.
        split; [by intros ->|by intros [= ->]].
      * destruct (Z.eqb_spec y 0) as [->|]; rewrite bool_decide_false by naive_solver; apply Z.eqb_neq; lia.
Qed.

(** ** Inodes on disk *)

Lemma length_set_half k v d : length (set_half k v d) = length d.
Proof. unfold set_half. by rewrite !length_insert. Qed.
Lemma length_set_words k l d : length (set_words k l d) = length d.
Proof. revert k d. induction l as [|v l IH]; intros; simpl; [done|]. by rewrite IH, length_set_word. Qed.

Definition is_s16 (z : Z) : Prop := - 2 ^ 15 ≤ z < 2 ^ 15.

Lemma s16_u16 z : s16 (u16 z) = s16 z.
Proof. unfold s16, u16. by rewrite Z.add_mod_idemp_l by lia. Qed.
Lemma s16_id z : is_s16 z → s16 z = z.
Proof. unfold is_s16, s16. intros ?. rewrite Z.mod_small; lia. Qed.

Lemma get_set_half k v d : (2 * k + 2 ≤ length d)%nat → get_half (set_half k v d) k = s16 v.
Proof.
  intros Hd. unfold get_half, set_half. rewrite list_lookup_total_insert_ne by lia.
  rewrite list_lookup_total_insert_eq by (rewrite ?length_insert; lia). rewrite list_lookup_total_insert_eq by (rewrite ?length_insert; lia).
  rewrite <- (s16_u16 v). f_equal. rewrite Z.shiftr_div_pow2 by lia. unfold u8, u16. dmlia.
Qed.
Lemma get_set_half_ne k j v d : k ≠ j → get_half (set_half k v d) j = get_half d j.
Proof. intros. unfold get_half, set_half. by rewrite !list_lookup_total_insert_ne by lia. Qed.
Lemma get_word_set_half k j v d : (k ≠ 2 * j)%nat → (k ≠ 2 * j + 1)%nat → get_word (set_half k v d) j = get_word d j.
Proof. intros. unfold get_word, set_half. by rewrite !list_lookup_total_insert_ne by lia. Qed.
Lemma get_half_set_word k j v d : (j ≠ 2 * k)%nat → (j ≠ 2 * k + 1)%nat → get_half (set_word k v d) j = get_half d j.
Proof. intros. unfold get_half, set_word. by rewrite !list_lookup_total_insert_ne by lia. Qed.

Lemma get_half_set_words k l d j : (j < 2 * k ∨ 2 * (k + length l) ≤ j)%nat → get_half (set_words k l d) j = get_half d j.
Proof.
  revert k d. induction l as [|v l IH]; intros k d Hj; cbn [set_words length] in *; [done|].
  rewrite IH by lia. apply get_half_set_word; lia.
Qed.
Lemma get_word_set_words_out k l d j : (j < k ∨ k + length l ≤ j)%nat → get_word (set_words k l d) j = get_word d j.
Proof.
  revert k d. induction l as [|v l IH]; intros k d Hj; cbn [set_words length] in *; [done|].
  rewrite IH by lia. apply get_set_word_ne; lia.
Qed.
Lemma get_word_set_words k l d i v :
  (4 * (k + length l) ≤ length d)%nat → l !! i = Some v → get_word (set_words k l d) (k + i) = u32 v.
Proof.
  revert k d i. induction l as [|w l IH]; intros k d [|i] Hd Hi; cbn [set_words length] in *; [done..| |].
  - injection Hi as ->. rewrite Nat.add_0_r, get_word_set_words_out by lia. apply get_set_word. lia.
  - replace (k + S i)%nat with (S k + i)%nat by lia. apply IH; [rewrite length_set_word; lia|done].
Qed.

Record dinode_ok (x : dinode) : Prop := {
  dk_type : is_s16 (d_type x);
  dk_major : is_s16 (d_major x);
  dk_minor : is_s16 (d_minor x);
  dk_nlink : is_s16 (d_nlink x);
  dk_size : is_u32 (d_size x);
  dk_len : length (d_addrs x) = S NDIRECT;
  dk_addrs : Forall is_u32 (d_addrs x);
}.

Lemma get_set_dinode k x d :
  length d = Z.to_nat BSIZE → (k < Z.to_nat IPB)%nat → dinode_ok x → get_dinode (set_dinode k x d) k = x.
Proof.
  change (Z.to_nat BSIZE) with 512%nat. change (Z.to_nat IPB) with 8%nat.
  intros Hd Hk [H1 H2 H3 H4 H5 H6 H7]. unfold get_dinode, set_dinode. unfold NDIRECT in *. destruct x as [ty ma mi nl si ad];
    cbn [d_type d_major d_minor d_nlink d_size d_addrs] in *.
  f_equal.
  - rewrite get_half_set_words, get_half_set_word, !get_set_half_ne, get_set_half by (rewrite ?length_set_half; lia). by apply s16_id.
  - rewrite get_half_set_words, get_half_set_word, !get_set_half_ne, get_set_half by (rewrite ?length_set_half; lia). by apply s16_id.
  - rewrite get_half_set_words, get_half_set_word, !get_set_half_ne, get_set_half by (rewrite ?length_set_half; lia). by apply s16_id.
  - rewrite get_half_set_words, get_half_set_word, get_set_half by (rewrite ?length_set_half; lia). by apply s16_id.
  - rewrite get_word_set_words_out, get_set_word by (rewrite ?length_set_half; lia). by apply u32_id.
  - apply list_eq_same_length with (n := 13%nat); [done|by rewrite length_fmap, length_seq|].
    intros i a b Hi Ha Hb. rewrite list_lookup_fmap, lookup_seq_lt in Ha by done. injection Ha as <-. cbn [Nat.add].
    rewrite (get_word_set_words _ _ _ i b) by (rewrite ?length_set_word, ?length_set_half; done || lia).
    apply u32_id. by eapply Forall_lookup_1 in H7.
Qed.

Lemma get_set_dinode_ne k j x d : k ≠ j → length (d_addrs x) = S NDIRECT → get_dinode (set_dinode k x d) j = get_dinode d j.
Proof.
  unfold NDIRECT. intros Hkj Hl. unfold get_dinode, set_dinode. f_equal.
  1-4: rewrite get_half_set_words, get_half_set_word, !get_set_half_ne by lia; done.
  - rewrite get_word_set_words_out, get_set_word_ne, !get_word_set_half by lia. done.
  - apply list_fmap_ext. intros i a [-> Hi]%lookup_seq. unfold NDIRECT in Hi.
    rewrite get_word_set_words_out, get_set_word_ne, !get_word_set_half by lia. done.
Qed.

(** ** Blocks inside a transaction *)

Definition flog (s : fsst) : lst := cl (fc s).
Definition set_flog (t : lst) (s : fsst) : fsst := set_fc (set_cl t (fc s)) s.

(** Process [i] on CPU [c] is in a transaction that has modified the blocks [L]. *)
Record in_trans (c i : nat) (s : fsst) (L : list Z) : Prop := {
  it_pending : pending c i ∅ (flog s) L;
  it_open : 1 ≤ outstanding (log (flog s));
}.

(** The block's contents as the kernel sees it, and the blocks outside the log. *)
Definition blk (s : fsst) (n : Z) : block := cont (lb (flog s)) n.
Definition fhome (s : fsst) (n : Z) : Prop := home (log (flog s)) (disk_size (lb (flog s))) n.
Definition log_room (s : fsst) : Z := lsize (log (flog s)) - 1.

(** From [s] to [s'] only the log and the cache change: the transaction is now
    [L'] and the contents of block [m] are [g m]. *)
Record evolves (c i : nat) (s s' : fsst) (L' : list Z) (g : Z → block) : Prop := {
  ev_trans : in_trans c i s' L';
  ev_state : s' = set_flog (flog s') s;
  ev_home m : fhome s' m ↔ fhome s m;
  ev_room : log_room s' = log_room s;
  ev_blk m : fhome s m → blk s' m = g m;
}.

Lemma lift_f {A} (m : M lst A) s a t : m (flog s) = Ok a t → lift m s = Ok a (set_flog t s).
Proof. exact (lift_ok m s a t). Qed.

Lemma lift_fb {A} (m : M bst A) s a t : m (lb (flog s)) = Ok a t → lift m s = Ok a (set_flog (set_lb t (flog s)) s).
Proof. exact (lift_ok m s a t). Qed.

Lemma lift_inv {S T A} `{Lens S T} (m : M T A) s a s' :
  lift m s = Ok a s' → ∃ t, m (view s) = Ok a t ∧ s' = upd t s.
Proof. unfold lift, zoom. destruct (m (view s)); naive_solver. Qed.

Lemma lift_update j f s t t' :
  (alter_buf j f;; Lg.log_write j;; brelse j) t = Ok tt t' →
  (alter_buf j f;; log_write j;; brelse j) (set_flog t s) = Ok tt (set_flog t' s).
Proof.
  intros E. minv E. minv E. apply lift_inv in E0 as (b & E0 & ->), E as (b' & E & ->).
  mstep (lift_fb (Bc.alter_buf j f) (set_flog t s) _ _ E0 : alter_buf j f (set_flog t s) = _).
  mstep (lift_f (Lg.log_write j) (set_flog (set_lb b t) s) _ _ E1 : log_write j _ = _).
  exact (lift_fb (Bc.brelse j) (set_flog s1 s) _ _ E).
Qed.

Lemma logged_fields n l :
  outstanding (logged n l) = outstanding l ∧ lstart (logged n l) = lstart l ∧ lsize (logged n l) = lsize l.
Proof. unfold logged. by repeat case_match. Qed.

Section block_use.
Context (c i : nat) (s : fsst) (L : list Z) (Ht : in_trans c i s L) (n : Z) (Hn : fhome s n).

Lemma evolves_view b s0 :
  bc_inv c i ∅ b → same_view s0 b → same_view (lb (flog s)) s0 →
  evolves c i s (set_flog (set_lb b (flog s)) s) L (blk s).
Proof using Ht.
  intros Hinv Hv1 Hv0. pose proof (same_view_trans _ _ _ Hv0 Hv1) as Hv. destruct Ht as [[H1 H2 H3 H4 H5 H6 H7] Ho].
  assert (disk b = disk (lb (flog s))) as Ed by apply Hv.
  split.
  - split; [|exact Ho]. split; cbn [flog lb log set_flog set_lb set_fc set_cl fc cl]; rewrite ?Ed; try done.
    + by rewrite (sv_core _ _ Hv).
    + intros m. by rewrite (sv_dirty _ _ Hv).
  - done.
  - intros m. unfold fhome. cbn. by rewrite Ed.
  - done.
  - intros m [Hm _]. unfold blk. cbn. by apply (sv_cont _ _ Hv).
Qed.

(** Reading a block: it is either released again, or changed and logged. *)
Lemma open_block :
  ∃ j t x, bread 1 n s = Ok j t ∧ get_buf j t = Ok x t ∧ data x = blk s n ∧
    (∃ s', brelse j t = Ok tt s' ∧ evolves c i s s' L (blk s)) ∧
    (Z.of_nat (length L) < log_room s → ∀ g,
      ∃ s', (alter_buf j (λ x, set_data (g (data x)) x);; log_write j;; brelse j) t = Ok tt s' ∧
        evolves c i s s' (absorb n L) (λ m, if decide (m = n) then g (blk s n) else blk s m)).
Proof using Ht Hn.
  pose proof Ht as [Hp Ho]. pose proof Hp as [Hinv Hlk Hwf HL Hd Hh Hhl].
  destruct (bread_one c i (lb (flog s)) n L) as (j & s1 & E1 & Hj & Hinv1 & Hv & Hhj & Hdj & Hu);
    [done|apply Hn|intros m; apply Hd|by eapply small_list|].
  pose proof (lift_fb _ s _ _ E1 : bread 1 n s = _) as Eb.
  exists j, (set_flog (set_lb s1 (flog s)) s), (the_buf s1 j). split_and!.
  - exact Eb.
  - exact (lift_fb (Bc.get_buf j) (set_flog (set_lb s1 (flog s)) s) _ s1 eq_refl).
  - exact Hdj.
  - destruct (brelse_one c i s1 j Hinv1 Hj Hu) as (s2 & E2 & Hinv2 & Hv2). eexists. split.
    + exact (lift_fb _ (set_flog (set_lb s1 (flog s)) s) _ _ E2 : brelse j _ = _).
    + by apply (evolves_view s2 s1).
  - intros Hroom g.
    destruct (update_block_run c i (flog s) L n g Hp Hn Ho Hroom) as (t & E & Hp' & Hdk & Hwr & Hco & Hct).
    exists (set_flog (Lst t (logged n (log (flog s)))) s). split.
    + unfold update_block in E. rewrite (bind_ok _ _ _ _ _ (lift_l _ (flog s) _ _ E1 : bread 1 n (flog s) = _)) in E.
      exact (lift_update j (λ x, set_data (g (data x)) x) s _ _ E).
    + destruct (logged_fields n (log (flog s))) as (G1 & G2 & G3). split; [split; [exact Hp'|]|done| | |exact Hct].
      * cbn [flog set_flog set_fc set_cl fc cl log]. by rewrite G1.
      * intros m. unfold fhome, home. cbn. by rewrite Hdk, G2, G3.
      * unfold log_room. cbn. by rewrite G3.
Qed.
End block_use.

Lemma evolves_compose c i s s1 s2 L1 L2 g1 g2 :
  evolves c i s s1 L1 g1 → evolves c i s1 s2 L2 g2 → evolves c i s s2 L2 g2.
Proof.
  intros [H1 E1 Hh1 Hr1 Hb1] [H2 E2 Hh2 Hr2 Hb2]. split; [done| | |congruence|].
  - rewrite E2 at 1. by rewrite E1.
  - intros m. by rewrite Hh2.
  - intros m Hm. apply Hb2. by apply Hh1.
Qed.

Lemma evolves_ext c i s s' L g g' :
  evolves c i s s' L g → (∀ m, fhome s m → g m = g' m) → evolves c i s s' L g'.
Proof. intros [] Hg. split; try done. intros m Hm. rewrite <- Hg; auto. Qed.

Lemma evolves_refl c i s L : in_trans c i s L → evolves c i s s L (blk s).
Proof. intros. split; try done. by destruct s as [[]]. Qed.

Lemma evolves_sb c i s s' L g : evolves c i s s' L g → sb s' = sb s.
Proof. intros H. by rewrite (ev_state _ _ _ _ _ _ H). Qed.

Lemma evolves_home c i s s' L g m : evolves c i s s' L g → fhome s m → fhome s' m.
Proof. intros He Hm. by apply (ev_home _ _ _ _ _ _ He). Qed.

Lemma absorb_length n L : (length (absorb n L) ≤ S (length L))%nat.
Proof. unfold absorb. case_decide; [lia|]. rewrite length_app. simpl. lia. Qed.

(** ** The bitmap *)

Lemma land_bit x k : 0 ≤ k → (Z.land x (Z.shiftl 1 k) =? 0) = negb (Z.testbit x k).
Proof.
  intros Hk. rewrite Z.shiftl_1_l. destruct (Z.testbit x k) eqn:E; simpl.
  - apply Z.eqb_neq. intros H0. pose proof (f_equal (λ z, Z.testbit z k) H0) as H1.
    cbn beta in H1. rewrite Z.land_spec, Z.pow2_bits_true, E, Z.bits_0 in H1 by done. done.
  - apply Z.eqb_eq, Z.bits_inj'. intros j Hj. rewrite Z.land_spec, Z.bits_0, Z.pow2_bits_eqb by done.
    destruct (Z.eqb_spec k j) as [<-|]; [by rewrite E|apply andb_false_r].
Qed.

Definition set_bit (d : block) (bi : nat) : block :=
  <[(bi / 8)%nat := Z.lor (d !!! (bi / 8)%nat) (Z.shiftl 1 (Z.of_nat bi mod 8))]> d.
Definition clear_bit (d : block) (bi : nat) : block :=
  <[(bi / 8)%nat := Z.land (d !!! (bi / 8)%nat) (Z.lnot (Z.shiftl 1 (Z.of_nat bi mod 8)))]> d.

(** Changing one bit of a bitmap block leaves the other bits as they are. *)
Lemma bit_free_update (f : Z → Z → Z) (v : bool) d bi bi' :
  (∀ x k j, 0 ≤ k → 0 ≤ j → Z.testbit (f x k) j = if decide (j = k) then v else Z.testbit x j) →
  (bi / 8 < length d)%nat →
  Fs.bit_free (<[(bi / 8)%nat := f (d !!! (bi / 8)%nat) (Z.of_nat bi mod 8)]> d) bi' =
    if decide (bi' = bi) then negb v else Fs.bit_free d bi'.
Proof.
  intros Hf Hl. unfold Fs.bit_free. rewrite !land_bit by (apply Z.mod_pos_bound; lia).
  destruct (decide (bi' / 8 = bi / 8)%nat) as [E|E].
  - rewrite E, list_lookup_total_insert_eq, Hf by (done || (apply Z.mod_pos_bound; lia)).
    destruct (decide (bi' = bi)) as [->|Hne]; [by rewrite decide_True|]. rewrite decide_False; [done|].
    intros Hm. apply Hne. apply (f_equal Z.of_nat) in E. rewrite !Nat2Z.inj_div in E.
    change (Z.of_nat 8) with 8 in E. dmlia.
  - rewrite list_lookup_total_insert_ne by congruence. rewrite decide_False; [done|]. congruence.
Qed.

Lemma bit_free_set d bi bi' : (bi / 8 < length d)%nat →
  Fs.bit_free (set_bit d bi) bi' = if decide (bi' = bi) then false else Fs.bit_free d bi'.
Proof.
  apply (bit_free_update (λ x k, Z.lor x (Z.shiftl 1 k)) true). intros x k j Hk Hj.
  rewrite Z.lor_spec, Z.shiftl_1_l, Z.pow2_bits_eqb by done. case_decide as E.
  - subst. by rewrite Z.eqb_refl, orb_true_r.
  - assert (k =? j = false) as -> by lia. apply orb_false_r.
Qed.

Lemma bit_free_clear d bi bi' : (bi / 8 < length d)%nat →
  Fs.bit_free (clear_bit d bi) bi' = if decide (bi' = bi) then true else Fs.bit_free d bi'.
Proof.
  apply (bit_free_update (λ x k, Z.land x (Z.lnot (Z.shiftl 1 k))) false). intros x k j Hk Hj.
  rewrite Z.land_spec, Z.lnot_spec, Z.shiftl_1_l, Z.pow2_bits_eqb by done. case_decide as E.
  - subst. by rewrite Z.eqb_refl, andb_false_r.
  - assert (k =? j = false) as -> by lia. apply andb_true_r.
Qed.

Lemma scan_bits_some d bi n k : Fs.scan_bits d bi n = Some k →
  (bi ≤ k < bi + n)%nat ∧ Fs.bit_free d k = true ∧ ∀ j, (bi ≤ j < k)%nat → Fs.bit_free d j = false.
Proof.
  revert bi. induction n as [|n IH]; intros bi; simpl; [done|].
  destruct (Fs.bit_free d bi) eqn:E.
  - intros [= <-]. split_and!; [lia|lia|done|lia].
  - intros (H1 & H2 & H3)%IH. split_and!; [lia|lia|done|]. intros j Hj.
    destruct (decide (j = bi)) as [->|]; [done|]. apply H3. lia.
Qed.

Lemma scan_bits_none d bi n : Fs.scan_bits d bi n = None → ∀ j, (bi ≤ j < bi + n)%nat → Fs.bit_free d j = false.
Proof.
  revert bi. induction n as [|n IH]; intros bi; simpl; [lia|].
  destruct (Fs.bit_free d bi) eqn:E; [done|]. intros H j Hj.
  destruct (decide (j = bi)) as [->|]; [done|]. apply (IH (S bi)); [done|lia].
Qed.

Lemma scan_bits_first d n k :
  (k < n)%nat → Fs.bit_free d k = true → (∀ j, (j < k)%nat → Fs.bit_free d j = false) →
  Fs.scan_bits d 0 n = Some k.
Proof.
  intros Hk Hf Hu. destruct (Fs.scan_bits d 0 n) as [k'|] eqn:E.
  - apply scan_bits_some in E as (H1 & H2 & H3). f_equal.
    destruct (Nat.lt_trichotomy k k') as [|[|]]; [|done|].
    + rewrite H3 in Hf; [done|lia].
    + rewrite Hu in H2; done.
  - rewrite (scan_bits_none _ _ _ E k) in Hf; [done|lia].
Qed.

(** Block [b] is marked free in the bitmap. *)
Definition free_block (s : fsst) (b : Z) : Prop :=
  Fs.bit_free (blk s (BBLOCK b (sb s))) (Z.to_nat (b mod BPB)) = true.

#[global] Instance free_block_dec s b : Decision (free_block s b).
Proof. unfold free_block. apply _. Defined.

(** The layout mkfs gives the disk: the bitmap lies outside the log, and the
    blocks of the boot sector, the super block, the log, the inodes and the
    bitmap are marked as used. *)
Record layout_ok (s : fsst) : Prop := {
  lo_size : 0 < sb_size (sb s) < 2 ^ 31;
  lo_start : 0 ≤ sb_bmapstart (sb s) < 2 ^ 31;
  lo_bitmap b : 0 ≤ b < sb_size (sb s) → fhome s (BBLOCK b (sb s));
  lo_length b : 0 ≤ b < sb_size (sb s) → length (blk s (BBLOCK b (sb s))) = Z.to_nat BSIZE;
  lo_free b : 0 ≤ b < sb_size (sb s) → free_block s b →
    fhome s b ∧ ∀ b', 0 ≤ b' < sb_size (sb s) → BBLOCK b' (sb s) ≠ b;
}.

Lemma BBLOCK_eq s b b' :
  0 ≤ sb_bmapstart s < 2 ^ 31 → 0 ≤ b < 2 ^ 31 → 0 ≤ b' < 2 ^ 31 →
  BBLOCK b s = BBLOCK b' s ↔ b / BPB = b' / BPB.
Proof. unfold BBLOCK, u32, BPB, BSIZE. intros. split; dmlia. Qed.

(** The bitmap after the bit of block [b] has been replaced. *)
Lemma free_after c i s s' L g :
  evolves c i s s' L g → layout_ok s → ∀ b', 0 ≤ b' < sb_size (sb s) →
  free_block s' b' ↔ Fs.bit_free (g (BBLOCK b' (sb s))) (Z.to_nat (b' mod BPB)) = true.
Proof. intros He Hl b' Hb. unfold free_block. rewrite (evolves_sb _ _ _ _ _ _ He), (ev_blk _ _ _ _ _ _ He); [done|]. by apply lo_bitmap. Qed.

Section balloc.
Context (c i : nat) (s : fsst) (L : list Z) (Ht : in_trans c i s L) (Hl : layout_ok s).

Lemma bitmap_used b s1 :
  0 ≤ b → b mod BPB = 0 → b < sb_size (sb s) →
  evolves c i s s1 L (blk s) →
  (∀ b', b ≤ b' < b + BPB → b' < sb_size (sb s) → ¬ free_block s b') →
  ∃ s2, Fs.balloc_body 1 b s1 = Ok (inl (b + BPB)) s2 ∧ evolves c i s s2 L (blk s).
Proof using Hl.
  intros Hb Hm Hs He Hu. pose proof (evolves_sb _ _ _ _ _ _ He) as Esb.
  assert (fhome s (BBLOCK b (sb s))) as Hh by (apply lo_bitmap; [done|lia]).
  destruct (open_block c i s1 L (ev_trans _ _ _ _ _ _ He) (BBLOCK b (sb s))) as (j & t & x & E1 & E2 & Hx & (s2 & E3 & He2) & _).
  { by apply (evolves_home _ _ _ _ _ _ _ He). }
  exists s2. split; [|eapply evolves_ext; [by eapply evolves_compose|intros; by apply (ev_blk _ _ _ _ _ _ He)]].
  unfold Fs.balloc_body. mred. rewrite Esb. assert (b <? sb_size (sb s) = true) as -> by lia. cbn [negb].
  mstep E1. mstep E2. rewrite Hx, (ev_blk _ _ _ _ _ _ He) by done.
  destruct (Fs.scan_bits _ _ _) as [bi|] eqn:Escan; [|by mstep E3].
  apply scan_bits_some in Escan as (Hbi & Hf & _). exfalso. apply (Hu (b + Z.of_nat bi)); [lia|lia|].
  unfold free_block. assert ((b + Z.of_nat bi) mod BPB = Z.of_nat bi) as -> by (unfold BPB, BSIZE in *; dmlia).
  rewrite Nat2Z.id. assert (BBLOCK (b + Z.of_nat bi) (sb s) = BBLOCK b (sb s)) as -> by (unfold BBLOCK, BPB, BSIZE in *; f_equal; dmlia).
  done.
Qed.

(** The bitmap block of the first free block [b]. *)
Lemma bitmap_hit q b s1 :
  0 ≤ q → q mod BPB = 0 → q ≤ b < q + BPB → b < sb_size (sb s) →
  evolves c i s s1 L (blk s) → free_block s b → (∀ b', q ≤ b' < b → ¬ free_block s b') →
  Z.of_nat (length L) + 1 < log_room s →
  ∃ s2, Fs.balloc_body 1 q s1 = Ok (inr b) s2 ∧
    evolves c i s s2 (absorb b (absorb (BBLOCK b (sb s)) L))
      (λ m, if decide (m = b) then replicate (Z.to_nat BSIZE) 0
            else if decide (m = BBLOCK b (sb s)) then set_bit (blk s m) (Z.to_nat (b mod BPB)) else blk s m).
Proof using Hl.
  intros Hq Hm Hb Hs He Hf Hu Hroom. pose proof (evolves_sb _ _ _ _ _ _ He) as Esb.
  assert (BBLOCK q (sb s) = BBLOCK b (sb s)) as EB by (unfold BBLOCK, BPB, BSIZE in *; f_equal; dmlia).
  assert (fhome s (BBLOCK b (sb s))) as Hh by (apply lo_bitmap; [done|lia]).
  destruct (lo_free s Hl b) as [Hhb HbB]; [lia|done|]. specialize (HbB b ltac:(lia)).
  destruct (open_block c i s1 L (ev_trans _ _ _ _ _ _ He) (BBLOCK b (sb s))) as (j & t & x & E1 & E2 & Hx & _ & Hupd).
  { by apply (evolves_home _ _ _ _ _ _ _ He). }
  rewrite (ev_blk _ _ _ _ _ _ He) in Hx by done. rewrite (ev_room _ _ _ _ _ _ He) in Hupd.
  destruct (Hupd ltac:(lia) (λ d, set_bit d (Z.to_nat (b mod BPB)))) as (s2 & E3 & He2). clear Hupd.
  pose proof (evolves_compose _ _ _ _ _ _ _ _ _ He He2) as He2'.
  destruct (open_block c i s2 _ (ev_trans _ _ _ _ _ _ He2') b) as (j' & t' & x' & E1' & _ & _ & _ & Hupd).
  { by apply (evolves_home _ _ _ _ _ _ _ He2'). }
  destruct (Hupd ltac:(rewrite (ev_room _ _ _ _ _ _ He2'); pose proof (absorb_length (BBLOCK b (sb s)) L); lia)
    (λ _, replicate (Z.to_nat BSIZE) 0)) as (s3 & E4 & He3). clear Hupd.
  exists s3. split.
  - unfold Fs.balloc_body. mred. rewrite Esb, EB. assert (q <? sb_size (sb s) = true) as -> by lia. cbn [negb].
    mstep E1. mstep E2. rewrite Hx.
    assert (Fs.scan_bits (blk s (BBLOCK b (sb s))) 0 (Z.to_nat (Z.min BPB (sb_size (sb s) - q))) = Some (Z.to_nat (b mod BPB))) as ->.
    { apply scan_bits_first; [unfold BPB, BSIZE in *; dmlia|done|]. intros k Hk. apply not_true_is_false. intros Hk'.
      apply (Hu (q + Z.of_nat k)); [unfold BPB, BSIZE in *; dmlia|]. unfold free_block.
      assert (BBLOCK (q + Z.of_nat k) (sb s) = BBLOCK b (sb s)) as -> by (unfold BBLOCK, BPB, BSIZE in *; f_equal; dmlia).
      assert ((q + Z.of_nat k) mod BPB = Z.of_nat k) as -> by (unfold BPB, BSIZE in *; dmlia). by rewrite Nat2Z.id. }
    assert (q + Z.of_nat (Z.to_nat (b mod BPB)) = b) as -> by (unfold BPB, BSIZE in *; dmlia).
    minv E3. minv E3. mstep E. mstep E0. destruct a, a0. mstep E3. unfold Fs.bzero. rewrite bind_assoc. mstep E1'.
    by mstep E4.
  - eapply evolves_ext; [by eapply evolves_compose|]. cbn beta. intros m Hm'. case_decide; [done|].
    rewrite (ev_blk _ _ _ _ _ _ He2') by done. case_decide; [|by apply (ev_blk _ _ _ _ _ _ He)].
    subst. by rewrite (ev_blk _ _ _ _ _ _ He).
Qed.

(** The contents after block [b] has been allocated. *)
Definition allocated (b m : Z) : block :=
  if decide (m = b) then replicate (Z.to_nat BSIZE) 0
  else if decide (m = BBLOCK b (sb s)) then set_bit (blk s m) (Z.to_nat (b mod BPB)) else blk s m.

Lemma balloc_iter b n s1 :
  0 ≤ b < sb_size (sb s) → free_block s b → (∀ b', 0 ≤ b' < b → ¬ free_block s b') →
  Z.of_nat (length L) + 1 < log_room s → (Z.of_nat n ≤ b / BPB) → evolves c i s s1 L (blk s) →
  ∃ s2, iter (Fs.balloc_body 1) (S n) ((b / BPB - Z.of_nat n) * BPB) s1 = Ok (inr b) s2 ∧
    evolves c i s s2 (absorb b (absorb (BBLOCK b (sb s)) L)) (allocated b).
Proof using Hl.
  intros Hb Hf Hu Hr. revert s1. induction n as [|n IH]; intros s1 Hn He.
  - destruct (bitmap_hit ((b / BPB - Z.of_nat 0) * BPB) b s1) as (s2 & E & He2); try done.
    1-3: unfold BPB, BSIZE in *; dmlia. { lia. } { intros b' Hb'. apply Hu. unfold BPB, BSIZE in *; dmlia. }
    exists s2. split; [|done]. by apply iter_exit.
  - destruct (bitmap_used ((b / BPB - Z.of_nat (S n)) * BPB) s1) as (s2 & E & He2); try done.
    1-3: unfold BPB, BSIZE in *; dmlia. { intros b' Hb' _. apply Hu. unfold BPB, BSIZE in *; dmlia. }
    destruct (IH s2) as (s3 & E' & He3); [lia|done|]. exists s3. split; [|done].
    rewrite (iter_next _ _ _ _ _ _ E).
    by replace ((b / BPB - Z.of_nat (S n)) * BPB + BPB) with ((b / BPB - Z.of_nat n) * BPB) by lia.
Qed.

Lemma balloc_run b :
  0 ≤ b < sb_size (sb s) → free_block s b → (∀ b', 0 ≤ b' < b → ¬ free_block s b') →
  Z.of_nat (length L) + 1 < log_room s →
  ∃ s', Fs.balloc 1 s = Ok b s' ∧ evolves c i s s' (absorb b (absorb (BBLOCK b (sb s)) L)) (allocated b).
Proof using Ht Hl.
  intros Hb Hf Hu Hr. pose proof (lo_size s Hl).
  destruct (balloc_iter b (Z.to_nat (b / BPB)) s) as (s2 & E & He); try done.
  { rewrite Z2Nat.id; [done|]. unfold BPB, BSIZE; dmlia. } { by apply evolves_refl. }
  exists s2. split; [|done]. eapply loop_iter.
  - rewrite Z2Nat.id, Z.sub_diag in E by (unfold BPB, BSIZE; dmlia). exact E.
  - change (2 ^ Z.of_nat 21) with 2097152. unfold BPB, BSIZE; dmlia.
Qed.

(** Changing the bit of block [b] changes no other bit, and keeps the layout. *)
Lemma bit_changed b b' d f v :
  (∀ d bi bi', (bi / 8 < length d)%nat → Fs.bit_free (f d bi) bi' = if decide (bi' = bi) then v else Fs.bit_free d bi') →
  0 ≤ b < sb_size (sb s) → 0 ≤ b' < sb_size (sb s) →
  d = (if decide (BBLOCK b' (sb s) = BBLOCK b (sb s)) then f (blk s (BBLOCK b' (sb s))) (Z.to_nat (b mod BPB))
       else blk s (BBLOCK b' (sb s))) →
  Fs.bit_free d (Z.to_nat (b' mod BPB)) = true ↔ (if decide (b' = b) then v = true else free_block s b').
Proof using Hl.
  intros Hf Hb Hb' ->. pose proof (lo_size s Hl). pose proof (lo_start s Hl). case_decide as E.
  - apply BBLOCK_eq in E; [|lia..]. rewrite Hf.
    + destruct (decide (b' = b)) as [->|Hne]; [by rewrite decide_True|]. rewrite decide_False; [done|].
      unfold BPB, BSIZE in *. dmlia.
    + rewrite lo_length by done. apply Nat2Z.inj_lt. rewrite Nat2Z.inj_div. unfold BPB, BSIZE in *. dmlia.
  - rewrite decide_False by congruence. done.
Qed.
End balloc.

Lemma least_such (P : Z → Prop) `{∀ z, Decision (P z)} b :
  0 ≤ b → P b → ∃ b', 0 ≤ b' ≤ b ∧ P b' ∧ ∀ k, 0 ≤ k < b' → ¬ P k.
Proof.
  intros Hb. pattern b. apply Zlt_0_ind; [|done]. clear b Hb. intros b IH Hb Hp.
  destruct (decide (Exists P (seqZ 0 b))) as [(k & Hk & Hpk)%Exists_exists|Hno].
  - apply elem_of_seqZ in Hk. destruct (IH k) as (b' & ? & ? & ?); [lia|done|]. exists b'. split_and!; [lia|lia|done|done].
  - exists b. split_and!; [done|done|done|]. intros k Hk Hpk. apply Hno, Exists_exists. exists k. split; [|done].
    apply elem_of_seqZ. lia.
Qed.

(** A change of the bitmap that keeps the layout: the bit of [b] becomes [v]. *)
Lemma layout_after c i s s' L' g f v b :
  layout_ok s → evolves c i s s' L' g → 0 ≤ b < sb_size (sb s) →
  (∀ d bi bi', (bi / 8 < length d)%nat → Fs.bit_free (f d bi) bi' = if decide (bi' = bi) then v else Fs.bit_free d bi') →
  (∀ d bi, length (f d bi) = length d) →
  (∀ b', 0 ≤ b' < sb_size (sb s) → g (BBLOCK b' (sb s)) =
     if decide (BBLOCK b' (sb s) = BBLOCK b (sb s)) then f (blk s (BBLOCK b' (sb s))) (Z.to_nat (b mod BPB)) else blk s (BBLOCK b' (sb s))) →
  fhome s b ∧ (∀ b', 0 ≤ b' < sb_size (sb s) → BBLOCK b' (sb s) ≠ b) →
  layout_ok s' ∧ (∀ b', 0 ≤ b' < sb_size (sb s) → free_block s' b' ↔ if decide (b' = b) then v = true else free_block s b').
Proof.
  intros Hl He Hb Hf Hlen Hg Hdata. pose proof (evolves_sb _ _ _ _ _ _ He) as Esb.
  assert (∀ b', 0 ≤ b' < sb_size (sb s) → free_block s' b' ↔ if decide (b' = b) then v = true else free_block s b') as Hfree.
  { intros b' Hb'. rewrite (free_after _ _ _ _ _ _ He Hl) by done.
    apply (bit_changed s Hl b b' _ f v); [done..|]. by apply Hg. }
  split; [|done]. split; rewrite Esb.
  - apply Hl.
  - apply Hl.
  - intros b' Hb'. apply (evolves_home _ _ _ _ _ _ _ He). by apply lo_bitmap.
  - intros b' Hb'. rewrite (ev_blk _ _ _ _ _ _ He), Hg by (done || by apply lo_bitmap).
    case_decide; rewrite ?Hlen; by apply lo_length.
  - intros b' Hb' Hf'. apply Hfree in Hf'; [|done].
    assert (fhome s b' ∧ ∀ b0, 0 ≤ b0 < sb_size (sb s) → BBLOCK b0 (sb s) ≠ b') as [H1 H2].
    { case_decide; [by subst|by apply lo_free]. }
    split; [by apply (evolves_home _ _ _ _ _ _ _ He)|done].
Qed.

(** C4 [safety]: balloc() allocates the first free block of the bitmap and no
    block twice.  In a transaction with room for two more blocks and with some
    block free, it returns the lowest free block: that block is now marked used
    and zeroed, every other block keeps its mark and, the bitmap block apart,
    its contents, and the transaction has the two blocks it changed. *)
Theorem balloc_first_free c i s L b0 :
  in_trans c i s L → layout_ok s → Z.of_nat (length L) + 1 < log_room s →
  0 ≤ b0 < sb_size (sb s) → free_block s b0 →
  ∃ b s', Fs.balloc 1 s = Ok b s' ∧ 0 ≤ b ≤ b0 ∧ free_block s b ∧ (∀ b', 0 ≤ b' < b → ¬ free_block s b') ∧
    in_trans c i s' (absorb b (absorb (BBLOCK b (sb s)) L)) ∧ layout_ok s' ∧
    blk s' b = replicate (Z.to_nat BSIZE) 0 ∧
    (∀ b', 0 ≤ b' < sb_size (sb s) → free_block s' b' ↔ free_block s b' ∧ b' ≠ b) ∧
    (∀ m, fhome s m → m ≠ b → m ≠ BBLOCK b (sb s) → blk s' m = blk s m).
Proof.
  intros Ht Hl Hr Hb0 Hf0. destruct (least_such (free_block s) b0) as (b & Hb & Hf & Hu); [lia|done|].
  destruct (balloc_run c i s L Ht Hl b) as (s' & E & He); [lia|done..|].
  destruct (lo_free s Hl b) as [Hh Hd]; [lia|done|].
  destruct (layout_after c i s s' _ _ set_bit false b Hl He) as [Hl' Hf']; try done; [lia|apply bit_free_set| | |].
  { intros. apply length_insert. }
  { intros b' Hb'. unfold allocated. rewrite decide_False by auto. done. }
  exists b, s'. split_and!; try done; try lia.
  - apply He.
  - rewrite (ev_blk _ _ _ _ _ _ He) by done. unfold allocated. by rewrite decide_True.
  - intros b' Hb'. rewrite Hf' by done. case_decide; naive_solver.
  - intros m Hm H1 H2. rewrite (ev_blk _ _ _ _ _ _ He) by done. unfold allocated. by rewrite !decide_False.
Qed.

(** C20 [functional]: bfree() gives a block back.  A data block that is in use is
    marked free, no other mark changes, and only the bitmap block is written;
    freeing a block that is free already is caught by a panic. *)
Theorem bfree_frees c i s L b :
  in_trans c i s L → layout_ok s → Z.of_nat (length L) < log_room s → 0 ≤ b < sb_size (sb s) →
  fhome s b ∧ (∀ b', 0 ≤ b' < sb_size (sb s) → BBLOCK b' (sb s) ≠ b) →
  (free_block s b → Fs.bfree 1 b s = Panic "freeing free block") ∧
  (¬ free_block s b → ∃ s', Fs.bfree 1 b s = Ok tt s' ∧
    in_trans c i s' (absorb (BBLOCK b (sb s)) L) ∧ layout_ok s' ∧
    (∀ b', 0 ≤ b' < sb_size (sb s) → free_block s' b' ↔ free_block s b' ∨ b' = b) ∧
    (∀ m, fhome s m → m ≠ BBLOCK b (sb s) → blk s' m = blk s m)).
Proof.
  intros Ht Hl Hr Hb Hd.
  destruct (open_block c i s L Ht (BBLOCK b (sb s))) as (j & t & x & E1 & E2 & Hx & _ & Hupd); [by apply lo_bitmap|].
  split; unfold Fs.bfree; mred; mstep E1; mstep E2; rewrite Hx.
  { unfold free_block. by intros ->. }
  intros Hf. apply not_true_is_false in Hf. rewrite Hf.
  destruct (Hupd Hr (λ d, clear_bit d (Z.to_nat (b mod BPB)))) as (s' & E3 & He).
  exists s'. split; [exact E3|].
  destruct (layout_after c i s s' _ _ clear_bit true b Hl He) as [Hl' Hf']; try done; [apply bit_free_clear| | |].
  { intros. apply length_insert. }
  { intros b' Hb'. cbn beta. case_decide as E; [by rewrite E|done]. }
  split_and!; [apply He|done| |].
  - intros b' Hb'. rewrite Hf' by done. case_decide; naive_solver.
  - intros m Hm H1. rewrite (ev_blk _ _ _ _ _ _ He) by done. by rewrite decide_False.
Qed.

(** A disk of 50 blocks: the log in blocks 2 to 31, the inodes in block 32, the
    bitmap in block 33, which a transaction has just written, and the blocks
    from 34 on free. *)
Definition bitmap0 : block := [255; 255; 255; 255; 3] ++ replicate 507 0.
Definition lst2 : lst := match update_block 33 (λ _, bitmap0) lst0 with Ok _ s => s | _ => lst0 end.
#[global] Strategy 100 [lst2].
Definition fsst1 : fsst := Fsst (set_cl lst2 cst0) (Superblock 50 16 8 30 2 32 33) (replicate NINODE inode0) (replicate NDEV None).

Lemma lst2_pending :
  pending 1 0 ∅ lst2 [33] ∧ disk (lb lst2) = disk (lb lst0) ∧ log lst2 = logged 33 (log lst0) ∧ cont (lb lst2) 33 = bitmap0 ∧
  (∀ m, 32 ≤ m < 50 → m ≠ 33 → cont (lb lst2) m = replicate (Z.to_nat BSIZE) 0).
Proof.
  assert (home (log lst0) (disk_size (lb lst0)) 33) as Hh.
  { vm_compute. split; [split; [discriminate|reflexivity]|]. intros [_ H]. discriminate. }
  destruct (update_block_run 1 0 lst0 [] 33 (λ _, bitmap0) lst0_pending Hh) as (t & E & Hp & Hd & _ & _ & Hc); [cbn; lia..|].
  assert (lst2 = Lst t (logged 33 (log lst0))) as -> by (unfold lst2; by rewrite E).
  split_and!; [exact Hp|exact Hd|reflexivity|exact (Hc 33 Hh)|].
  assert (Forall (λ m, home (log lst0) (disk_size (lb lst0)) m ∧ cont (lb lst0) m = replicate (Z.to_nat BSIZE) 0) (seqZ 32 18)) as Hall.
  { apply Forall_forall. intros m Hm. split; [|revert m Hm; apply Forall_forall; refine (bool_decide_eq_true_1 _ _); by vm_compute].
    apply elem_of_seqZ in Hm. change (disk_size (lb lst0)) with 50. split; [lia|]. change (¬ (2 ≤ m < 32)). lia. }
  intros m Hm Hne. rewrite Forall_forall in Hall. destruct (Hall m) as [Hmh Hm0]; [apply elem_of_seqZ; lia|].
  change (cont t m = replicate (Z.to_nat BSIZE) 0). rewrite (Hc m Hmh), decide_False by lia. exact Hm0.
Qed.

Lemma fsst1_trans : in_trans 1 0 fsst1 [33].
Proof.
  destruct lst2_pending as (H1 & _ & H3 & _). split; [exact H1|]. change (1 ≤ outstanding (log lst2)). by rewrite H3.
Qed.

Lemma fsst1_home m : fhome fsst1 m ↔ 0 ≤ m < 50 ∧ ¬ (2 ≤ m < 32).
Proof.
  destruct lst2_pending as (_ & H2 & H3 & _). change (home (log lst2) (Z.of_nat (length (disk (lb lst2)))) m ↔ 0 ≤ m < 50 ∧ ¬ (2 ≤ m < 32)).
  rewrite H2, H3. done.
Qed.

Lemma fsst1_bitmap b : 0 ≤ b < 50 → BBLOCK b (sb fsst1) = 33.
Proof. intros Hb. change (u32 (b / BPB + 33) = 33). unfold BPB, BSIZE, u32. dmlia. Qed.

Lemma fsst1_free b : 0 ≤ b < 50 → free_block fsst1 b ↔ 34 ≤ b.
Proof.
  intros Hb. unfold free_block. rewrite fsst1_bitmap by done. change (blk fsst1 33) with (cont (lb lst2) 33).
  destruct lst2_pending as (_ & _ & _ & -> & _). revert Hb.
  assert (Forall (λ b, Fs.bit_free bitmap0 (Z.to_nat (b mod BPB)) = true ↔ 34 ≤ b) (seqZ 0 50)) as Hall
    by (refine (bool_decide_eq_true_1 _ _); by vm_compute).
  intros Hb. rewrite Forall_forall in Hall. apply Hall, elem_of_seqZ. lia.
Qed.

Lemma fsst1_layout : layout_ok fsst1.
Proof.
  split.
  - cbn. lia.
  - cbn. lia.
  - intros b Hb. rewrite fsst1_bitmap by done. apply fsst1_home. lia.
  - intros b Hb. rewrite fsst1_bitmap by done. change (length (cont (lb lst2) 33) = Z.to_nat BSIZE).
    destruct lst2_pending as (_ & _ & _ & -> & _). done.
  - intros b Hb Hf. apply fsst1_free in Hf; [|done]. change (sb_size (sb fsst1)) with 50 in *.
    split; [apply fsst1_home; lia|]. intros b' Hb'. rewrite fsst1_bitmap by done. lia.
Qed.

Lemma fsst1_room : log_room fsst1 = 29.
Proof. unfold log_room. change (lsize (log lst2) - 1 = 29). destruct lst2_pending as (_ & _ & -> & _). done. Qed.

Lemma balloc_first_free_witness : ∃ b s', Fs.balloc 1 fsst1 = Ok b s' ∧ 0 ≤ b ≤ 40 ∧ blk s' b = replicate (Z.to_nat BSIZE) 0.
Proof.
  destruct (balloc_first_free 1 0 fsst1 [33] 40 fsst1_trans fsst1_layout) as (b & s' & E & Hb & _ & _ & _ & _ & Hz & _).
  - rewrite fsst1_room. cbn. lia.
  - cbn. lia.
  - apply fsst1_free; lia.
  - exists b, s'. split_and!; [exact E|lia|lia|exact Hz].
Defined.

Lemma bfree_frees_witness : Fs.bfree 1 40 fsst1 = Panic "freeing free block".
Proof.
  destruct (bfree_frees 1 0 fsst1 [33] 40 fsst1_trans fsst1_layout) as [H _].
  - rewrite fsst1_room. cbn. lia.
  - cbn. lia.
  - split; [apply fsst1_home; lia|]. intros b' Hb'. rewrite fsst1_bitmap by exact Hb'. lia.
  - apply H. apply fsst1_free; lia.
Defined.
