(* ===== verification/FsData.v ===== *)
(** * The contents of files: readi and writei of fs.c

    The bytes of a file are those of its blocks, which its inode and indirect block
    name.  readi() returns them; writei() replaces a part of them. *)

From S2P Require Import Prelude Machine Proc CString Kalloc Sleeplock Bio Log Console Fs FsSpec.
Open Scope kernel_scope.

(** ** Contents of files *)

(** The address of block [k] of the file, and the byte at offset [a]. *)
Definition file_block (s : fsst) (x : inode) (k : Z) : Z :=
  if k <? Z.of_nat NDIRECT then addrs x !!! Z.to_nat k
  else get_word (blk s (addrs x !!! NDIRECT)) (Z.to_nat (k - Z.of_nat NDIRECT)).
Definition byte_at (s : fsst) (x : inode) (a : Z) : Z :=
  blk s (file_block s x (a / BSIZE)) !!! Z.to_nat (a mod BSIZE).
Definition file_bytes (s : fsst) (x : inode) (off n : Z) : list Z := byte_at s x <$> seqZ off n.

(** Every block of the file up to its size is allocated. *)
Record file_ok (s : fsst) (x : inode) : Prop := {
  fo_dev : idev x = 1;
  fo_type : itype x ≠ T_DEV;
  fo_size : 0 ≤ isize x ≤ MAXFILE * BSIZE;
  fo_block k : 0 ≤ k → k * BSIZE < isize x →
    file_block s x k ≠ 0 ∧ fhome s (file_block s x k) ∧ length (blk s (file_block s x k)) = Z.to_nat BSIZE;
  fo_indirect : Z.of_nat NDIRECT * BSIZE < isize x →
    addrs x !!! NDIRECT ≠ 0 ∧ fhome s (addrs x !!! NDIRECT);
}.

Definition inode_at (s : fsst) (ip : nat) : inode := inodes s !!! ip.

Lemma get_inode_run ip s : Fs.get_inode ip s = Ok (inode_at s ip) s.
Proof. done. Qed.

Lemma evolves_inode c i s s' L g ip : evolves c i s s' L g → inode_at s' ip = inode_at s ip.
Proof. intros H. unfold inode_at. by rewrite (ev_state _ _ _ _ _ _ H). Qed.

Lemma evolves_again c i s s1 s2 L : evolves c i s s1 L (blk s) → evolves c i s1 s2 L (blk s1) → evolves c i s s2 L (blk s).
Proof.
  intros H1 H2. eapply evolves_ext; [by eapply evolves_compose|]. intros m Hm. by apply (ev_blk _ _ _ _ _ _ H1).
Qed.

(** Reading a block and releasing it. *)
Lemma read_block c i s L n :
  in_trans c i s L → fhome s n →
  ∃ j t x s', bread 1 n s = Ok j t ∧ get_buf j t = Ok x t ∧ data x = blk s n ∧ brelse j t = Ok tt s' ∧
    evolves c i s s' L (blk s).
Proof.
  intros Ht Hn. destruct (open_block c i s L Ht n Hn) as (j & t & x & E1 & E2 & Hx & (s' & E3 & He) & _).
  by exists j, t, x, s'.
Qed.

Section contents.
Context (c i : nat) (s : fsst) (L : list Z) (ip : nat) (x : inode).
Context (Hx : inode_at s ip = x) (Hok : file_ok s x).

Lemma file_block_same s1 k : evolves c i s s1 L (blk s) → 0 ≤ k → k * BSIZE < isize x → file_block s1 x k = file_block s x k.
Proof using Hok.
  intros He Hk Hs. unfold file_block. destruct (Z.ltb_spec k (Z.of_nat NDIRECT)); [done|].
  rewrite (ev_blk _ _ _ _ _ _ He); [done|]. apply fo_indirect; [done|]. unfold BSIZE in *. lia.
Qed.

(** bmap() on an allocated block. *)
Lemma bmap_run s1 k :
  evolves c i s s1 L (blk s) → 0 ≤ k → k * BSIZE < isize x →
  ∃ s2, Fs.bmap ip k s1 = Ok (file_block s x k) s2 ∧ evolves c i s s2 L (blk s).
Proof using Hx Hok.
  intros He Hk Hs. destruct (fo_block _ _ Hok k Hk Hs) as (Hn0 & _). pose proof (fo_size _ _ Hok) as Hsz.
  pose proof (file_block_same s1 k He Hk Hs) as Efb. rewrite <- Efb in Hn0 |- *.
  unfold Fs.bmap. mstep (get_inode_run ip s1). rewrite (evolves_inode _ _ _ _ _ _ _ He), Hx. unfold file_block in *.
  destruct (Z.ltb_spec k (Z.of_nat NDIRECT)) as [Hd|Hd].
  { rewrite (proj2 (Z.eqb_neq _ _) Hn0). by exists s1. }
  destruct (fo_indirect _ _ Hok) as (Ha0 & Hah); [unfold BSIZE in *; lia|].
  assert (k - Z.of_nat NDIRECT <? Z.of_nat NINDIRECT = true) as -> by (unfold MAXFILE, BSIZE in *; lia).
  rewrite (proj2 (Z.eqb_neq _ _) Ha0), (fo_dev _ _ Hok), run_bind_ret.
  destruct (read_block c i s1 L (addrs x !!! NDIRECT)) as (j & t & b & s2 & E1 & E2 & Hb & E3 & He2);
    [apply He|by apply (evolves_home _ _ _ _ _ _ _ He)|].
  mstep E1. mstep E2. rewrite Hb, (proj2 (Z.eqb_neq _ _) Hn0), run_bind_ret. mstep E3. exists s2. split; [done|].
  by apply (evolves_again _ _ _ s1).
Qed.

(** The bytes readi() takes from one block. *)
Lemma block_bytes off m :
  0 ≤ off → 0 ≤ m → off mod BSIZE + m ≤ BSIZE → off < isize x →
  take (Z.to_nat m) (drop (Z.to_nat (off mod BSIZE)) (blk s (file_block s x (off / BSIZE)))) = file_bytes s x off m.
Proof using Hok.
  intros Ho Hm Hle Hsz. destruct (fo_block _ _ Hok (off / BSIZE)) as (_ & _ & Hl).
  1-2: unfold BSIZE in *; dmlia.
  set (d := blk s _) in *. unfold file_bytes. apply list_eq_same_length with (Z.to_nat m).
  - by rewrite length_fmap, length_seqZ.
  - rewrite length_take, length_drop, Hl. unfold BSIZE in *. dmlia.
  - intros k a b Hk. rewrite lookup_take_lt, lookup_drop, list_lookup_fmap by done.
    intros E1. rewrite lookup_seqZ_lt by lia. cbn [fmap option_fmap option_map]. intros [= <-].
    unfold byte_at. assert ((off + Z.of_nat k) / BSIZE = off / BSIZE) as -> by (unfold BSIZE in *; dmlia).
    assert (Z.to_nat ((off + Z.of_nat k) mod BSIZE) = Z.to_nat (off mod BSIZE) + k)%nat as -> by (unfold BSIZE in *; dmlia).
    fold d. by rewrite (list_lookup_total_correct _ _ _ E1).
Qed.

Lemma file_bytes_app off n m : 0 ≤ n → 0 ≤ m → file_bytes s x off n ++ file_bytes s x (off + n) m = file_bytes s x off (n + m).
Proof using. intros. unfold file_bytes. by rewrite <- fmap_app, <- seqZ_app. Qed.

Lemma readi_step off0 n tot s1 :
  0 ≤ off0 → 0 ≤ tot < n → off0 + n ≤ isize x → evolves c i s s1 L (blk s) →
  ∃ m s2, 0 < m ≤ n - tot ∧ evolves c i s s2 L (blk s) ∧
    Fs.readi_body ip n (tot, off0 + tot, file_bytes s x off0 tot) s1 =
      Ok (inl (tot + m, off0 + (tot + m), file_bytes s x off0 (tot + m))) s2.
Proof using Hx Hok.
  intros Ho Ht Hs He. set (off := off0 + tot). set (m := Z.min (n - tot) (BSIZE - off mod BSIZE)).
  assert (0 ≤ off / BSIZE ∧ off / BSIZE * BSIZE < isize x) as [Hk Hks] by (unfold off, BSIZE in *; dmlia).
  destruct (bmap_run s1 _ He Hk Hks) as (s2 & E1 & He2). destruct (fo_block _ _ Hok _ Hk Hks) as (_ & Hh & _).
  destruct (read_block c i s2 L (file_block s x (off / BSIZE))) as (j & t & b & s3 & E2 & E3 & Hb & E4 & He3);
    [apply He2|by apply (evolves_home _ _ _ _ _ _ _ He2)|].
  rewrite (ev_blk _ _ _ _ _ _ He2) in Hb by done.
  exists m, s3. split_and!; [unfold m, off, BSIZE; dmlia|unfold m; lia|by apply (evolves_again _ _ _ s2)|].
  unfold Fs.readi_body. assert (tot <? n = true) as -> by lia. cbn [negb].
  mstep (get_inode_run ip s1). rewrite (evolves_inode _ _ _ _ _ _ _ He), Hx, (fo_dev _ _ Hok).
  mstep E1. mstep E2. mstep E3. mstep E4. fold m. rewrite Hb, block_bytes; cycle 1.
  1-4: unfold m, off, BSIZE in *; dmlia.
  rewrite file_bytes_app by (unfold m, off, BSIZE in *; dmlia). pose proof (fo_size _ _ Hok) as Hsz.
  rewrite (u32_id (off + m)) by (unfold is_u32, m, off, MAXFILE, NDIRECT, NINDIRECT, BSIZE in *; dmlia).
  do 4 f_equal. unfold off. lia.
Qed.

Lemma readi_iter off0 n k tot s1 :
  0 ≤ off0 → 0 ≤ tot ≤ n → off0 + n ≤ isize x → (Z.to_nat (n - tot) ≤ k)%nat → evolves c i s s1 L (blk s) →
  ∃ s2, iter (Fs.readi_body ip n) (S k) (tot, off0 + tot, file_bytes s x off0 tot) s1 = Ok (inr (file_bytes s x off0 n)) s2 ∧
    evolves c i s s2 L (blk s).
Proof using Hx Hok.
  intros Ho. revert tot s1. induction k as [|k IH]; intros tot s1 Ht Hs Hk He.
  all: destruct (decide (tot = n)) as [->|Hne];
    [exists s1; split; [apply iter_exit; unfold Fs.readi_body; by rewrite Z.ltb_irrefl|done]|].
  - lia.
  - destruct (readi_step off0 n tot s1) as (m & s2 & Hm & He2 & E); [lia..|done|].
    rewrite (iter_next _ _ _ _ _ _ E). apply IH; [lia..|done].
Qed.

(** readi() of [n] bytes from [off]: at the end of the file the rest. *)
Lemma readi_run off n :
  in_trans c i s L → 0 ≤ off ≤ isize x → is_u32 n → off + n < 2 ^ 32 →
  ∃ s', Fs.readi ip off n s = Ok (Z.min n (isize x - off), file_bytes s x off (Z.min n (isize x - off))) s' ∧
    evolves c i s s' L (blk s).
Proof using Hx Hok.
  intros Htr Ho Hn Hov. pose proof (fo_size _ _ Hok) as Hsz. unfold is_u32 in Hn.
  set (n' := Z.min n (isize x - off)).
  destruct (readi_iter off n' (Z.to_nat n') 0 s) as (s' & E & He);
    [lia|unfold n'; lia|unfold n'; lia|lia|by apply evolves_refl|].
  exists s'. split; [|done]. unfold Fs.readi. mstep (get_inode_run ip s). rewrite Hx.
  rewrite (proj2 (Z.eqb_neq _ _) (fo_type _ _ Hok)). rewrite (u32_id (off + n)) by (unfold is_u32; lia).
  assert (isize x <? off = false) as -> by lia. assert (off + n <? off = false) as -> by lia. cbn [orb].
  assert ((if isize x <? off + n then isize x -u off else n) = n') as ->.
  { unfold n'. destruct (Z.ltb_spec (isize x) (off + n)); [|lia].
    rewrite u32_id; [lia|]. unfold is_u32, MAXFILE, NDIRECT, NINDIRECT, BSIZE in *. lia. }
  assert (loop (Fs.readi_body ip n') 32 (0, off, []) s = Ok (file_bytes s x off n') s') as El.
  { eapply loop_iter; [rewrite Z.add_0_r in E; exact E|]. change (2 ^ Z.of_nat 32) with 4294967296. unfold n', MAXFILE, NDIRECT, NINDIRECT, BSIZE in *. lia. }
  mstep El. rewrite s32_id; [done|]. unfold is_s32, n', MAXFILE, NDIRECT, NINDIRECT, BSIZE in *. lia.
Qed.
End contents.

(** ** Overwriting a part of a file *)

Lemma overwrite_length o bytes d : (o + length bytes ≤ length d)%nat → length (Fs.overwrite o bytes d) = length d.
Proof. intros H. unfold Fs.overwrite. rewrite !length_app, length_take, length_drop. lia. Qed.

Lemma overwrite_lookup o bytes d j : (o + length bytes ≤ length d)%nat →
  Fs.overwrite o bytes d !!! j = if decide (o ≤ j < o + length bytes)%nat then bytes !!! (j - o)%nat else d !!! j.
Proof.
  intros H. unfold Fs.overwrite. assert (length (take o d) = o) as Hl by (rewrite length_take; lia).
  case_decide as Hj.
  - rewrite lookup_total_app_r, Hl, lookup_total_app_l by lia. done.
  - destruct (decide (j < o)%nat).
    + rewrite lookup_total_app_l, lookup_total_take_lt by lia. done.
    + rewrite !lookup_total_app_r, Hl, lookup_total_drop by lia. f_equal. lia.
Qed.

Lemma decide_iff {A} (P Q : Prop) `{Decision P, Decision Q} (a b : A) :
  (P ↔ Q) → (if decide P then a else b) = (if decide Q then a else b).
Proof. intros H'. destruct (decide P), (decide Q); tauto. Qed.

(** Offsets within one block. *)
Lemma in_piece a o m :
  0 ≤ a → 0 ≤ o → 0 ≤ m → a / BSIZE = o / BSIZE → o mod BSIZE + m ≤ BSIZE →
  (o ≤ a < o + m ↔ (Z.to_nat (o mod BSIZE) ≤ Z.to_nat (a mod BSIZE) < Z.to_nat (o mod BSIZE) + Z.to_nat m)%nat) ∧
  (o ≤ a < o + m → (Z.to_nat (a mod BSIZE) - Z.to_nat (o mod BSIZE))%nat = Z.to_nat (a - o)).
Proof. unfold BSIZE. intros ???. dmlia. Qed.

(** The blocks of a file are its own: no two of its blocks, and no block and the
    indirect block, are the same. *)
Record file_sep (s : fsst) (x : inode) : Prop := {
  fs_inj k k' : 0 ≤ k → k * BSIZE < isize x → 0 ≤ k' → k' * BSIZE < isize x →
    file_block s x k = file_block s x k' → k = k';
  fs_indirect k : 0 ≤ k → k * BSIZE < isize x → Z.of_nat NDIRECT * BSIZE < isize x →
    file_block s x k ≠ addrs x !!! NDIRECT;
}.

Section writing.
Context (c i : nat) (s : fsst) (L : list Z) (ip : nat) (x : inode) (src : list Z) (off : Z).
Context (Hx : inode_at s ip = x) (Hok : file_ok s x) (Hsep : file_sep s x).
Context (Hoff : 0 ≤ off) (Hend : off + Z.of_nat (length src) ≤ isize x).

(** The first [tot] bytes have been written, in the state [s1]. *)
Record wrote_upto (tot : Z) (s1 : fsst) (L1 : list Z) : Prop := {
  wr_ev : evolves c i s s1 L1 (blk s1);
  wr_bytes a : 0 ≤ a < isize x →
    byte_at s1 x a = if decide (off ≤ a < off + tot) then src !!! Z.to_nat (a - off) else byte_at s x a;
  wr_len k : 0 ≤ k → k * BSIZE < isize x → length (blk s1 (file_block s x k)) = Z.to_nat BSIZE;
  wr_other m : fhome s m → (∀ k, 0 ≤ k → k * BSIZE < isize x → m ≠ file_block s x k) → blk s1 m = blk s m;
}.

Lemma wrote_block tot s1 L1 k :
  wrote_upto tot s1 L1 → 0 ≤ k → k * BSIZE < isize x → file_block s1 x k = file_block s x k.
Proof using Hok Hsep.
  intros Hw Hk Hs. unfold file_block at 1 2. destruct (Z.ltb_spec k (Z.of_nat NDIRECT)); [done|].
  assert (Z.of_nat NDIRECT * BSIZE < isize x) as Hi by (unfold BSIZE in *; lia).
  rewrite (wr_other _ _ _ Hw); [done|by apply fo_indirect|]. intros k' ? ?. apply not_eq_sym. by apply fs_indirect.
Qed.

Lemma wrote_ok tot s1 L1 : wrote_upto tot s1 L1 → file_ok s1 x.
Proof using Hok Hsep.
  intros Hw. pose proof Hok as [H1 H2 H3 H4 H5]. split; try done.
  - intros k Hk Hs. rewrite (wrote_block _ _ _ _ Hw) by done. destruct (H4 k Hk Hs) as (? & ? & ?).
    split_and!; [done|by apply (evolves_home _ _ _ _ _ _ _ (wr_ev _ _ _ Hw))|by apply (wr_len _ _ _ Hw)].
  - intros Hi. destruct (H5 Hi). split; [done|]. by apply (evolves_home _ _ _ _ _ _ _ (wr_ev _ _ _ Hw)).
Qed.

(** The next piece. *)
Definition piece (tot : Z) : Z := Z.min (Z.of_nat (length src) - tot) (BSIZE - (off + tot) mod BSIZE).

Definition piece_bytes (tot : Z) : list Z := take (Z.to_nat (piece tot)) (drop (Z.to_nat tot) src).

Lemma piece_fits tot : 0 ≤ tot < Z.of_nat (length src) →
  0 < piece tot ∧ tot + piece tot ≤ Z.of_nat (length src) ∧ (off + tot) mod BSIZE + piece tot ≤ BSIZE ∧
  length (piece_bytes tot) = Z.to_nat (piece tot).
Proof using Hoff.
  intros Ht. assert (0 < piece tot ∧ tot + piece tot ≤ Z.of_nat (length src) ∧ (off + tot) mod BSIZE + piece tot ≤ BSIZE) as (H1 & H2 & H3)
    by (unfold piece, BSIZE in *; dmlia).
  split_and!; [done..|]. unfold piece_bytes. rewrite length_take, length_drop. lia.
Qed.

(** Writing the piece into its block. *)
Lemma wrote_next tot s1 L1 s2 L2 :
  let fb := file_block s x ((off + tot) / BSIZE) in
  wrote_upto tot s1 L1 → 0 ≤ tot < Z.of_nat (length src) →
  evolves c i s1 s2 L2 (λ m, if decide (m = fb) then Fs.overwrite (Z.to_nat ((off + tot) mod BSIZE)) (piece_bytes tot) (blk s1 fb) else blk s1 m) →
  wrote_upto (tot + piece tot) s2 L2.
Proof using Hok Hsep Hoff Hend.
  intros fb Hw Ht He. destruct (piece_fits tot Ht) as (Hm0 & Hmn & Hmb & Hl).
  assert (0 ≤ (off + tot) / BSIZE ∧ (off + tot) / BSIZE * BSIZE < isize x) as [Hk Hks] by (unfold BSIZE in *; dmlia).
  pose proof (wr_len _ _ _ Hw _ Hk Hks) as Hlen. fold fb in Hlen.
  assert (Z.to_nat ((off + tot) mod BSIZE) + length (piece_bytes tot) ≤ length (blk s1 fb))%nat as Hfit
    by (rewrite Hl, Hlen; unfold BSIZE in *; dmlia).
  assert (∀ m, fhome s m → blk s2 m = if decide (m = fb) then Fs.overwrite (Z.to_nat ((off + tot) mod BSIZE)) (piece_bytes tot) (blk s1 fb) else blk s1 m) as Hb.
  { intros m Hm. apply (ev_blk _ _ _ _ _ _ He). by apply (evolves_home _ _ _ _ _ _ _ (wr_ev _ _ _ Hw)). }
  assert (∀ m, fhome s m → (∀ k, 0 ≤ k → k * BSIZE < isize x → m ≠ file_block s x k) → blk s2 m = blk s m) as Hother.
  { intros m Hm Hne. rewrite Hb, decide_False by (done || by apply Hne). by apply (wr_other _ _ _ Hw). }
  split.
  - eapply evolves_ext; [eapply evolves_compose; [apply Hw|exact He]|]. intros m Hm. by rewrite Hb.
  - intros a Ha. pose proof (wr_bytes _ _ _ Hw a Ha) as Hba. unfold byte_at in Hba |- *.
    assert (0 ≤ a / BSIZE ∧ a / BSIZE * BSIZE < isize x) as [Hq Hqs] by (unfold BSIZE in *; dmlia).
    destruct (fo_block _ _ Hok _ Hq Hqs) as (_ & Hah & _).
    assert (file_block s2 x (a / BSIZE) = file_block s x (a / BSIZE)) as ->.
    { unfold file_block. destruct (Z.ltb_spec (a / BSIZE) (Z.of_nat NDIRECT)); [done|].
      assert (Z.of_nat NDIRECT * BSIZE < isize x) as Hi by (unfold BSIZE in *; lia).
      rewrite Hother; [done|by apply fo_indirect|]. intros k' ? ?. apply not_eq_sym. by apply fs_indirect. }
    rewrite (wrote_block _ _ _ _ Hw Hq Hqs) in Hba. rewrite Hb by done.
    destruct (decide (a / BSIZE = (off + tot) / BSIZE)) as [Eq|Eq].
    + rewrite Eq in Hba |- *. fold fb in Hba |- *. rewrite (decide_True (P := fb = fb)) by done. rewrite overwrite_lookup, Hl by done.
      destruct (in_piece a (off + tot) (piece tot)) as [Hin Hsub]; [lia..|done|done|].
      destruct (decide (off + tot ≤ a < off + tot + piece tot)) as [Hj|Hj].
      * rewrite !decide_True by (lia || by apply Hin). unfold piece_bytes. rewrite (Hsub Hj).
        rewrite lookup_total_take_lt, lookup_total_drop by lia. f_equal. lia.
      * rewrite decide_False by (by rewrite <- Hin). rewrite Hba. apply decide_iff. lia.
    + rewrite decide_False; [rewrite Hba|intros E; apply Eq; by apply (fs_inj _ _ Hsep)].
      apply decide_iff. assert (¬ (off + tot ≤ a < off + tot + piece tot)); [|lia].
      intros Hj. apply Eq. unfold BSIZE in *. dmlia.
  - intros k Hk' Hks'. rewrite Hb by (by apply fo_block). case_decide as E; [|by apply (wr_len _ _ _ Hw)].
    by rewrite overwrite_length.
  - done.
Qed.

Lemma writei_step tot s1 L1 :
  wrote_upto tot s1 L1 → 0 ≤ tot < Z.of_nat (length src) → Z.of_nat (length L1) < log_room s →
  ∃ s2, let k := file_block s x ((off + tot) / BSIZE) in
    wrote_upto (tot + piece tot) s2 (absorb k L1) ∧
    Fs.writei_body ip (Z.of_nat (length src)) (tot, off + tot, drop (Z.to_nat tot) src) s1 =
      Ok (inl (tot + piece tot, off + (tot + piece tot), drop (Z.to_nat (tot + piece tot)) src)) s2.
Proof using Hx Hok Hsep Hoff Hend.
  intros Hw Ht Hroom. set (k := (off + tot) / BSIZE). set (m := piece tot). pose proof (wr_ev _ _ _ Hw) as He.
  assert (0 ≤ k ∧ k * BSIZE < isize x) as [Hk Hks] by (unfold k, BSIZE in *; dmlia).
  pose proof (wrote_block _ _ _ _ Hw Hk Hks) as Ek. destruct (fo_block _ _ Hok k Hk Hks) as (_ & Hh & _).
  assert (inode_at s1 ip = x) as Hx1 by (by rewrite (evolves_inode _ _ _ _ _ _ _ He)).
  destruct (bmap_run c i s1 L1 ip x Hx1 (wrote_ok _ _ _ Hw) s1 k) as (s2 & E1 & He2); [by apply evolves_refl, He|done..|].
  rewrite Ek in E1. set (fb := file_block s x k) in *.
  assert (fhome s2 fb) as Hh2 by (apply (evolves_home _ _ _ _ _ _ _ He2), (evolves_home _ _ _ _ _ _ _ He); done).
  destruct (open_block c i s2 L1 (ev_trans _ _ _ _ _ _ He2) fb Hh2) as (j & t & b & E2 & _ & _ & _ & Hupd).
  destruct (Hupd ltac:(rewrite (ev_room _ _ _ _ _ _ He2), (ev_room _ _ _ _ _ _ He); done)
    (λ d, Fs.overwrite (Z.to_nat ((off + tot) mod BSIZE)) (piece_bytes tot) d)) as (s3 & E3 & He3).
  exists s3. cbv zeta. destruct (piece_fits tot Ht) as (Hm0 & Hmn & Hmb & _). split.
  - apply (wrote_next tot s1 L1); [done..|]. eapply evolves_ext; [by eapply evolves_compose|].
    cbn beta. intros m' Hm'. fold k fb. case_decide; [|by apply (ev_blk _ _ _ _ _ _ He2)].
    by rewrite (ev_blk _ _ _ _ _ _ He2) by (by apply (evolves_home _ _ _ _ _ _ _ He)).
  - unfold Fs.writei_body. assert (tot <? Z.of_nat (length src) = true) as -> by lia. cbn [negb].
    mstep (get_inode_run ip s1). rewrite Hx1, (fo_dev _ _ Hok). mstep E1. mstep E2. fold (piece tot). fold m.
    minv E3. minv E3. mstep E. mstep E0. destruct a, a0. mstep E3. rewrite drop_drop.
    pose proof (fo_size _ _ Hok) as Hsz.
    rewrite (u32_id (off + tot + m)) by (unfold is_u32, m, MAXFILE, NDIRECT, NINDIRECT, BSIZE in *; lia).
    replace (Z.to_nat tot + Z.to_nat m)%nat with (Z.to_nat (tot + m)) by (unfold m; lia).
    do 4 f_equal. lia.
Qed.

(** Each block written takes one slot of the log; [blocks_upto tot] of them
    have been written when the loop goes on after [tot] bytes. *)
Definition blocks_upto (tot : Z) : Z := (tot + 511) / 512.

Lemma writei_iter k tot s1 L1 :
  wrote_upto tot s1 L1 → 0 ≤ tot ≤ Z.of_nat (length src) → (Z.to_nat (Z.of_nat (length src) - tot) ≤ k)%nat →
  (tot = 0 ∨ (off + tot) mod BSIZE = 0 ∨ tot = Z.of_nat (length src)) →
  (tot < Z.of_nat (length src) → Z.of_nat (length L1) ≤ Z.of_nat (length L) + blocks_upto tot) →
  Z.of_nat (length L) + blocks_upto (Z.of_nat (length src)) < log_room s →
  ∃ s2 L2, iter (Fs.writei_body ip (Z.of_nat (length src))) (S k) (tot, off + tot, drop (Z.to_nat tot) src) s1 =
      Ok (inr (off + Z.of_nat (length src))) s2 ∧ wrote_upto (Z.of_nat (length src)) s2 L2.
Proof using Hx Hok Hsep Hoff Hend.
  revert tot s1 L1. induction k as [|k IH]; intros tot s1 L1 Hw Ht Hk Hal HL Hroom.
  all: destruct (decide (tot = Z.of_nat (length src))) as [Etot|Hne];
    [subst tot; exists s1, L1; split; [apply iter_exit; unfold Fs.writei_body; by rewrite Z.ltb_irrefl|done]|].
  - lia.
  - destruct (writei_step tot s1 L1) as (s2 & Hw2 & E); [done|lia| |].
    { unfold blocks_upto in *. specialize (HL ltac:(lia)). dmlia. }
    destruct (piece_fits tot ltac:(lia)) as (Hm0 & Hmn & Hmb & _).
    rewrite (iter_next _ _ _ _ _ _ E). apply (IH _ _ _ Hw2); [lia|lia| | |done].
    + unfold piece, BSIZE in *. dmlia.
    + intros Hlt. pose proof (absorb_length (file_block s x ((off + tot) / BSIZE)) L1). specialize (HL ltac:(lia)).
      unfold blocks_upto, piece, BSIZE in *. dmlia.
Qed.

Lemma wrote_nothing : in_trans c i s L → wrote_upto 0 s L.
Proof using Hok.
  intros Htr. split; [by apply evolves_refl| |intros; by apply fo_block|done].
  intros a Ha. rewrite decide_False by lia. done.
Qed.

Lemma writei_run :
  in_trans c i s L → Z.of_nat (length L) + blocks_upto (Z.of_nat (length src)) < log_room s →
  ∃ s' L', Fs.writei ip src off s = Ok (Z.of_nat (length src)) s' ∧ wrote_upto (Z.of_nat (length src)) s' L'.
Proof using Hx Hok Hsep Hoff Hend.
  intros Htr Hroom. pose proof (fo_size _ _ Hok) as Hsz.
  destruct (writei_iter (length src) 0 s L) as (s' & L' & E & Hw);
    [by apply wrote_nothing|lia|lia|by left|intros; unfold blocks_upto; dmlia|done|].
  exists s', L'. split; [|done]. unfold Fs.writei. mstep (get_inode_run ip s). rewrite Hx.
  assert (0 ≤ off + Z.of_nat (length src) ≤ 71680) as Hb by (unfold MAXFILE, NDIRECT, NINDIRECT, BSIZE in *; lia).
  rewrite (proj2 (Z.eqb_neq _ _) (fo_type _ _ Hok)), (u32_id (off + Z.of_nat (length src))) by (unfold is_u32; lia).
  assert (isize x <? off = false) as -> by lia.
  assert (off + Z.of_nat (length src) <? off = false) as -> by lia. cbn [orb].
  assert (MAXFILE * BSIZE <? off + Z.of_nat (length src) = false) as -> by lia.
  assert (loop (Fs.writei_body ip (Z.of_nat (length src))) 32 (0, off, src) s = Ok (off + Z.of_nat (length src)) s') as El.
  { eapply loop_iter; [rewrite Z.add_0_r in E; exact E|]. change (2 ^ Z.of_nat 32) with 4294967296. lia. }
  mstep El. mstep (get_inode_run ip s'). rewrite (evolves_inode _ _ _ _ _ _ _ (wr_ev _ _ _ Hw)), Hx.
  assert (isize x <? off + Z.of_nat (length src) = false) as -> by lia. rewrite andb_false_r, run_when_false, run_bind_ret.
  rewrite s32_id; [done|]. unfold is_s32. lia.
Qed.
End writing.

(** C11 [functional]: readi() reads the file.  Of a file whose blocks are all
    allocated, direct and indirect ones, a read of [n] bytes at an offset within
    the file returns the bytes of the file from that offset on, as many as the
    file has, and no block of the disk, no inode and no part of the transaction
    changes. *)
Theorem readi_reads c i s L ip off n :
  let x := inode_at s ip in
  in_trans c i s L → file_ok s x → 0 ≤ off ≤ isize x → 0 ≤ n → off + n < 2 ^ 32 →
  ∃ s', Fs.readi ip off n s = Ok (Z.min n (isize x - off), file_bytes s x off (Z.min n (isize x - off))) s' ∧
    in_trans c i s' L ∧ inodes s' = inodes s ∧ (∀ m, fhome s m → blk s' m = blk s m).
Proof.
  intros x Htr Hok Ho Hn Hov. destruct (readi_run c i s L ip x eq_refl Hok off n) as (s' & E & He); [done|done|unfold is_u32; lia|done|].
  exists s'. split_and!; [done|apply He|by rewrite (ev_state _ _ _ _ _ _ He)|apply He].
Qed.


(** A file of 1000 bytes in blocks 40 and 41 of the disk of [fsst1]. *)
Definition file1 : inode := Inode 1 2 1 1 T_FILE 0 0 1 1000 ([40; 41] ++ replicate 11 0).
Definition fsst2 : fsst := set_inodes (<[0%nat := file1]> (inodes fsst1)) fsst1.

Lemma fsst2_block k : 0 ≤ k → k * BSIZE < 1000 → file_block fsst2 file1 k = 40 + k.
Proof. intros. assert (k = 0 ∨ k = 1) as [-> | ->] by (unfold BSIZE in *; lia); done. Qed.

Lemma fsst2_ok : file_ok fsst2 file1 ∧ file_sep fsst2 file1.
Proof.
  split; split; try done.
  - intros k Hk Hs. rewrite fsst2_block by done. split_and!; [lia| |].
    + change (fhome fsst1 (40 + k)). apply fsst1_home. unfold file1, BSIZE in *. cbn in Hs. lia.
    + change (length (cont (lb lst2) (40 + k)) = Z.to_nat BSIZE). destruct lst2_pending as (_ & _ & _ & _ & ->); [by rewrite length_replicate|..];
        unfold file1, BSIZE in *; cbn in Hs; lia.
  - intros k k' ????. rewrite !fsst2_block by done. lia.
Qed.

Lemma fsst2_trans : in_trans 1 0 fsst2 [33].
Proof. destruct fsst1_trans as [H1 H2]. split; [exact H1|exact H2]. Qed.

Lemma readi_reads_witness : ∃ s', Fs.readi 0 600 1000 fsst2 = Ok (400, file_bytes fsst2 file1 600 400) s'.
Proof.
  destruct (readi_reads 1 0 fsst2 [33] 0 600 1000) as (s' & E & _).
  - exact fsst2_trans.
  - exact (proj1 fsst2_ok).
  - cbn. lia.
  - lia.
  - lia.
  - exists s'. exact E.
Defined.


(** ** Inodes on disk *)

(** C12 [roundtrip]: iupdate() stores the inode.  In a transaction with room for
    one more block, the block of the inode then holds, at the inode's place, the
    fields of the in-memory copy, so that reading it back as ilock() does gives
    the copy again; the other inodes of the block, every other block and the
    in-memory inodes are as before. *)
Theorem iupdate_stores c i s L ip :
  let x := inode_at s ip in
  let n := IBLOCK (inum x) (sb s) in
  in_trans c i s L → Z.of_nat (length L) < log_room s → fhome s n → length (blk s n) = Z.to_nat BSIZE →
  idev x = 1 → 0 ≤ inum x → dinode_ok (to_dinode x) →
  ∃ s', Fs.iupdate ip s = Ok tt s' ∧ in_trans c i s' (absorb n L) ∧ inodes s' = inodes s ∧
    of_dinode (get_dinode (blk s' n) (Z.to_nat (inum x mod IPB))) x = x ∧
    (∀ k, (k < Z.to_nat IPB)%nat → k ≠ Z.to_nat (inum x mod IPB) → get_dinode (blk s' n) k = get_dinode (blk s n) k) ∧
    (∀ m, fhome s m → m ≠ n → blk s' m = blk s m).
Proof.
  intros x n Ht Hroom Hn Hlen Hdev Hi Hok. assert (Z.to_nat (inum x mod IPB) < Z.to_nat IPB)%nat as Hk by (unfold IPB; dmlia).
  destruct (open_block c i s L Ht n Hn) as (j & t & b & E1 & _ & _ & _ & Hupd).
  destruct (Hupd Hroom (λ d, set_dinode (Z.to_nat (inum x mod IPB)) (to_dinode x) d)) as (s' & E2 & He).
  exists s'. split_and!.
  - unfold Fs.iupdate. mred. mstep (get_inode_run ip s). fold x. rewrite Hdev. mstep E1. exact E2.
  - apply He.
  - by rewrite (ev_state _ _ _ _ _ _ He).
  - rewrite (ev_blk _ _ _ _ _ _ He), decide_True, get_set_dinode by done. by destruct x.
  - intros k Hk' Hne. rewrite (ev_blk _ _ _ _ _ _ He), decide_True by done. by apply get_set_dinode_ne; [|apply Hok].
  - intros m Hm Hne. by rewrite (ev_blk _ _ _ _ _ _ He), decide_False.
Qed.

Lemma file1_dinode : dinode_ok (to_dinode file1).
Proof.
  split; cbn [to_dinode file1 d_type d_major d_minor d_nlink d_size d_addrs itype major minor nlink isize addrs];
    unfold is_s16, is_u32, T_FILE; try lia; [reflexivity|].
  refine (bool_decide_eq_true_1 _ _). reflexivity.
Qed.

Lemma iupdate_stores_witness : ∃ s', Fs.iupdate 0 fsst2 = Ok tt s' ∧ get_dinode (blk s' 32) 2 = to_dinode file1.
Proof.
  destruct (iupdate_stores 1 0 fsst2 [33] 0) as (s' & E & _ & _ & Hd & _).
  - exact fsst2_trans.
  - change (log_room fsst2) with (log_room fsst1). rewrite fsst1_room. cbn. lia.
  - change (fhome fsst1 32). apply fsst1_home. lia.
  - change (length (cont (lb lst2) 32) = Z.to_nat BSIZE). destruct lst2_pending as (_ & _ & _ & _ & ->); [reflexivity|lia..].
  - reflexivity.
  - discriminate.
  - exact file1_dinode.
  - exists s'. split; [exact E|]. apply (f_equal to_dinode) in Hd.
    change (to_dinode (of_dinode (get_dinode (blk s' 32) 2) file1) = to_dinode file1) in Hd.
    rewrite <- Hd. by destruct (get_dinode (blk s' 32) 2).
Defined.
