(* ===== verification/Mkfs.v ===== *)
(** * The image builder: mkfs.c

    mkfs is a program of the host.  The image file is the list of its sectors; the
    host's open(), lseek() and write() are taken to succeed, and a read() beyond
    the end of the image, like a failed assert(), ends the program.  The host is
    little-endian, so that the integers of the structures in the image are those of
    the program.  The input files are given by name with the pieces that read()
    returns for each, of at most [BSIZE] bytes.  The messages mkfs prints on its
    standard output are left out. *)

From stdpp Require Import functions.
From S2P Require Import Prelude Machine Proc CString Kalloc Sleeplock Bio Log Console Fs FsSpec.
Open Scope kernel_scope.

Definition NINODES : Z := 200.

Module Mk.

Definition nbitmap : Z := FSSIZE / (BSIZE * 8) + 1.
Definition ninodeblocks : Z := NINODES / IPB + 1.
Definition nlog : Z := Z.of_nat LOGSIZE.
Definition nmeta : Z := 2 + nlog + ninodeblocks + nbitmap.
Definition nblocks : Z := FSSIZE - nmeta.

(** Intel byte order. *)
Definition xshort (x : Z) : Z := u8 x + u8 (Z.shiftr x 8) * 2 ^ 8.
Definition xint (x : Z) : Z := u8 x + u8 (Z.shiftr x 8) * 2 ^ 8 + u8 (Z.shiftr x 16) * 2 ^ 16 + u8 (Z.shiftr x 24) * 2 ^ 24.

Record mkst := Mkst { img : list block; freeinode : Z; freeblock : Z }.
Definition set_img (v : list block) (s : mkst) : mkst := Mkst v (freeinode s) (freeblock s).
Definition set_freeinode (v : Z) (s : mkst) : mkst := Mkst (img s) v (freeblock s).
Definition set_freeblock (v : Z) (s : mkst) : mkst := Mkst (img s) (freeinode s) v.

Definition zeroes : block := replicate (Z.to_nat BSIZE) 0.
Definition sb : superblock :=
  Superblock (xint FSSIZE) (xint nblocks) (xint NINODES) (xint nlog) (xint 2) (xint (2 + nlog)) (xint (2 + nlog + ninodeblocks)).

(** lseek() to a sector: its offset in the image is a [uint]. *)
Definition seek (sec : Z) : Z := (sec *u BSIZE) / BSIZE.

(** Writing beyond the end of the image extends it. *)
Definition wsect (sec : Z) (buf : block) : M mkst unit :=
  let sec := seek sec in
  modify (λ s, set_img (if sec <? Z.of_nat (length (img s)) then <[Z.to_nat sec := buf]> (img s)
                        else img s ++ replicate (Z.to_nat sec - length (img s)) zeroes ++ [buf]) s).

Definition rsect (sec : Z) : M mkst block :=
  let sec := seek sec in
  s ← get;
  if sec <? Z.of_nat (length (img s)) then mret (img s !!! Z.to_nat sec) else panic "read".

Definition winode (inum : Z) (ip : dinode) : M mkst unit :=
  let bn := IBLOCK inum sb in
  buf ← rsect bn;
  wsect bn (set_dinode (Z.to_nat (inum mod IPB)) ip buf).

Definition rinode (inum : Z) : M mkst dinode :=
  let bn := IBLOCK inum sb in
  buf ← rsect bn;
  mret (get_dinode buf (Z.to_nat (inum mod IPB))).

Definition ialloc (type : Z) : M mkst Z :=
  inum ← gets freeinode;
  modify (set_freeinode (inum +u 1));;
  winode inum (Dinode (xshort type) 0 0 (xshort 1) (xint 0) (replicate (S NDIRECT) 0));;
  mret inum.

(** The bitmap with the first [used] bits set. *)
Fixpoint mark (buf : block) (i n : nat) : block :=
  match n with
  | O => buf
  | S n => mark (<[(i / 8)%nat := Z.lor (buf !!! (i / 8)%nat) (Z.shiftl 1 (Z.of_nat i mod 8))]> buf) (S i) n
  end.

Definition balloc (used : Z) : M mkst unit :=
  if negb (used <? BSIZE * 8) then panic "assert" else
  wsect (sb_bmapstart sb) (mark zeroes 0 (Z.to_nat used)).

(** [freeblock++] *)
Definition next_block : M mkst Z :=
  b ← gets freeblock;
  modify (set_freeblock (b +u 1));;
  mret b.

(** [if(xint(din.addrs[j]) == 0) din.addrs[j] = xint(freeblock++);] *)
Definition alloc_addr (din : dinode) (j : nat) : M mkst dinode :=
  if xint (d_addrs din !!! j) =? 0 then
    b ← next_block;
    mret (Dinode (d_type din) (d_major din) (d_minor din) (d_nlink din) (d_size din) (<[j := xint b]> (d_addrs din)))
  else mret din.

(** The same for word [k] of the indirect block [a], which is written back. *)
Definition alloc_word (a : Z) (k : nat) (indirect : block) : M mkst block :=
  if get_word indirect k =? 0 then
    b ← next_block;
    wsect a (set_word k (xint b) indirect);;
    mret (set_word k (xint b) indirect)
  else mret indirect.

(** The block of the file at [fbn], allocated if it has none: the inode and the
    block's number. *)
Definition iappend_block (din : dinode) (fbn : Z) : M mkst (dinode * Z) :=
  if fbn <? Z.of_nat NDIRECT then
    din ← alloc_addr din (Z.to_nat fbn);
    mret (din, xint (d_addrs din !!! Z.to_nat fbn))
  else
    din ← alloc_addr din NDIRECT;
    let a := xint (d_addrs din !!! NDIRECT) in
    let k := Z.to_nat (fbn - Z.of_nat NDIRECT) in
    indirect ← rsect a;
    indirect ← alloc_word a k indirect;
    mret (din, xint (get_word indirect k)).

Definition iappend_body (st : dinode * Z * list Z) : M mkst (dinode * Z * list Z + dinode * Z) :=
  let '(din, off, p) := st in
  let n := Z.of_nat (length p) in
  if negb (0 <? n) then mret (inr (din, off)) else
  let fbn := off / BSIZE in
  if negb (fbn <? MAXFILE) then panic "assert" else
  '(din, x) ← iappend_block din fbn;
  let n1 := Z.min n ((fbn + 1) * BSIZE - off) in
  buf ← rsect x;
  wsect x (Fs.overwrite (Z.to_nat (off - fbn * BSIZE)) (take (Z.to_nat n1) p) buf);;
  mret (inl (din, off +u n1, drop (Z.to_nat n1) p)).

Definition iappend (inum : Z) (p : list Z) : M mkst unit :=
  din ← rinode inum;
  '(din, off) ← loop iappend_body 31 (din, xint (d_size din), p);
  winode inum (Dinode (d_type din) (d_major din) (d_minor din) (d_nlink din) (xint off) (d_addrs din)).

(** ** main *)

Fixpoint zero_image (i n : nat) : M mkst unit :=
  match n with O => mret tt | S n => wsect (Z.of_nat i) zeroes;; zero_image (S i) n end.

(** The super block in its sector. *)
Definition sb_block : block :=
  set_words 0 [sb_size sb; sb_nblocks sb; sb_ninodes sb; sb_nlog sb; sb_logstart sb; sb_inodestart sb; sb_bmapstart sb] zeroes.

(** A directory entry: an array of 14 characters after the inode number. *)
Definition dir_entry (inum : Z) (name : list Z) : list Z := Fs.dirent (xshort inum) (strncpy DIRSIZ name).

Fixpoint append_all (inum : Z) (pieces : list (list Z)) : M mkst unit :=
  match pieces with [] => mret tt | p :: ps => iappend inum p;; append_all inum ps end.

(** The loop over the files: no slash in a name, and a leading underscore is
    skipped. *)
Fixpoint add_files (rootino : Z) (files : list (list Z * list (list Z))) : M mkst unit :=
  match files with
  | [] => mret tt
  | (name, pieces) :: files =>
      if bool_decide (47 ∈ name) then panic "assert" else
      let name := match name with c :: n => if c =? 95 then n else name | [] => name end in
      inum ← ialloc T_FILE;
      iappend rootino (dir_entry inum name);;
      append_all inum pieces;;
      add_files rootino files
  end.

Definition main (files : list (list Z * list (list Z))) : M mkst unit :=
  modify (set_freeblock nmeta);;
  zero_image 0 (Z.to_nat FSSIZE);;
  wsect 1 sb_block;;
  rootino ← ialloc T_DIR;
  if negb (rootino =? ROOTINO) then panic "assert" else
  iappend rootino (dir_entry rootino (chars "."));;
  iappend rootino (dir_entry rootino (chars ".."));;
  add_files rootino files;;
  din ← rinode rootino;
  let off := xint (d_size din) in
  let off := (off / BSIZE + 1) * BSIZE in
  winode rootino (Dinode (d_type din) (d_major din) (d_minor din) (d_nlink din) (xint off) (d_addrs din));;
  used ← gets freeblock;
  balloc (s32 used).

(** The program starts with an empty image. *)
Definition start : mkst := Mkst [] 1 0.
End Mk.

(** ** The image and the kernel *)

Import Mk.

Lemma xint_u32 x : xint x = u32 x.
Proof. unfold xint, u8, u32. rewrite !Z.shiftr_div_pow2 by lia. dmlia. Qed.

Lemma nmeta_val : nmeta = 59.
Proof. reflexivity. Qed.

Lemma seek_small sec : 0 ≤ sec ≤ 2 ^ 20 → seek sec = sec.
Proof. intros. unfold seek, BSIZE. rewrite u32_id by (unfold is_u32; lia). dmlia. Qed.

(** *** What an operation can do: fail an assertion or a read, or end in a state
    that satisfies a property *)

Definition ends {A} (P : mkst → Prop) (m : M mkst A) (Q : A → mkst → Prop) : Prop :=
  ∀ s, P s → match m s with Ok a s' => Q a s' | Panic _ => True | _ => False end.

Lemma ends_bind {A B} P (m : M mkst A) Q (k : A → M mkst B) R :
  ends P m Q → (∀ a, ends (Q a) (k a) R) → ends P (m ≫= k) R.
Proof.
  intros H1 H2 s Hs. specialize (H1 s Hs). unfold mbind, M_bind. destruct (m s) as [a s'| | |]; [|done..]. by apply H2.
Qed.

Lemma ends_ret {A} (a : A) (P : mkst → Prop) (Q : A → mkst → Prop) : (∀ s, P s → Q a s) → ends P (mret a) Q.
Proof. intros H s Hs. by apply H. Qed.

Lemma ends_weaken {A} P (m : M mkst A) Q (P' : mkst → Prop) (Q' : A → mkst → Prop) :
  ends P m Q → (∀ s, P' s → P s) → (∀ a s, Q a s → Q' a s) → ends P' m Q'.
Proof. intros H H1 H2 s Hs. specialize (H s (H1 _ Hs)). destruct (m s); auto. Qed.

Lemma ends_panic {A} e P (Q : A → mkst → Prop) : ends P (panic e) Q.
Proof. done. Qed.

Lemma ends_pure {A} (φ : Prop) P (m : M mkst A) Q : (φ → ends P m Q) → ends (λ s, φ ∧ P s) m Q.
Proof. intros H s [Hφ Hs]. by apply H. Qed.

Lemma ends_loop {A B} (body : A → M mkst (A + B)) (P : A → mkst → Prop) (Q : B → mkst → Prop) (f : A → nat) d a :
  (∀ a, ends (P a) (body a) (λ r s, match r with inl a' => P a' s ∧ (f a' < f a)%nat | inr b => Q b s end)) →
  Z.of_nat (f a) < 2 ^ Z.of_nat d → ends (P a) (loop body d a) Q.
Proof.
  intros Hb Hf s Hs.
  assert (∀ n a s, (f a < n)%nat → P a s →
    match iter body n a s with Ok (inr b) s' => Q b s' | Panic _ => True | _ => False end) as Hi.
  { clear a s Hf Hs. induction n as [|n IH]; intros a s Hn Hs; [lia|]. simpl. unfold mbind, M_bind.
    specialize (Hb a s Hs). destruct (body a s) as [[a'|b] s'| | |]; [|done..]. destruct Hb as [Hp Hlt]. apply IH; [lia|done]. }
  unfold loop, mbind, M_bind. rewrite until_iter.
  assert (f a < 2 ^ d)%nat as Hd by (apply Nat2Z.inj_lt; by rewrite Nat2Z.inj_pow).
  specialize (Hi _ _ s Hd Hs). destruct (iter body (2 ^ d) a s) as [[?|?] ?| | |]; done.
Qed.

(** *** The invariant of the image

    A pointer slot is a pair of an inode and an index: 0 to 11 for its direct
    blocks, 12 for the indirect block and [13 + k] for the [k]th word of the
    indirect block.  Every block handed out has one slot that owns it; [ino] gives
    the inodes' addresses and [n] is the next inode. *)

Definition slots : nat := 208.

Definition ptr (own : gmap Z (nat * nat)) (fb a : Z) (x : nat * nat) : Prop :=
  a = 0 ∨ (nmeta ≤ a < fb ∧ own !! a = Some x).

Definition sector (s : mkst) (b : Z) : block := img s !!! Z.to_nat b.

Record inv (n : Z) (own : gmap Z (nat * nat)) (ino : nat → list Z) (s : mkst) : Prop := {
  iv_next : freeinode s = n;
  iv_len : length (img s) = Z.to_nat FSSIZE;
  iv_size b : 0 ≤ b < FSSIZE → length (sector s b) = Z.to_nat BSIZE;
  iv_free : nmeta ≤ freeblock s ≤ FSSIZE + 1;
  iv_addrs i : (i < slots)%nat → length (ino i) = S NDIRECT;
  iv_inode i j : (i < slots)%nat → (j ≤ NDIRECT)%nat → ptr own (freeblock s) (ino i !!! j) (i, j);
  iv_ind i k : (i < slots)%nat → (k < NINDIRECT)%nat → ino i !!! NDIRECT ≠ 0 → ino i !!! NDIRECT < FSSIZE →
    ptr own (freeblock s) (get_word (sector s (ino i !!! NDIRECT)) k) (i, (13 + k)%nat);
  iv_super : sector s 1 = sb_block;
  iv_log b : 2 ≤ b < 2 + nlog → sector s b = zeroes;
  iv_fresh b : freeblock s ≤ b < FSSIZE → sector s b = zeroes;
}.

(** The addresses in the image's inodes, those of [i0] apart. *)
Definition inode_at (s : mkst) (i : nat) : dinode := get_dinode (sector s (32 + Z.of_nat (i / 8))) (i mod 8).
Definition stored (ok : nat → Prop) (ino : nat → list Z) (s : mkst) : Prop :=
  ∀ i, (i < slots)%nat → ok i → d_addrs (inode_at s i) = ino i.

Lemma ptr_grow own fb a x y : ptr own fb a x → ptr (<[fb := y]> own) (fb + 1) a x.
Proof.
  intros [->|[Hr Ho]]; [by left|]. right. split; [lia|]. rewrite lookup_insert_ne by lia. done.
Qed.

Lemma zeroes_word k : (k < NINDIRECT)%nat → get_word zeroes k = 0.
Proof. unfold NINDIRECT. intros Hk. unfold get_word, zeroes, BSIZE. by rewrite !lookup_total_replicate_2 by lia. Qed.

Lemma sector_write s b buf b' :
  0 ≤ b < Z.of_nat (length (img s)) → 0 ≤ b' →
  sector (set_img (<[Z.to_nat b := buf]> (img s)) s) b' = if decide (b' = b) then buf else sector s b'.
Proof.
  intros Hb Hb'. unfold sector. cbn [img set_img]. case_decide as E.
  - subst. apply list_lookup_total_insert_eq. lia.
  - apply list_lookup_total_insert_ne. lia.
Qed.

(** [freeblock++] *)
Lemma inv_grow n own ino s x :
  inv n own ino s → freeblock s ≤ FSSIZE → inv n (<[freeblock s := x]> own) ino (set_freeblock (freeblock s + 1) s).
Proof.
  intros H Hf. destruct H. split; try done; cbn [freeblock set_freeblock].
  - lia.
  - intros. apply ptr_grow. auto.
  - intros. apply ptr_grow. apply iv_ind0; auto.
  - intros. apply iv_fresh0. lia.
Qed.

(** Writing a block other than the super block and the log's, and none of the
    blocks still to be handed out. *)
Lemma inv_write n own ino s b buf :
  inv n own ino s → 2 + nlog ≤ b < freeblock s → b < FSSIZE → length buf = Z.to_nat BSIZE →
  (∀ i k, (i < slots)%nat → (k < NINDIRECT)%nat → ino i !!! NDIRECT = b → ptr own (freeblock s) (get_word buf k) (i, (13 + k)%nat)) →
  inv n own ino (set_img (<[Z.to_nat b := buf]> (img s)) s).
Proof.
  intros H Hb Hb2 Hl Hp. change nlog with 30 in *. destruct H.
  assert (0 ≤ b < Z.of_nat (length (img s))) as Hr by (rewrite iv_len0; unfold FSSIZE in *; lia).
  split; try done; cbn [freeblock set_img].
  - cbn [img set_img]. by rewrite length_insert.
  - intros b' Hb'. rewrite sector_write by lia. case_decide; auto.
  - intros i k Hi Hk Hne Hlt. specialize (iv_ind0 i k Hi Hk Hne Hlt). destruct (iv_inode0 i NDIRECT Hi (le_n _)) as [?|[? _]]; [done|].
    rewrite nmeta_val in *. rewrite sector_write by lia. case_decide; auto.
  - rewrite sector_write, decide_False by lia. done.
  - intros b' Hb'. change nlog with 30 in *. rewrite sector_write, decide_False by lia. auto.
  - intros b' Hb'. rewrite nmeta_val in *. rewrite sector_write, decide_False by lia. auto.
Qed.

(** Pointing slot [j] of inode [i] at a block that it owns. *)
Lemma inv_point n own ino s i j b :
  inv n own ino s → (i < slots)%nat → (j ≤ NDIRECT)%nat → ptr own (freeblock s) b (i, j) →
  (j = NDIRECT → b < FSSIZE → ∀ k, (k < NINDIRECT)%nat → get_word (sector s b) k = 0) →
  inv n own (<[i := <[j := b]> (ino i)]> ino) s.
Proof.
  intros H Hi Hj Hp Hz. destruct H. split; try done.
  - intros i' Hi'. destruct (decide (i' = i)) as [->|]; [|rewrite fn_lookup_insert_ne by done; auto].
    rewrite fn_lookup_insert, length_insert. auto.
  - intros i' j' Hi' Hj'. destruct (decide (i' = i)) as [->|]; [|rewrite fn_lookup_insert_ne by done; auto].
    rewrite fn_lookup_insert. destruct (decide (j' = j)) as [->|].
    + by rewrite list_lookup_total_insert_eq by (rewrite iv_addrs0; lia).
    + rewrite list_lookup_total_insert_ne by done. auto.
  - intros i' k Hi' Hk. destruct (decide (i' = i)) as [->|]; [|rewrite fn_lookup_insert_ne by done; auto].
    rewrite fn_lookup_insert. destruct (decide (NDIRECT = j)) as [<-|].
    + rewrite list_lookup_total_insert_eq by (rewrite iv_addrs0; lia). intros _ Hlt. left. auto.
    + rewrite list_lookup_total_insert_ne by done. auto.
Qed.

(** *** The operations keep it *)

Lemma rsect_ends P sec :
  (∀ s, P s → length (img s) = Z.to_nat FSSIZE) →
  ends P (rsect sec) (λ buf s, P s ∧ 0 ≤ seek sec < FSSIZE ∧ buf = sector s (seek sec)).
Proof.
  intros HP s Hs. unfold rsect. mred. pose proof (HP s Hs) as Hl.
  assert (0 ≤ seek sec) by (apply Z.div_pos; [apply u32_range|done]).
  destruct (Z.ltb_spec (seek sec) (Z.of_nat (length (img s)))) as [H1|]; [|done]. rewrite run_ret.
  rewrite Hl in H1. unfold FSSIZE in *. split_and!; [done|lia|lia|done].
Qed.

Lemma wsect_run b buf s :
  0 ≤ b < FSSIZE → length (img s) = Z.to_nat FSSIZE → wsect b buf s = Ok tt (set_img (<[Z.to_nat b := buf]> (img s)) s).
Proof.
  intros Hb Hl. unfold wsect. rewrite run_modify, seek_small, Hl by (unfold FSSIZE in *; lia).
  rewrite (proj2 (Z.ltb_lt _ _)) by (unfold FSSIZE in *; lia). done.
Qed.

Lemma next_block_run n own ino s :
  inv n own ino s → freeblock s ≤ FSSIZE → next_block s = Ok (freeblock s) (set_freeblock (freeblock s + 1) s).
Proof.
  intros Hi Hf. unfold next_block. mred. pose proof (iv_free _ _ _ _ Hi). rewrite nmeta_val in *. unfold FSSIZE in *.
  rewrite u32_id; [done|]. unfold is_u32. lia.
Qed.

(** Inode [i] is being extended: its addresses are in [din]. *)
Definition working (n : Z) (i : nat) (din : dinode) (s : mkst) : Prop :=
  ∃ own ino, inv n own ino s ∧ stored (λ i', i' ≠ i) ino s ∧ d_addrs din = ino i ∧ freeblock s ≤ FSSIZE.

(** It has block [x] in slot [j]; when the image is full, [x] is its end. *)
Definition owns (n : Z) (i : nat) (din : dinode) (x : Z) (j : nat) (s : mkst) : Prop :=
  ∃ own ino, inv n own ino s ∧ stored (λ i', i' ≠ i) ino s ∧ d_addrs din = ino i ∧
    (own !! x = Some (i, j) ∧ nmeta ≤ x < freeblock s ∧ (x < FSSIZE → freeblock s ≤ FSSIZE)) ∧
    (j = NDIRECT → ino i !!! NDIRECT = x).

Lemma owns_seek n i din x j s : owns n i din x j s → seek x = x ∧ xint x = x.
Proof.
  intros (own & ino & H & _ & _ & (_ & Hx & _) & _). pose proof (iv_free _ _ _ _ H). rewrite nmeta_val in *. unfold FSSIZE in *.
  split; [apply seek_small; lia|]. rewrite xint_u32. apply u32_id. unfold is_u32. lia.
Qed.

Section append.
Context (n : Z) (i : nat).

Lemma owns_len din x j s : owns n i din x j s → length (img s) = Z.to_nat FSSIZE.
Proof. intros (own & ino & H & _). apply H. Qed.

Lemma ptr_u32 own ino s a y : inv n own ino s → ptr own (freeblock s) a y → xint a = a.
Proof.
  intros H Hp. rewrite xint_u32. apply u32_id. pose proof (iv_free _ _ _ _ H). rewrite nmeta_val in *. unfold FSSIZE in *.
  destruct Hp as [->|[? _]]; [done|]. unfold is_u32. rewrite nmeta_val in *. lia.
Qed.

Lemma fresh_zero own ino s k : inv n own ino s → freeblock s < FSSIZE → (k < NINDIRECT)%nat → get_word (sector s (freeblock s)) k = 0.
Proof. intros H Hf Hk. rewrite (iv_fresh _ _ _ _ H) by lia. by apply zeroes_word. Qed.

(** Overwriting an indirect block or a data block that the inode owns. *)
Lemma stored_write ok ino s b buf :
  length (img s) = Z.to_nat FSSIZE → nmeta ≤ b < FSSIZE → stored ok ino s → stored ok ino (set_img (<[Z.to_nat b := buf]> (img s)) s).
Proof.
  intros Hl Hb Hs i' Hi' Hok. rewrite <- (Hs i' Hi' Hok). unfold inode_at. rewrite nmeta_val in *. unfold slots, FSSIZE in *.
  assert (i' / 8 < 26)%nat by (apply Nat.Div0.div_lt_upper_bound; lia).
  rewrite sector_write, decide_False by lia. done.
Qed.

Lemma write_held din x j buf s :
  owns n i din x j s → x < FSSIZE → j ≠ NDIRECT → length buf = Z.to_nat BSIZE →
  working n i din (set_img (<[Z.to_nat x := buf]> (img s)) s).
Proof.
  intros (own & ino & H & Hs & Hd & (Ho & Hx & Hf) & _) Hlt Hj Hl. exists own, ino. split_and!; [| |done|auto].
  - apply inv_write; [done| |done|done|].
    { rewrite nmeta_val in Hx. change nlog with 30. lia. }
    intros i' k Hi' Hk E. destruct (iv_inode _ _ _ _ H i' NDIRECT Hi' (le_n _)) as [E'|[_ Ho']]; rewrite ?E in *.
    + rewrite nmeta_val in *. lia.
    + congruence.
  - apply stored_write; [apply H|lia|done].
Qed.

Definition rest (s : mkst) : Prop :=
  ∃ own ino, inv n own ino s ∧ stored (λ _, True) ino s ∧ freeblock s ≤ FSSIZE.

Lemma working_len din s : working n i din s → length (img s) = Z.to_nat FSSIZE.
Proof. intros (own & ino & H & _). apply H. Qed.

Lemma rest_len s : rest s → length (img s) = Z.to_nat FSSIZE.
Proof. intros (own & ino & H & _). apply H. Qed.

Lemma iblock_val i' : (i' < slots)%nat →
  IBLOCK (Z.of_nat i') sb = 32 + Z.of_nat (i' / 8) ∧ seek (IBLOCK (Z.of_nat i') sb) = IBLOCK (Z.of_nat i') sb ∧
  Z.to_nat (Z.of_nat i' mod IPB) = (i' mod 8)%nat ∧ (i' / 8 < 26)%nat.
Proof.
  unfold slots. intros H. assert (i' / 8 < 26)%nat by (apply Nat.Div0.div_lt_upper_bound; lia).
  assert (IBLOCK (Z.of_nat i') sb = 32 + Z.of_nat (i' / 8)) as ->.
  { unfold IBLOCK, IPB. change (sb_inodestart sb) with 32. change 8 with (Z.of_nat 8). rewrite <- (Nat2Z.inj_div i' 8), u32_id; [lia|].
    unfold is_u32. lia. }
  split_and!; [done|apply seek_small; lia| |done]. change IPB with (Z.of_nat 8). by rewrite <- Nat2Z.inj_mod, Nat2Z.id.
Qed.

Lemma set_dinode_addrs k x d :
  length d = Z.to_nat BSIZE → (k < 8)%nat → length (d_addrs x) = S NDIRECT → (∀ j, (j ≤ NDIRECT)%nat → is_u32 (d_addrs x !!! j)) →
  d_addrs (get_dinode (set_dinode k x d) k) = d_addrs x.
Proof.
  intros Hd Hk Hl Hu. unfold NDIRECT in *. change (Z.to_nat BSIZE) with 512%nat in Hd. unfold get_dinode, set_dinode. cbn [d_addrs].
  apply list_eq_same_length with (n := 13%nat); [done|by rewrite length_fmap, length_seq|].
  intros j a b Hj Ha Hb. rewrite list_lookup_fmap, lookup_seq_lt in Ha by done. injection Ha as <-. cbn [Nat.add].
  rewrite (get_word_set_words _ _ _ j b) by (rewrite ?length_set_word, ?length_set_half; done || lia).
  rewrite <- (list_lookup_total_correct _ _ _ Hb). apply u32_id, Hu. unfold NDIRECT. lia.
Qed.

Context (Hi : (i < slots)%nat).

Lemma alloc_addr_ends din j :
  (j ≤ NDIRECT)%nat → ends (working n i din) (alloc_addr din j) (λ din' s, owns n i din' (d_addrs din' !!! j) j s).
Proof using Hi.
  intros Hj s (own & ino & H & Hs & Hd & Hf). unfold alloc_addr. pose proof (iv_inode _ _ _ _ H i j Hi Hj) as Hp.
  rewrite Hd, (ptr_u32 own ino s _ _ H Hp). destruct (Z.eqb_spec (ino i !!! j) 0) as [E|E].
  - rewrite (bind_ok _ _ _ _ _ (next_block_run _ _ _ _ H Hf)), run_ret. cbn [d_addrs].
    pose proof (iv_addrs _ _ _ _ H i Hi) as Hl. pose proof (iv_free _ _ _ _ H) as Hfb.
    assert (xint (freeblock s) = freeblock s) as ->.
    { rewrite xint_u32. apply u32_id. rewrite nmeta_val in *. unfold is_u32, FSSIZE in *. lia. }
    rewrite list_lookup_total_insert_eq by lia.
    exists (<[freeblock s := (i, j)]> own), (<[i := <[j := freeblock s]> (ino i)]> ino). split_and!.
    + apply inv_point; [by apply inv_grow|done|done| |].
      * right. cbn [freeblock set_freeblock]. split; [lia|]. by rewrite lookup_insert_eq.
      * intros _ Hlt k Hk. exact (fresh_zero own ino s k H Hlt Hk).
    + intros i' Hi' Hne. rewrite fn_lookup_insert_ne by done. by apply Hs.
    + by rewrite fn_lookup_insert.
    + by rewrite lookup_insert_eq.
    + cbn [freeblock set_freeblock]. lia.
    + cbn [freeblock set_freeblock]. lia.
    + cbn [freeblock set_freeblock]. lia.
    + intros ->. rewrite fn_lookup_insert. by rewrite list_lookup_total_insert_eq by lia.
  - rewrite run_ret. destruct Hp as [|[Hr Ho]]; [done|]. exists own, ino. rewrite Hd. split_and!; try done; try lia. by intros ->.
Qed.

Lemma alloc_word_ends din a k indirect :
  (k < NINDIRECT)%nat → a < FSSIZE →
  ends (λ s, owns n i din a NDIRECT s ∧ indirect = sector s a) (alloc_word a k indirect)
    (λ ind s, owns n i din (get_word ind k) (13 + k) s).
Proof using Hi.
  intros Hk Ha s [(own & ino & H & Hs & Hd & (Ho & Hx & Hf) & Hj) ->]. specialize (Hf Ha). specialize (Hj eq_refl).
  pose proof (iv_len _ _ _ _ H) as Hl. pose proof (iv_free _ _ _ _ H) as Hfb. rewrite nmeta_val in *.
  assert (0 ≤ a < FSSIZE) as Ha' by lia. pose proof (iv_size _ _ _ _ H a Ha') as Hsz.
  assert (ptr own (freeblock s) (get_word (sector s a) k) (i, (13 + k)%nat)) as Hp.
  { rewrite <- Hj. apply (iv_ind _ _ _ _ H); [done..|lia|lia]. }
  unfold alloc_word. destruct (Z.eqb_spec (get_word (sector s a) k) 0) as [E|E].
  2: { rewrite run_ret. destruct Hp as [|[Hr Ho']]; [done|]. exists own, ino. split_and!; try done; lia || (unfold NDIRECT; lia). }
  rewrite (bind_ok _ _ _ _ _ (next_block_run _ _ _ _ H Hf)).
  rewrite (bind_ok _ _ _ _ _ (wsect_run a _ (set_freeblock (freeblock s + 1) s) Ha' Hl)), run_ret.
  assert (is_u32 (freeblock s)) as Hu by (unfold is_u32, FSSIZE in *; lia).
  rewrite xint_u32, (u32_id _ Hu), get_set_word, (u32_id _ Hu) by (rewrite Hsz; unfold NINDIRECT in *; change (Z.to_nat BSIZE) with 512%nat; lia).
  exists (<[freeblock s := (i, (13 + k)%nat)]> own), ino.
  pose proof (inv_grow n own ino s (i, (13 + k)%nat) H Hf) as H'.
  split_and!; try done; try (cbn [freeblock set_freeblock set_img]; rewrite ?nmeta_val; lia).
  - apply inv_write; [exact H'|change nlog with 30; cbn [freeblock set_freeblock]; lia|done|by rewrite length_set_word|].
    intros i' k' Hi' Hk' E'. destruct (iv_inode _ _ _ _ H i' NDIRECT Hi' (le_n _)) as [?|[_ Ho']]; [lia|].
    rewrite E', Ho in Ho'. injection Ho' as <-.
    destruct (decide (k' = k)) as [->|].
    + rewrite get_set_word by (rewrite Hsz; unfold NINDIRECT in *; change (Z.to_nat BSIZE) with 512%nat; lia). rewrite (u32_id _ Hu).
      right. cbn [freeblock set_freeblock]. rewrite nmeta_val. split; [lia|]. by rewrite lookup_insert_eq.
    + rewrite get_set_word_ne by done. rewrite <- Hj.
      apply (iv_ind _ _ _ _ H' i k'); [done..|lia|lia].
  - apply stored_write; [exact Hl|rewrite nmeta_val; lia|exact Hs].
  - by rewrite lookup_insert_eq.
Qed.

Lemma iappend_block_ends din fbn :
  0 ≤ fbn < MAXFILE →
  ends (working n i din) (iappend_block din fbn) (λ r s, ∃ j, j ≠ NDIRECT ∧ owns n i r.1 r.2 j s).
Proof using Hi.
  intros Hb. change MAXFILE with 140 in Hb. unfold iappend_block. destruct (Z.ltb_spec fbn (Z.of_nat NDIRECT)) as [Hd|Hd]; unfold NDIRECT in Hd.
  - eapply ends_bind; [apply alloc_addr_ends; unfold NDIRECT; lia|]. intros din'. apply ends_ret. intros s Hs.
    exists (Z.to_nat fbn). split; [unfold NDIRECT; lia|]. cbn [fst snd]. by rewrite (proj2 (owns_seek _ _ _ _ _ _ Hs)).
  - eapply ends_bind; [by apply alloc_addr_ends|]. intros din'.
    eapply ends_bind; [apply rsect_ends, owns_len|]. intros ind.
    eapply (ends_bind _ _ (λ ind s, owns n i din' (get_word ind _) (13 + Z.to_nat (fbn - Z.of_nat NDIRECT)) s)).
    + intros s (Hs & Ha & ->). destruct (owns_seek _ _ _ _ _ _ Hs) as [E1 E2]. rewrite E2, E1 in *.
      refine (alloc_word_ends din' _ _ _ _ _ s _); [unfold NDIRECT, NINDIRECT in *; lia|lia|done].
    + intros ind'. apply ends_ret. intros s Hs. exists (13 + Z.to_nat (fbn - Z.of_nat NDIRECT))%nat. split; [unfold NDIRECT; lia|].
      cbn [fst snd]. by rewrite (proj2 (owns_seek _ _ _ _ _ _ Hs)).
Qed.

Lemma iappend_body_ends din off p :
  ends (λ s, 0 ≤ off ∧ working n i din s) (iappend_body (din, off, p))
    (λ r s, match r with
            | inl (din', off', p') => (0 ≤ off' ∧ working n i din' s) ∧ (length p' < length p)%nat
            | inr (din', _) => working n i din' s
            end).
Proof using Hi.
  apply ends_pure. intros Ho. unfold iappend_body. destruct (Z.ltb_spec 0 (Z.of_nat (length p))) as [Hn|]; cbn [negb]; [|by apply ends_ret].
  destruct (Z.ltb_spec (off / BSIZE) MAXFILE) as [Hm|]; cbn [negb]; [|apply ends_panic].
  assert (0 ≤ off / BSIZE) by (apply Z.div_pos; lia || done).
  eapply ends_bind; [apply iappend_block_ends; lia|]. intros [din' x]. cbn [fst snd].
  set (n1 := Z.min _ _). assert (1 ≤ n1 ≤ Z.of_nat (length p) ∧ off - off / BSIZE * BSIZE + n1 ≤ 512 ∧ 0 ≤ off - off / BSIZE * BSIZE) as Hn1
    by (subst n1; unfold BSIZE in *; dmlia).
  eapply ends_bind; [apply rsect_ends; intros s (j & _ & Hs); by eapply owns_len|]. intros buf.
  intros s ((j & Hj & Hs) & Hx & ->). destruct (owns_seek _ _ _ _ _ _ Hs) as [E1 _]. rewrite E1 in *.
  rewrite (bind_ok _ _ _ _ _ (wsect_run x _ s Hx (owns_len _ _ _ _ Hs))), run_ret.
  split; [split; [apply u32_range|]|].
  - eapply write_held; [done|lia|done|].
    assert (length (sector s x) = 512%nat) as Hl by (destruct Hs as (own & ino & H' & _); by apply (iv_size _ _ _ _ H')).
    unfold Fs.overwrite. rewrite !length_app, length_take, length_take, length_drop, Hl. unfold BSIZE in *. lia.
  - rewrite length_drop. lia.
Qed.

Lemma rinode_ends : ends rest (rinode (Z.of_nat i)) (λ din s, working n i din s).
Proof using Hi.
  unfold rinode. eapply ends_bind; [apply rsect_ends, rest_len|]. intros buf. apply ends_ret.
  intros s ((own & ino & H & Hs & Hf) & _ & ->). exists own, ino. split_and!; [done| | |done].
  - intros i' Hi' _. by apply Hs.
  - rewrite <- (Hs i Hi I). unfold inode_at. destruct (iblock_val i Hi) as (E1 & E2 & E3 & _). by rewrite E2, E1, E3.
Qed.

Lemma winode_ends x : ends (working n i x) (winode (Z.of_nat i) x) (λ _, rest).
Proof using Hi.
  unfold winode. destruct (iblock_val i Hi) as (E1 & E2 & E3 & Hb).
  eapply ends_bind; [apply rsect_ends, working_len|]. intros buf s ((own & ino & H & Hs & Hd & Hf) & Hr & ->).
  rewrite E2, E1, E3 in *. pose proof (iv_len _ _ _ _ H) as Hl. rewrite wsect_run by done.
  pose proof (iv_free _ _ _ _ H) as Hfb. pose proof (iv_size _ _ _ _ H _ Hr) as Hsz. exists own, ino. split_and!; [| |done].
  - apply inv_write; [done| |lia| |].
    + change nlog with 30. rewrite nmeta_val in *. lia.
    + unfold set_dinode. by rewrite length_set_words, length_set_word, !length_set_half.
    + intros i' k Hi' Hk E. destruct (iv_inode _ _ _ _ H i' NDIRECT Hi' (le_n _)) as [?|[? _]]; rewrite ?nmeta_val in *; lia.
  - intros i' Hi' _. unfold inode_at. destruct (iblock_val i' Hi') as (_ & _ & _ & Hb'). unfold FSSIZE in *. rewrite sector_write by lia.
    assert (∀ j, (j ≤ NDIRECT)%nat → is_u32 (d_addrs x !!! j)) as Hu.
    { intros j Hj. rewrite Hd. rewrite nmeta_val in *. destruct (iv_inode _ _ _ _ H i j Hi Hj) as [->|[? _]]; [done|].
      rewrite nmeta_val in *. unfold is_u32. lia. }
    assert (length (d_addrs x) = S NDIRECT) as Hla by (rewrite Hd; by apply (iv_addrs _ _ _ _ H)).
    destruct (decide (i' = i)) as [->|Hne].
    + rewrite decide_True, <- Hd by done. apply set_dinode_addrs; [done|by apply Nat.mod_upper_bound|done..].
    + rewrite <- (Hs i' Hi' Hne). unfold inode_at. case_decide as E; [|done]. rewrite E.
      rewrite get_set_dinode_ne; [done| |done]. intros E'. apply Hne.
      rewrite (Nat.div_mod_eq i' 8), (Nat.div_mod_eq i 8). lia.
Qed.

Lemma iappend_ends p : Z.of_nat (length p) ≤ BSIZE → ends rest (iappend (Z.of_nat i) p) (λ _, rest).
Proof using Hi.
  intros Hp. unfold iappend. eapply ends_bind; [apply rinode_ends|]. intros din.
  eapply ends_bind with (Q := λ r s, working n i r.1 s).
  - apply (ends_weaken (λ s, 0 ≤ xint (d_size din) ∧ working n i din s) _ (λ r s, working n i r.1 s)); [|intros s Hs; split; [rewrite xint_u32; apply u32_range|done]|done].
    apply (ends_loop iappend_body (λ '(din, off, p) s, 0 ≤ off ∧ working n i din s) _ (λ st, length st.2) 31 (din, xint (d_size din), p)).
    + intros [[din' off'] p']. eapply ends_weaken; [apply iappend_body_ends|done|]. by intros [[[? ?] ?]|[? ?]] s.
    + cbn [snd]. unfold BSIZE in Hp. change (2 ^ Z.of_nat 31) with 2147483648. lia.
  - intros [din' off]. cbn [fst]. eapply ends_weaken; [apply winode_ends| |done]. intros s Hs. exact Hs.
Qed.
End append.

Lemma append_all_ends n i pieces :
  (i < slots)%nat → Forall (λ p, Z.of_nat (length p) ≤ BSIZE) pieces → ends (rest n) (append_all (Z.of_nat i) pieces) (λ _, rest n).
Proof.
  intros Hi. induction 1 as [|p ps Hp Hps IH]; [by apply ends_ret|]. cbn [append_all].
  eapply ends_bind; [by apply iappend_ends|]. intros ?. apply IH.
Qed.

Lemma ialloc_ends n type :
  (n < slots)%nat → ends (rest (Z.of_nat n)) (ialloc type) (λ inum s, inum = Z.of_nat n ∧ rest (Z.of_nat n + 1) s).
Proof.
  intros Hn s (own & ino & H & Hs & Hf). unfold ialloc. mred. rewrite (iv_next _ _ _ _ H). unfold slots in Hn.
  assert (Z.of_nat n +u 1 = Z.of_nat n + 1) as -> by (apply u32_id; unfold is_u32; lia).
  set (x := Dinode _ _ _ _ _ _).
  apply (ends_bind (working (Z.of_nat n + 1) n x) _ (λ _, rest (Z.of_nat n + 1))); [by apply winode_ends|intros _; by apply ends_ret|].
  exists own, (<[n := replicate (S NDIRECT) 0]> ino). split_and!; [| |by rewrite fn_lookup_insert|done].
  - destruct H. split; try done.
    + intros i Hi. destruct (decide (i = n)) as [->|]; [by rewrite fn_lookup_insert|rewrite fn_lookup_insert_ne by done; auto].
    + intros i j Hi Hj. destruct (decide (i = n)) as [->|]; [|rewrite fn_lookup_insert_ne by done; auto].
      rewrite fn_lookup_insert. left. apply lookup_total_replicate_2. lia.
    + intros i k Hi Hk. destruct (decide (i = n)) as [->|]; [|rewrite fn_lookup_insert_ne by done; apply iv_ind0; done].
      by rewrite fn_lookup_insert.
  - intros i Hi Hne. rewrite fn_lookup_insert_ne by done. by apply Hs.
Qed.

Lemma strncpy_length k t : length (strncpy k t) = k.
Proof.
  revert t. induction k as [|k IH]; intros t; [done|]. cbn [strncpy].
  destruct (hd 0 t =? 0); cbn [length]; [by rewrite length_replicate|by rewrite IH].
Qed.

Lemma dir_entry_length inum name : Z.of_nat (length (dir_entry inum name)) ≤ BSIZE.
Proof. unfold dir_entry, Fs.dirent. cbn [length]. rewrite strncpy_length. unfold DIRSIZ, BSIZE. lia. Qed.
#[local] Hint Resolve dir_entry_length : core.

Lemma add_files_ends root n files :
  (root < slots)%nat → (n + length files ≤ slots)%nat → Forall (λ f, Forall (λ p, Z.of_nat (length p) ≤ BSIZE) f.2) files →
  ends (rest (Z.of_nat n)) (add_files (Z.of_nat root) files) (λ _, rest (Z.of_nat (n + length files))).
Proof.
  intros Hr Hn Hf. revert n Hn. induction Hf as [|[name pieces] files Hp Hps IH]; intros n Hn; cbn [add_files length] in *.
  { apply ends_ret. by rewrite Nat.add_0_r. }
  case_bool_decide; [apply ends_panic|].
  eapply ends_bind; [apply ialloc_ends; lia|]. intros inum. apply ends_pure. intros ->.
  replace (Z.of_nat n + 1) with (Z.of_nat (S n)) by lia. rewrite <- Nat.add_succ_comm.
  eapply ends_bind; [by apply iappend_ends|]. intros ?.
  eapply ends_bind; [apply append_all_ends; [lia|done]|]. intros ?. apply IH. lia.
Qed.

Lemma zero_image_run i k s :
  length (img s) = i → (i + k ≤ Z.to_nat FSSIZE)%nat →
  zero_image i k s = Ok tt (set_img (img s ++ replicate k zeroes) s).
Proof.
  revert i s. induction k as [|k IH]; intros i s Hl Hk; cbn [zero_image].
  { rewrite run_ret, app_nil_r. by destruct s. }
  unfold wsect. rewrite run_bind_modify, seek_small, (proj2 (Z.ltb_ge _ _)) by (unfold FSSIZE in *; lia).
  rewrite Hl, Nat2Z.id, Nat.sub_diag. cbn [replicate app]. rewrite IH.
  - cbn [img set_img]. by rewrite <- app_assoc.
  - cbn [img set_img]. rewrite length_app. cbn. lia.
  - lia.
Qed.

Lemma lookup_zeroes s b : img s = replicate (Z.to_nat FSSIZE) zeroes → 0 ≤ b < FSSIZE → sector s b = zeroes.
Proof. intros E Hb. unfold sector. rewrite E. apply lookup_total_replicate_2. unfold FSSIZE in *. lia. Qed.

(** The image before the first inode. *)
Lemma start_rest : rest 1 (Mkst (<[1%nat := sb_block]> (replicate (Z.to_nat FSSIZE) zeroes)) 1 nmeta).
Proof.
  set (z := Mkst (replicate (Z.to_nat FSSIZE) zeroes) 1 nmeta).
  change (rest 1 (set_img (<[Z.to_nat 1 := sb_block]> (img z)) z)).
  assert (length (img z) = Z.to_nat FSSIZE) as Hl by apply length_replicate.
  assert (∀ b, 0 ≤ b < FSSIZE → sector (set_img (<[Z.to_nat 1 := sb_block]> (img z)) z) b = if decide (b = 1) then sb_block else zeroes) as Hz.
  { intros b Hb. rewrite sector_write by (rewrite ?Hl; unfold FSSIZE in *; lia).
    case_decide; [done|]. by apply lookup_zeroes. }
  exists ∅, (λ _, replicate (S NDIRECT) 0). split_and!; [|..].
  - split; try done.
    + intros b Hb. rewrite Hz by done. by case_decide.
    + intros i j Hi Hj. left. apply lookup_total_replicate_2. lia.
    + intros b Hb. change nlog with 30 in Hb. rewrite Hz, decide_False by (unfold FSSIZE; lia). done.
    + intros b Hb. change (freeblock _) with nmeta in Hb. rewrite nmeta_val in Hb. rewrite Hz, decide_False by lia. done.
  - intros i Hi _. unfold inode_at. destruct (iblock_val i Hi) as (_ & _ & _ & Hb).
    rewrite Hz, decide_False by (unfold FSSIZE; lia).
    assert (i mod 8 < 8)%nat as H8 by by apply Nat.mod_upper_bound. destruct (i mod 8)%nat as [|[|[|[|[|[|[|[|?]]]]]]]]; [reflexivity..|lia].
  - done.
Qed.

(** *** The finished image *)

(** Block [j] of inode [i] in the image, 0 if it has none; the indirect block is
    number 12 and the blocks it points to follow. *)
Definition file_slot (m : mkst) (i j : nat) : Z :=
  let a := d_addrs (inode_at m i) in
  if decide (j ≤ NDIRECT)%nat then a !!! j
  else if a !!! NDIRECT =? 0 then 0 else get_word (sector m (a !!! NDIRECT)) (j - 13).

Record image_ok (m : mkst) : Prop := {
  im_len : length (img m) = Z.to_nat FSSIZE;
  im_size b : 0 ≤ b < FSSIZE → length (sector m b) = Z.to_nat BSIZE;
  im_super : sector m 1 = sb_block;
  im_log b : 2 ≤ b < 2 + nlog → sector m b = zeroes;
  im_free : nmeta ≤ freeblock m ≤ FSSIZE;
  im_bitmap b : 0 ≤ b < FSSIZE → Fs.bit_free (sector m (sb_bmapstart sb)) (Z.to_nat b) = true ↔ freeblock m ≤ b;
  im_slot i j : (i < slots)%nat → (j < 13 + NINDIRECT)%nat → file_slot m i j ≠ 0 → nmeta ≤ file_slot m i j < freeblock m;
  im_excl i j i' j' : (i < slots)%nat → (j < 13 + NINDIRECT)%nat → (i' < slots)%nat → (j' < 13 + NINDIRECT)%nat →
    file_slot m i j ≠ 0 → file_slot m i j = file_slot m i' j' → (i, j) = (i', j');
}.

Lemma mark_length i k d : length (mark d i k) = length d.
Proof. revert i d. induction k as [|k IH]; intros i d; [done|]. cbn [mark]. by rewrite IH, length_insert. Qed.

Lemma mark_free i k d b :
  ((i + k) / 8 < length d)%nat → Fs.bit_free (mark d i k) b = if decide (i ≤ b < i + k)%nat then false else Fs.bit_free d b.
Proof.
  revert i d. induction k as [|k IH]; intros i d Hl; cbn [mark].
  { by rewrite decide_False by lia. }
  assert (i / 8 ≤ (i + S k) / 8)%nat by (apply Nat.Div0.div_le_mono; lia).
  change (<[(i / 8)%nat := _]> d) with (set_bit d i).
  rewrite IH by (unfold set_bit; rewrite length_insert, Nat.add_succ_comm; done).
  rewrite bit_free_set by lia. repeat case_decide; (done || lia).
Qed.

Lemma zeroes_free b : (b < 4096)%nat → Fs.bit_free zeroes b = true.
Proof.
  intros Hb. unfold Fs.bit_free, zeroes. assert (b / 8 < 512)%nat by (apply Nat.Div0.div_lt_upper_bound; lia).
  rewrite lookup_total_replicate_2 by (unfold BSIZE; lia). done.
Qed.

Lemma file_slot_ptr n own ino m i j :
  inv n own ino m → stored (λ _, True) ino m → freeblock m ≤ FSSIZE → (i < slots)%nat → (j < 13 + NINDIRECT)%nat →
  ptr own (freeblock m) (file_slot m i j) (i, j).
Proof.
  intros H Hs Hf Hi Hj. unfold file_slot. rewrite (Hs i Hi I). case_decide as Hd; [by apply (iv_inode _ _ _ _ H)|].
  destruct (Z.eqb_spec (ino i !!! NDIRECT) 0) as [|Hne]; [by left|].
  pose proof (iv_inode _ _ _ _ H i NDIRECT Hi (le_n _)) as [?|[? _]]; [done|]. unfold NDIRECT, NINDIRECT in *.
  pose proof (iv_ind _ _ _ _ H i (j - 13) Hi) as Hp. replace (13 + (j - 13))%nat with j in Hp by lia.
  apply Hp; unfold NDIRECT, NINDIRECT; (done || lia).
Qed.

Lemma balloc_image n s :
  rest n s → ∃ m, balloc (s32 (freeblock s)) s = Ok tt m ∧ image_ok m.
Proof.
  intros (own & ino & H & Hs & Hf). pose proof (iv_free _ _ _ _ H) as Hfb. rewrite nmeta_val in *. unfold FSSIZE in Hf.
  unfold balloc. rewrite s32_id by (unfold is_s32; lia). rewrite (proj2 (Z.ltb_lt _ _)) by (unfold BSIZE; lia). cbn [negb].
  change (sb_bmapstart sb) with 58. pose proof (iv_len _ _ _ _ H) as Hl. rewrite wsect_run by (unfold FSSIZE; lia || done).
  eexists. split; [done|]. set (buf := mark _ _ _). set (m := set_img _ _).
  assert (∀ b, 0 ≤ b → sector m b = if decide (b = 58) then buf else sector s b) as Hm.
  { intros b Hb. apply sector_write; [rewrite Hl; unfold FSSIZE; lia|done]. }
  assert (length buf = Z.to_nat BSIZE) as Hb by apply mark_length.
  assert (inv n own ino m) as H'.
  { apply inv_write; [done|change nlog with 30; lia|done|done|]. intros i k Hi Hk E.
    destruct (iv_inode _ _ _ _ H i NDIRECT Hi (le_n _)) as [?|[? _]]; rewrite ?nmeta_val in *; lia. }
  assert (stored (λ _, True) ino m) as Hs'.
  { intros i Hi _. rewrite <- (Hs i Hi I). unfold inode_at. destruct (iblock_val i Hi) as (_ & _ & _ & ?).
    rewrite Hm, decide_False by lia. done. }
  assert (freeblock m ≤ FSSIZE) as Hf' by done.
  split; try apply H'.
  - change (freeblock m) with (freeblock s). rewrite nmeta_val. unfold FSSIZE. lia.
  - intros b Hb'. rewrite Hm by done. change (sb_bmapstart sb) with 58. rewrite decide_True by done. subst buf.
    rewrite mark_free by (unfold zeroes; rewrite length_replicate; change (Z.to_nat BSIZE) with 512%nat; apply Nat.Div0.div_lt_upper_bound; lia).
    unfold FSSIZE in Hb'. rewrite zeroes_free by lia. change (freeblock m) with (freeblock s). case_decide; split; (done || lia).
  - intros i j Hi Hj Hne. by destruct (file_slot_ptr n own ino m i j) as [?|[? _]].
  - intros i j i' j' Hi Hj Hi' Hj' Hne E.
    destruct (file_slot_ptr n own ino m i j) as [?|[_ Ho]]; [done..|].
    destruct (file_slot_ptr n own ino m i' j') as [?|[_ Ho']]; [done..|congruence|]. rewrite E in Ho. congruence.
Qed.

Lemma zero_start : ends (λ s, s = start) (modify (set_freeblock nmeta);; zero_image 0 (Z.to_nat FSSIZE);; wsect 1 sb_block) (λ _, rest 1).
Proof.
  intros s ->. rewrite run_bind_modify. unfold mbind, M_bind.
  rewrite (zero_image_run 0 (Z.to_nat FSSIZE) (set_freeblock nmeta start) eq_refl (Nat.le_refl _)). cbn [obind].
  rewrite wsect_run; [exact start_rest|done|apply length_replicate].
Qed.

Lemma main_ends files :
  Z.of_nat (length files) + 2 ≤ NINODES → Forall (λ f, Forall (λ p, Z.of_nat (length p) ≤ BSIZE) f.2) files →
  ends (λ s, s = start) (main files) (λ _ m, image_ok m).
Proof.
  intros Hn Hf. unfold NINODES in Hn. assert (1 < slots)%nat as H1 by by apply Nat.ltb_lt.
  assert (ends (rest 1) (rootino ← ialloc T_DIR;
    if negb (rootino =? ROOTINO) then panic "assert" else
    iappend rootino (dir_entry rootino (chars "."));;
    iappend rootino (dir_entry rootino (chars ".."));;
    add_files rootino files;;
    din ← rinode rootino;
    winode rootino (Dinode (d_type din) (d_major din) (d_minor din) (d_nlink din) (xint ((xint (d_size din) / BSIZE + 1) * BSIZE)) (d_addrs din));;
    used ← gets freeblock;
    balloc (s32 used)) (λ _ m, image_ok m)) as Hrest.
  { eapply ends_bind; [by apply (ialloc_ends 1)|]. intros inum. apply ends_pure. intros ->.
    change (Z.of_nat 1 =? ROOTINO) with true. cbn [negb]. change (Z.of_nat 1 + 1) with (Z.of_nat 2).
    eapply ends_bind; [by apply iappend_ends|]. intros ?.
    eapply ends_bind; [by apply iappend_ends|]. intros ?.
    eapply ends_bind; [apply add_files_ends; [done|unfold slots; lia|done]|]. intros ?.
    eapply ends_bind; [by apply (rinode_ends _ 1)|]. intros din.
    eapply ends_bind with (Q := λ _, rest (Z.of_nat (2 + length files))).
    { eapply (ends_weaken _ _ (λ _, rest (Z.of_nat (2 + length files)))); [by apply (winode_ends _ 1)| |done]. intros s Hs. exact Hs. }
    intros _ s Hs. rewrite run_bind_gets. by destruct (balloc_image _ _ Hs) as (m & -> & Hm). }
  intros s Hs. pose proof (ends_bind _ _ _ (λ _ : unit, _) _ zero_start (λ _, Hrest) s Hs) as H. mred_in H. exact H.
Qed.

(** C7 [type]: mkfs builds a well-formed file system.  With fewer files than
    inodes, it either stops at an assertion or a read (the files do not fit), or
    writes an image of [FSSIZE] sectors with the super block in place, an empty
    log, and a bitmap that marks exactly the blocks handed out; every block that
    an inode or an indirect block names is a data block marked used, and no two
    of these pointers name the same block. *)
Theorem mkfs_image files :
  Z.of_nat (length files) + 2 ≤ NINODES → Forall (λ f, Forall (λ p, Z.of_nat (length p) ≤ BSIZE) f.2) files →
  (∃ e, main files start = Panic e) ∨ (∃ m, main files start = Ok tt m ∧ image_ok m).
Proof.
  intros Hn Hf. pose proof (main_ends files Hn Hf start eq_refl) as H.
  destruct (main files start) as [[] m|e| |]; [right|left|done|done]; eauto.
Qed.

Definition files1 : list (list Z * list (list Z)) := [(chars "_sh", [replicate 512 7; [1; 2; 3]]); (chars "README", [])].

Definition image1 : mkst := match main files1 start with Ok _ m => m | _ => start end.

Lemma files1_ok : main files1 start = Ok tt image1.
Proof.
  assert (match main files1 start with Ok _ _ => true | _ => false end = true) as H by (vm_compute; reflexivity).
  unfold image1. destruct (main files1 start) as [[] m|e| |]; [reflexivity|discriminate H..].
Qed.

#[local] Opaque image1.

Lemma ok_state {A} (a b : A) (s s' : mkst) : Ok a s = Ok b s' → s = s'.
Proof. by intros [= _ ->]. Qed.

Lemma files1_pieces : Forall (λ f : list Z * list (list Z), Forall (λ p, Z.of_nat (length p) ≤ BSIZE) f.2) files1.
Proof. repeat constructor; done. Qed.

Lemma mkfs_image_witness : ∃ m, main files1 start = Ok tt m ∧ image_ok m ∧ file_slot m 2 0 = 60 ∧ file_slot m 2 1 = 61.
Proof.
  destruct (mkfs_image files1 ltac:(done) files1_pieces) as [[e E]|(m & E & Hm)].
  - rewrite files1_ok in E. discriminate E.
  - exists m. rewrite files1_ok in E. apply ok_state in E as <-. split; [exact files1_ok|]. split; [exact Hm|]. split; vm_compute; reflexivity.
Defined.

(** The super block as readsb() decodes it. *)
Definition super_of (d : block) : superblock :=
  let w := get_word d in Superblock (w 0%nat) (w 1%nat) (w 2%nat) (w 3%nat) (w 4%nat) (w 5%nat) (w 6%nat).

(** A kernel whose disk is the image, with the super block and the log's place
    read from it as iinit() and initlog() do. *)
Record booted (m : mkst) (s : fsst) : Prop := {
  bt_size : disk_size (lb (flog s)) = FSSIZE;
  bt_blk b : 0 ≤ b < FSSIZE → blk s b = sector m b;
  bt_sb : Fs.sb s = super_of (blk s 1);
  bt_lstart : lstart (log (flog s)) = s32 (sb_logstart (Fs.sb s));
  bt_lsize : lsize (log (flog s)) = s32 (sb_nlog (Fs.sb s));
}.


Definition booted1 : fsst :=
  Fsst (set_cl (Lst (set_disk (img image1) bst_blank) (log lst0)) cst0) Mk.sb [] [].

Lemma image1_ok : image_ok image1.
Proof.
  pose proof (main_ends files1 ltac:(done) files1_pieces start eq_refl) as H. rewrite files1_ok in H. exact H.
Qed.

Lemma booted1_ok : booted image1 booted1.
Proof.
  assert (∀ b, cont (set_disk (img image1) bst_blank) b = sector image1 b) as Hc.
  { intros b. unfold cont. assert (cached (set_disk (img image1) bst_blank) b = None) as -> by reflexivity. reflexivity. }
  split.
  - change (Z.of_nat (length (img image1)) = FSSIZE). by rewrite (im_len _ image1_ok).
  - intros b _. apply Hc.
  - change (Mk.sb = super_of (cont (set_disk (img image1) bst_blank) 1)). rewrite Hc, (im_super _ image1_ok). reflexivity.
  - reflexivity.
  - reflexivity.
Qed.

