(* ===== verification/File.v ===== *)
(** * Open files and pipes: file.c, pipe.c

    A [struct file *] is the index of its slot in the file table.  A pipe lives in
    a page of its own; its structure is in [pipes], by the address of the page, and
    its spin lock is [LPipe] of that address.  The data array of a new pipe, which
    pipealloc() leaves as it finds it, is zero here; it is written before it is
    read. *)

From S2P Require Import Prelude Machine Proc CString Kalloc Sleeplock Bio Log Ring Console Fs.
Open Scope kernel_scope.

Definition NFILE : nat := 100.
Definition PIPESIZE : nat := 512.

Inductive filetype := FD_NONE | FD_PIPE | FD_INODE.

Record file := File {
  ftype : filetype; fref : Z; readable : Z; writable : Z; fpipe : Z; fip : nat; foff : Z
}.
Definition set_ftype (v : filetype) (f : file) : file :=
  File v (fref f) (readable f) (writable f) (fpipe f) (fip f) (foff f).
Definition set_fref (v : Z) (f : file) : file :=
  File (ftype f) v (readable f) (writable f) (fpipe f) (fip f) (foff f).
Definition set_readable (v : Z) (f : file) : file :=
  File (ftype f) (fref f) v (writable f) (fpipe f) (fip f) (foff f).
Definition set_writable (v : Z) (f : file) : file :=
  File (ftype f) (fref f) (readable f) v (fpipe f) (fip f) (foff f).
Definition set_fpipe (v : Z) (f : file) : file :=
  File (ftype f) (fref f) (readable f) (writable f) v (fip f) (foff f).
Definition set_fip (v : nat) (f : file) : file :=
  File (ftype f) (fref f) (readable f) (writable f) (fpipe f) v (foff f).
Definition set_foff (v : Z) (f : file) : file :=
  File (ftype f) (fref f) (readable f) (writable f) (fpipe f) (fip f) v.

Definition file0 : file := File FD_NONE 0 0 0 0 0 0.
#[global] Instance file_inhabited : Inhabited file := populate file0.

Record pipe := Pipe { pdata : list Z; nread : Z; nwrite : Z; readopen : Z; writeopen : Z }.
Definition set_pdata (v : list Z) (p : pipe) : pipe := Pipe v (nread p) (nwrite p) (readopen p) (writeopen p).
Definition set_nread (v : Z) (p : pipe) : pipe := Pipe (pdata p) v (nwrite p) (readopen p) (writeopen p).
Definition set_nwrite (v : Z) (p : pipe) : pipe := Pipe (pdata p) (nread p) v (readopen p) (writeopen p).
Definition set_readopen (v : Z) (p : pipe) : pipe := Pipe (pdata p) (nread p) (nwrite p) v (writeopen p).
Definition set_writeopen (v : Z) (p : pipe) : pipe := Pipe (pdata p) (nread p) (nwrite p) (readopen p) v.
#[global] Instance pipe_inhabited : Inhabited pipe := populate (Pipe [] 0 0 0 0).

Record ost := Ost { ofs : fsst; files : list file; pipes : gmap Z pipe }.
Definition set_ofs (v : fsst) (s : ost) : ost := Ost v (files s) (pipes s).
Definition set_files (v : list file) (s : ost) : ost := Ost (ofs s) v (pipes s).
Definition set_pipes (v : gmap Z pipe) (s : ost) : ost := Ost (ofs s) (files s) v.

#[global] Instance lens_fsst S `{Lens S ost} : Lens S fsst.
Proof.
  refine {| view s := ofs (view s); upd k s := upd (set_ofs k (view s)) s |}.
  - intros. by rewrite view_upd.
  - intros s. assert (∀ x, set_ofs (ofs x) x = x) as -> by (by intros []). apply upd_view.
  - intros. by rewrite view_upd, upd_upd.
Defined.

(** ** pipe.c *)

Definition get_pipe (p : Z) : M ost pipe := gets (λ s, default inhabitant (pipes s !! p)).
Definition alter_pipe (p : Z) (f : pipe → pipe) : M ost unit := modify (λ s, set_pipes (alter f p (pipes s)) s).

Definition pipeclose (p : Z) (writable : bool) : M ost unit :=
  acquire (LPipe p);;
  (if writable then alter_pipe p (set_writeopen 0);; wakeup (ChPipeRead p)
   else alter_pipe p (set_readopen 0);; wakeup (ChPipeWrite p));;
  x ← get_pipe p;
  if (readopen x =? 0) && (writeopen x =? 0) then
    release (LPipe p);;
    modify (λ s, set_pipes (delete p (pipes s)) s);;
    kfree p
  else release (LPipe p).

(** Waiting for room; false when the reader is gone or the process killed. *)
Definition pipe_full_body (p : Z) (_ : unit) : M ost (unit + bool) :=
  x ← get_pipe p;
  if negb (nwrite x =? nread x +u Z.of_nat PIPESIZE) then mret (inr true) else
  quit ← (if readopen x =? 0 then mret true else
          i ← myproc_some; q ← get_proc i; mret (negb (killed q =? 0)));
  if quit : bool then mret (inr false) else
  wakeup (ChPipeRead p);;
  sleep (ChPipeWrite p) (Some (LPipe p));;
  mret (inl tt).

Fixpoint pipewrite_loop (p : Z) (addr : list Z) : M ost bool :=
  match addr with
  | [] => mret true
  | b :: addr =>
      ok ← loop (pipe_full_body p) 32 tt;
      if negb ok then mret false else
      alter_pipe p (λ x, set_nwrite (nwrite x +u 1) (set_pdata (<[slot PIPESIZE (nwrite x) := u8 b]> (pdata x)) x));;
      pipewrite_loop p addr
  end.

Definition pipewrite (p : Z) (addr : list Z) : M ost Z :=
  acquire (LPipe p);;
  ok ← pipewrite_loop p addr;
  if negb ok then release (LPipe p);; mret (-1) else
  wakeup (ChPipeRead p);;
  release (LPipe p);;
  mret (Z.of_nat (length addr)).

(** Waiting for data; false when the process has been killed. *)
Definition pipe_empty_body (p : Z) (_ : unit) : M ost (unit + bool) :=
  x ← get_pipe p;
  if negb ((nread x =? nwrite x) && negb (writeopen x =? 0)) then mret (inr true) else
  i ← myproc_some;
  q ← get_proc i;
  if negb (killed q =? 0) then mret (inr false) else
  sleep (ChPipeRead p) (Some (LPipe p));;
  mret (inl tt).

(** The bytes read, at most [n] more. *)
Fixpoint piperead_loop (p : Z) (n : nat) : M ost (list Z) :=
  match n with
  | O => mret []
  | S n =>
      x ← get_pipe p;
      if nread x =? nwrite x then mret [] else
      let b := pdata x !!! slot PIPESIZE (nread x) in
      alter_pipe p (λ x, set_nread (nread x +u 1) x);;
      l ← piperead_loop p n;
      mret (b :: l)
  end.

Definition piperead (p n : Z) : M ost (Z * list Z) :=
  acquire (LPipe p);;
  ok ← loop (pipe_empty_body p) 32 tt;
  if negb ok then release (LPipe p);; mret (-1, []) else
  l ← piperead_loop p (Z.to_nat n);
  wakeup (ChPipeWrite p);;
  release (LPipe p);;
  mret (Z.of_nat (length l), l).

(** ** file.c *)

Definition get_file (f : nat) : M ost file := gets (λ s, files s !!! f).
Definition alter_file (f : nat) (g : file → file) : M ost unit := modify (λ s, set_files (alter g f (files s)) s).

Definition fileinit : M ost unit := initlock LFtable.

Definition filealloc : M ost (option nat) :=
  acquire LFtable;;
  l ← gets files;
  match first_index (λ f, fref f =? 0) l with
  | Some f => alter_file f (set_fref 1);; release LFtable;; mret (Some f)
  | None => release LFtable;; mret None
  end.

Definition filedup (f : nat) : M ost nat :=
  acquire LFtable;;
  x ← get_file f;
  if fref x <? 1 then panic "filedup" else
  alter_file f (λ x, set_fref (fref x +i 1) x);;
  release LFtable;;
  mret f.

Definition fileclose (f : nat) : M ost unit :=
  acquire LFtable;;
  x ← get_file f;
  if fref x <? 1 then panic "fileclose" else
  alter_file f (λ x, set_fref (fref x -i 1) x);;
  ff ← get_file f;
  if 0 <? fref ff then release LFtable else
  alter_file f (set_fref 0);;
  alter_file f (set_ftype FD_NONE);;
  release LFtable;;
  match ftype ff with
  | FD_PIPE => pipeclose (fpipe ff) (negb (writable ff =? 0))
  | FD_INODE => begin_op;; iput (fip ff);; end_op
  | FD_NONE => mret tt
  end.

Definition filestat (f : nat) : M ost (Z * option (Z * Z * Z * Z * Z)) :=
  x ← get_file f;
  match ftype x with
  | FD_INODE => ilock (fip x);; st ← stati (fip x); iunlock (fip x);; mret (0, Some st)
  | _ => mret (-1, None)
  end.

(** The result and the bytes stored at [addr]. *)
Definition fileread (f : nat) (n : Z) : M ost (Z * list Z) :=
  x ← get_file f;
  if readable x =? 0 then mret (-1, []) else
  match ftype x with
  | FD_PIPE => piperead (fpipe x) n
  | FD_INODE =>
      ilock (fip x);;
      x ← get_file f;
      '(r, l) ← readi (fip x) (foff x) (u32 n);
      mwhen (0 <? r) (alter_file f (λ x, set_foff (foff x +u r) x));;
      iunlock (fip x);;
      mret (r, l)
  | FD_NONE => panic "fileread"
  end.

(** The most filewrite() writes in one transaction. *)
Definition write_max : Z := Z.quot (MAXOPBLOCKS - 1 - 1 - 2) 2 * 512.

Definition filewrite_body (f : nat) (addr : list Z) (i : Z) : M ost (Z + Z) :=
  let n := Z.of_nat (length addr) in
  if negb (i <? n) then mret (inr i) else
  let n1 := if write_max <? n - i then write_max else n - i in
  begin_op;;
  x ← get_file f;
  ilock (fip x);;
  x ← get_file f;
  r ← writei (fip x) (take (Z.to_nat n1) (drop (Z.to_nat i) addr)) (foff x);
  mwhen (0 <? r) (alter_file f (λ x, set_foff (foff x +u r) x));;
  iunlock (fip x);;
  end_op;;
  if r <? 0 then mret (inr i) else
  if negb (r =? n1) then panic "short filewrite" else mret (inl (i + r)).

Definition filewrite (f : nat) (addr : list Z) : M ost Z :=
  x ← get_file f;
  if writable x =? 0 then mret (-1) else
  match ftype x with
  | FD_PIPE => pipewrite (fpipe x) addr
  | FD_INODE =>
      i ← loop (filewrite_body f addr) 32 0;
      mret (if i =? Z.of_nat (length addr) then Z.of_nat (length addr) else -1)
  | FD_NONE => panic "filewrite"
  end.

(** pipe.c; [None] is the result -1. *)
Definition pipealloc : M ost (option (nat * nat)) :=
  f0 ← filealloc;
  match f0 with
  | None => mret None
  | Some f0 =>
      f1 ← filealloc;
      match f1 with
      | None => fileclose f0;; mret None
      | Some f1 =>
          p ← kalloc;
          if p =? 0 then fileclose f0;; fileclose f1;; mret None else
          modify (λ s, set_pipes (<[p := Pipe (replicate PIPESIZE 0) 0 0 1 1]> (pipes s)) s);;
          initlock (LPipe p);;
          alter_file f0 (set_ftype FD_PIPE);;
          alter_file f0 (set_readable 1);;
          alter_file f0 (set_writable 0);;
          alter_file f0 (set_fpipe p);;
          alter_file f1 (set_ftype FD_PIPE);;
          alter_file f1 (set_readable 0);;
          alter_file f1 (set_writable 1);;
          alter_file f1 (set_fpipe p);;
          mret (Some (f0, f1))
      end
  end.

(** ** Pipes as queues *)

(** The pipe holds the bytes [l], oldest first. *)
Record pipe_rel (x : pipe) (l : list Z) : Prop := {
  pr_len : length (pdata x) = PIPESIZE;
  pr_nread : is_u32 (nread x);
  pr_nwrite : nwrite x = u32 (nread x + Z.of_nat (length l));
  pr_fit : (length l ≤ PIPESIZE)%nat;
  pr_bytes : contents PIPESIZE (pdata x) (nread x) (length l) = l;
}.

Lemma pipesize_div : (Z.of_nat PIPESIZE | 2 ^ 32).
Proof. exists (2 ^ 23). reflexivity. Qed.

Section pipe_rel.
Context (x : pipe) (l : list Z) (Hr : pipe_rel x l).

Lemma pipe_full : (nwrite x =? nread x +u Z.of_nat PIPESIZE) = (length l =? PIPESIZE)%nat.
Proof using Hr. destruct Hr as [_ _ -> Hf _]. by rewrite (counter_eq PIPESIZE) by (done || lia). Qed.

Lemma pipe_empty : (nread x =? nwrite x) = bool_decide (l = []).
Proof using Hr.
  destruct Hr as [_ Hn -> Hf _]. rewrite <- (u32_id (nread x)) at 1 by done.
  pose proof (counter_eq PIPESIZE (nread x) 0 (length l) ltac:(done) ltac:(lia) Hf) as E.
  rewrite Z.add_0_r in E. rewrite E. by destruct l.
Qed.

Lemma pipe_push b :
  (length l < PIPESIZE)%nat →
  pipe_rel (set_nwrite (nwrite x +u 1) (set_pdata (<[slot PIPESIZE (nwrite x) := b]> (pdata x)) x)) (l ++ [b]).
Proof using Hr.
  intros Hlt. destruct Hr as [H1 H2 H3 H4 H5].
  split; cbn [pdata nread nwrite set_nwrite set_pdata]; rewrite ?length_app; cbn [length].
  - by rewrite length_insert.
  - done.
  - rewrite H3, u32_add_u32. f_equal. lia.
  - lia.
  - rewrite H3, ring_slot_u32 by apply pipesize_div. rewrite Nat.add_1_r.
    rewrite contents_push by (done || apply pipesize_div). by rewrite H5.
Qed.
End pipe_rel.

Lemma pipe_pop x b l :
  pipe_rel x (b :: l) → pdata x !!! slot PIPESIZE (nread x) = b ∧ pipe_rel (set_nread (nread x +u 1) x) l.
Proof.
  intros [H1 H2 H3 H4 H5]. cbn [length] in *. rewrite contents_pop in H5. injection H5 as Hb H5.
  split; [done|]. split; cbn [pdata nread nwrite set_nread]; try done.
  - apply u32_range.
  - rewrite H3, u32_add_u32. f_equal. lia.
  - lia.
  - by rewrite contents_u32 by apply pipesize_div.
Qed.

Definition with_pipe (p : Z) (x : pipe) (s : ost) : ost := set_pipes (<[p := x]> (pipes s)) s.

Lemma get_pipe_run p x s : pipes s !! p = Some x → get_pipe p s = Ok x s.
Proof. intros H. unfold get_pipe. mred. by rewrite H. Qed.

Lemma alter_pipe_run p f x s : pipes s !! p = Some x → alter_pipe p f s = Ok tt (with_pipe p (f x) s).
Proof.
  intros H. unfold alter_pipe, with_pipe. mred. do 2 f_equal. apply map_eq. intros q.
  destruct (decide (q = p)) as [->|Hne]; [by rewrite lookup_alter_eq, lookup_insert_eq, H|].
  by rewrite lookup_alter_ne, lookup_insert_ne.
Qed.

Lemma with_pipe_id p x s : pipes s !! p = Some x → with_pipe p x s = s.
Proof. intros H. unfold with_pipe. rewrite insert_id by done. by destruct s. Qed.
Lemma with_pipe_lookup p x s : pipes (with_pipe p x s) !! p = Some x.
Proof. apply lookup_insert_eq. Qed.
Lemma with_pipe_twice p x y s : with_pipe p x (with_pipe p y s) = with_pipe p x s.
Proof. unfold with_pipe. cbn. by rewrite insert_insert_eq. Qed.

Lemma pipewrite_loop_run p bytes x l s :
  pipes s !! p = Some x → pipe_rel x l → (length l + length bytes ≤ PIPESIZE)%nat → Forall is_u8 bytes →
  ∃ x', pipewrite_loop p bytes s = Ok true (with_pipe p x' s) ∧ pipe_rel x' (l ++ bytes) ∧
    readopen x' = readopen x ∧ writeopen x' = writeopen x.
Proof.
  revert x l s. induction bytes as [|b bytes IH]; intros x l s Hx Hr Hfit Hb.
  - exists x. rewrite with_pipe_id, app_nil_r by done. done.
  - apply Forall_cons in Hb as [Hb Hbs]. cbn [length] in Hfit.
    assert (loop (pipe_full_body p) 32 tt s = Ok true s) as El.
    { apply (loop_iter _ 32 1); [|vm_compute; discriminate]. apply iter_exit. unfold pipe_full_body.
      mstep (get_pipe_run p x s Hx). rewrite (pipe_full _ _ Hr), (proj2 (Nat.eqb_neq _ _)) by lia. done. }
    cbn [pipewrite_loop]. mstep El. cbn [negb]. rewrite (bind_ok _ _ _ _ _ (alter_pipe_run p _ x s Hx)).
    rewrite (u8_id b) by done. pose proof (pipe_push _ _ Hr b ltac:(lia)) as Hr1. set (x1 := set_nwrite _ _) in *.
    destruct (IH x1 (l ++ [b]) (with_pipe p x1 s)) as (x' & E & Hr' & H1 & H2);
      [apply with_pipe_lookup|done|rewrite length_app; cbn; lia|done|].
    exists x'. rewrite with_pipe_twice in E. rewrite <- app_assoc in Hr'. done.
Qed.

Lemma piperead_loop_run p n x l s :
  pipes s !! p = Some x → pipe_rel x l →
  ∃ x', piperead_loop p n s = Ok (take n l) (with_pipe p x' s) ∧ pipe_rel x' (drop n l) ∧
    readopen x' = readopen x ∧ writeopen x' = writeopen x.
Proof.
  revert x l s. induction n as [|n IH]; intros x l s Hx Hr.
  - exists x. by rewrite with_pipe_id.
  - cbn [piperead_loop]. mstep (get_pipe_run p x s Hx). rewrite (pipe_empty _ _ Hr).
    destruct l as [|b l].
    { rewrite bool_decide_true by done. exists x. by rewrite with_pipe_id. }
    rewrite bool_decide_false by done. destruct (pipe_pop _ _ _ Hr) as [Eb Hr1].
    cbv zeta. rewrite (bind_ok _ _ _ _ _ (alter_pipe_run p _ x s Hx)).
    set (x1 := set_nread _ _) in *.
    destruct (IH x1 l (with_pipe p x1 s)) as (x' & E & Hr' & H1 & H2); [apply with_pipe_lookup|done|].
    exists x'. mstep E. rewrite with_pipe_twice, Eb. done.
Qed.

(** CPU [c] can use the pipe. *)
Record pipe_env (c : nat) (p : Z) (s : ost) : Prop := {
  pe_balanced : balanced c (view s);
  pe_lock : is_free (LPipe p) (view s);
  pe_ptable : is_free LPtable (view s);
}.

(** The state after an operation: the pipe, and the processes it wakes up. *)
Definition after_op (p : Z) (x : pipe) (ch : chan_t) (s : ost) : ost :=
  upd (set_ptable (Core.wake ch <$> ptable (view s)) (view s)) (with_pipe p x s).

Lemma after_op_env c p x ch s : pipe_env c p s → pipe_env c p (after_op p x ch s).
Proof. intros [? ? ?]. by split. Qed.
Lemma after_op_lookup p x ch s : pipes (after_op p x ch s) !! p = Some x.
Proof. apply lookup_insert_eq. Qed.

(** The end of both operations. *)
Lemma wake_release_run {A} c p x ch s (k : M ost A) :
  pipe_env c p s →
  (wakeup ch;; release (LPipe p);; k) (with_pipe p x (upd (acq c (LPipe p) (view s)) s)) = k (after_op p x ch s).
Proof.
  intros [Hb Hl Hp]. set (s1 := with_pipe p x _).
  assert (wakeup ch s1 = Ok tt (upd (set_ptable (Core.wake ch <$> ptable (view s1)) (view s1)) s1)) as E.
  { apply lift_ok. apply (wakeup_core c); [by apply acq_balanced|by apply is_free_acq]. }
  mstep E. set (s2 := upd _ s1). assert ((view s2 : hart) = acq c (LPipe p) (view s)) as Ev by done.
  by rewrite (bind_ok _ _ _ _ _ (release_ok c (LPipe p) (view s) s2 Ev Hb Hl)).
Qed.

Lemma pipewrite_run c p bytes x l s :
  pipe_env c p s → pipes s !! p = Some x → pipe_rel x l → (length l + length bytes ≤ PIPESIZE)%nat → Forall is_u8 bytes →
  ∃ x', pipewrite p bytes s = Ok (Z.of_nat (length bytes)) (after_op p x' (ChPipeRead p) s) ∧ pipe_rel x' (l ++ bytes) ∧
    readopen x' = readopen x ∧ writeopen x' = writeopen x.
Proof.
  intros He Hx Hr Hfit Hb. pose proof He as [Hbal Hl Hp]. unfold pipewrite.
  mstep (acquire_ok c (LPipe p) s Hbal Hl).
  destruct (pipewrite_loop_run p bytes x l (upd (acq c (LPipe p) (view s)) s)) as (x' & E & Hr' & H1 & H2); [done..|].
  exists x'. split; [|done]. mstep E. cbn [negb].
  exact (wake_release_run c p x' (ChPipeRead p) s (mret (Z.of_nat (length bytes))) He).
Qed.

Lemma piperead_run c p n x l s :
  pipe_env c p s → pipes s !! p = Some x → pipe_rel x l → l ≠ [] ∨ writeopen x = 0 →
  ∃ x', piperead p (Z.of_nat n) s = Ok (Z.of_nat (length (take n l)), take n l) (after_op p x' (ChPipeWrite p) s) ∧
    pipe_rel x' (drop n l) ∧ readopen x' = readopen x ∧ writeopen x' = writeopen x.
Proof.
  intros He Hx Hr Hne. pose proof He as [Hbal Hl Hp]. unfold piperead.
  mstep (acquire_ok c (LPipe p) s Hbal Hl). set (s1 := upd _ s).
  assert (loop (pipe_empty_body p) 32 tt s1 = Ok true s1) as El.
  { apply (loop_iter _ 32 1); [|vm_compute; discriminate]. apply iter_exit. unfold pipe_empty_body.
    rewrite (bind_ok _ _ _ _ _ (get_pipe_run p x s1 Hx)). rewrite (pipe_empty _ _ Hr).
    destruct Hne as [Hne|Hw]; [rewrite bool_decide_false by done; done|]. rewrite Hw. by rewrite andb_false_r. }
  mstep El. cbn [negb]. rewrite Nat2Z.id.
  destruct (piperead_loop_run p n x l s1) as (x' & E & Hr' & H1 & H2); [done..|].
  exists x'. split; [|done]. mstep E.
  exact (wake_release_run c p x' (ChPipeWrite p) s (mret (Z.of_nat (length (take n l)), take n l)) He).
Qed.

(** Operations on the two ends of a pipe, and a bounded queue of bytes; [None]
    means that the operation has to wait. *)
Inductive pipe_op := PWrite (bytes : list Z) | PRead (n : nat).

Definition queue_op (closed : bool) (q : list Z) (o : pipe_op) : option (Z * list Z * list Z) :=
  match o with
  | PWrite bytes => if (length q + length bytes <=? PIPESIZE)%nat then Some (Z.of_nat (length bytes), [], q ++ bytes) else None
  | PRead n => if bool_decide (q = []) && negb closed then None
               else Some (Z.of_nat (length (take n q)), take n q, drop n q)
  end.

Definition run_op (p : Z) (o : pipe_op) : M ost (Z * list Z) :=
  match o with
  | PWrite bytes => r ← pipewrite p bytes; mret (r, [])
  | PRead n => piperead p (Z.of_nat n)
  end.

Fixpoint queue_ops (closed : bool) (q : list Z) (os : list pipe_op) : option (list (Z * list Z) * list Z) :=
  match os with
  | [] => Some ([], q)
  | o :: os =>
      match queue_op closed q o with
      | Some (r, l, q) => match queue_ops closed q os with Some (rs, q) => Some ((r, l) :: rs, q) | None => None end
      | None => None
      end
  end.

Fixpoint run_ops (p : Z) (os : list pipe_op) : M ost (list (Z * list Z)) :=
  match os with
  | [] => mret []
  | o :: os => r ← run_op p o; rs ← run_ops p os; mret (r :: rs)
  end.

Definition op_bytes (o : pipe_op) : list Z := match o with PWrite b => b | PRead _ => [] end.

(** C5 [refinement]: a pipe is a bounded queue.  For every sequence of writes and
    reads that a queue of 512 bytes can do without waiting, pipewrite() and
    piperead() return what the queue returns, and the pipe then holds the bytes of
    the queue: bytes come out in the order they went in, none is lost or repeated,
    a read takes at most what is there, and at the end of a closed pipe it returns
    0.  The counters of bytes read and written may wrap around at any point. *)
Theorem pipe_queue c p os s x q rs q' :
  pipe_env c p s → pipes s !! p = Some x → pipe_rel x q → Forall (λ o, Forall is_u8 (op_bytes o)) os →
  queue_ops (writeopen x =? 0) q os = Some (rs, q') →
  ∃ s' x', run_ops p os s = Ok rs s' ∧ pipe_env c p s' ∧ pipes s' !! p = Some x' ∧ pipe_rel x' q'.
Proof.
  revert s x q rs. induction os as [|o os IH]; intros s x q rs He Hx Hr Hb Hq.
  { injection Hq as <- <-. by exists s, x. }
  apply Forall_cons in Hb as [Hb Hbs]. cbn [queue_ops] in Hq.
  destruct (queue_op (writeopen x =? 0) q o) as [[[r l] q1]|] eqn:Eo; [|done].
  assert (∃ x1 ch, run_op p o s = Ok (r, l) (after_op p x1 ch s) ∧ pipe_rel x1 q1 ∧ writeopen x1 = writeopen x) as (x1 & ch & E & Hr1 & Hw).
  { destruct o as [bytes|n]; cbn [queue_op] in Eo.
    - destruct (Nat.leb_spec (length q + length bytes) PIPESIZE) as [Hfit|]; [|done]. injection Eo as <- <- <-.
      destruct (pipewrite_run c p bytes x q s He Hx Hr Hfit Hb) as (x1 & E & H1 & _ & H2).
      exists x1, (ChPipeRead p). split; [|done]. cbn [run_op]. by mstep E.
    - destruct (bool_decide (q = []) && negb (writeopen x =? 0)) eqn:Ew; [done|]. injection Eo as <- <- <-.
      destruct (piperead_run c p n x q s He Hx Hr) as (x1 & E & H1 & _ & H2); [|by exists x1, (ChPipeWrite p)].
      apply andb_false_iff in Ew as [Ew|Ew]; [left; by apply bool_decide_eq_false in Ew|right].
      apply negb_false_iff in Ew. lia. }
  destruct (queue_ops (writeopen x =? 0) q1 os) as [[rs1 q2]|] eqn:Eq; [|done]. injection Hq as <- <-.
  rewrite <- Hw in Eq.
  destruct (IH (after_op p x1 ch s) x1 q1 rs1) as (s' & x' & E' & He' & Hx' & Hr');
    [by apply after_op_env|apply after_op_lookup|done|done|done|].
  exists s', x'. split_and!; [|done..]. cbn [run_ops]. mstep E. by mstep E'.
Qed.

(** A pipe with two bytes in it, and counters about to wrap around. *)
Definition pipe0 : pipe :=
  Pipe (<[511%nat := 66]> (<[510%nat := 65]> (replicate PIPESIZE 0))) (2 ^ 32 - 2) 0 1 1.
Definition fsst0 : fsst :=
  Fsst cst0 (Superblock 50 10 8 30 2 32 33) (replicate NINODE inode0) (<[CONSOLE := Some ConsoleDev]> (replicate NDEV None)).
Definition ost0 : ost :=
  upd (set_lock (LPipe 0x80500000) (Spinlock 0 None) hart0) (Ost fsst0 (replicate NFILE file0) {[0x80500000 := pipe0]}).

Lemma pipe0_rel : pipe_rel pipe0 [65; 66].
Proof. split; [reflexivity|split; [vm_compute; discriminate|reflexivity]|reflexivity|vm_compute; lia|vm_compute; reflexivity]. Qed.

Lemma pipe_queue_witness :
  ∃ s', run_ops 0x80500000 [PWrite [67; 68]; PRead 3; PRead 9] ost0 = Ok [(2, []); (3, [65; 66; 67]); (1, [68])] s'.
Proof.
  destruct (pipe_queue 1 0x80500000 [PWrite [67; 68]; PRead 3; PRead 9] ost0 pipe0 [65; 66]
    [(2, []); (3, [65; 66; 67]); (1, [68])] []) as (s' & x' & E & _).
  - split; [|reflexivity..]. split; [reflexivity|]. eexists. split; [reflexivity|]. cbn. done.
  - reflexivity.
  - exact pipe0_rel.
  - repeat constructor; discriminate.
  - reflexivity.
  - exists s'. exact E.
Defined.
