(* ===== verification/Process.v ===== *)
(** * Processes: the rest of proc.c

    allocproc, userinit, growproc, fork, clone, exit, wait and forkret.  The kernel
    stack's page comes from kalloc(); the trap frame and the saved context, which
    live at its top, are in the process structure (see Proc.v), so a new frame keeps
    the old contents until it is filled.  [forkret_addr], [trapret_addr] and
    [initcode] are symbols of the linker. *)

From S2P Require Import Prelude Machine Proc CString Kalloc Vm Sleeplock Bio Log Console Fs File.
Open Scope kernel_scope.

Definition FL_IF : Z := 0x200.
Definition SEG_UCODE : Z := 3.
Definition SEG_UDATA : Z := 4.
Definition DPL_USER : Z := 3.

(** sizeof(struct trapframe), sizeof(struct context) *)
Definition TF_SIZE : Z := 76.
Definition CONTEXT_SIZE : Z := 20.

(** safestrcpy(s, t, n) on arrays of bytes: the new contents of [s]. *)
Fixpoint safestrcpy_chars (n : nat) (t : list Z) : list Z :=
  match n, t with
  | S n, c :: t => if c =? 0 then [] else c :: safestrcpy_chars n t
  | _, _ => []
  end.
Definition safestrcpy (s t : list Z) (n : nat) : list Z :=
  match n with
  | O => s
  | S n => let l := safestrcpy_chars n t in l ++ 0 :: drop (S (length l)) s
  end.

(** A null pointer faults in the kernel. *)
Definition deref {A} (o : option A) : M ost A := match o with Some a => mret a | None => panic "trap" end.

Definition mod_core (f : core → core) : M ost unit := lift (modify f).
Definition get_core : M ost core := lift get.

(** memmove() on virtual addresses of the running process. *)
Fixpoint vcopy_up (d s : Z) (n : nat) : M ost unit :=
  match n with
  | O => mret tt
  | S n => v ← vload8 s; vstore8 d v;; vcopy_up (d +u 1) (s +u 1) n
  end.
Fixpoint vcopy_down (d s : Z) (n : nat) : M ost unit :=
  match n with
  | O => mret tt
  | S n => v ← vload8 (s -u 1); vstore8 (d -u 1) v;; vcopy_down (d -u 1) (s -u 1) n
  end.
Definition vmemmove (dst src n : Z) : M ost unit :=
  if (src <? dst) && (dst <? src +u n) then vcopy_down (dst +u n) (src +u n) (Z.to_nat n)
  else vcopy_up dst src (Z.to_nat n).

Section process.
Context (forkret_addr trapret_addr : Z) (initcode : list Z).

Definition allocproc : M ost (option nat) :=
  acquire LPtable;;
  k ← get_core;
  match first_index (λ p, bool_decide (state p = UNUSED)) (ptable k) with
  | None => release LPtable;; mret None
  | Some np =>
      alter_proc np (set_syscall_count 0);;
      alter_proc np (set_state EMBRYO);;
      alter_proc np (set_pid (nextpid k));;
      mod_core (set_nextpid (nextpid k +i 1));;
      release LPtable;;
      ks ← kalloc;
      alter_proc np (set_kstack ks);;
      if ks =? 0 then alter_proc np (set_state UNUSED);; mret None else
      mod_mem (store32 (ks +u KSTACKSIZE -u TF_SIZE -u 4) trapret_addr);;
      alter_proc np (set_context (Context 0 0 0 0 forkret_addr));;
      alter_proc np (set_pass 0);;
      alter_proc np (set_thread_indictor 0);;
      mret (Some np)
  end.

Definition user_frame : trapframe :=
  set_eip 0 (set_esp PGSIZE (set_eflags FL_IF
    (set_ss (Z.lor (Z.shiftl SEG_UDATA 3) DPL_USER) (set_es (Z.lor (Z.shiftl SEG_UDATA 3) DPL_USER)
      (set_ds (Z.lor (Z.shiftl SEG_UDATA 3) DPL_USER) (set_cs (Z.lor (Z.shiftl SEG_UCODE 3) DPL_USER) trapframe0)))))).

Definition userinit : M ost unit :=
  o ← allocproc;
  mod_core (set_initproc o);;
  p ← deref o;
  d ← setupkvm;
  alter_proc p (set_pgdir d);;
  if d =? 0 then panic "userinit: out of memory?" else
  inituvm d initcode;;
  alter_proc p (set_sz PGSIZE);;
  alter_proc p (set_tf user_frame);;
  alter_proc p (λ q, set_name (safestrcpy (name q) (chars "initcode") 16) q);;
  ip ← namei (chars "/");
  alter_proc p (set_cwd ip);;
  acquire LPtable;;
  alter_proc p (set_state RUNNABLE);;
  release LPtable.

Definition growproc (n : Z) : M ost Z :=
  i ← myproc_some;
  p ← get_proc i;
  let sz := sz p in
  sz ← (if 0 <? n then r ← allocuvm (pgdir p) sz (sz +u n); mret (if r =? 0 then None else Some r)
        else if n <? 0 then r ← deallocuvm (pgdir p) sz (sz +u n); mret (if r =? 0 then None else Some r)
        else mret (Some sz));
  match sz with
  | None => mret (-1)
  | Some sz =>
      alter_proc i (set_sz sz);;
      switchuvm (Some i);;
      mret 0
  end.

(** Duplicating the open files into the child. *)
Fixpoint dup_files (np : nat) (fs : list (option nat)) (i : nat) : M ost unit :=
  match fs with
  | [] => mret tt
  | None :: fs => dup_files np fs (S i)
  | Some f :: fs =>
      f ← filedup f;
      alter_proc np (λ p, set_ofile (<[i := Some f]> (ofile p)) p);;
      dup_files np fs (S i)
  end.

(** LAB-2: what fork() does to every slot of the table. *)
Definition fork_reset (p : proc) : proc :=
  if bool_decide (state p = RUNNABLE ∨ state p = RUNNING) then
    if negb (tickets p =? 0) then
      let p := set_stride (Z.quot TOTAL_MAX_TICKETS (tickets p)) p in
      set_execution_time 0 (set_execution_count 0 (set_pass (stride p) p))
    else p
  else set_stride 0 (set_tickets DEFAULT_TICKETS (set_execution_time 0 (set_execution_count 0 p))).

Definition fork : M ost Z :=
  i ← myproc_some;
  o ← allocproc;
  match o with
  | None => mret (-1)
  | Some np =>
      p ← get_proc i;
      d ← copyuvm (pgdir p) (sz p);
      alter_proc np (set_pgdir d);;
      if d =? 0 then
        q ← get_proc np;
        kfree (kstack q);;
        alter_proc np (set_kstack 0);;
        alter_proc np (set_state UNUSED);;
        mret (-1)
      else
        p ← get_proc i;
        alter_proc np (set_sz (sz p));;
        alter_proc np (set_parent (Some i));;
        alter_proc np (set_tf (tf p));;
        alter_proc np (λ q, set_tf (set_eax 0 (tf q)) q);;
        dup_files np (ofile p) 0;;
        ip ← deref (cwd p);
        ip ← idup ip;
        alter_proc np (set_cwd (Some ip));;
        alter_proc np (λ q, set_name (safestrcpy (name q) (name p) 16) q);;
        q ← get_proc np;
        acquire LPtable;;
        alter_proc np (set_state RUNNABLE);;
        release LPtable;;
        acquire LPtable;;
        mod_core (λ k, set_ptable (fork_reset <$> ptable k) k);;
        release LPtable;;
        mret (pid q)
  end.

(** LAB-3: the thread shares the open files without counting its references. *)
Fixpoint share_files (np : nat) (fs : list (option nat)) (i : nat) : M ost unit :=
  match fs with
  | [] => mret tt
  | None :: fs => share_files np fs (S i)
  | Some f :: fs =>
      alter_proc np (λ p, set_ofile (<[i := Some f]> (ofile p)) p);;
      share_files np fs (S i)
  end.

Definition clone (stack size : Z) : M ost Z :=
  mod_core (λ k, set_numofthread (numofthread k +i 1) k);;
  cprintf (chars "this is clone %d" ++ [10]) [Cons.CInt size];;
  o ← allocproc;
  match o with
  | None => mret (-1)
  | Some np =>
      i ← myproc_some;
      p ← get_proc i;
      alter_proc np (set_pgdir (pgdir p));;
      alter_proc np (set_sz (sz p));;
      alter_proc np (set_parent (Some i));;
      alter_proc np (set_tf (tf p));;
      alter_proc np (set_thread_indictor 1);;
      alter_proc np (λ q, set_tf (set_eax 0 (tf q)) q);;
      let bottom_stack := esp (tf p) in
      let top_stack := ebp (tf p) +u 16 in
      cprintf (chars "old esp :%d old ebp %d" ++ [10]) [Cons.CInt bottom_stack; Cons.CInt top_stack];;
      let parent_size := top_stack -u bottom_stack in
      cprintf (chars "copysize:%d, stack:%d" ++ [10]) [Cons.CInt parent_size; Cons.CInt stack];;
      alter_proc np (λ q, set_tf (set_esp (stack -u parent_size) (tf q)) q);;
      alter_proc np (λ q, set_tf (set_ebp (stack -u 16) (tf q)) q);;
      cprintf (chars "new stack esp %d ebp: %d" ++ [10]) [Cons.CInt (stack -u parent_size); Cons.CInt (stack -u 16)];;
      vmemmove (stack -u parent_size) bottom_stack parent_size;;
      q ← get_proc np;
      cprintf (chars "new eip:%d" ++ [10]) [Cons.CInt (eip (tf q))];;
      share_files np (ofile p) 0;;
      alter_proc np (set_cwd (cwd p));;
      q ← get_proc np;
      alter_proc np (set_state RUNNABLE);;
      alter_proc np (λ q, set_name (safestrcpy (name q) (name p) 16) q);;
      cprintf (chars "In clone function this is a pid %d" ++ [10]) [Cons.CInt (pid q)];;
      mret (pid q)
  end.

Fixpoint close_files (i : nat) (fd n : nat) : M ost unit :=
  match n with
  | O => mret tt
  | S n =>
      p ← get_proc i;
      match ofile p !!! fd with
      | Some f =>
          fileclose f;;
          alter_proc i (λ p, set_ofile (<[fd := None]> (ofile p)) p);;
          close_files i (S fd) n
      | None => close_files i (S fd) n
      end
  end.

Definition proc_chan (p : option nat) : chan_t := match p with Some i => ChProc i | None => ChNull end.

(** Passing the children of [i] to init. *)
Fixpoint reparent (i : nat) (q n : nat) : M ost unit :=
  match n with
  | O => mret tt
  | S n =>
      k ← get_core;
      let p := ptable k !!! q in
      mwhen (bool_decide (parent p = Some i))
        (cprintf (chars "enter parent == current, p->PID:%d " ++ [10]) [Cons.CInt (pid p)];;
         alter_proc q (set_parent (initproc k));;
         mwhen (bool_decide (state p = ZOMBIE)) (wakeup1 (proc_chan (initproc k))));;
      reparent i (S q) n
  end.

(** The two halves of exit(): closing the files, which is skipped while there are
    threads, and leaving the process table. *)
Definition exit_close (i : nat) : M ost unit :=
  close_files i 0 NOFILE;;
  begin_op;;
  p ← get_proc i;
  ip ← deref (cwd p);
  iput ip;;
  end_op;;
  alter_proc i (set_cwd None).

Definition exit_leave (i : nat) : M ost unit :=
  acquire LPtable;;
  p ← get_proc i;
  wakeup1 (proc_chan (parent p));;
  reparent i 0 NPROC;;
  alter_proc i (set_state ZOMBIE);;
  sched;;
  panic "zombie exit".

Definition exit : M ost unit :=
  cprintf (chars "enter exit.." ++ [10]) [];;
  i ← myproc_some;
  k ← get_core;
  if bool_decide (initproc k = Some i) then panic "init exiting" else
  mwhen (numofthread k =? 0) (exit_close i);;
  exit_leave i.

(** One scan of the table by wait(). *)
Definition wait_body (i : nat) (_ : unit) : M ost (unit + Z) :=
  k ← get_core;
  match first_index (λ p, bool_decide (parent p = Some i) && bool_decide (state p = ZOMBIE)) (ptable k) with
  | Some q =>
      let p := ptable k !!! q in
      if thread_indictor p =? 1 then
        mod_core (λ k, set_numofthread (numofthread k -i 1) k);;
        cprintf (chars "count thread:%d" ++ [10]) [Cons.CInt (numofthread k -i 1)];;
        alter_proc q (set_state UNUSED);;
        release LPtable;;
        mret (inr (pid p))
      else
        kfree (kstack p);;
        alter_proc q (set_kstack 0);;
        freevm (pgdir p);;
        alter_proc q (set_pid 0);;
        alter_proc q (set_parent None);;
        alter_proc q (λ p, set_name (<[0%nat := 0]> (name p)) p);;
        alter_proc q (set_killed 0);;
        alter_proc q (set_state UNUSED);;
        release LPtable;;
        mret (inr (pid p))
  | None =>
      let havekids := existsb (λ p, bool_decide (parent p = Some i)) (ptable k) in
      if negb havekids || negb (killed (ptable k !!! i) =? 0) then release LPtable;; mret (inr (-1)) else
      cprintf (chars "EXIT SLEEP for parent" ++ [10]) [];;
      sleep (ChProc i) (Some LPtable);;
      cprintf (chars "EXIT SLEEP for parent" ++ [10]) [];;
      mret (inl tt)
  end.

Definition wait : M ost Z :=
  cprintf (chars "ENTER WAIT" ++ [10]) [];;
  i ← myproc_some;
  acquire LPtable;;
  loop (wait_body i) 32 tt.

(** [first] is the static variable of forkret(); the result is its new value. *)
Definition forkret (first : bool) : M ost bool :=
  release LPtable;;
  if first then
    lift (Fs.iinit ROOTDEV);;
    lift (Lg.initlog ROOTDEV);;
    mret false
  else mret false.
End process.
