(* ===== verification/Lifecycle.v ===== *)
(** * Behaviour of exit and wait

    exit() and wait() act on the process table; besides that they print.  [runs]
    says what a state of the whole kernel has of the process table's part, and
    that printing is possible. *)

From S2P Require Import Prelude Rand Machine Proc CString Kalloc Vm Sleeplock Bio Log Console Fs File Process.
Open Scope kernel_scope.

(** Lock operations on the process table's part of a state. *)
Section core_locks.
Context {S : Type} `{Lens S core}.
Implicit Types (s : S) (k : core).

Lemma acquire_on c l s k :
  view s = k → balanced c (chart k) → is_free l (chart k) →
  acquire l s = Ok tt (upd (set_chart (acq c l (chart k)) k) s).
Proof. intros <- Hb Hf. exact (acquire_ok c l s Hb Hf). Qed.

Lemma release_on c l h s k :
  view s = k → chart k = acq c l h → balanced c h → is_free l h →
  release l s = Ok tt (upd (set_chart h k) s).
Proof. intros <- Hk Hb Hf. exact (release_ok c l h s Hk Hb Hf). Qed.

Lemma lift_on {A} (m : M core A) s k a k' : view s = k → m k = Ok a k' → lift m s = Ok a (upd k' s).
Proof. intros <- E. exact (lift_ok m s a k' E). Qed.
End core_locks.

#[local] Opaque lens_fsst lens_cst lens_lst lens_bst lens_sst lens_kst lens_core lens_hart.
Definition core_of (s : ost) : core := view s.
Definition cons_of (s : ost) : cst := view s.

Record runs (s : ost) (k : core) : Prop := {
  rn_core : core_of s = k;
  rn_print : can_print (cons_of s);
}.

Definition put_core (k : core) (s : ost) : ost := upd k s.

Lemma core_put k s : core_of (put_core k s) = k.
Proof. apply view_upd. Qed.

Lemma put_cons k s :
  panicked (cons_of (put_core k s)) = panicked (cons_of s) ∧ crtpos (cons_of (put_core k s)) = crtpos (cons_of s) ∧
  mem_of (cons_of (put_core k s)) = mem_of (cons_of s).
Proof. destruct s as [[[[[[[] ?] ? ? ?] ?] ? ? ? ? ? ? ? ?] ? ? ?] ? ?]. vm_compute. split; [|split]; reflexivity. Qed.

Lemma put_print k s : can_print (cons_of s) → can_print (cons_of (put_core k s)).
Proof.
  destruct (put_cons k s) as (E1 & E2 & E3). intros [H1 H2 H3].
  split; [by rewrite E1|unfold on_screen; by rewrite E2|by rewrite E3].
Qed.

Lemma runs_put k s : can_print (cons_of s) → runs (put_core k s) k.
Proof. intros. split; [apply core_put|by apply put_print]. Qed.

(** An operation of the process table, in the whole kernel. *)
Lemma core_step {A} (m : M core A) s k a k' :
  runs s k → m k = Ok a k' → ∃ s', lift m s = Ok a s' ∧ runs s' k'.
Proof. intros [Hk Hp] E. exists (put_core k' s). split; [exact (lift_on m s k a k' Hk E)|by apply runs_put]. Qed.

Lemma acquire_step c l s k :
  runs s k → balanced c (chart k) → is_free l (chart k) →
  ∃ s', acquire l s = Ok tt s' ∧ runs s' (set_chart (acq c l (chart k)) k).
Proof. intros [Hk Hp] Hb Hf. eexists. split; [exact (acquire_on c l s k Hk Hb Hf)|by apply runs_put]. Qed.

Lemma release_step c l h s k :
  runs s k → chart k = acq c l h → balanced c h → is_free l h →
  ∃ s', release l s = Ok tt s' ∧ runs s' (set_chart h k).
Proof. intros [Hk Hp] Ha Hb Hf. eexists. split; [exact (release_on c l h s k Hk Ha Hb Hf)|by apply runs_put]. Qed.

Definition put_cons_state (x : cst) (s : ost) : ost := upd x s.

Lemma cons_hart s : (view (cons_of s) : hart) = chart (core_of s).
Proof. vm_compute. reflexivity. Qed.

Lemma core_printed m p o s : core_of (put_cons_state (printed m p o (cons_of s)) s) = core_of s.
Proof. vm_compute. reflexivity. Qed.

Lemma cprintf_step c fmt argp s k :
  runs s k → is_Some (format fmt argp) → balanced c (chart k) → is_free LCons (chart k) →
  ∃ s', cprintf fmt argp s = Ok tt s' ∧ runs s' k.
Proof.
  intros [<- Hp] [l Hl] Hb Hf. rewrite <- cons_hart in Hb, Hf.
  destruct (cprintf_run c fmt argp l (cons_of s) Hl Hp Hb Hf) as (m & p & o & E & Hp').
  exists (put_cons_state (printed m p o (cons_of s)) s). split; [exact (lift_ok _ s _ _ E)|].
  split; [apply core_printed|]. unfold cons_of at 1, put_cons_state. by rewrite view_upd.
Qed.

(** ** exit *)

(** What exit() of process [i] does to the other entries of the table: children
    become init's, and init is woken when one of them is a zombie. *)
Definition adopt (i : nat) (init : option nat) (p : proc) : proc :=
  if bool_decide (parent p = Some i) then set_parent init p else p.
Definition zombie_child (i : nat) (p : proc) : bool :=
  bool_decide (parent p = Some i) && bool_decide (state p = ZOMBIE).
Definition adopted (i : nat) (init : option nat) (t : list proc) : list proc :=
  let t' := adopt i init <$> t in
  if existsb (zombie_child i) t then Core.wake (proc_chan init) <$> t' else t'.

Definition wake_if (b : bool) (ch : chan_t) (p : proc) : proc := if b then Core.wake ch p else p.

Lemma wake_parent ch p : parent (Core.wake ch p) = parent p.
Proof. unfold Core.wake. by case_bool_decide. Qed.
Lemma wake_zombie ch p : state (Core.wake ch p) = ZOMBIE ↔ state p = ZOMBIE.
Proof. unfold Core.wake. case_bool_decide as H; [|done]. destruct H as [-> _]. done. Qed.
Lemma wake_set_parent ch v p : Core.wake ch (set_parent v p) = set_parent v (Core.wake ch p).
Proof. unfold Core.wake. destruct p. cbn. by case_bool_decide. Qed.
Lemma wake_wake ch p : Core.wake ch (Core.wake ch p) = Core.wake ch p.
Proof. unfold Core.wake. by repeat case_bool_decide. Qed.

Section reparent.
Context (i : nat) (init : option nat) (t : list proc).

(** The table when the loop of exit() has passed the first [q] entries. *)
Definition passed (q : nat) : list proc :=
  imap (λ j p, wake_if (existsb (zombie_child i) (take q t)) (proc_chan init) (if decide (j < q)%nat then adopt i init p else p)) t.

Lemma passed_lookup q j p : t !! j = Some p →
  passed q !! j = Some (wake_if (existsb (zombie_child i) (take q t)) (proc_chan init) (if decide (j < q)%nat then adopt i init p else p)).
Proof. intros H. unfold passed. by rewrite list_lookup_imap, H. Qed.

Lemma passed_start : passed 0 = t.
Proof.
  apply list_eq. intros j. unfold passed. rewrite list_lookup_imap. simpl. destruct (t !! j); done.
Qed.

Lemma passed_end : passed (length t) = adopted i init t.
Proof.
  unfold adopted. rewrite <- (firstn_all t) at 2. apply list_eq. intros j. unfold passed. rewrite list_lookup_imap.
  destruct (t !! j) as [p|] eqn:E.
  - pose proof (lookup_lt_Some _ _ _ E). cbn [fmap option_fmap option_map]. rewrite decide_True by done. unfold wake_if.
    destruct (existsb _ _); rewrite ?list_lookup_fmap, E; done.
  - destruct (existsb _ _); rewrite ?list_lookup_fmap, E; done.
Qed.

Lemma passed_next q p : t !! q = Some p →
  passed (S q) =
    if bool_decide (parent p = Some i) then
      let l := alter (set_parent init) q (passed q) in
      if bool_decide (state p = ZOMBIE) then Core.wake (proc_chan init) <$> l else l
    else passed q.
Proof.
  intros Hq. assert (take (S q) t = take q t ++ [p]) as Ht by (by apply take_S_r).
  unfold passed at 1. rewrite Ht, existsb_app. cbn [existsb]. rewrite orb_false_r. unfold zombie_child at 2.
  apply list_eq. intros j. rewrite list_lookup_imap. destruct (t !! j) as [r|] eqn:Ej; cbn [fmap option_fmap option_map].
  - destruct (decide (j = q)) as [->|Hne].
    + rewrite Hq in Ej. injection Ej as <-. rewrite decide_True by lia. unfold adopt.
      pose proof (passed_lookup q q p Hq) as Hl. rewrite decide_False in Hl by lia.
      case_bool_decide; [|by rewrite orb_false_r, Hl]. cbv zeta. rewrite andb_true_l.
      destruct (existsb (zombie_child i) (take q t)); cbn [orb wake_if] in *;
        case_bool_decide; rewrite ?list_lookup_fmap, list_lookup_alter_eq, Hl; cbn; by rewrite ?wake_set_parent, ?wake_wake.
    + pose proof (passed_lookup q j r Ej) as Hl.
      assert ((if decide (j < S q)%nat then adopt i init r else r) = (if decide (j < q)%nat then adopt i init r else r)) as ->
        by (repeat case_decide; done || lia).
      case_bool_decide; [|by rewrite orb_false_r, Hl]. cbv zeta. rewrite andb_true_l.
      destruct (existsb (zombie_child i) (take q t)); cbn [orb wake_if] in *;
        case_bool_decide; rewrite ?list_lookup_fmap, list_lookup_alter_ne, Hl by done; cbn; by rewrite ?wake_wake.
  - assert (∀ q', passed q' !! j = None) as Hn by (intros q'; unfold passed; by rewrite list_lookup_imap, Ej).
    assert (q ≠ j) by congruence. repeat case_bool_decide; cbv zeta; rewrite ?list_lookup_fmap, ?list_lookup_alter_ne, ?Hn by done; done.
Qed.
End reparent.

Lemma reparent_run c i t n q s k :
  runs s k → balanced c (chart k) → is_free LCons (chart k) → (q + n = length t)%nat →
  ptable k = passed i (initproc k) t q →
  ∃ s', reparent i q n s = Ok tt s' ∧ runs s' (set_ptable (adopted i (initproc k) t) k).
Proof.
  revert q s k. induction n as [|n IH]; intros q s k Hr Hb Hf Hn Ht.
  - exists s. split; [done|]. rewrite Nat.add_0_r in Hn. rewrite Hn, passed_end in Ht. rewrite <- Ht. by destruct k.
  - assert (∃ p, t !! q = Some p) as [p Hp] by (apply lookup_lt_is_Some_2; lia).
    pose proof (passed_next i (initproc k) t q p Hp) as Hnext. pose proof (passed_lookup i (initproc k) t q q p Hp) as Hq.
    rewrite decide_False in Hq by lia. rewrite <- Ht in Hq, Hnext.
    set (p' := ptable k !!! q).
    assert (parent p' = parent p ∧ (state p' = ZOMBIE ↔ state p = ZOMBIE)) as [Ep Es].
    { unfold p'. rewrite (list_lookup_total_correct _ _ _ Hq). unfold wake_if.
      destruct (existsb _ _); [|done]. split; [apply wake_parent|apply wake_zombie]. }
    cbn [reparent]. destruct (core_step get s k k k Hr eq_refl) as (s1 & E1 & Hr1). mstep E1. cbv zeta. fold p'. rewrite Ep.
    case_bool_decide as Hc; cycle 1.
    { rewrite run_when_false. mred. apply (IH (S q) s1 k Hr1 Hb Hf); [lia|done]. }
    rewrite run_when_true, bind_assoc. cbv zeta in Hnext.
    destruct (cprintf_step c (chars "enter parent == current, p->PID:%d " ++ [10]) [Cons.CInt (pid p')] s1 k Hr1) as (s2 & E2 & Hr2); [by eexists|done..|].
    mstep E2. rewrite bind_assoc.
    destruct (core_step (Core.alter_proc q (set_parent (initproc k))) s2 k tt _ Hr2 eq_refl) as (s3 & E3 & Hr3).
    mstep (E3 : alter_proc q _ s2 = _).
    assert (bool_decide (state p' = ZOMBIE) = bool_decide (state p = ZOMBIE)) as -> by (by apply bool_decide_ext).
    case_bool_decide as Hz.
    + rewrite run_when_true. destruct (core_step (Core.wakeup1 (proc_chan (initproc k))) s3 _ tt _ Hr3 eq_refl) as (s4 & E4 & Hr4).
      mstep (E4 : wakeup1 _ s3 = _). destruct (IH (S q) s4 _ Hr4) as (s' & E' & Hr'); [done|done|lia|exact (eq_sym Hnext)|].
      exists s'. split; [exact E'|exact Hr'].
    + rewrite run_when_false. mred. destruct (IH (S q) s3 _ Hr3) as (s' & E' & Hr'); [done|done|lia|exact (eq_sym Hnext)|].
      exists s'. split; [exact E'|exact Hr'].
Qed.

(** The table that exit() of process [i] leaves. *)
Definition exited (i : nat) (k : core) : list proc :=
  alter (set_state ZOMBIE) i
    (adopted i (initproc k) (Core.wake (proc_chan (parent (ptable k !!! i))) <$> ptable k)).

(** A process is running on the CPU with no lock held. *)
Record in_kernel (c i : nat) (k : core) : Prop := {
  ik_balanced : balanced c (chart k);
  ik_cur : curproc c (chart k) = Some i;
  ik_ncli : ncli (cpus (chart k) !!! c) = 0;
  ik_ptable : is_free LPtable (chart k);
  ik_cons : is_free LCons (chart k);
  ik_slot : (i < length (ptable k))%nat;
  ik_size : length (ptable k) = NPROC;
}.

(** An operation that switches to the scheduler, and what happens when it is
    resumed. *)
Lemma swtch_step {A} (m : M core A) s k k1 r :
  runs s k → m k = Swtch k1 r →
  ∃ s1 r', lift m s = Swtch s1 r' ∧ runs s1 k1 ∧
    ∀ s2 k2 a k3, runs s2 k2 → r k2 = Ok a k3 → ∃ s3, r' s2 = Ok a s3 ∧ runs s3 k3.
Proof.
  intros [Hk Hp] E. eexists (put_core k1 s), _. split; [|split; [by apply runs_put|]].
  - unfold lift, zoom. unfold core_of in Hk. rewrite Hk, E. reflexivity.
  - intros s2 k2 a k3 [Hk2 Hp2] E2. unfold core_of in Hk2. cbn beta. rewrite Hk2, E2.
    exists (put_core k3 s2). split; [reflexivity|by apply runs_put].
Qed.

Lemma exit_leave_run c i s k :
  runs s k → in_kernel c i k →
  ∃ s' r, exit_leave i s = Swtch s' r ∧ runs s' (set_ptable (exited i k) (set_chart (acq c LPtable (chart k)) k)) ∧
    ∀ s'' u s3, r s'' ≠ Ok u s3.
Proof.
  intros Hr [Hb Hc Hn Hfp Hfc Hi Hsz]. unfold exit_leave.
  destruct (acquire_step c LPtable s k Hr Hb Hfp) as (s1 & E1 & Hr1). mstep E1.
  set (k1 := set_chart _ k) in *.
  destruct (core_step (Core.get_proc i) s1 k1 (ptable k !!! i) k1 Hr1 eq_refl) as (s2 & E2 & Hr2).
  mstep (E2 : get_proc i s1 = _).
  destruct (core_step (Core.wakeup1 (proc_chan (parent (ptable k !!! i)))) s2 k1 tt _ Hr2 eq_refl) as (s3 & E3 & Hr3).
  mstep (E3 : wakeup1 _ s2 = _). set (t := Core.wake _ <$> ptable k1) in *.
  destruct (reparent_run c i t NPROC 0 s3 _ Hr3) as (s4 & E4 & Hr4).
  { by apply acq_balanced. } { by apply is_free_acq. } { unfold t. by rewrite length_fmap. } { by rewrite passed_start. }
  mstep E4.
  destruct (core_step (Core.alter_proc i (set_state ZOMBIE)) s4 _ tt _ Hr4 eq_refl) as (s5 & E5 & Hr5).
  mstep (E5 : alter_proc i _ s4 = _). set (k5 := set_ptable _ _) in Hr5.
  assert (state (ptable k5 !!! i) ≠ RUNNING) as Hst.
  { unfold k5. cbn [ptable set_ptable]. rewrite list_lookup_total_alter_eq; [done|].
    unfold adopted. case_match; rewrite ?length_fmap; unfold t; by rewrite length_fmap. }
  destruct (swtch_step _ s5 _ _ _ Hr5 (sched_core c i (chart k) k5 eq_refl Hb Hc Hn Hst)) as (s6 & r & E6 & Hr6 & _).
  eexists s6, _. split; [exact (bind_swtch _ _ _ _ _ (E6 : sched s5 = _))|]. split; [exact Hr6|].
  intros s'' u s7 E. destruct (r s''); discriminate E.
Qed.

Lemma myproc_some_core c i k :
  balanced c (chart k) → curproc c (chart k) = Some i → Core.myproc_some k = Ok i k.
Proof. intros Hb Hc. unfold Core.myproc_some. mstep (myproc_ok c k Hb). cbn [view lens_hart lens_id]. by rewrite Hc. Qed.

(** What happens to the entries of the table. *)
Lemma exited_lookup i k j p :
  ptable k !! j = Some p →
  exited i k !! j = Some ((if decide (j = i) then set_state ZOMBIE else id)
    (wake_if (existsb (zombie_child i) (Core.wake (proc_chan (parent (ptable k !!! i))) <$> ptable k)) (proc_chan (initproc k))
       (adopt i (initproc k) (Core.wake (proc_chan (parent (ptable k !!! i))) p)))).
Proof.
  intros Hj. unfold exited, adopted. set (b := existsb _ _). set (ch := proc_chan (parent _)).
  assert (∀ t : list proc, t !! j = Some (wake_if b (proc_chan (initproc k)) (adopt i (initproc k) (Core.wake ch p))) →
    alter (set_state ZOMBIE) i t !! j = Some ((if decide (j = i) then set_state ZOMBIE else id)
      (wake_if b (proc_chan (initproc k)) (adopt i (initproc k) (Core.wake ch p))))) as H.
  { intros t Ht. case_decide as E; [subst; by rewrite list_lookup_alter_eq, Ht|by rewrite list_lookup_alter_ne, Ht]. }
  apply H. unfold wake_if. destruct b; by rewrite !list_lookup_fmap, Hj.
Qed.

Lemma adopt_state i init p : state (adopt i init p) = state p.
Proof. unfold adopt. by case_bool_decide. Qed.
Lemma adopt_chan i init p : chan (adopt i init p) = chan p.
Proof. unfold adopt. by case_bool_decide. Qed.
Lemma wake_if_parent b ch p : parent (wake_if b ch p) = parent p.
Proof. destruct b; [apply wake_parent|done]. Qed.
Lemma wake_if_runnable b ch p : state p = RUNNABLE → state (wake_if b ch p) = RUNNABLE.
Proof. intros H. destruct b; [|done]. unfold wake_if, Core.wake. rewrite bool_decide_false; [done|]. rewrite H. naive_solver. Qed.

Lemma exited_child i k j p :
  ptable k !! j = Some p →
  ∃ p', exited i k !! j = Some p' ∧ parent p' = if decide (parent p = Some i) then initproc k else parent p.
Proof.
  intros Hj. eexists. split; [by apply exited_lookup|].
  assert (∀ q, parent ((if decide (j = i) then set_state ZOMBIE else id) q) = parent q) as -> by (intros q; by case_decide).
  rewrite wake_if_parent. unfold adopt. rewrite wake_parent. case_decide.
  - by rewrite bool_decide_true.
  - by rewrite bool_decide_false, wake_parent.
Qed.

(** A parent that sleeps in wait() is woken. *)
Lemma exited_parent i k j p :
  parent (ptable k !!! i) = Some j → j ≠ i → ptable k !! j = Some p → state p = SLEEPING → chan p = ChProc j →
  ∃ p', exited i k !! j = Some p' ∧ state p' = RUNNABLE.
Proof.
  intros Hp Hne Hj Hs Hc. eexists. split; [by apply exited_lookup|]. rewrite decide_False by done. cbn [id].
  apply wake_if_runnable. rewrite adopt_state. unfold Core.wake. rewrite Hp. cbn [proc_chan]. by rewrite bool_decide_true.
Qed.

Lemma exited_self i k : (i < length (ptable k))%nat → state (exited i k !!! i) = ZOMBIE.
Proof.
  intros [p Hp]%lookup_lt_is_Some. rewrite (list_lookup_total_correct _ _ _ (exited_lookup i k i p Hp)).
  by rewrite decide_True.
Qed.

(** The whole of exit(). *)
Lemma exit_run c i s k k1 :
  runs s k → in_kernel c i k → initproc k ≠ Some i →
  (if numofthread k =? 0
   then ∀ s0, runs s0 k → ∃ s1, exit_close i s0 = Ok tt s1 ∧ runs s1 k1 ∧ in_kernel c i k1
   else k1 = k) →
  ∃ s' r, exit s = Swtch s' r ∧ runs s' (set_ptable (exited i k1) (set_chart (acq c LPtable (chart k1)) k1)) ∧
    ∀ s'' u s3, r s'' ≠ Ok u s3.
Proof.
  intros Hr Hk Hinit Hclose. pose proof Hk as [Hb Hc Hn Hfp Hfc Hi Hsz]. unfold exit.
  destruct (cprintf_step c (chars "enter exit.." ++ [10]) [] s k Hr) as (s1 & E1 & Hr1); [by eexists|done..|]. mstep E1.
  destruct (core_step _ s1 k i k Hr1 (myproc_some_core c i k Hb Hc)) as (s2 & E2 & Hr2). mstep (E2 : myproc_some s1 = _).
  destruct (core_step get s2 k k k Hr2 eq_refl) as (s3 & E3 & Hr3). mstep (E3 : get_core s2 = _).
  rewrite bool_decide_false by done. destruct (numofthread k =? 0).
  - destruct (Hclose s3 Hr3) as (s4 & E4 & Hr4 & Hk4). rewrite run_when_true. mstep E4. by apply exit_leave_run.
  - subst k1. rewrite run_when_false. mred. by apply exit_leave_run.
Qed.

(** ** wait *)

Definition has_child (i : nat) (t : list proc) : bool := existsb (λ p, bool_decide (parent p = Some i)) t.
Definition zombie_of (i : nat) (t : list proc) : option nat := first_index (zombie_child i) t.

(** The table is locked by wait() of process [i]. *)
Record waiting (c i : nat) (h : hart) (k : core) : Prop := {
  wt_chart : chart k = acq c LPtable h;
  wt_balanced : balanced c h;
  wt_ptable : is_free LPtable h;
  wt_cons : is_free LCons h;
  wt_cur : curproc c h = Some i;
  wt_ncli : ncli (cpus h !!! c) = 0;
  wt_slot : (i < length (ptable k))%nat;
}.

Lemma waiting_print c i h k : waiting c i h k → balanced c (chart k) ∧ is_free LCons (chart k).
Proof. intros [-> Hb Hp Hc _ _ _]. split; [by apply acq_balanced|by apply is_free_acq]. Qed.

(** The entry of a thread that wait() has found. *)
Definition reaped (q : nat) (k : core) : core :=
  set_ptable (alter (set_state UNUSED) q (ptable k)) (set_numofthread (numofthread k -i 1) k).

Lemma wait_finds_thread c i h q s k :
  runs s k → waiting c i h k → zombie_of i (ptable k) = Some q → thread_indictor (ptable k !!! q) = 1 →
  ∃ s', wait_body i tt s = Ok (inr (pid (ptable k !!! q))) s' ∧ runs s' (set_chart h (reaped q k)).
Proof.
  intros Hr Hw Hq Ht. destruct (waiting_print _ _ _ _ Hw) as [Hb' Hc']. destruct Hw as [Ha Hb Hp Hc _ _ _]. unfold wait_body.
  destruct (core_step get s k k k Hr eq_refl) as (s1 & E1 & Hr1). mstep (E1 : get_core s = _).
  unfold zombie_of, zombie_child in Hq. rewrite Hq. cbv zeta. rewrite Ht. change (1 =? 1) with true. cbv iota.
  destruct (core_step (modify (λ k, set_numofthread (numofthread k -i 1) k)) s1 k tt _ Hr1 eq_refl) as (s2 & E2 & Hr2).
  mstep (E2 : mod_core _ s1 = _).
  destruct (cprintf_step c (chars "count thread:%d" ++ [10]) [Cons.CInt (numofthread k -i 1)] s2 _ Hr2) as (s3 & E3 & Hr3);
    [by eexists|done..|]. mstep E3.
  destruct (core_step (Core.alter_proc q (set_state UNUSED)) s3 _ tt _ Hr3 eq_refl) as (s4 & E4 & Hr4).
  mstep (E4 : alter_proc q _ s3 = _).
  destruct (release_step c LPtable h s4 _ Hr4 Ha Hb Hp) as (s5 & E5 & Hr5). mstep E5. exists s5. split; [done|exact Hr5].
Qed.

Lemma wait_no_child c i h s k :
  runs s k → waiting c i h k → has_child i (ptable k) = false →
  ∃ s', wait_body i tt s = Ok (inr (-1)) s' ∧ runs s' (set_chart h k).
Proof.
  intros Hr [Ha Hb Hp _ _ _ _] Hno. unfold wait_body.
  destruct (core_step get s k k k Hr eq_refl) as (s1 & E1 & Hr1). mstep (E1 : get_core s = _).
  destruct (first_index _ _) as [q|] eqn:Eq.
  { exfalso. apply first_index_Some in Eq as [(p & Hq & Hz) _]. apply andb_true_iff in Hz as [Hz _].
    assert (has_child i (ptable k) = true) as Hyes; [|congruence].
    apply existsb_exists. exists p. split; [by eapply list_elem_of_In, list_elem_of_lookup_2|done]. }
  unfold has_child in Hno. rewrite Hno. cbn [negb orb].
  destruct (release_step c LPtable h s1 _ Hr1 Ha Hb Hp) as (s5 & E5 & Hr5). mstep E5. by exists s5.
Qed.

Lemma wait_sleeps c i h s k :
  runs s k → waiting c i h k → zombie_of i (ptable k) = None → has_child i (ptable k) = true →
  killed (ptable k !!! i) = 0 →
  ∃ s1 r, wait_body i tt s = Swtch s1 r ∧
    runs s1 (set_ptable (alter (set_state SLEEPING ∘ set_chan (ChProc i)) i (ptable k)) k) ∧
    ∀ c' h' s2 k2, runs s2 k2 → chart k2 = acq c' LPtable h' → balanced c' h' → is_free LPtable h' → is_free LCons h' →
      ncli (cpus h' !!! c') = 0 → intena (cpus h !!! c) = IF h' →
      ∃ s3, r s2 = Ok (inl tt) s3 ∧ runs s3 (set_ptable (alter (set_chan ChNull) i (ptable k2)) k2).
Proof.
  intros Hr Hw Hz Hch Hkl. destruct (waiting_print _ _ _ _ Hw) as [Hb' Hc']. destruct Hw as [Ha Hb Hp Hc Hcur Hn Hi]. unfold wait_body.
  destruct (core_step get s k k k Hr eq_refl) as (s1 & E1 & Hr1). mstep (E1 : get_core s = _).
  unfold zombie_of, zombie_child in Hz. rewrite Hz. unfold has_child in Hch. rewrite Hch, Hkl. cbv zeta.
  change (negb true || negb (0 =? 0)) with false. cbv iota.
  destruct (cprintf_step c (chars "EXIT SLEEP for parent" ++ [10]) [] s1 k Hr1) as (s2 & E2 & Hr2); [by eexists|done..|]. mstep E2.
  destruct (swtch_step _ s2 _ _ _ Hr2 (sleep_core c i LPtable (ChProc i) h k Ha Hb Hp Hp Hcur Hn Hi)) as (s3 & r & E3 & Hr3 & Hres).
  eexists s3, _. split; [exact (bind_swtch _ _ _ _ _ (E3 : sleep (ChProc i) (Some LPtable) s2 = _))|].
  split; [rewrite <- Ha, set_chart_id in Hr3; exact Hr3|].
  intros c' h' s4 k4 Hr4 Ha4 Hb4 Hp4 Hc4 Hn4 Hint. cbn beta.
  destruct (Hres s4 k4 tt _ Hr4 (sleep_resume c' i LPtable _ h' k4 Ha4 Hb4 Hp4 Hp4 Hn4 Hint)) as (s5 & E5 & Hr5).
  rewrite E5. cbn [obind]. rewrite <- Ha4, set_chart_id in Hr5.
  destruct (cprintf_step c' (chars "EXIT SLEEP for parent" ++ [10]) [] s5 _ Hr5) as (s6 & E6 & Hr6); [by eexists| | |].
  { cbn. rewrite Ha4. by apply acq_balanced. } { cbn. rewrite Ha4. by apply is_free_acq. }
  mstep E6. by exists s6.
Qed.

(** wait() up to its loop. *)
Lemma wait_enters c i s k :
  runs s k → in_kernel c i k →
  ∃ s', wait s = loop (wait_body i) 32 tt s' ∧ runs s' (set_chart (acq c LPtable (chart k)) k) ∧
    waiting c i (chart k) (set_chart (acq c LPtable (chart k)) k).
Proof.
  intros Hr [Hb Hc Hn Hfp Hfc Hi Hsz]. unfold wait.
  destruct (cprintf_step c (chars "ENTER WAIT" ++ [10]) [] s k Hr) as (s1 & E1 & Hr1); [by eexists|done..|]. mstep E1.
  destruct (core_step _ s1 k i k Hr1 (myproc_some_core c i k Hb Hc)) as (s2 & E2 & Hr2). mstep (E2 : myproc_some s1 = _).
  destruct (acquire_step c LPtable s2 k Hr2 Hb Hfp) as (s3 & E3 & Hr3). mstep E3. exists s3. split_and!; [done|done|by split].
Qed.

(** ** exit and wait together *)

Lemma zombie_of_only i t j p :
  t !! j = Some p → zombie_child i p = true → (∀ j' p', j' ≠ j → t !! j' = Some p' → zombie_child i p' = false) →
  zombie_of i t = Some j.
Proof.
  intros Hj Hz Ho. unfold zombie_of. destruct (first_index _ _) as [j'|] eqn:E.
  - apply first_index_Some in E as [(p' & Hp' & Hz') _]. destruct (decide (j' = j)) as [->|Hne]; [done|].
    rewrite (Ho j' p' Hne Hp') in Hz'. done.
  - rewrite first_index_None in E. by rewrite (E j p Hj) in Hz.
Qed.

Lemma zombie_of_none i t j p : zombie_of i t = None → t !! j = Some p → zombie_child i p = false.
Proof. unfold zombie_of. rewrite first_index_None. intros H Hj. exact (H j p Hj). Qed.

(** After thread [j] has left, it is the only zombie child of [i]. *)
Lemma exited_zombie i j k :
  (j < length (ptable k))%nat → i ≠ j → parent (ptable k !!! j) = Some i → initproc k ≠ Some i →
  zombie_of i (ptable k) = None → ∀ f, (∀ p, parent (f p) = parent p) → (∀ p, state (f p) ≠ ZOMBIE) →
  zombie_of i (alter f i (exited j k)) = Some j.
Proof.
  intros Hj Hne Hp Hinit Hno f Hf1 Hf2. apply lookup_lt_is_Some in Hj as [p Hpj]. pose proof (exited_lookup j k j p Hpj) as El.
  rewrite decide_True in El by done. rewrite (list_lookup_total_correct _ _ _ Hpj) in Hp.
  eapply zombie_of_only.
  - rewrite list_lookup_alter_ne by done. exact El.
  - unfold zombie_child. apply andb_true_iff. split; [|by apply bool_decide_eq_true]. apply bool_decide_eq_true.
    cbn [parent set_state]. rewrite wake_if_parent. unfold adopt. rewrite wake_parent.
    rewrite bool_decide_false by congruence. by rewrite wake_parent.
  - intros j' p' Hj' Hl. unfold zombie_child. apply andb_false_iff. destruct (decide (j' = i)) as [->|Hi].
    { right. apply bool_decide_eq_false. destruct (exited j k !! i) as [q|] eqn:Eq;
        [rewrite list_lookup_alter_eq, Eq in Hl; injection Hl as <-; apply Hf2|rewrite list_lookup_alter_eq, Eq in Hl; done]. }
    rewrite list_lookup_alter_ne in Hl by done.
    destruct (ptable k !! j') as [q|] eqn:Eq; cycle 1.
    { apply lookup_ge_None_1 in Eq. apply lookup_lt_Some in Hl. unfold exited, adopted in Hl.
      rewrite length_alter in Hl. case_match; rewrite !length_fmap in Hl; lia. }
    pose proof (zombie_of_none _ _ _ _ Hno Eq) as Hz. rewrite (exited_lookup j k j' q Eq), decide_False in Hl by done.
    injection Hl as <-. cbn [id]. unfold zombie_child in Hz. apply andb_false_iff in Hz as [Hz|Hz]; [left|right].
    + apply bool_decide_eq_false in Hz. apply bool_decide_eq_false. rewrite wake_if_parent. unfold adopt. rewrite wake_parent.
      case_bool_decide; [done|]. by rewrite wake_parent.
    + apply bool_decide_eq_false in Hz. apply bool_decide_eq_false. intros Hs. apply Hz.
      unfold wake_if in Hs. destruct (existsb _ _); [apply wake_zombie in Hs|]; rewrite adopt_state in Hs; by apply wake_zombie in Hs.
Qed.

Lemma exited_fields j k :
  (j < length (ptable k))%nat →
  pid (exited j k !!! j) = pid (ptable k !!! j) ∧ thread_indictor (exited j k !!! j) = thread_indictor (ptable k !!! j).
Proof.
  intros [p Hp]%lookup_lt_is_Some. rewrite (list_lookup_total_correct _ _ _ (exited_lookup j k j p Hp)), decide_True by done.
  rewrite (list_lookup_total_correct _ _ _ Hp). unfold wake_if, adopt, Core.wake.
  destruct (existsb _ _); repeat case_bool_decide; done.
Qed.

Lemma exited_length j k : length (exited j k) = length (ptable k).
Proof. unfold exited, adopted. rewrite length_alter. case_match; by rewrite !length_fmap. Qed.

(** wait() in its loop is resumed after thread [j] has left. *)
Lemma wait_resumes c' h' i j s k2 k4 :
  runs s (set_ptable (alter (set_chan ChNull) i (ptable k4)) k4) →
  waiting c' i h' k4 → ptable k4 = alter (set_state RUNNING) i (exited j k2) →
  (j < length (ptable k2))%nat → i ≠ j → parent (ptable k2 !!! j) = Some i → initproc k2 ≠ Some i →
  zombie_of i (ptable k2) = None → thread_indictor (ptable k2 !!! j) = 1 →
  ∃ s', wait_body i tt s = Ok (inr (pid (ptable k2 !!! j))) s'.
Proof.
  intros Hr [Ha Hb Hp Hc Hcur Hn Hi] Ht Hj Hne Hpar Hinit Hno Hth.
  destruct (exited_fields j k2 Hj) as [Hpid Hthr].
  rewrite Ht in Hr. rewrite list_alter_alter_eq in Hr.
  set (k5 := set_ptable _ k4) in Hr.
  assert (ptable k5 !!! j = exited j k2 !!! j) as Ej by (unfold k5; cbn; by rewrite list_lookup_total_alter_ne).
  destruct (wait_finds_thread c' i h' j s k5 Hr) as (s' & E & _).
  - split; try done. unfold k5. cbn. rewrite length_alter, exited_length. rewrite Ht, length_alter, exited_length in Hi. done.
  - by apply exited_zombie.
  - by rewrite Ej, Hthr.
  - exists s'. by rewrite E, Ej, Hpid.
Qed.


(** C1 [liveness]: a wait() for a thread ends.  A process whose children are alive
    and that has not been killed goes to sleep in wait().  When its thread [j] then
    calls exit(), the process becomes RUNNABLE; and when the scheduler next runs
    it, on any CPU, wait() returns the pid of the thread. *)
Theorem wait_for_thread c i j s k :
  runs s k → in_kernel c i k → zombie_of i (ptable k) = None → has_child i (ptable k) = true → killed (ptable k !!! i) = 0 →
  ∃ s1 R, wait s = Swtch s1 R ∧ state (ptable (core_of s1) !!! i) = SLEEPING ∧ chan (ptable (core_of s1) !!! i) = ChProc i ∧
  ∀ c2 s2 k2, runs s2 k2 → in_kernel c2 j k2 → i ≠ j → initproc k2 ≠ Some i → initproc k2 ≠ Some j → numofthread k2 ≠ 0 →
    state (ptable k2 !!! i) = SLEEPING → chan (ptable k2 !!! i) = ChProc i → (i < length (ptable k2))%nat →
    parent (ptable k2 !!! j) = Some i → thread_indictor (ptable k2 !!! j) = 1 → zombie_of i (ptable k2) = None →
    ∃ s3 r, exit s2 = Swtch s3 r ∧ state (ptable (core_of s3) !!! i) = RUNNABLE ∧
    ∀ c' h' s4 k4, runs s4 k4 → waiting c' i h' k4 → intena (cpus (chart k) !!! c) = IF h' →
      ptable k4 = alter (set_state RUNNING) i (ptable (core_of s3)) →
      ∃ s5, R s4 = Ok (pid (ptable k2 !!! j)) s5.
Proof.
  intros Hr Hk Hno Hch Hkl. destruct (wait_enters c i s k Hr Hk) as (s0 & -> & Hr0 & Hw).
  destruct (wait_sleeps c i _ s0 _ Hr0 Hw Hno Hch Hkl) as (s1 & r1 & E1 & Hr1 & Hres).
  destruct (loop_wait _ 30 tt _ _ _ E1) as (R & -> & HR).
  exists s1, R. rewrite (rn_core _ _ Hr1). cbn [ptable set_ptable set_chart].
  rewrite list_lookup_total_alter_eq by apply Hk. split_and!; [done..|].
  intros c2 s2 k2 Hr2 Hk2 Hne Hi2 Hj2 Hn2 Hs Hc Hli Hp Ht Hz.
  destruct (exit_run c2 j s2 k2 k2 Hr2 Hk2 Hj2) as (s3 & r & E3 & Hr3 & _); [by rewrite (proj2 (Z.eqb_neq _ _) Hn2)|].
  exists s3, r. rewrite (rn_core _ _ Hr3). cbn [ptable set_ptable]. split_and!; [done| |].
  - apply lookup_lt_is_Some in Hli as [p Hpi]. rewrite (list_lookup_total_correct _ _ _ Hpi) in Hs, Hc.
    destruct (exited_parent j k2 i p Hp Hne Hpi Hs Hc) as (p' & Hp' & Hrun). by rewrite (list_lookup_total_correct _ _ _ Hp').
  - intros c' h' s4 k4 Hr4 Hw4 Hint Ht4. pose proof Hw4 as [Ha4 Hb4 Hp4 Hc4 _ Hn4 _].
    destruct (Hres c' h' s4 k4 Hr4 Ha4 Hb4 Hp4 Hc4 Hn4 Hint) as (s5 & E5 & Hr5).
    destruct (wait_resumes c' h' i j s5 k2 k4 Hr5 Hw4 Ht4) as (s6 & E6); [apply Hk2|done..|].
    exists s6. by apply (HR s4 tt s5).
Qed.


(** A machine with init in slot 2, process 0 that runs on CPU 1, and its thread 1. *)
Definition thread1 : proc := set_thread_indictor 1 (set_parent (Some 0%nat) (set_pid 7 (set_state RUNNABLE proc0))).
Definition life_core (h : hart) (st0 st1 : procstate) (ch : chan_t) : core :=
  Core h (set_chan ch (set_pid 1 (set_state st0 proc0)) :: set_state st1 thread1 :: set_pid 1 (set_state SLEEPING proc0) ::
    replicate (NPROC - 3) proc0) (Some 2%nat) 8 1 0 rand_init 0x803ff000.
Definition hart1 : hart := set_cpus [Cpu 2 0 true None 0; Cpu 5 0 true (Some 1%nat) 0] hart0.
Definition life_ost : ost := Ost fsst0 (replicate NFILE file0) ∅.

Lemma life_runs k : runs (put_core k life_ost) k.
Proof. apply runs_put. exact cst0_print. Qed.

Lemma hart1_balanced : balanced 1 hart1.
Proof. split; [by vm_compute|]. eexists. split; [vm_compute; reflexivity|]. vm_compute. naive_solver. Qed.

Lemma life_kernel0 st ch : in_kernel 1 0 (life_core hart0 RUNNING st ch).
Proof. split; [exact hart0_balanced|reflexivity..|cbn; lia|reflexivity]. Qed.
Lemma life_kernel1 st ch : in_kernel 1 1 (life_core hart1 st RUNNING ch).
Proof. split; [exact hart1_balanced|reflexivity..|cbn; lia|reflexivity]. Qed.


Lemma wait_for_thread_witness :
  ∃ s1 R s3 r s4 s5, wait (put_core (life_core hart0 RUNNING RUNNABLE ChNull) life_ost) = Swtch s1 R ∧
    exit (put_core (life_core hart1 SLEEPING RUNNING (ChProc 0)) life_ost) = Swtch s3 r ∧ R s4 = Ok 7 s5.
Proof.
  destruct (wait_for_thread 1 0 1 (put_core (life_core hart0 RUNNING RUNNABLE ChNull) life_ost) (life_core hart0 RUNNING RUNNABLE ChNull))
    as (s1 & R & E1 & _ & _ & H).
  - apply life_runs.
  - apply life_kernel0.
  - vm_compute. reflexivity.
  - vm_compute. reflexivity.
  - reflexivity.
  - destruct (H 1%nat (put_core (life_core hart1 SLEEPING RUNNING (ChProc 0)) life_ost) (life_core hart1 SLEEPING RUNNING (ChProc 0)))
      as (s3 & r & E3 & Hs & H').
    + apply life_runs.
    + apply life_kernel1.
    + discriminate.
    + discriminate.
    + discriminate.
    + discriminate.
    + reflexivity.
    + reflexivity.
    + cbn. lia.
    + reflexivity.
    + reflexivity.
    + vm_compute. reflexivity.
    + set (k4 := set_ptable (alter (set_state RUNNING) 0%nat (ptable (core_of s3))) (life_core (acq 1 LPtable hart0) RUNNING RUNNABLE ChNull)).
      destruct (H' 1%nat hart0 (put_core k4 life_ost) k4) as (s5 & E5).
      * apply life_runs.
      * split; [reflexivity|exact hart0_balanced|reflexivity..|]. unfold k4. cbn [ptable set_ptable]. rewrite length_alter.
        destruct (ptable (core_of s3)); [discriminate Hs|cbn; lia].
      * reflexivity.
      * reflexivity.
      * exists s1, R, s3, r, (put_core k4 life_ost), s5. split_and!; [exact E1|exact E3|exact E5].
Defined.

