(* ===== verification/Exec.v ===== *)
(** * exec() and loaduvm(): exec.c, vm.c

    The headers of an executable file are read from its bytes.  Every [goto bad] of
    exec() returns what the cleanup after [bad] needs. *)

From S2P Require Import Prelude Machine Proc CString Kalloc Vm Sleeplock Bio Log Console Fs File Process.
Open Scope kernel_scope.

Definition MAXARG : Z := 32.
Definition ELF_MAGIC : Z := 0x464C457F.
Definition ELF_PROG_LOAD : Z := 1.
Definition ELFHDR_SIZE : Z := 52.
Definition PROGHDR_SIZE : Z := 32.

(** The fields of struct elfhdr and of struct proghdr that exec() uses. *)
Definition elf_magic (h : list Z) : Z := get_word h 0.
Definition elf_entry (h : list Z) : Z := get_word h 6.
Definition elf_phoff (h : list Z) : Z := get_word h 7.
Definition elf_phnum (h : list Z) : Z := h !!! 44%nat + h !!! 45%nat * 2 ^ 8.
Definition ph_type (h : list Z) : Z := get_word h 0.
Definition ph_off (h : list Z) : Z := get_word h 1.
Definition ph_vaddr (h : list Z) : Z := get_word h 2.
Definition ph_filesz (h : list Z) : Z := get_word h 4.
Definition ph_memsz (h : list Z) : Z := get_word h 5.

Definition loaduvm_body (pgdir addr : Z) (ip : nat) (offset sz : Z) (i : Z) : M ost (Z + Z) :=
  if negb (i <? sz) then mret (inr 0) else
  pte ← walkpgdir pgdir (addr +u i) false;
  if pte =? 0 then panic "loaduvm: address should exist" else
  v ← lift (Vm.read32 pte);
  let pa := PTE_ADDR v in
  let n := if sz - i <? PGSIZE then sz - i else PGSIZE in
  '(r, l) ← readi ip (offset +u i) n;
  mod_mem (Vm.put_bytes (P2V pa) l);;
  if negb (r =? n) then mret (inr (-1)) else mret (inl (i +u PGSIZE)).

Definition loaduvm (pgdir addr : Z) (ip : nat) (offset sz : Z) : M ost Z :=
  if negb (addr mod PGSIZE =? 0) then panic "loaduvm: addr must be page aligned" else
  loop (loaduvm_body pgdir addr ip offset sz) 20 0.

(** Loading the [n] segments whose headers start at [off]; the new size. *)
Fixpoint load_segments (pgdir : Z) (ip : nat) (sz off : Z) (n : nat) : M ost (option Z) :=
  match n with
  | O => mret (Some sz)
  | S n =>
      '(r, ph) ← readi ip off PROGHDR_SIZE;
      if negb (r =? PROGHDR_SIZE) then mret None else
      if negb (ph_type ph =? ELF_PROG_LOAD) then load_segments pgdir ip sz (off +u PROGHDR_SIZE) n else
      if ph_memsz ph <? ph_filesz ph then mret None else
      if ph_vaddr ph +u ph_memsz ph <? ph_vaddr ph then mret None else
      sz ← allocuvm pgdir sz (ph_vaddr ph +u ph_memsz ph);
      if sz =? 0 then mret None else
      if negb (ph_vaddr ph mod PGSIZE =? 0) then mret None else
      r ← loaduvm pgdir (ph_vaddr ph) ip (ph_off ph) (ph_filesz ph);
      if r <? 0 then mret None else
      load_segments pgdir ip sz (off +u PROGHDR_SIZE) n
  end.

(** Up to the end of the first transaction: the page directory or 0, and, unless
    something was wrong, the size and the entry point. *)
Definition exec_load (ip : nat) : M ost (Z * option (Z * Z)) :=
  '(r, elf) ← readi ip 0 ELFHDR_SIZE;
  if negb (r =? ELFHDR_SIZE) then mret (0, None) else
  if negb (elf_magic elf =? ELF_MAGIC) then mret (0, None) else
  pgdir ← setupkvm;
  if pgdir =? 0 then mret (0, None) else
  o ← load_segments pgdir ip 0 (elf_phoff elf) (Z.to_nat (elf_phnum elf));
  mret (pgdir, match o with Some sz => Some (sz, elf_entry elf) | None => None end).

(** The bytes of the words of [ustack]. *)
Definition word_bytes (v : Z) : list Z := [u8 v; u8 (Z.shiftr v 8); u8 (Z.shiftr v 16); u8 (Z.shiftr v 24)].

(** Pushing the argument strings; the stack pointer and the pointers pushed. *)
Fixpoint push_args (pgdir sp argc : Z) (argv : list (list Z)) (ptrs : list Z) : M ost (option (Z * list Z)) :=
  match argv with
  | [] => mret (Some (sp, ptrs))
  | s :: argv =>
      if MAXARG <=? argc then mret None else
      let sp := Z.land (sp -u (Z.of_nat (length s) + 1)) (Z.lnot 3) in
      r ← copyout pgdir sp (s ++ [0]);
      if r <? 0 then mret None else
      push_args pgdir sp (argc + 1) argv (ptrs ++ [sp])
  end.

(** The user stack: the new size and the stack pointer. *)
Definition exec_stack (pgdir sz : Z) (argv : list (list Z)) : M ost (option (Z * Z)) :=
  let sz := PGROUNDUP sz in
  sz ← allocuvm pgdir sz (sz +u 2 * PGSIZE);
  if sz =? 0 then mret None else
  clearpteu pgdir (sz -u 2 * PGSIZE);;
  o ← push_args pgdir sz 0 argv [];
  match o with
  | None => mret None
  | Some (sp, ptrs) =>
      let argc := Z.of_nat (length argv) in
      let ustack := [0xffffffff; argc; sp -u (argc + 1) * 4] ++ ptrs ++ [0] in
      let sp := sp -u (3 + argc + 1) * 4 in
      r ← copyout pgdir sp (concat (word_bytes <$> ustack));
      if r <? 0 then mret None else mret (Some (sz, sp))
  end.

(** The part of the path after the last slash. *)
Fixpoint last_part (path last : list Z) : list Z :=
  match path with
  | [] => last
  | c :: path => last_part path (if c =? 47 then path else last)
  end.

Definition exec (path : list Z) (argv : list (list Z)) : M ost Z :=
  i ← myproc_some;
  begin_op;;
  o ← namei path;
  match o with
  | None =>
      end_op;;
      cprintf (chars "exec: fail" ++ [10]) [];;
      mret (-1)
  | Some ip =>
      ilock ip;;
      r ← exec_load ip;
      match r with
      | (pgdir, None) =>
          mwhen (negb (pgdir =? 0)) (freevm pgdir);;
          iunlockput ip;;
          end_op;;
          mret (-1)
      | (pgdir, Some (sz, entry)) =>
          iunlockput ip;;
          end_op;;
          r ← exec_stack pgdir sz argv;
          match r with
          | None => freevm pgdir;; mret (-1)
          | Some (sz, sp) =>
              alter_proc i (λ p, set_name (safestrcpy (name p) (last_part path path) 16) p);;
              p ← get_proc i;
              alter_proc i (set_pgdir pgdir);;
              alter_proc i (set_sz sz);;
              alter_proc i (λ p, set_tf (set_eip entry (tf p)) p);;
              alter_proc i (λ p, set_tf (set_esp sp (tf p)) p);;
              switchuvm (Some i);;
              freevm (Proc.pgdir p);;
              mret 0
          end
      end
  end.
