(* ===== verification/Syscall.v ===== *)
(** * System calls and traps: syscall.c, sysproc.c, sysfile.c, trap.c

    Arguments are fetched from the user stack of the running process through its
    page table.  A system call that reads into or writes from user memory copies
    the bytes between the buffer of the file layer and the user's pages. *)

From S2P Require Import Prelude Rand Machine Proc CString Kalloc Vm Sleeplock Bio Log Console Fs File Process Exec Io.
Open Scope kernel_scope.

Definition O_RDONLY : Z := 0x000.
Definition O_WRONLY : Z := 0x001.
Definition O_RDWR : Z := 0x002.
Definition O_CREATE : Z := 0x200.

(** ** syscall.c *)

(** The running process. *)
Definition curproc_ : M ost (nat * proc) := i ← myproc_some; p ← get_proc i; mret (i, p).

(** [None] is the result -1; [*ip] otherwise. *)
Definition fetchint (addr : Z) : M ost (option Z) :=
  '(_, p) ← curproc_;
  if (sz p <=? addr) || (sz p <? addr +u 4) then mret None else
  v ← vload32 addr;
  mret (Some (s32 v)).

(** The characters of the string, from [s] on, below [ep]. *)
Definition fetchstr_body (ep : Z) (st : Z * list Z) : M ost (Z * list Z + option (list Z)) :=
  let '(s, l) := st in
  if negb (s <? ep) then mret (inr None) else
  c ← vload8 s;
  if c =? 0 then mret (inr (Some l)) else mret (inl (s + 1, l ++ [c])).

Definition fetchstr (addr : Z) : M ost (option (list Z)) :=
  '(_, p) ← curproc_;
  if sz p <=? addr then mret None else loop (fetchstr_body (sz p)) 32 (addr, []).

Definition argint (n : Z) : M ost (option Z) :=
  '(_, p) ← curproc_;
  fetchint (esp (tf p) +u 4 +u 4 * n).

(** The pointer. *)
Definition argptr (n size : Z) : M ost (option Z) :=
  '(_, p) ← curproc_;
  o ← argint n;
  match o with
  | None => mret None
  | Some i =>
      if (size <? 0) || (sz p <=? u32 i) || (sz p <? u32 i +u size) then mret None else mret (Some (u32 i))
  end.

Definition argstr (n : Z) : M ost (option (list Z)) :=
  o ← argint n;
  match o with
  | None => mret None
  | Some addr => fetchstr (u32 addr)
  end.

(** Copying between kernel buffers and user memory. *)
Fixpoint vstore_bytes (a : Z) (l : list Z) : M ost unit :=
  match l with [] => mret tt | b :: l => vstore8 a b;; vstore_bytes (a +u 1) l end.
Fixpoint vload_bytes (a : Z) (n : nat) : M ost (list Z) :=
  match n with O => mret [] | S n => b ← vload8 a; l ← vload_bytes (a +u 1) n; mret (b :: l) end.

(** ** sysfile.c *)

(** The descriptor and the file. *)
Definition argfd (n : Z) : M ost (option (nat * nat)) :=
  o ← argint n;
  match o with
  | None => mret None
  | Some fd =>
      if (fd <? 0) || (Z.of_nat NOFILE <=? fd) then mret None else
      '(_, p) ← curproc_;
      mret (match ofile p !!! Z.to_nat fd with Some f => Some (Z.to_nat fd, f) | None => None end)
  end.

Definition fdalloc (f : nat) : M ost Z :=
  '(i, p) ← curproc_;
  match first_index (λ o, bool_decide (o = None)) (ofile p) with
  | Some fd => alter_proc i (λ p, set_ofile (<[fd := Some f]> (ofile p)) p);; mret (Z.of_nat fd)
  | None => mret (-1)
  end.

Definition sys_dup : M ost Z :=
  o ← argfd 0;
  match o with
  | None => mret (-1)
  | Some (_, f) =>
      fd ← fdalloc f;
      if fd <? 0 then mret (-1) else filedup f;; mret fd
  end.

(** The arguments of read and write: file, count and buffer. *)
Definition rw_args : M ost (option (nat * Z * Z)) :=
  o ← argfd 0;
  match o with
  | None => mret None
  | Some (_, f) =>
      o ← argint 2;
      match o with
      | None => mret None
      | Some n =>
          o ← argptr 1 n;
          mret (match o with Some p => Some (f, n, p) | None => None end)
      end
  end.

Definition sys_read : M ost Z :=
  o ← rw_args;
  match o with
  | None => mret (-1)
  | Some (f, n, p) =>
      '(r, l) ← fileread f n;
      vstore_bytes p l;;
      mret r
  end.

Definition sys_write : M ost Z :=
  o ← rw_args;
  match o with
  | None => mret (-1)
  | Some (f, n, p) =>
      l ← vload_bytes p (Z.to_nat n);
      filewrite f l
  end.

Definition sys_close : M ost Z :=
  o ← argfd 0;
  match o with
  | None => mret (-1)
  | Some (fd, f) =>
      i ← myproc_some;
      alter_proc i (λ p, set_ofile (<[fd := None]> (ofile p)) p);;
      fileclose f;;
      mret 0
  end.

(** struct stat in memory: type, dev, ino, nlink and size, with padding after the
    two shorts, which stays as it was. *)
Definition STAT_SIZE : Z := 20.
Definition store_stat (a : Z) (st : Z * Z * Z * Z * Z) : M ost unit :=
  let '(dev, ino, type, nlink, size) := st in
  vstore_bytes a (take 2 (word_bytes type));;
  vstore_bytes (a +u 4) (word_bytes dev);;
  vstore_bytes (a +u 8) (word_bytes ino);;
  vstore_bytes (a +u 12) (take 2 (word_bytes nlink));;
  vstore_bytes (a +u 16) (word_bytes size).

Definition sys_fstat : M ost Z :=
  o ← argfd 0;
  match o with
  | None => mret (-1)
  | Some (_, f) =>
      o ← argptr 1 STAT_SIZE;
      match o with
      | None => mret (-1)
      | Some st =>
          '(r, x) ← filestat f;
          match x with Some x => store_stat st x | None => mret tt end;;
          mret r
      end
  end.

(** The code of sys_link() after [bad]. *)
Definition link_bad (ip : nat) : M ost Z :=
  ilock ip;;
  alter_inode ip (λ x, set_nlink (s16 (nlink x - 1)) x);;
  iupdate ip;;
  iunlockput ip;;
  end_op;;
  mret (-1).

Definition sys_link : M ost Z :=
  o ← argstr 0;
  match o with
  | None => mret (-1)
  | Some old =>
      o ← argstr 1;
      match o with
      | None => mret (-1)
      | Some new =>
          begin_op;;
          o ← namei old;
          match o with
          | None => end_op;; mret (-1)
          | Some ip =>
              ilock ip;;
              x ← get_inode ip;
              if itype x =? T_DIR then iunlockput ip;; end_op;; mret (-1) else
              alter_inode ip (λ x, set_nlink (s16 (nlink x + 1)) x);;
              iupdate ip;;
              iunlock ip;;
              o ← nameiparent new;
              match o with
              | None => link_bad ip
              | Some (dp, name) =>
                  ilock dp;;
                  d ← get_inode dp;
                  x ← get_inode ip;
                  ok ← (if negb (idev d =? idev x) then mret false else
                        r ← dirlink dp name (inum x); mret (negb (r <? 0)));
                  if negb ok then iunlockput dp;; link_bad ip else
                  iunlockput dp;;
                  iput ip;;
                  end_op;;
                  mret 0
              end
          end
      end
  end.

Definition isdirempty_body (dp : nat) (off : Z) : M ost (Z + bool) :=
  x ← get_inode dp;
  if negb (off <? isize x) then mret (inr true) else
  '(r, de) ← readi dp off DIRENT_SIZE;
  if negb (r =? DIRENT_SIZE) then panic "isdirempty: readi" else
  if negb (Fs.de_inum de =? 0) then mret (inr false) else mret (inl (off + DIRENT_SIZE)).

Definition isdirempty (dp : nat) : M ost bool := loop (isdirempty_body dp) 28 (2 * DIRENT_SIZE).

Definition unlink_bad (dp : nat) : M ost Z := iunlockput dp;; end_op;; mret (-1).

Definition sys_unlink : M ost Z :=
  o ← argstr 0;
  match o with
  | None => mret (-1)
  | Some path =>
      begin_op;;
      o ← nameiparent path;
      match o with
      | None => end_op;; mret (-1)
      | Some (dp, name) =>
          ilock dp;;
          if (namecmp name (chars ".") =? 0) || (namecmp name (chars "..") =? 0) then unlink_bad dp else
          o ← dirlookup dp name;
          match o with
          | None => unlink_bad dp
          | Some (ip, off) =>
              ilock ip;;
              x ← get_inode ip;
              if nlink x <? 1 then panic "unlink: nlink < 1" else
              e ← (if itype x =? T_DIR then isdirempty ip else mret true);
              if negb e then iunlockput ip;; unlink_bad dp else
              r ← writei dp (replicate (Z.to_nat DIRENT_SIZE) 0) off;
              if negb (r =? DIRENT_SIZE) then panic "unlink: writei" else
              x ← get_inode ip;
              mwhen (itype x =? T_DIR)
                (alter_inode dp (λ x, set_nlink (s16 (nlink x - 1)) x);;
                 iupdate dp);;
              iunlockput dp;;
              alter_inode ip (λ x, set_nlink (s16 (nlink x - 1)) x);;
              iupdate ip;;
              iunlockput ip;;
              end_op;;
              mret 0
          end
      end
  end.

Definition create (path : list Z) (type major minor : Z) : M ost (option nat) :=
  o ← nameiparent path;
  match o with
  | None => mret None
  | Some (dp, name) =>
      ilock dp;;
      o ← dirlookup dp name;
      match o with
      | Some (ip, _) =>
          iunlockput dp;;
          ilock ip;;
          x ← get_inode ip;
          if (type =? T_FILE) && (itype x =? T_FILE) then mret (Some ip) else
          iunlockput ip;;
          mret None
      | None =>
          d ← get_inode dp;
          ip ← ialloc (idev d) type;
          ilock ip;;
          alter_inode ip (set_major major);;
          alter_inode ip (set_minor minor);;
          alter_inode ip (set_nlink 1);;
          iupdate ip;;
          x ← get_inode ip;
          mwhen (type =? T_DIR)
            (alter_inode dp (λ x, set_nlink (s16 (nlink x + 1)) x);;
             iupdate dp;;
             r ← dirlink ip (chars ".") (inum x);
             if r <? 0 then panic "create dots" else
             d ← get_inode dp;
             r ← dirlink ip (chars "..") (inum d);
             if r <? 0 then panic "create dots" else mret tt);;
          r ← dirlink dp name (inum x);
          if r <? 0 then panic "create: dirlink" else
          iunlockput dp;;
          mret (Some ip)
      end
  end.

(** The inode to open, locked. *)
Definition open_inode (path : list Z) (omode : Z) : M ost (option nat) :=
  if negb (Z.land omode O_CREATE =? 0) then create path T_FILE 0 0 else
  o ← namei path;
  match o with
  | None => mret None
  | Some ip =>
      ilock ip;;
      x ← get_inode ip;
      if (itype x =? T_DIR) && negb (omode =? O_RDONLY) then iunlockput ip;; mret None else mret (Some ip)
  end.

Definition sys_open : M ost Z :=
  o ← argstr 0;
  match o with
  | None => mret (-1)
  | Some path =>
      o ← argint 1;
      match o with
      | None => mret (-1)
      | Some omode =>
          begin_op;;
          o ← open_inode path omode;
          match o with
          | None => end_op;; mret (-1)
          | Some ip =>
              o ← filealloc;
              match o with
              | None => iunlockput ip;; end_op;; mret (-1)
              | Some f =>
                  fd ← fdalloc f;
                  if fd <? 0 then fileclose f;; iunlockput ip;; end_op;; mret (-1) else
                  iunlock ip;;
                  end_op;;
                  alter_file f (set_ftype FD_INODE);;
                  alter_file f (set_fip ip);;
                  alter_file f (set_foff 0);;
                  alter_file f (set_readable (if Z.land omode O_WRONLY =? 0 then 1 else 0));;
                  alter_file f (set_writable (if (Z.land omode O_WRONLY =? 0) && (Z.land omode O_RDWR =? 0) then 0 else 1));;
                  mret fd
              end
          end
      end
  end.

Definition sys_mkdir : M ost Z :=
  begin_op;;
  o ← argstr 0;
  o ← (match o with None => mret None | Some path => create path T_DIR 0 0 end);
  match o with
  | None => end_op;; mret (-1)
  | Some ip => iunlockput ip;; end_op;; mret 0
  end.

Definition sys_mknod : M ost Z :=
  begin_op;;
  o ← argstr 0;
  o ← (match o with
       | None => mret None
       | Some path =>
           o ← argint 1;
           match o with
           | None => mret None
           | Some major =>
               o ← argint 2;
               match o with
               | None => mret None
               | Some minor => create path T_DEV (s16 major) (s16 minor)
               end
           end
       end);
  match o with
  | None => end_op;; mret (-1)
  | Some ip => iunlockput ip;; end_op;; mret 0
  end.

Definition sys_chdir : M ost Z :=
  i ← myproc_some;
  begin_op;;
  o ← argstr 0;
  o ← (match o with None => mret None | Some path => namei path end);
  match o with
  | None => end_op;; mret (-1)
  | Some ip =>
      ilock ip;;
      x ← get_inode ip;
      if negb (itype x =? T_DIR) then iunlockput ip;; end_op;; mret (-1) else
      iunlock ip;;
      p ← get_proc i;
      old ← deref (cwd p);
      iput old;;
      end_op;;
      alter_proc i (set_cwd (Some ip));;
      mret 0
  end.

(** The argument strings from [uargv]; at most [n] more words are looked at. *)
Fixpoint fetch_argv (uargv : Z) (n : nat) (argv : list (list Z)) : M ost (option (list (list Z))) :=
  match n with
  | O => mret None
  | S n =>
      o ← fetchint uargv;
      match o with
      | None => mret None
      | Some uarg =>
          if uarg =? 0 then mret (Some argv) else
          o ← fetchstr (u32 uarg);
          match o with
          | None => mret None
          | Some s => fetch_argv (uargv +u 4) n (argv ++ [s])
          end
      end
  end.

Definition sys_exec : M ost Z :=
  o ← argstr 0;
  match o with
  | None => mret (-1)
  | Some path =>
      o ← argint 1;
      match o with
      | None => mret (-1)
      | Some uargv =>
          o ← fetch_argv (u32 uargv) (Z.to_nat MAXARG) [];
          match o with
          | None => mret (-1)
          | Some argv => exec path argv
          end
      end
  end.

Definition sys_pipe : M ost Z :=
  o ← argptr 0 8;
  match o with
  | None => mret (-1)
  | Some fd =>
      o ← pipealloc;
      match o with
      | None => mret (-1)
      | Some (rf, wf) =>
          fd0 ← fdalloc rf;
          fd1 ← (if fd0 <? 0 then mret (-1) else fdalloc wf);
          if (fd0 <? 0) || (fd1 <? 0) then
            mwhen (0 <=? fd0)
              (i ← myproc_some; alter_proc i (λ p, set_ofile (<[Z.to_nat fd0 := None]> (ofile p)) p));;
            fileclose rf;;
            fileclose wf;;
            mret (-1)
          else
            vstore_bytes fd (word_bytes fd0);;
            vstore_bytes (fd +u 4) (word_bytes fd1);;
            mret 0
      end
  end.

(** ** sysproc.c *)

Section sysproc.
(** [undef] is the value an uninitialised local variable happens to have. *)
Context (forkret_addr trapret_addr undef : Z).

Definition sys_fork : M ost Z := fork forkret_addr trapret_addr.
Definition sys_exit : M ost Z := exit;; mret 0.
Definition sys_wait : M ost Z := wait.

Definition sys_kill : M ost Z :=
  o ← argint 0;
  match o with None => mret (-1) | Some pid => kill pid end.

Definition sys_getpid : M ost Z := '(_, p) ← curproc_; mret (pid p).

Definition sys_sbrk : M ost Z :=
  o ← argint 0;
  match o with
  | None => mret (-1)
  | Some n =>
      '(_, p) ← curproc_;
      r ← growproc n;
      mret (if r <? 0 then -1 else s32 (sz p))
  end.

Definition sys_sleep_body (ticks0 n : Z) (_ : unit) : M ost (unit + Z) :=
  k ← get_core;
  if negb (ticks k -u ticks0 <? u32 n) then release LTicks;; mret (inr 0) else
  '(_, p) ← curproc_;
  if negb (killed p =? 0) then release LTicks;; mret (inr (-1)) else
  sleep ChTicks (Some LTicks);;
  mret (inl tt).

Definition sys_sleep : M ost Z :=
  o ← argint 0;
  match o with
  | None => mret (-1)
  | Some n =>
      acquire LTicks;;
      k ← get_core;
      loop (sys_sleep_body (ticks k) n) 32 tt
  end.

Definition sys_uptime : M ost Z :=
  acquire LTicks;;
  k ← get_core;
  release LTicks;;
  mret (s32 (ticks k)).

(** The pages of the process, counted from [i] on. *)
Definition count_pages_body (st : Z * Z) : M ost (Z * Z + Z) :=
  let '(i, count) := st in
  '(_, p) ← curproc_;
  if negb (i <? sz p) then mret (inr count) else
  pte ← walkpgdir (pgdir p) i false;
  v ← (if pte =? 0 then vload32 0 else lift (Vm.read32 pte));
  mret (inl (i +u PGSIZE, if negb (Z.land v PTE_P =? 0) then count + 1 else count)).

(** LAB-1.  The result of argint() is ignored. *)
Definition sys_info : M ost Z :=
  o ← argint 0;
  let n := default undef o in
  if n =? 1 then lift Core.running_processes
  else if n =? 2 then '(_, p) ← curproc_; mret (syscall_count p)
  else if n =? 3 then loop count_pages_body 20 (0, 0)
  else mret (-1).

(** LAB-2 *)
Definition sys_tickets : M ost Z :=
  o ← argint 0;
  match o with
  | None => mret (-1)
  | Some n =>
      i ← myproc_some;
      alter_proc i (set_tickets n);;
      p ← get_proc i;
      cprintf (chars "proc:%d has been gaving %d tickets with name %s..." ++ [10])
        [Cons.CInt (pid p); Cons.CInt (tickets p); Cons.CStr (cstring (name p))];;
      mret 0
  end.

(** LAB-3 *)
Definition sys_clone : M ost Z :=
  o ← argptr 0 4;
  match o with
  | None => mret (-1)
  | Some stack =>
      o ← argint 1;
      match o with
      | None => mret (-1)
      | Some size => clone forkret_addr trapret_addr stack size
      end
  end.

(** The table of system calls, by number. *)
Definition syscalls (num : Z) : option (M ost Z) :=
  match num with
  | 1 => Some sys_fork
  | 2 => Some sys_exit
  | 3 => Some sys_wait
  | 4 => Some sys_pipe
  | 5 => Some sys_read
  | 6 => Some sys_kill
  | 7 => Some sys_exec
  | 8 => Some sys_fstat
  | 9 => Some sys_chdir
  | 10 => Some sys_dup
  | 11 => Some sys_getpid
  | 12 => Some sys_sbrk
  | 13 => Some sys_sleep
  | 14 => Some sys_uptime
  | 15 => Some sys_open
  | 16 => Some sys_write
  | 17 => Some sys_mknod
  | 18 => Some sys_unlink
  | 19 => Some sys_link
  | 20 => Some sys_mkdir
  | 21 => Some sys_close
  | 22 => Some sys_info
  | 23 => Some sys_tickets
  | 24 => Some sys_clone
  | _ => None
  end.

Definition syscall : M ost unit :=
  '(i, p) ← curproc_;
  match syscalls (s32 (eax (tf p))) with
  | Some call =>
      r ← call;
      alter_proc i (λ p, set_tf (set_eax (u32 r) (tf p)) p);;
      alter_proc i (λ p, set_syscall_count (syscall_count p +i 1) p)
  | None =>
      cprintf (chars "%d %s: unknown sys call %d" ++ [10])
        [Cons.CInt (pid p); Cons.CStr (cstring (name p)); Cons.CInt (eax (tf p))];;
      alter_proc i (λ p, set_tf (set_eax (u32 (-1)) (tf p)) p)
  end.

(** ** trap.c *)

Definition SEG_KCODE : Z := 1.
Definition T_SYSCALL : Z := 64.

(** A gate of the interrupt descriptor table. *)
Record gatedesc := Gatedesc {
  off_15_0 : Z; gd_cs : Z; gd_args : Z; gd_rsv1 : Z; gd_type : Z; gd_s : Z; gd_dpl : Z; gd_p : Z; off_31_16 : Z
}.
Definition STS_IG32 : Z := 0xE.
Definition STS_TG32 : Z := 0xF.
Definition SETGATE (istrap : bool) (sel off d : Z) : gatedesc :=
  Gatedesc (Z.land off 0xffff) sel 0 0 (if istrap then STS_TG32 else STS_IG32) 0 d 1 (Z.shiftr off 16).

(** [idt] as tvinit() leaves it; [vectors] are the entry points of vectors.S. *)
Definition tvinit (vectors : nat → Z) : M ost (list gatedesc) :=
  let idt := (λ i, SETGATE false (Z.shiftl SEG_KCODE 3) (vectors i) 0) <$> seq 0 256 in
  let idt := <[Z.to_nat T_SYSCALL := SETGATE true (Z.shiftl SEG_KCODE 3) (vectors (Z.to_nat T_SYSCALL)) DPL_USER]> idt in
  initlock LTicks;;
  mret idt.

(** The running process has been killed. *)
Definition is_killed : M ost bool :=
  o ← myproc;
  match o with None => mret false | Some i => p ← get_proc i; mret (negb (killed p =? 0)) end.

(** The switch of trap().  [cr2] is the register %cr2; the local APIC's
    end-of-interrupt register is not modelled, and ideintr() of memide.c does
    nothing. *)
Definition interrupt (cr2 : Z) (t : trapframe) : M ost unit :=
  let n := trapno t in
  if n =? T_IRQ0 + IRQ_TIMER then
    c ← cpuid;
    mwhen (c =? 0)
      (acquire LTicks;;
       mod_core (λ k, set_ticks (ticks k +u 1) k);;
       wakeup ChTicks;;
       release LTicks)
  else if (n =? T_IRQ0 + IRQ_IDE) || (n =? T_IRQ0 + IRQ_IDE + 1) then mret tt
  else if n =? T_IRQ0 + IRQ_KBD then lift Cons.kbdintr
  else if n =? T_IRQ0 + IRQ_COM1 then lift Cons.uartintr
  else if (n =? T_IRQ0 + 7) || (n =? T_IRQ0 + IRQ_SPURIOUS) then
    c ← cpuid;
    cprintf (chars "cpu%d: spurious interrupt at %x:%x" ++ [10]) [Cons.CInt c; Cons.CInt (cs t); Cons.CInt (eip t)]
  else
    o ← myproc;
    if bool_decide (o = None) || (Z.land (cs t) 3 =? 0) then
      c ← cpuid;
      cprintf (chars "unexpected trap %d from cpu %d eip %x (cr2=0x%x)" ++ [10])
        [Cons.CInt n; Cons.CInt c; Cons.CInt (eip t); Cons.CInt cr2];;
      panic "trap"
    else
      '(i, p) ← curproc_;
      c ← cpuid;
      cprintf (chars "pid %d %s: trap %d err %d on cpu %d eip 0x%x addr 0x%x--kill proc" ++ [10])
        [Cons.CInt (pid p); Cons.CStr (cstring (name p)); Cons.CInt n; Cons.CInt (err t); Cons.CInt c; Cons.CInt (eip t); Cons.CInt cr2];;
      alter_proc i (set_killed 1).

Definition trap (cr2 : Z) (t : trapframe) : M ost unit :=
  if trapno t =? T_SYSCALL then
    i ← myproc_some;
    p ← get_proc i;
    mwhen (negb (killed p =? 0)) exit;;
    alter_proc i (set_tf t);;
    syscall;;
    p ← get_proc i;
    mwhen (negb (killed p =? 0)) exit
  else
    interrupt cr2 t;;
    k ← is_killed;
    mwhen (k && (Z.land (cs t) 3 =? DPL_USER)) exit;;
    o ← myproc;
    (match o with
     | None => mret tt
     | Some i =>
         p ← get_proc i;
         mwhen (bool_decide (state p = RUNNING) && (trapno t =? T_IRQ0 + IRQ_TIMER)) yield
     end);;
    k ← is_killed;
    mwhen (k && (Z.land (cs t) 3 =? DPL_USER)) exit.
End sysproc.

(** C13 [bounds]: argptr() accepts exactly the user buffers.  The process's size is
    at most KERNBASE and [size] is an [int]; once the argument has been fetched, the
    32-bit comparisons, whose sum may wrap around, accept a pointer if and only if
    the size is not negative and the buffer lies below the end of the process's
    memory; every other pointer gives the error. *)
Theorem argptr_checks n size s i p s0 v s1 :
  curproc_ s = Ok (i, p) s0 → argint n s0 = Ok (Some v) s1 → 0 ≤ sz p ≤ KERNBASE → is_s32 size →
  argptr n size s = Ok (if decide (0 ≤ size ∧ u32 v < sz p ∧ u32 v + size ≤ sz p) then Some (u32 v) else None) s1.
Proof.
  intros E1 E2 Hsz Hs. unfold argptr. mstep E1. mstep E2. pose proof (u32_range v) as Hv.
  unfold is_u32, is_s32, KERNBASE in *.
  destruct (Z.ltb_spec size 0); cbn [orb]; [rewrite decide_False by lia; done|].
  destruct (Z.leb_spec (sz p) (u32 v)); cbn [orb]; [rewrite decide_False by lia; done|].
  rewrite (u32_id (u32 v + size)) by (unfold is_u32; lia).
  destruct (Z.ltb_spec (sz p) (u32 v + size)); [rewrite decide_False by lia|rewrite decide_True by lia]; done.
Qed.

(** A process with one page of memory, at 0x1000, and the argument 0x1f80 on its
    stack. *)
Definition sys_mem : mem := store32 0x80404f04 0x1f80 (kmem kst2).
Definition sys_core : core :=
  Core (set_cr3 0x402000 hart0) (set_tf (set_esp 0x1f00 trapframe0) (set_sz 0x2000 (set_state RUNNING proc0)) :: replicate (NPROC - 1) proc0)
    (Some 0%nat) 3 0 0 rand_init 0x803ff000.
Definition sys_ost : ost := upd (set_kmem sys_mem (set_kcore sys_core kst0)) (Ost fsst0 (replicate NFILE file0) ∅).

Lemma argptr_checks_witness :
  ∃ s1 s2 s3 s4, argptr 0 0x80 sys_ost = Ok (Some 0x1f80) s1 ∧ argptr 0 0x81 sys_ost = Ok None s2 ∧
    argptr 0 0x7fffffff sys_ost = Ok None s3 ∧ argptr 0 (-1) sys_ost = Ok None s4.
Proof.
  assert (∃ i p s0 s1, curproc_ sys_ost = Ok (i, p) s0 ∧ argint 0 s0 = Ok (Some 0x1f80) s1 ∧ sz p = 0x2000) as (i & p & s0 & s1 & E1 & E2 & Hsz).
  { do 4 eexists. split; [vm_compute; reflexivity|]. split; [vm_compute; reflexivity|reflexivity]. }
  assert (0 ≤ sz p ≤ KERNBASE) as Hb by (rewrite Hsz; split; discriminate).
  pose proof (λ size H, argptr_checks 0 size sys_ost i p s0 0x1f80 s1 E1 E2 Hb H) as Hp.
  rewrite Hsz in Hp. exists s1, s1, s1, s1. split_and!.
  - rewrite Hp; [reflexivity|unfold is_s32; lia].
  - rewrite Hp; [reflexivity|unfold is_s32; lia].
  - rewrite Hp; [reflexivity|unfold is_s32; lia].
  - rewrite Hp; [reflexivity|unfold is_s32; lia].
Defined.
